(* ===== verification/_CoqProject ===== *)
-Q . S2P
Prelude.v
Threads.v
Memory.v
Remote.v
Leb128.v
Defs.v
Names.v
EncPtr.v
Mempool.v
Cfi.v
CfiSem.v
Fde.v
Cursor.v
Expr.v
RsCache.v
DynInfo.v
Region.v
ProcInfo.v
Pools.v
Global.v
Concurrent.v
SharedPool.v
Races.v
Elf.v
ElfSpec.v
ElfTable.v
Image.v
Step.v
StepSpec.v
StepProps.v
Described.v
CachedStep.v
Trace.v
TraceSpec.v
Kmod.v
Unwind.v
UnwindSpec.v
Asm.v
Raise.v
Setjmp.v
