(* ===== verification/Prelude.v ===== *)
(** * A kernel stack unwinder

    This development models libunwind-kern, a port of libunwind to the FreeBSD
    kernel on x86-64: the DWARF unwinder of the local address space
    ([UNW_LOCAL_ONLY]), its tables of descriptions, its caches and the exception
    interface on top of it.  File names below are those of [src/].

    ** How the program is put together

    [unw_init_local] ([Ginit_local.c]) makes a cursor from a machine context.
    [unw_step] ([Gstep.c]) moves it to the caller: it looks for the description
    of the procedure ([Gfind_dynamic_proc_info.c], [Gfind_proc_info-lsb.c]),
    parses the description's CIE and FDE ([Gfde.c]), runs their call-frame
    instructions up to the instruction pointer ([Gparser.c]), whose rules may be
    expressions ([Gexpr.c]), and applies the row it gets to the cursor; when that
    fails it guesses the frame from RBP.  Objects that live longer than a call
    come from pools ([mempool.c]).  [Gtrace.c] and [backtrace.c] walk the stack
    with a hash table of frames seen before, [Unwind.c] raises exceptions with
    the two-phase search of the C++ ABI, and [Gresume.c] continues execution in
    the frame of a cursor.  The library sets itself up on first use ([Gglobal.c]);
    the module ([libunwind.c]) prints a backtrace when it is loaded.

    ** The files

    - [Prelude]: the outcome of a C routine, the state monad [M], generic lemmas
      on lists, words and bits, and the tactics.
    - [Threads]: threads as trees of atomic steps, their interleavings, and the lemma
      that critical sections run one after the other; sx(9) is the class [SxOps].
    - [Memory]: memory as a finite map of bytes, the raw readers and the pointer
      moving readers of [include/dwarf_i.h].
    - [Remote]: the fetching helpers of [remote.h], in both configurations.
    - [Leb128]: the LEB128 readers of [include/dwarf_i.h], [_ReadULEB.c] and
      [_ReadSLEB.c], with the encoders they are proved against.
    - [Defs]: structures and constants of the headers.
    - [Names]: [regname.c], [strerror.c].
    - [EncPtr]: encoded pointers ([include/dwarf_i.h], [Gpe.c]).
    - [Mempool]: [mempool.c]; the classes [PoolOps] and [PoolLaws] are what the
      other components know of a pool, [bump] a simple instance of them.
    - [SharedPool]: a pool used by several threads.
    - [Cfi], [CfiSem]: [run_cfi_program] and [parse_fde] of [Gparser.c]; the
      abstract meaning of call-frame programs and the refinement.
    - [Fde]: [Gfde.c], with an encoder for CIEs and FDEs.
    - [Cursor]: accessors, registers and initialisation of a cursor ([Ginit.c],
      [Gregs.c], [init.h] and the routines that call them).
    - [Expr]: [Gexpr.c], with the specification on lists.
    - [RsCache]: the register-state cache of [Gparser.c], [flush_cache.c],
      [Gset_caching_policy.c].
    - [DynInfo], [Region]: [dyn-register.c], [dyn-cancel.c], and the descriptors of
      [include/libunwind-dynamic.h].
    - [Concurrent]: registrations and cancellations by several threads.
    - [ProcInfo]: [Gfind_proc_info-lsb.c], [Gfind_dynamic_proc_info.c],
      [Gdyn-extract.c], [Gput_dynamic_unwind_info.c].  The kernel's linker is the
      class [LinkerOps], with [LinkerLaws]; the addresses of the string constants
      are [StringConstants].
    - [Pools], [Global]: the state of the library and its set-up ([global.c],
      [init.c], [Gglobal.c], the address space and the accessors of [Ginit.c]).
    - [Races]: where the locking does not hold: the search among the descriptors, and
      the lock of the set-up ([Gglobal.c]).
    - [Elf], [ElfSpec], [ElfTable]: the symbol tables of an image ([elfxx.c]) and its
      unwind table ([Gfind_unwind_table.c]), with what they say of the bytes of the
      image; the layout of sys/elf.h is the class [ElfHeaders].
    - [Image]: [os-freebsd-kern.c], with the answers of the system as the class
      [Sysctl].
    - [Step], [StepSpec], [StepProps], [Described]: the rest of [Gparser.c], [Gstep.c],
      [dwarf_Gstep.c], [Gos-freebsd.c], [Gstash_frame.c], [Gget_proc_info.c],
      [Gget_proc_info_by_ip.c]; what a step does, in the end from the bytes that
      describe a frame to its caller.
    - [CachedStep]: the part of [dwarf_find_save_locs] that uses the register-state
      cache.
    - [Trace], [TraceSpec]: [Gtrace.c], [backtrace.c].
    - [Kmod]: [libunwind.c], [Gget_proc_name.c]; the kernel's symbol search is a
      parameter.
    - [Unwind]: [Unwind.c], [unwind-internal.h], [Gresume.c].  The routines of the user
      of the exception interface are the class [Callbacks].
    - [UnwindSpec], [Raise]: what resuming writes to the machine context; what raising
      an exception comes to.
    - [Asm]: the assembler routines [getcontext.S], [setcontext.S], [longjmp.S] and
      [siglongjmp.S], as instructions with an interpreter.
    - [Setjmp]: the non-local jumps of [setjmp/].

    ** How C is modelled

    A word is a [Z] between 0 and 2^64, with the wrap-around written out ([u64],
    [u32], [s32], ...).  A routine with state is a function of the monad
    [M S A := S → res A * S]: it returns [Ok] and a value where C returns a
    result that is not negative, [Err e] where C returns [- e], and [Stop t] where
    the execution does not go on: [BadAddr] (an unmapped address is touched),
    [BadShift] (a shift by the width or more), [Undef] (other undefined
    behaviour: an index out of bounds, a variable read before it is set),
    [Panic] (a call of [panic] or [abort], a failed assertion), [NoFuel].
    Assignments through pointers become assignments to the component of the
    state they point to, in the order of the code.  An [assert] is taken to be
    compiled in; messages ([Debug]) are left out.  These routines run to completion;
    those that take a lock are also cut into atomic steps ([thread]), with a lemma
    that the cut is the routine ([register_thread_run] and its kind), and run
    interleaved: a step reads or writes one place other threads see, in one order of
    memory for all ([tstep]).

    ** What is proved

    - The whole way: a step through a registered description computes the caller
      that the bytes of the table, the FDE and the CIE describe
      ([registered_frame_steps]), and repeated steps visit the frames of a stack
      whose procedures are so described ([described_stack_walks]).
    - Data formats: the readers of LEB128 numbers, encoded pointers, CIEs and
      FDEs recover what was encoded ([uleb128_roundtrip], [sleb128_roundtrip],
      [encoded_pointer_decodes], [parse_cie_encoded],
      [extract_proc_info_encoded]).
    - Interpreters: the CFI interpreter and the expression evaluator refine an
      abstract semantics of the instructions ([run_cfi_program_encoded],
      [parse_fde_encoded], [expr_stack_refines_list], [eval_expr_encoded]); on
      any bytes the CFI interpreter keeps its rows and gives back every object
      ([run_cfi_program_conserves_pool]).
    - Stores: pools ([mempool_alloc_fresh]) and two of them in one memory
      ([pools_apart]), the register-state cache as a queue
      ([rs_lookup_refines], [rs_new_refines], [flush_forgets]), which would not
      change a step ([cached_step_agrees]), the descriptors
      as a list ([dyn_list_refines]), the table of frames as a map
      ([trace_lookup_refines]), the cache of validated pages
      ([validate_mem_spec]).
    - Searches: binary, linear and by list ([unw_lookup_last_before],
      [linear_search_first], [find_dynamic_newest]), and in the bytes of an image
      ([proc_name_closest], [unwind_table_found]).
    - Threads: whatever the interleaving, concurrent registrations come to the state of
      some sequential order ([registrations_linearise]), no two threads get the same
      object of a pool ([allocations_distinct]), and the first use sets the library up
      once where its lock has been initialised before ([set_up_once]).
    - Start-up: the first use leaves everything ready, later ones change nothing
      ([init_ready]).
    - Cursors: registers read and written ([init_local_reads_context],
      [set_reg_get_reg], [resume_installs_registers]), the row applied
      ([apply_reg_state_row]), progress of a step ([unw_step_progress]),
      agreement of the fast trace ([standard_frame_agrees]), bounds of the
      caller's buffer ([backtrace_bounds]), agreement of the walks over the frames
      ([backtraces_agree]), the frames and outcomes of raising an exception
      ([raise_outcomes]), where a jump continues, down to the instructions of the
      assembler routines ([longjmp_lands]).
    - What the code does where it does not do what it means to:
      [find_proc_info_inverted], [described_frame_leaks], [uncovered_ip_faults],
      [guessed_frame_swapped], [resume_after_frame_chain],
      [search_misses_registered], [sleb128_pointer_unsigned],
      [phase2_declined_panics], [longjmp_misses_setjmp], [empty_entries_loop] and
      others, each with a concrete run.

    ** Fuel and bounds

    Loops that the code bounds recurse on their bound: 17 registers, 128 states
    of the cache, 16 probes of the frame table, the number of entries of a
    buffer.  [leb_loop] has eleven units, as an over-long number is undefined
    behaviour before that.  The collision chain of the register-state cache has
    129 units, one more than there are states; the binary search 64, one for
    each halving of a 64-bit size; the walk of the descriptors one more than
    there are descriptors.  The loops of call-frame
    programs, expressions and string comparisons have a fuel argument, and the
    walks over frames a bound on their number: their theorems state which amount
    is enough, or that none is ([cfi_block_length_loops],
    [skip_to_itself_diverges]).  A string of an image ends within the memory, which
    bounds [strlen]; the sections of an image are at most 65535, and one more unit
    than there are bytes in the image is enough for a symbol table.

    ** Not modelled

    - [getcontext], where a routine of C calls it, is a parameter; what its instructions
      do is in [Asm], as is what becomes of a context that is resumed.  The continuations
      of the jumps are known by their addresses.
    - Macros that only rename ([UNW_OBJ] and its kind) or are read by tools, and the
      structures of other targets; the [L*.c] files include their [G*.c] namesakes
      with another macro.
    - Branches the configuration leaves out: remote address spaces, [mincore],
      compressed debugging information, [CONFIG_DEBUG_FRAME].
    - Threads beside the two pools at once, the register-state cache (which the
      compiled routines do not reach) and the cache of validated pages, which is
      written without a lock. *)
From stdpp Require Export base gmap list strings.
From Stdlib Require Export ZArith Lia.

#[global] Open Scope Z_scope.

(** * Outcomes

    [unw_error] is the enumeration [unw_error_t] of
    [include/libunwind-common.h].  The C routines return the negated code on
    failure and a non-negative value on success. *)
Inductive unw_error :=
  | UNW_ESUCCESS
  | UNW_EUNSPEC
  | UNW_ENOMEM
  | UNW_EBADREG
  | UNW_EREADONLYREG
  | UNW_ESTOPUNWIND
  | UNW_EINVALIDIP
  | UNW_EBADFRAME
  | UNW_EINVAL
  | UNW_EBADVERSION
  | UNW_ENOINFO.

#[export] Instance unw_error_eq_dec : EqDecision unw_error.
Proof. solve_decision. Defined.

(** The ways an execution leaves the C semantics: a dereference of an
    unmapped address, a shift by the width of the type or more, other undefined
    behaviour (an access outside an array, a signed division overflow, a read of
    an uninitialised variable), a call of [panic] (which [assert] and [abort]
    expand to), and, for the functions of the model that take fuel, running out
    of it. *)
Inductive stop :=
  | BadAddr (a : Z)
  | BadShift
  | Undef
  | Panic
  | NoFuel.

(** The result of a routine: a value (return code 0 or positive, with the
    out-parameters), a negated error code, or no return at all. *)
Inductive res (A : Type) : Type :=
  | Ok (a : A)
  | Err (e : unw_error)
  | Stop (s : stop).
Arguments Ok {_} _.
Arguments Err {_} _.
Arguments Stop {_} _.

#[export] Instance stop_eq_dec : EqDecision stop.
Proof. solve_decision. Defined.
#[export] Instance res_eq_dec A `{!EqDecision A} : EqDecision (res A).
Proof. solve_decision. Defined.

#[export] Instance res_ret : MRet res := λ A a, Ok a.
#[export] Instance res_bind : MBind res := λ A B k m,
  match m with Ok a => k a | Err e => Err e | Stop s => Stop s end.

(** Code that changes state: the state survives an error return, as the
    caller's structures do in C. *)
Definition M (S A : Type) : Type := S → res A * S.

#[export] Instance M_ret S : MRet (M S) := λ A a s, (Ok a, s).
#[export] Instance M_bind S : MBind (M S) := λ A B k m s,
  match m s with
  | (Ok a, s') => k a s'
  | (Err e, s') => (Err e, s')
  | (Stop t, s') => (Stop t, s')
  end.

Section monad.
Context {S : Type}.
Definition get_st : M S S := λ s, (Ok s, s).
Definition mod_st (f : S → S) : M S () := λ s, (Ok tt, f s).
Definition fail {A} (e : unw_error) : M S A := λ s, (Err e, s).
Definition halt {A} (t : stop) : M S A := λ s, (Stop t, s).
Definition lift {A} (r : res A) : M S A := λ s, (r, s).

(** Run [m]; the error it returns is a value. *)
Definition try {A} (m : M S A) : M S (A + unw_error) := λ s,
  match m s with
  | (Ok a, s') => (Ok (inl a), s')
  | (Err e, s') => (Ok (inr e), s')
  | (Stop t, s') => (Stop t, s')
  end.
End monad.

(** * Machine integers

    A [w]-bit unsigned integer is a [Z] in [[0, 2^w)]; [uN] is the conversion
    to it and [sN] the conversion to the signed type of that width (two's
    complement). *)
Definition u8 (x : Z) : Z := x mod 256.
Definition u16 (x : Z) : Z := x mod 65536.
Definition u32 (x : Z) : Z := x mod 4294967296.
Definition u64 (x : Z) : Z := x mod 18446744073709551616.

Definition sext (w x : Z) : Z := (x + 2 ^ (w - 1)) mod 2 ^ w - 2 ^ (w - 1).
Definition s8 (x : Z) : Z := sext 8 x.
Definition s16 (x : Z) : Z := sext 16 x.
Definition s32 (x : Z) : Z := sext 32 x.
Definition s64 (x : Z) : Z := sext 64 x.

(** [unw_word_t] values. *)
Definition is_u64 (x : Z) : Prop := 0 ≤ x < 18446744073709551616.

#[export] Instance is_u64_dec x : Decision (is_u64 x).
Proof. unfold is_u64. apply _. Defined.

(** C truth values. *)
Definition b2z (b : bool) : Z := if b then 1 else 0.

(** Arrays: an access outside the bounds is undefined behaviour. *)
Definition aread {A} (l : list A) (i : Z) : res A :=
  if i <? 0 then Stop Undef
  else match l !! Z.to_nat i with Some x => Ok x | None => Stop Undef end.

Definition awrite {A} (l : list A) (i : Z) (x : A) : res (list A) :=
  if (i <? 0) || (Z.of_nat (length l) <=? i) then Stop Undef
  else Ok (<[Z.to_nat i := x]> l).

(** * Tactics *)

(** [lia] with division and remainder turned into equations. *)
Ltac dlia := Z.to_euclidean_division_equations; lia.

(** Unfold the monads and compute, in the goal or in a hypothesis. *)
Ltac mred :=
  repeat (unfold mbind, mret, M_bind, M_ret, res_bind, res_ret, get_st, mod_st,
                 fail, halt, lift; cbn [fst snd]).

Ltac mred_in H :=
  repeat (unfold mbind, mret, M_bind, M_ret, res_bind, res_ret, get_st, mod_st,
                 fail, halt, lift in H; cbn [fst snd] in H).

(** Prove a decidable closed proposition by evaluating its decision. *)
Ltac decided := apply (bool_decide_unpack _); vm_compute; exact I.

(** Case analysis on the scrutinee of a [match] or [if] in a hypothesis. *)
Ltac case_in H :=
  match type of H with
  | context [match ?x with _ => _ end] => destruct x eqn:?
  | context [if ?x then _ else _] => destruct x eqn:?
  end.


(** * Integers *)

Create HintDb unw.
Create Rewrite HintDb unw.

Lemma u64_range x : is_u64 (u64 x).
Proof. unfold is_u64, u64. dlia. Qed.

Lemma u64_small x : is_u64 x → u64 x = x.
Proof. unfold is_u64, u64. intros. apply Z.mod_small. lia. Qed.

Lemma u64_idemp x : u64 (u64 x) = u64 x.
Proof. apply u64_small, u64_range. Qed.

Lemma u64_add_l x y : u64 (u64 x + y) = u64 (x + y).
Proof. unfold u64. apply Zplus_mod_idemp_l. Qed.

Lemma u64_add_r x y : u64 (x + u64 y) = u64 (x + y).
Proof. unfold u64. apply Zplus_mod_idemp_r. Qed.

Lemma u64_mul_l x y : u64 (u64 x * y) = u64 (x * y).
Proof. unfold u64. apply Zmult_mod_idemp_l. Qed.

Lemma u64_mul_r x y : u64 (x * u64 y) = u64 (x * y).
Proof. unfold u64. apply Zmult_mod_idemp_r. Qed.

Lemma u64_opp x : u64 (- u64 x) = u64 (- x).
Proof. unfold u64. apply (Zminus_mod_idemp_r 0). Qed.

(** Equality of two sums modulo [2^64]. *)
Ltac u64_eq :=
  repeat first [rewrite u64_add_l | rewrite u64_add_r | rewrite <- Z.add_assoc];
  f_equal; lia.

Lemma u64_add_0 x : is_u64 x → u64 (x + 0) = x.
Proof. rewrite Z.add_0_r. apply u64_small. Qed.

Lemma is_u64_iff x : is_u64 x ↔ u64 x = x.
Proof. split; [apply u64_small|intros <-; apply u64_range]. Qed.

Lemma u64_land_ones x : u64 x = Z.land x (Z.ones 64).
Proof. by rewrite Z.land_ones. Qed.

Lemma is_u64_lor x y : is_u64 x → is_u64 y → is_u64 (Z.lor x y).
Proof.
  rewrite !is_u64_iff, !u64_land_ones, Z.land_lor_distr_l. by intros -> ->.
Qed.

Lemma is_u64_land x y : is_u64 x → is_u64 (Z.land x y).
Proof.
  rewrite !is_u64_iff, !u64_land_ones, <- Z.land_assoc, (Z.land_comm y), Z.land_assoc.
  by intros ->.
Qed.

Lemma is_u64_lxor x y : is_u64 x → is_u64 y → is_u64 (Z.lxor x y).
Proof.
  rewrite !is_u64_iff, !u64_land_ones. intros Hx Hy. rewrite <- Hx, <- Hy at 2.
  apply Z.bits_inj'. intros i Hi. rewrite !Z.land_spec, !Z.lxor_spec, !Z.land_spec.
  by destruct (Z.testbit x i), (Z.testbit y i), (Z.testbit (Z.ones 64) i).
Qed.

(** Masking off the low [k] bits. *)
Lemma land_high y k :
  is_u64 y → 0 ≤ k → Z.land y (u64 (- 2 ^ k)) = y - y mod 2 ^ k.
Proof.
  intros Hy Hk. rewrite u64_land_ones, (Z.land_comm _ (Z.ones 64)), Z.land_assoc,
    <- u64_land_ones, u64_small by done.
  replace (- 2 ^ k) with (Z.lnot (Z.ones k)) by (rewrite Z.ones_equiv; unfold Z.lnot; lia).
  rewrite <- Z.ldiff_land, Z.ldiff_ones_r, Z.shiftl_mul_pow2, Z.shiftr_div_pow2 by done.
  pose proof (Z.div_mod y (2 ^ k)). lia.
Qed.

Lemma u8_range x : 0 ≤ u8 x < 256.
Proof. unfold u8. dlia. Qed.

Lemma u8_small x : 0 ≤ x < 256 → u8 x = x.
Proof. unfold u8. apply Z.mod_small. Qed.

#[export] Hint Resolve u64_range u8_range is_u64_lor is_u64_land is_u64_lxor : unw.
#[export] Hint Rewrite u64_idemp u64_add_l u64_add_r u64_mul_l u64_mul_r : unw.

Lemma sext_range w x : 0 < w → - 2 ^ (w - 1) ≤ sext w x < 2 ^ (w - 1).
Proof.
  intros Hw. unfold sext.
  assert (2 ^ w = 2 * 2 ^ (w - 1)) as ->.
  { rewrite <- Z.pow_succ_r by lia. f_equal. lia. }
  assert (0 < 2 ^ (w - 1)) by (apply Z.pow_pos_nonneg; lia).
  pose proof (Z.mod_pos_bound (x + 2 ^ (w - 1)) (2 * 2 ^ (w - 1))). lia.
Qed.

Lemma sext_small w x : 0 < w → - 2 ^ (w - 1) ≤ x < 2 ^ (w - 1) → sext w x = x.
Proof.
  intros Hw Hx. unfold sext. rewrite Z.mod_small; [lia|].
  assert (2 ^ w = 2 * 2 ^ (w - 1)) as ->; [|lia].
  rewrite <- Z.pow_succ_r by lia. f_equal. lia.
Qed.

Lemma sext_mod w x : 0 < w → sext w x mod 2 ^ w = x mod 2 ^ w.
Proof.
  intros Hw. unfold sext. rewrite Zminus_mod_idemp_l. f_equal. lia.
Qed.

Lemma s64_u64 x : s64 (u64 x) = s64 x.
Proof.
  unfold s64, sext, u64. change (2 ^ 64) with 18446744073709551616.
  by rewrite Zplus_mod_idemp_l.
Qed.

Lemma u64_s64 x : u64 (s64 x) = u64 x.
Proof. unfold s64, u64. apply (sext_mod 64). lia. Qed.

Lemma s64_inj x y : is_u64 x → is_u64 y → s64 x = s64 y → x = y.
Proof.
  intros Hx Hy H. rewrite <- (u64_small x), <- (u64_small y) by done.
  by rewrite <- (u64_s64 x), <- (u64_s64 y), H.
Qed.

#[global] Arguments Z.testbit : simpl never.

(** * Lists and arrays *)

Lemma aread_lookup {A} (l : list A) (i : nat) x :
  l !! i = Some x → aread l (Z.of_nat i) = Ok x.
Proof.
  intros H. unfold aread. destruct (Z.ltb_spec (Z.of_nat i) 0); [lia|].
  by rewrite Nat2Z.id, H.
Qed.

Lemma aread_Ok {A} (l : list A) i :
  0 ≤ i < Z.of_nat (length l) → ∃ x, aread l i = Ok x ∧ l !! Z.to_nat i = Some x.
Proof.
  intros H. destruct (lookup_lt_is_Some_2 l (Z.to_nat i)) as [x Hx]; [lia|].
  exists x. split; [|done]. unfold aread. destruct (Z.ltb_spec i 0); [lia|].
  by rewrite Hx.
Qed.

Lemma awrite_Ok {A} (l : list A) i x :
  0 ≤ i < Z.of_nat (length l) → awrite l i x = Ok (<[Z.to_nat i := x]> l).
Proof.
  intros H. unfold awrite.
  destruct (Z.ltb_spec i 0); [lia|]. destruct (Z.leb_spec (Z.of_nat (length l)) i); [lia|done].
Qed.

Lemma length_awrite {A} (l l' : list A) i x :
  awrite l i x = Ok l' → length l' = length l.
Proof.
  unfold awrite. intros H. case_in H; inv H. apply length_insert.
Qed.

Lemma aread_awrite {A} (l l' : list A) i x : awrite l i x = Ok l' → aread l' i = Ok x.
Proof.
  unfold awrite, aread. destruct (Z.ltb_spec i 0); [done|].
  destruct (Z.leb_spec (Z.of_nat (length l)) i); [done|]. intros [= <-].
  by rewrite list_lookup_insert_eq by lia.
Qed.

Lemma aread_awrite_ne {A} (l l' : list A) i j x :
  awrite l i x = Ok l' → i ≠ j → aread l' j = aread l j.
Proof.
  unfold awrite, aread. destruct (Z.ltb_spec i 0); [done|].
  destruct (Z.leb_spec (Z.of_nat (length l)) i); [done|]. intros [= <-] Hij.
  destruct (Z.ltb_spec j 0); [done|]. by rewrite list_lookup_insert_ne by lia.
Qed.

Lemma aread_Forall {A} (P : A → Prop) l i x : Forall P l → aread l i = Ok x → P x.
Proof.
  unfold aread. destruct (i <? 0); [done|]. intros H.
  destruct (l !! Z.to_nat i) eqn:E; [|done]. intros [= <-].
  by eapply Forall_lookup_1 in H.
Qed.

(** A property of all bytes, from its instances. *)
Lemma byte_forall (P : Z → Prop) :
  Forall P (Z.of_nat <$> seq 0 256) → ∀ b, 0 ≤ b < 256 → P b.
Proof.
  intros H b Hb. rewrite Forall_forall in H. apply H, list_elem_of_fmap.
  exists (Z.to_nat b). split; [lia|]. apply elem_of_seq. lia.
Qed.

(** * Invariants of stateful code

    [safe I m Q]: from a state where [I] holds, [m] keeps [I] whether it
    returns a value, which then satisfies [Q], or fails; if it does not return,
    that is not because of undefined behaviour (other than a shift). *)
Definition safe_at {S A} (I : S → Prop) (m : M S A) (s : S) (Q : A → Prop) : Prop :=
  match m s with
  | (Ok a, s') => I s' ∧ Q a
  | (Err _, s') => I s'
  | (Stop t, _) => t ≠ Undef
  end.

Definition safe {S A} (I : S → Prop) (m : M S A) (Q : A → Prop) : Prop :=
  ∀ s, I s → safe_at I m s Q.

Section safe.
Context {S : Type} (I : S → Prop).

Lemma safe_ret {A} (a : A) (Q : A → Prop) : Q a → safe I (mret a) Q.
Proof. by intros Ha s Hs. Qed.

Lemma safe_fail {A} e (Q : A → Prop) : safe I (fail e) Q.
Proof. by intros s Hs. Qed.

Lemma safe_at_bind {A B} (m : M S A) (k : A → M S B) s (Q : A → Prop) (R : B → Prop) :
  safe_at I m s Q → (∀ a, Q a → safe I (k a) R) → safe_at I (m ≫= k) s R.
Proof.
  unfold safe_at, mbind, M_bind. intros Hm Hk.
  destruct (m s) as [[a|e|t] s']; [|done..]. destruct Hm as [Hs' Ha]. by apply (Hk a Ha).
Qed.

Lemma safe_bind {A B} (m : M S A) (k : A → M S B) (Q : A → Prop) (R : B → Prop) :
  safe I m Q → (∀ a, Q a → safe I (k a) R) → safe I (m ≫= k) R.
Proof. intros Hm Hk s Hs. eapply safe_at_bind; [by apply Hm|done]. Qed.

Lemma safe_get {B} (k : S → M S B) (R : B → Prop) :
  (∀ s, I s → safe_at I (k s) s R) → safe I (get_st ≫= k) R.
Proof. intros Hk s Hs. by apply Hk. Qed.

Lemma safe_mod (f : S → S) (Q : () → Prop) :
  (∀ s, I s → I (f s)) → Q tt → safe I (mod_st f) Q.
Proof. intros Hf HQ s Hs. split; [by apply Hf|done]. Qed.

Lemma safe_weaken {A} (m : M S A) (Q Q' : A → Prop) :
  safe I m Q → (∀ a, Q a → Q' a) → safe I m Q'.
Proof.
  intros Hm HQ s Hs. specialize (Hm s Hs). unfold safe_at in *.
  destruct (m s) as [[a|e|t] s']; [|done..]. destruct Hm. auto.
Qed.
End safe.

(** * What stateful code leaves alone

    [keeps R m]: however [m] ends, the state it leaves is related to the one it
    started from; [never e m]: [m] does not fail with [e]. *)
Definition keeps {S A} (R : S → S → Prop) (m : M S A) : Prop := ∀ s, R s (snd (m s)).
Definition never {S A} (e : unw_error) (m : M S A) : Prop := ∀ s, fst (m s) ≠ Err e.

Create HintDb keeps.

Section keeps.
Context {S : Type} (R : S → S → Prop) `{!PreOrder R}.

Lemma keeps_id {A} (r : S → res A) : keeps R (λ s, (r s, s)).
Proof. intros s. simpl. reflexivity. Qed.

Lemma keeps_mod (f : S → S) : (∀ s, R s (f s)) → keeps R (mod_st f).
Proof. intros H s. apply H. Qed.

Lemma keeps_bind {A B} (m : M S A) (k : A → M S B) :
  keeps R m → (∀ a, keeps R (k a)) → keeps R (m ≫= k).
Proof.
  intros Hm Hk s. specialize (Hm s). unfold mbind, M_bind.
  destruct (m s) as [[a|e|t] s']; [|done..]. etrans; [exact Hm|]. apply Hk.
Qed.

Lemma keeps_try {A} (m : M S A) : keeps R m → keeps R (try m).
Proof. intros Hm s. specialize (Hm s). unfold try. by destruct (m s) as [[a|e|t] s']. Qed.
End keeps.

Section never.
Context {S : Type} (e : unw_error).

Lemma never_bind {A B} (m : M S A) (k : A → M S B) :
  never e m → (∀ a, never e (k a)) → never e (m ≫= k).
Proof.
  intros Hm Hk s. specialize (Hm s). unfold mbind, M_bind.
  destruct (m s) as [[a|e'|t] s']; [apply Hk| |done]. simpl in *. congruence.
Qed.

Lemma never_ok {A} (m : M S A) : (∀ s, ∀ e, fst (m s) ≠ Err e) → never e m.
Proof. intros H s. apply H. Qed.

Lemma never_try {A} (m : M S A) : never e (try m).
Proof. intros s. unfold try. by destruct (m s) as [[]]. Qed.

Lemma never_fail {A} e' : e' ≠ e → never e (fail e' : M S A).
Proof. intros He s [= ?]. done. Qed.
End never.

(** Decompose a routine down to the routines there are hints for. *)
Ltac keep_step :=
  match goal with
  | |- keeps _ (mbind _ _) => apply keeps_bind; [exact _| |intros ?]
  | |- keeps _ (mret _) => apply keeps_id; exact _
  | |- keeps _ get_st => apply keeps_id; exact _
  | |- keeps _ (fail _) => apply keeps_id; exact _
  | |- keeps _ (halt _) => apply keeps_id; exact _
  | |- keeps _ (lift _) => apply keeps_id; exact _
  | |- keeps _ (λ _, (_, _)) => apply keeps_id; exact _
  | |- keeps _ (try _) => apply keeps_try
  | |- keeps _ (mod_st _) => apply keeps_mod; intros ?; first [reflexivity|by split]
  | |- keeps _ (match ?x with _ => _ end) => destruct x
  | |- keeps _ (if ?x then _ else _) => destruct x
  end.
Ltac keep := cbv zeta; repeat first [solve [auto 2 with keeps nocore] | keep_step].

Ltac never_step :=
  match goal with
  | |- never _ (mbind _ _) => apply never_bind; [|intros ?]
  | |- never _ (mret _) => done
  | |- never _ get_st => done
  | |- never _ (fail _) => by apply never_fail
  | |- never _ (halt _) => done
  | |- never _ (mod_st _) => done
  | |- never _ (try _) => apply never_try
  | |- never _ (match ?x with _ => _ end) => destruct x
  | |- never _ (if ?x then _ else _) => destruct x
  end.
Ltac nevers := cbv zeta; repeat first [solve [auto 2 with keeps nocore] | never_step].
