(* ===== verification/Threads.v ===== *)
(** * Threads and locks

    The routines that take a lock run interleaved with others: a thread is a tree of
    atomic steps on the shared state, with the operations on the lock between them.
    The second half proves that critical sections run as if one after the other,
    whatever their cut into steps, also where a thread goes on to write, after it has
    released the lock, what the others no longer look at. *)
From S2P Require Export Prelude.
From stdpp Require Export gmap relations.

(** ** Locks *)

(** sx(9), a parameter: initialising, acquiring (which waits or returns the new
    lock), releasing; [sx_owner] is who has it, and how many times. *)
Class SxOps (L : Type) := {
  sx_init : L → L;
  sx_xlock : nat → L → option L;
  sx_unlock : nat → L → L;
  sx_owner : L → option (nat * nat)
}.

(** What sx(9) documents of an exclusive lock that may be taken recursively.  Of the
    initialisation of a lock that is held it promises nothing. *)
Class SxLaws (L : Type) `{!SxOps L} := {
  sx_init_free l : sx_owner l = None → sx_owner (sx_init l) = None;
  sx_xlock_free i l : sx_owner l = None →
    ∃ l', sx_xlock i l = Some l' ∧ sx_owner l' = Some (i, 1%nat);
  sx_xlock_mine i n l : sx_owner l = Some (i, n) →
    ∃ l', sx_xlock i l = Some l' ∧ sx_owner l' = Some (i, S n);
  sx_xlock_waits i j n l : sx_owner l = Some (j, n) → i ≠ j → sx_xlock i l = None;
  sx_unlock_last i l : sx_owner l = Some (i, 1%nat) → sx_owner (sx_unlock i l) = None;
  sx_unlock_one i n l : sx_owner l = Some (i, S (S n)) → sx_owner (sx_unlock i l) = Some (i, S n)
}.

(** ** Threads *)

#[local] Set Warnings "-register-all".

(** A thread has returned [a], or goes on with an operation on the lock or with an
    atomic step on the state, which chooses how it goes on.
    [src/include/libunwind_i.h:85-90], [mutex_init] *)
Inductive thread (S A : Type) :=
  | Done (a : A)
  | Init (k : thread S A)
  | Acquire (k : thread S A)
  | Release (k : thread S A)
  | Do (m : M S (thread S A)).
Arguments Done {S A} a.
Arguments Init {S A} k.
Arguments Acquire {S A} k.
Arguments Release {S A} k.
Arguments Do {S A} m.

(** The step [m], then [k]. *)
Definition then_do {S A B} (m : M S A) (k : A → thread S B) : thread S B := Do (a ← m; mret (k a)).

(** [t], [lock_release], then [k]. *)
Fixpoint locked {S A B} (t : thread S A) (k : A → thread S B) : thread S B :=
  match t with
  | Done a => Release (k a)
  | Init t' => Init (locked t' k)
  | Acquire t' => Acquire (locked t' k)
  | Release t' => Release (locked t' k)
  | Do m => Do (λ s, match m s with
                     | (Ok t', s') => (Ok (locked t' k), s')
                     | (Err e, s') => (Err e, s')
                     | (Stop x, s') => (Stop x, s')
                     end)
  end.

(** [lock_acquire], [t], [lock_release], then [k].
    [src/include/libunwind_i.h:128-131], [lock_acquire] *)
Definition critical {S A B} (t : thread S A) (k : A → thread S B) : thread S B :=
  Acquire (locked t k).

(** [t] on its own, the lock left out. *)
Fixpoint run {S A} (t : thread S A) : M S A :=
  match t with
  | Done a => mret a
  | Init t' | Acquire t' | Release t' => run t'
  | Do m => λ s, match m s with
                 | (Ok t', s') => run t' s'
                 | (Err e, s') => (Err e, s')
                 | (Stop x, s') => (Stop x, s')
                 end
  end.

(** [t] alone is the routine [m]. *)
Definition runs_as {S A} (t : thread S A) (m : M S A) : Prop := ∀ s, run t s = m s.

Lemma runs_done {S A} (a : A) : runs_as (S := S) (Done a) (mret a).
Proof. done. Qed.

Lemma runs_then_do {S A B} (m : M S A) (k : A → thread S B) (f : A → M S B) :
  (∀ a, runs_as (k a) (f a)) → runs_as (then_do m k) (m ≫= f).
Proof.
  intros H s. unfold then_do. cbn [run]. mred. destruct (m s) as [[a|e|x] s']; [|done..]. apply H.
Qed.

Lemma runs_locked {S A B} (k : A → thread S B) (f : A → M S B) (t : thread S A) :
  (∀ a, runs_as (k a) (f a)) → ∀ s, run (locked t k) s = (run t ≫= f) s.
Proof.
  intros H. revert t. fix IH 1. intros [a|t|t|t|m] s; cbn [locked run]; try apply IH.
  - mred. apply H.
  - mred. destruct (m s) as [[t|e|x] s']; [apply IH|done..].
Qed.

Lemma runs_critical {S A B} (t : thread S A) (m : M S A) (k : A → thread S B) (f : A → M S B) :
  runs_as t m → (∀ a, runs_as (k a) (f a)) → runs_as (critical t k) (m ≫= f).
Proof.
  intros Ht Hk s. unfold critical. cbn [run]. rewrite (runs_locked k f) by done. mred. by rewrite Ht.
Qed.

(** [t] leaves the lock alone. *)
Inductive lock_free {S A} : thread S A → Prop :=
  | lf_done a : lock_free (Done a)
  | lf_do m : (∀ s t s', m s = (Ok t, s') → lock_free t) → lock_free (Do m).

(** ** Interleavings *)

Section step.
Context {S A L : Type} `{!SxOps L}.

Record world := World { w_state : S; w_lock : L; w_threads : list (thread S A) }.

(** One of the threads takes a step. *)
Inductive tstep : world → world → Prop :=
  | step_do s l ts i m k s' :
      ts !! i = Some (Do m) → m s = (Ok k, s') → tstep (World s l ts) (World s' l (<[i := k]> ts))
  | step_init s l ts i k :
      ts !! i = Some (Init k) → tstep (World s l ts) (World s (sx_init l) (<[i := k]> ts))
  | step_acquire s l ts i k l' :
      ts !! i = Some (Acquire k) → sx_xlock i l = Some l' →
      tstep (World s l ts) (World s l' (<[i := k]> ts))
  | step_release s l ts i k :
      ts !! i = Some (Release k) → tstep (World s l ts) (World s (sx_unlock i l) (<[i := k]> ts)).

Definition all_done (w : world) : Prop := ∀ t, t ∈ w.(w_threads) → ∃ a, t = Done a.

(** The thread [t] becomes [t'], in some state. *)
Inductive after : thread S A → thread S A → Prop :=
  | after_do m s k s' : m s = (Ok k, s') → after k (Do m)
  | after_init k : after k (Init k)
  | after_acquire k : after k (Acquire k)
  | after_release k : after k (Release k).

Fixpoint after_wf (t : thread S A) : Acc after t.
Proof.
  destruct t as [a|k|k|k|m]; constructor; intros t' H.
  - inversion H.
  - inversion H as [| | |]; subst; apply after_wf.
  - inversion H; subst; apply after_wf.
  - inversion H; subst; apply after_wf.
  - assert (Hm : ∀ s, match m s with (Ok k, _) => Acc after k | _ => True end).
    { intros s. destruct (m s) as [[k|e|x] s']; [apply after_wf|done|done]. }
    inversion H as [m' s k s' E| | |]; subst. specialize (Hm s). by rewrite E in Hm.
Qed.
End step.
Arguments world S A L : clear implicits.
Arguments World {S A L} _ _ _.

(** Every interleaving ends: the threads are finite. *)
Section ends.
Context {S A L : Type} `{!SxOps L}.
Implicit Types ts : list (thread S A).

Definition becomes ts' ts : Prop := ∃ i t t', ts !! i = Some t ∧ after t' t ∧ ts' = <[i := t']> ts.

Lemma becomes_wf ts : Acc becomes ts.
Proof.
  induction ts as [|t ts IH]; [constructor; by intros ts' (i & t & t' & [=] & _)|].
  revert t. induction IH as [us _ IHu]. intros t.
  induction (after_wf t) as [t _ IHt]. constructor. intros vs ([|i] & u & u' & Hu & Ha & ->); simpl in *.
  - injection Hu as ->. by apply IHt.
  - apply IHu. by exists i, u, u'.
Qed.

Lemma tstep_wf (w : world S A L) : Acc (flip tstep) w.
Proof.
  destruct w as [s l ts]. revert s l. induction (becomes_wf ts) as [ts _ IH].
  intros s l. constructor. intros w' H. unfold flip in H.
  inversion H as [? ? ? i m k s' Hi E|? ? ? i k Hi|? ? ? i k l' Hi E|? ? ? i k Hi]; subst;
    apply IH; exists i; eexists; exists k; (split; [exact Hi|split; [|done]]); by econstructor.
Qed.

(** So a property that every step keeps and that can always go on to a goal gets there. *)
Lemma tstep_ends (P : world S A L → Prop) (w : world S A L) :
  P w → (∀ w1 w2, P w1 → tstep w1 w2 → P w2) →
  (∀ w1, P w1 → all_done w1 ∨ ∃ w2, tstep w1 w2) →
  ∃ w', rtc tstep w w' ∧ all_done w' ∧ P w'.
Proof.
  intros HP Hk Hg. revert HP. induction (tstep_wf w) as [w _ IH]. intros HP.
  destruct (Hg w HP) as [Hd|(w2 & Hs)]; [by exists w|].
  destruct (IH w2 Hs (Hk _ _ HP Hs)) as (w' & Hr & ? & ?). exists w'. split_and!; [|done|done].
  by eapply rtc_l.
Qed.
End ends.

(** ** A thread that is not interrupted *)

Lemma lock_free_then_do {S A B} (m : M S A) (k : A → thread S B) :
  (∀ a, lock_free (k a)) → lock_free (then_do m k).
Proof.
  intros H. constructor. intros s t s'. mred. destruct (m s) as [[a|e|x] s1]; [|done..].
  intros [= <- _]. apply H.
Qed.

Section solo.
Context {S A B L : Type} `{!SxOps L, !SxLaws L}.
Implicit Types ts : list (thread S B).

Lemma solo_run (t : thread S B) ts l i : lock_free t → ∀ s s' b,
  run t s = (Ok b, s') → (i < length ts)%nat →
  rtc tstep (World s l (<[i := t]> ts)) (World s' l (<[i := Done b]> ts)).
Proof.
  induction 1 as [a|m _ IH]; intros s s' b; cbn [run].
  - intros [= -> ->] _. done.
  - destruct (m s) as [[t|e|x] s1] eqn:E; [|done..]. intros Hr Hi.
    eapply rtc_l; [eapply step_do; [by apply list_lookup_insert_eq|exact E]|].
    rewrite list_insert_insert_eq. by eapply IH.
Qed.

Lemma solo_locked (t : thread S A) (k : A → thread S B) ts l i : lock_free t → ∀ s s' a,
  run t s = (Ok a, s') → (i < length ts)%nat →
  rtc tstep (World s l (<[i := locked t k]> ts)) (World s' l (<[i := Release (k a)]> ts)).
Proof.
  induction 1 as [b|m _ IH]; intros s s' a; cbn [run].
  - intros [= -> ->] _. done.
  - destruct (m s) as [[t|e|x] s1] eqn:E; [|done..]. intros Hr Hi. cbn [locked].
    eapply rtc_l; [eapply step_do; [by apply list_lookup_insert_eq|cbv beta; by rewrite E]|].
    rewrite list_insert_insert_eq. by eapply IH.
Qed.

Lemma solo_critical (t : thread S A) (k : A → thread S B) ts l i s s' a :
  lock_free t → sx_owner l = None → run t s = (Ok a, s') → ts !! i = Some (critical t k) →
  ∃ l', sx_owner l' = None ∧ rtc tstep (World s l ts) (World s' l' (<[i := k a]> ts)).
Proof.
  intros Hf Hl Hr Hi. destruct (sx_xlock_free i l Hl) as (l1 & E & Hl1).
  exists (sx_unlock i l1). split; [by apply sx_unlock_last|].
  eapply rtc_l; [by eapply step_acquire|]. etrans.
  - eapply solo_locked; [done|exact Hr|by eapply lookup_lt_Some].
  - eapply rtc_l; [eapply step_release, list_lookup_insert_eq; by eapply lookup_lt_Some|].
    by rewrite list_insert_insert_eq.
Qed.
End solo.

(** ** Critical sections run one after the other

    [R pr g s]: the state is [s], and [g] but for what the threads that have left
    their critical section go on to write; [pr] is how far they have come. *)
Section follows.
Context {I S A : Type} (R : I → S → S → Prop).

(** On every state that [R] relates to [g], [t] goes the way it goes on [g]: to the
    result and the state given, or to a step that does not succeed. *)
Inductive follows : thread S A → S → option A → S → Prop :=
  | follows_done a g : follows (Done a) g (Some a) g
  | follows_do m g k g1 o g' :
      m g = (Ok k, g1) → (∀ pr s, R pr g s → ∃ s1, m s = (Ok k, s1) ∧ R pr g1 s1) →
      follows k g1 o g' → follows (Do m) g o g'
  | follows_stuck m g :
      (∀ pr s k s1, R pr g s → m s ≠ (Ok k, s1)) → follows (Do m) g None g.

Lemma follows_then_do {B} (m : M S B) (k : B → thread S A) b g g1 o g' :
  m g = (Ok b, g1) → (∀ pr s, R pr g s → ∃ s1, m s = (Ok b, s1) ∧ R pr g1 s1) →
  follows (k b) g1 o g' → follows (then_do m k) g o g'.
Proof.
  intros E H Hf. eapply follows_do; [mred; by rewrite E| |exact Hf].
  intros pr s HR. destruct (H pr s HR) as (s1 & E1 & ?). exists s1. mred. by rewrite E1.
Qed.

Lemma follows_run t g a g' : follows t g (Some a) g' → run t g = (Ok a, g').
Proof.
  intros H. remember (Some a) as o eqn:Ho. revert a Ho.
  induction H as [b g|m g k g1 o g' E _ _ IH|]; intros a Ho; [by injection Ho as ->| |done].
  simpl. rewrite E. by apply IH.
Qed.
End follows.

(** Where nothing is left to write, the way is that of [run]. *)
Lemma run_follows {S A} I (t : thread S A) (g : S) : lock_free t →
  ∃ o g', follows (λ _ : I, eq) t g o g' ∧ (∀ a, run t g = (Ok a, g') ↔ o = Some a) ∧
    (o = None → ∀ a g1, run t g ≠ (Ok a, g1)).
Proof.
  intros H. revert g. induction H as [a|m _ IH]; intros g.
  - exists (Some a), g. split_and!; [constructor| |done]. intros b. simpl. split; [by intros [= ->]|by intros [= ->]].
  - destruct (m g) as [r g1] eqn:E. destruct r as [k|e|x].
    + destruct (IH g k g1 E g1) as (o & g' & Hf & Ho & Hn). exists o, g'. simpl. rewrite E.
      split_and!; [|done|done]. econstructor; [exact E| |exact Hf]. intros _ s <-. by exists g1.
    + exists None, g. simpl. rewrite E. split_and!; [|done|done]. constructor. intros _ s k s1 <-. by rewrite E.
    + exists None, g. simpl. rewrite E. split_and!; [|done|done]. constructor. intros _ s k s1 <-. by rewrite E.
Qed.

Section serial.
Context {S A B L : Type} `{!SxOps L, !SxLaws L}.
Context (n : nat) (body : nat → thread S A) (tail : nat → A → thread S B) (result : nat → A → B).

(** The threads, each with one critical section and what it does after that. *)
Definition section_of (i : nat) : thread S B := critical (body i) (tail i).

(** [Inv os g]: the sections of [os] have run, in that order and with those results,
    to the state [g].  [R os pr g s]: the state is [s], and [g] but for what the
    threads of [os] go on to write, each of which has taken [pr] steps since. *)
Context (R : list (nat * A) → gmap nat nat → S → S → Prop) (Inv : list (nat * A) → S → Prop).

(** The number of steps after the section; whether a section may stop half-way. *)
Context (steps : nat → nat) (may_stop : bool).

(** All that [t] still does after [c] steps leaves the state related and succeeds. *)
Inductive quiet (i : nat) (b : B) : nat → thread S B → Prop :=
  | quiet_done : quiet i b (steps i) (Done b)
  | quiet_do c m :
      (∀ os pr g s, i ∈ os.*1 → pr !! i = Some c → R os pr g s →
        ∃ k s', m s = (Ok k, s') ∧ R os (<[i := Datatypes.S c]> pr) g s' ∧
          quiet i b (Datatypes.S c) k) →
      quiet i b c (Do m).

(** The sections [os ++ [(i, a)]] have run, all but the end of the last. *)
Definition comes_to (os : list (nat * A)) (i : nat) (a : A) (g1 : S) : Prop :=
  ∃ g', Inv (os ++ [(i, a)]) g' ∧
    ∀ pr s, R os pr g1 s → R (os ++ [(i, a)]) (<[i := 0%nat]> pr) g' s.

Hypothesis body_follows : ∀ os i g, (i < n)%nat → i ∉ os.*1 → Inv os g →
  ∃ o g1, follows (R os) (body i) g o g1 ∧ (o = None → may_stop = true) ∧
    ∀ a, o = Some a → comes_to os i a g1.
Hypothesis tail_quiet : ∀ i a, (i < n)%nat → quiet i (result i a) 0 (tail i a).

Lemma fst_unique (os : list (nat * A)) i a b : NoDup os.*1 → (i, a) ∈ os → (i, b) ∈ os → b = a.
Proof.
  intros Hnd [x Hx]%list_elem_of_lookup [y Hy]%list_elem_of_lookup.
  assert (x = y); [|by simplify_eq]. eapply NoDup_lookup; [exact Hnd| |];
    rewrite list_lookup_fmap; [by rewrite Hx|by rewrite Hy].
Qed.

(** The threads outside: those whose section is to come, and those that have left it. *)
Definition waiting (ts : list (thread S B)) (os : list (nat * A)) (skip : option nat) : Prop :=
  ∀ i, (i < n)%nat → i ∉ os.*1 → Some i ≠ skip → ts !! i = Some (section_of i).
Definition left_section (ts : list (thread S B)) (os : list (nat * A)) (pr : gmap nat nat) : Prop :=
  ∀ i a, (i, a) ∈ os → (i < n)%nat ∧
    ∃ c t, pr !! i = Some c ∧ ts !! i = Some t ∧ quiet i (result i a) c t.

(** The sections run so far come to the state [g]; the thread in its section, if any,
    has come to [gm]. *)
Inductive serialised : world S B L → Prop :=
  | serial_free s l ts os pr g :
      sx_owner l = None → length ts = n → NoDup os.*1 → left_section ts os pr → Inv os g →
      R os pr g s → waiting ts os None → serialised (World s l ts)
  | serial_held s l ts os pr j t gm o g1 :
      sx_owner l = Some (j, 1%nat) → length ts = n → NoDup os.*1 → left_section ts os pr →
      (j < n)%nat → j ∉ os.*1 → ts !! j = Some (locked t (tail j)) → R os pr gm s →
      follows (R os) t gm o g1 → (o = None → may_stop = true) → (∀ a, o = Some a → comes_to os j a g1) →
      waiting ts os (Some j) → serialised (World s l ts).

Lemma left_other ts os pr j k : left_section ts os pr → j ∉ os.*1 → left_section (<[j := k]> ts) os pr.
Proof.
  intros H Hj i a Hi. destruct (H i a Hi) as (Hn & c & t & Hc & Ht & Hq). split; [done|]. exists c, t.
  split_and!; [done| |done]. rewrite list_lookup_insert_ne; [done|]. intros ->. apply Hj.
  apply list_elem_of_fmap. by exists (i, a).
Qed.

Lemma left_in ts os pr i : left_section ts os pr → i ∈ os.*1 →
  ∃ a c t, (i, a) ∈ os ∧ pr !! i = Some c ∧ ts !! i = Some t ∧ quiet i (result i a) c t.
Proof.
  intros H ([i' a] & -> & Hi)%list_elem_of_fmap. destruct (H i' a Hi) as (_ & c & t & ? & ? & ?).
  by exists a, c, t.
Qed.

Lemma waiting_insert ts os skip j k :
  waiting ts os skip → j ∈ os.*1 ∨ Some j = skip → waiting (<[j := k]> ts) os skip.
Proof.
  intros H Hj i Hi Ho Hs. rewrite list_lookup_insert_ne; [by apply H|].
  intros ->. by destruct Hj.
Qed.

(** A step of a thread that has left its section. *)
Lemma left_step ts os pr i k m g s s' :
  NoDup os.*1 → left_section ts os pr → i ∈ os.*1 → ts !! i = Some (Do m) → m s = (Ok k, s') →
  R os pr g s → ∃ pr', left_section (<[i := k]> ts) os pr' ∧ R os pr' g s'.
Proof.
  intros Hnd H Hi Ht E HR. destruct (left_in _ _ _ _ H Hi) as (a & c & t & Hia & Hc & Ht' & Hq).
  rewrite Ht in Ht'. injection Ht' as <-. inversion Hq as [|c' m' Hm]; subst.
  destruct (Hm os pr g s Hi Hc HR) as (k' & s1 & E' & HR' & Hk). rewrite E in E'. injection E' as <- <-.
  exists (<[i := Datatypes.S c]> pr). split; [|done]. intros j b Hj.
  destruct (decide (j = i)) as [->|].
  - assert (b = a) as -> by by eapply fst_unique.
    destruct (H i a Hia) as [? _]. split; [done|]. exists (Datatypes.S c), k.
    rewrite lookup_insert_eq, list_lookup_insert_eq by by eapply lookup_lt_Some. done.
  - destruct (H j b Hj) as (? & c' & t & ?). split; [done|]. exists c', t.
    by rewrite lookup_insert_ne, list_lookup_insert_ne.
Qed.

(** Where a thread stands, by what it is about to do. *)
Lemma left_ready ts os pr i t :
  left_section ts os pr → i ∈ os.*1 → ts !! i = Some t → (∃ b, t = Done b) ∨ ∃ m, t = Do m.
Proof.
  intros H Hi Ht. destruct (left_in _ _ _ _ H Hi) as (a & c & t' & _ & _ & Ht' & Hq).
  rewrite Ht in Ht'. injection Ht' as <-. inversion Hq; [left|right]; by eexists.
Qed.

Lemma waiting_is ts os skip i t :
  waiting ts os skip → length ts = n → i ∉ os.*1 → Some i ≠ skip → ts !! i = Some t → t = section_of i.
Proof.
  intros H Hn Hi Hs Ht. rewrite (H i) in Ht; [by injection Ht|..|done|done].
  apply lookup_lt_Some in Ht. by rewrite <- Hn.
Qed.

(** The thread [j] releases the lock. *)
Lemma leave_section ts os pr j a s l g1 :
  sx_owner l = Some (j, 1%nat) → length ts = n → NoDup os.*1 → left_section ts os pr → (j < n)%nat →
  j ∉ os.*1 → R os pr g1 s → comes_to os j a g1 → waiting ts os (Some j) →
  serialised (World s (sx_unlock j l) (<[j := tail j a]> ts)).
Proof.
  intros Ho Hn Hnd Hl Hj Hjo HR (g' & Hi & HR') Hw.
  assert (He : (os ++ [(j, a)]).*1 = os.*1 ++ [j]) by by rewrite fmap_app.
  apply (serial_free _ _ _ (os ++ [(j, a)]) (<[j := 0%nat]> pr) g'); try done.
  - by apply sx_unlock_last.
  - by rewrite length_insert.
  - rewrite He. apply NoDup_app. split_and!; [done| |apply NoDup_singleton].
    intros x Hx ->%list_elem_of_singleton. done.
  - intros i b [Hb|[= -> ->]%list_elem_of_singleton]%elem_of_app.
    + destruct (left_other _ _ _ j (tail j a) Hl Hjo i b Hb) as (? & c & t & ? & ? & ?).
      split; [done|]. exists c, t. rewrite lookup_insert_ne; [done|]. intros ->.
      apply Hjo, list_elem_of_fmap. by exists (i, b).
    + split; [done|]. exists 0%nat, (tail j a).
      rewrite lookup_insert_eq, list_lookup_insert_eq by by rewrite Hn. eauto.
  - by apply HR'.
  - intros i Hin Hio _. rewrite He in Hio.
    assert (i ≠ j) by (intros ->; apply Hio, elem_of_app; right; left).
    rewrite list_lookup_insert_ne by done. apply Hw; [done| |congruence].
    intros ?. apply Hio, elem_of_app. by left.
Qed.

(** The thread [i] acquires the lock. *)
Lemma enter_section ts os pr i s l l' g :
  sx_owner l = None → length ts = n → NoDup os.*1 → left_section ts os pr → Inv os g → R os pr g s →
  waiting ts os None → i ∉ os.*1 → (i < n)%nat → sx_xlock i l = Some l' →
  serialised (World s l' (<[i := locked (body i) (tail i)]> ts)).
Proof.
  intros Ho Hn Hnd Hl Hi HR Hw Hio Hlt E.
  destruct (sx_xlock_free i l Ho) as (l1 & E' & Ho'). rewrite E in E'. injection E' as <-.
  destruct (body_follows os i g Hlt Hio Hi) as (o & g1 & Hf & Hs & Hc).
  apply (serial_held _ _ _ os pr i (body i) g o g1); try done.
  - by rewrite length_insert.
  - by apply left_other.
  - rewrite list_lookup_insert_eq; [done|by rewrite Hn].
  - apply waiting_insert; [|by right]. intros x Hx ? _. by apply Hw.
Qed.

(** A step of the thread that has the lock. *)
Lemma section_step ts os pr j m k s s' l gm o g1 t :
  sx_owner l = Some (j, 1%nat) → length ts = n → NoDup os.*1 → left_section ts os pr → (j < n)%nat →
  j ∉ os.*1 → R os pr gm s → follows (R os) t gm o g1 → (o = None → may_stop = true) →
  (∀ a, o = Some a → comes_to os j a g1) → waiting ts os (Some j) → locked t (tail j) = Do m →
  m s = (Ok k, s') → serialised (World s' l (<[j := k]> ts)).
Proof.
  intros Ho Hn Hnd Hl Hj Hjo HR Hf Hs Hc Hw Hm E. destruct t as [| | | |m0]; simplify_eq/=.
  inversion Hf as [|? ? k1 gm1 ? ? E1 Hall Hf'|? ? Hno]; subst.
  - destruct (Hall pr s HR) as (s1 & E2 & HR1). rewrite E2 in E. injection E as <- <-.
    apply (serial_held _ _ _ os pr j k1 gm1 o g1); try done.
    + by rewrite length_insert.
    + by apply left_other.
    + rewrite list_lookup_insert_eq; [done|by rewrite Hn].
    + apply waiting_insert; [done|by right].
  - destruct (m0 s) as [[k0|e|x] s1] eqn:E0; try discriminate E. by destruct (Hno pr s k0 s1 HR).
Qed.

Lemma serialised_step w w' : serialised w → tstep w w' → serialised w'.
Proof.
  destruct 1 as [s l ts os pr g Ho Hn Hnd Hl Hi HR Hw|
      s l ts os pr j t gm o g1 Ho Hn Hnd Hl Hj Hjo Ht HR Hf Hs Hc Hw];
    inversion 1 as [? ? ? i m k s' Hk E|? ? ? i k Hk|? ? ? i k l' Hk E|? ? ? i k Hk]; subst;
    destruct (decide (i ∈ os.*1)) as [Hin|Hin];
    try (destruct (left_ready _ _ _ _ _ Hl Hin Hk) as [[? [=]]|[? [=]]]; fail);
    try (by pose proof (waiting_is _ _ _ _ _ Hw Hn Hin ltac:(done) Hk) as [=]; fail).
  - destruct (left_step _ _ _ _ _ _ _ _ _ Hnd Hl Hin Hk E HR) as (pr' & Hl' & HR').
    eapply serial_free; try done; [by rewrite length_insert|]. apply waiting_insert; [done|by left].
  - pose proof (waiting_is _ _ _ _ _ Hw Hn Hin ltac:(done) Hk) as [= ->].
    eapply enter_section; try done. rewrite <- Hn. by eapply lookup_lt_Some.
  - destruct (left_step _ _ _ _ _ _ _ _ _ Hnd Hl Hin Hk E HR) as (pr' & Hl' & HR').
    eapply (serial_held _ _ _ os pr' j t gm o g1); try done; [by rewrite length_insert| |].
    + rewrite list_lookup_insert_ne; [done|]. by intros ->.
    + apply waiting_insert; [done|by left].
  - destruct (decide (i = j)) as [->|Hij];
      [|by pose proof (waiting_is _ _ _ _ _ Hw Hn Hin ltac:(congruence) Hk) as [=]].
    rewrite Ht in Hk. injection Hk as Hk. by eapply section_step.
  - destruct (decide (i = j)) as [->|Hij];
      [|by pose proof (waiting_is _ _ _ _ _ Hw Hn Hin ltac:(congruence) Hk) as [=]].
    rewrite Ht in Hk. destruct t; simplify_eq/=. inversion Hf.
  - destruct (decide (i = j)) as [->|Hij].
    + rewrite Ht in Hk. destruct t; simplify_eq/=. inversion Hf.
    + by rewrite (sx_xlock_waits i j 1 l Ho Hij) in E.
  - destruct (decide (i = j)) as [->|Hij];
      [|by pose proof (waiting_is _ _ _ _ _ Hw Hn Hin ltac:(congruence) Hk) as [=]].
    rewrite Ht in Hk. destruct t as [a| | | |]; simplify_eq/=; [|by inversion Hf].
    inversion Hf; subst. by eapply leave_section; eauto.
Qed.

Definition start (s : S) (l : L) : world S B L := World s l (section_of <$> seq 0 n).

Lemma serialised_start s l g : sx_owner l = None → Inv [] g → R [] ∅ g s → serialised (start s l).
Proof.
  intros Ho Hi HR. eapply (serial_free _ _ _ [] ∅ g); try done.
  - by rewrite length_fmap, length_seq.
  - apply NoDup_nil_2.
  - intros i a H. by apply elem_of_nil in H.
  - intros i Hn _ _. by rewrite list_lookup_fmap, lookup_seq_lt by done.
Qed.

Lemma serialised_steps w w' : serialised w → rtc tstep w w' → serialised w'.
Proof. induction 2; [done|]. eauto using serialised_step. Qed.

Lemma locked_not_done (t : thread S A) (k : A → thread S B) b : locked t k ≠ Done b.
Proof. by destruct t. Qed.

(** When all threads are done, their sections have run one after the other. *)
Lemma serialised_done w : serialised w → all_done w →
  ∃ os pr g, os.*1 ≡ₚ seq 0 n ∧ Inv os g ∧ R os pr g w.(w_state) ∧
    ∀ i a, (i, a) ∈ os → pr !! i = Some (steps i) ∧ w.(w_threads) !! i = Some (Done (result i a)).
Proof.
  destruct 1 as [s l ts os pr g Ho Hn Hnd Hl Hi HR Hw|s l ts os pr j t gm o g1 Ho Hn Hnd Hl Hj Hjo Ht];
    intros Hd.
  - exists os, pr, g. cbn [w_state w_threads]. split_and!; [|done|done|].
    + apply NoDup_Permutation; [done|apply NoDup_seq|]. intros i. rewrite elem_of_seq. split.
      * intros ([i' a] & -> & Hia)%list_elem_of_fmap. destruct (Hl _ _ Hia). simpl. lia.
      * intros [_ Hi']. destruct (decide (i ∈ os.*1)) as [|Hin]; [done|].
        assert (E := Hw i ltac:(lia) Hin ltac:(done)).
        destruct (Hd _ (list_elem_of_lookup_2 _ _ _ E)) as [b [=]].
    + intros i a Hia. destruct (Hl i a Hia) as (_ & c & t & Hc & Ht & Hq).
      destruct (Hd t (list_elem_of_lookup_2 _ _ _ Ht)) as [b ->]. by inversion Hq; subst.
  - destruct (Hd _ (list_elem_of_lookup_2 _ _ _ Ht)) as [b Hb]. by apply locked_not_done in Hb.
Qed.

Lemma each_or {T} (ts : list T) (P : T → Prop) (Q : Prop) :
  (∀ i t, ts !! i = Some t → P t ∨ Q) → (∀ t, t ∈ ts → P t) ∨ Q.
Proof.
  induction ts as [|t ts IH]; intros H; [left; by intros t Ht%elem_of_nil|].
  destruct IH as [IH|]; [by intros i; apply (H (Datatypes.S i))| |by right].
  destruct (H 0%nat t eq_refl) as [Ht|]; [left|by right]. by intros u [->|Hu]%elem_of_cons; [|apply IH].
Qed.

(** Where no section stops half-way, one of the threads can always go on. *)
Lemma serialised_progress w : may_stop = false → serialised w → all_done w ∨ ∃ w', tstep w w'.
Proof.
  intros Hms. destruct 1 as [s l ts os pr g Ho Hn Hnd Hl Hi HR Hw|
    s l ts os pr j t gm o g1 Ho Hn Hnd Hl Hj Hjo Ht HR Hf Hs].
  - assert (H : ∀ i t, ts !! i = Some t → (∃ a, t = Done a) ∨ ∃ w', tstep (World s l ts) w').
    { intros i t Ht. destruct (decide (i ∈ os.*1)) as [Hin|Hin].
      - destruct (left_in _ _ _ _ Hl Hin) as (a & c & t' & Hia & Hc & Ht' & Hq).
        rewrite Ht in Ht'. injection Ht' as <-. inversion Hq as [|c' m Hm]; subst; [left; by eexists|].
        destruct (Hm os pr g s Hin Hc HR) as (k & s' & E & _). right. eexists. by eapply step_do.
      - pose proof (waiting_is _ _ _ _ _ Hw Hn Hin ltac:(done) Ht) as ->. right.
        destruct (sx_xlock_free i l Ho) as (l' & E & _). eexists. by eapply step_acquire. }
    by apply each_or in H.
  - right. destruct t as [a|k|k|k|m]; [|by inversion Hf..|].
    + eexists. by eapply step_release.
    + inversion Hf as [|? ? k gm1 ? ? E Hall|]; subst; [|by specialize (Hs eq_refl); congruence].
      destruct (Hall pr s HR) as (s1 & E1 & _). eexists. eapply step_do; [exact Ht|]. simpl. by rewrite E1.
Qed.

(** And none of their steps fails. *)
Lemma serialised_no_fault w i m : may_stop = false → serialised w → w.(w_threads) !! i = Some (Do m) →
  ∃ k s', m w.(w_state) = (Ok k, s').
Proof.
  intros Hms Hser. destruct Hser as [s l ts os pr g Ho Hn Hnd Hl Hi HR Hw|
    s l ts os pr j t gm o g1 Ho Hn Hnd Hl Hj Hjo Ht HR Hf Hs Hcm Hw]; cbn [w_threads w_state]; intros Hm;
    (destruct (decide (i ∈ os.*1)) as [Hin|Hin];
     [destruct (left_in _ _ _ _ Hl Hin) as (a & c & t' & _ & Hc & Ht' & Hq); rewrite Hm in Ht'; injection Ht' as <-;
      inversion Hq as [|c' m' Hm']; subst; destruct (Hm' os pr _ s Hin Hc HR) as (k & s' & E & _); by exists k, s'|]).
  - by pose proof (waiting_is _ _ _ _ _ Hw Hn Hin ltac:(done) Hm) as [=].
  - destruct (decide (i = j)) as [->|Hij];
      [|by pose proof (waiting_is _ _ _ _ _ Hw Hn Hin ltac:(congruence) Hm) as [=]].
    rewrite Ht in Hm. injection Hm as Hm. destruct t as [| | | |m0]; simplify_eq/=.
    inversion Hf as [|? ? k gm1 ? ? E Hall|]; subst; [|by specialize (Hs eq_refl); congruence].
    destruct (Hall pr s HR) as (s1 & E1 & _). rewrite E1. by eexists _, s1.
Qed.

(** So every schedule can be taken to its end, with the sections in some order. *)
Lemma sections_serialise w : serialised w →
  (may_stop = false → (all_done w ∨ ∃ w', tstep w w') ∧
    ∀ i m, w.(w_threads) !! i = Some (Do m) → ∃ k s', m w.(w_state) = (Ok k, s')) ∧
  (all_done w → ∃ os pr g, os.*1 ≡ₚ seq 0 n ∧ Inv os g ∧ R os pr g w.(w_state) ∧
    ∀ i a, (i, a) ∈ os → pr !! i = Some (steps i) ∧ w.(w_threads) !! i = Some (Done (result i a))).
Proof.
  intros H. split; [|by apply serialised_done]. intros Hms. split; [by apply serialised_progress|].
  intros i m. by apply serialised_no_fault.
Qed.
End serial.

(** A lock that names its owner and counts its acquisitions. *)
Definition example_lock : Type := option (nat * nat).

#[export] Instance example_sx : SxOps example_lock := {
  sx_init := λ _, None;
  sx_xlock := λ i l, match l with
                     | None => Some (Some (i, 1%nat))
                     | Some (j, n) => if decide (i = j) then Some (Some (i, S n)) else None
                     end;
  sx_unlock := λ i l, match l with Some (j, S (S n)) => Some (j, S n) | _ => None end;
  sx_owner := λ l, l
}.

#[export] Instance example_sx_laws : SxLaws example_lock.
Proof.
  split; simpl.
  - done.
  - intros i l ->. by eexists.
  - intros i n l ->. rewrite decide_True by done. by eexists.
  - intros i j n l -> Hij. by rewrite decide_False.
  - by intros i l ->.
  - by intros i n l ->.
Qed.
