(* ===== verification/Memory.v ===== *)
(** * Memory and the raw readers

    The unwinder is built for local unwinding only ([UNW_LOCAL_ONLY]), so it
    dereferences addresses directly.  A memory is a finite map from addresses
    to cells; only the low eight bits of a cell are observable, and touching an
    address that is not mapped stops the execution.  This file models the
    [dwarf_read*] routines of [include/dwarf_i.h] and proves how they act on a
    memory that holds a given byte string. *)
From S2P Require Export Prelude.

Abbreviation memory := (gmap Z Z).

(** ** Loads and stores *)

(** The [n]-byte little-endian value at [a], as x86-64 loads it; misaligned
    accesses are allowed. *)
Fixpoint load (n : nat) (m : memory) (a : Z) : res Z :=
  match n with
  | O => Ok 0
  | S n' =>
      match m !! a with
      | None => Stop (BadAddr a)
      | Some b => r ← load n' m (u64 (a + 1)); Ok (u8 b + 256 * r)
      end
  end.

(** Store the low [n] bytes of [v] at [a]. *)
Fixpoint store (n : nat) (m : memory) (a v : Z) : res memory :=
  match n with
  | O => Ok m
  | S n' =>
      match m !! a with
      | None => Stop (BadAddr a)
      | Some _ => store n' (<[a := u8 v]> m) (u64 (a + 1)) (v / 256)
      end
  end.

(** ** Readers: the state is the pointer [*addr] *)

(** Read [n] bytes at [*addr], convert them, and advance [*addr]; the body the
    eight [dwarf_read{s,u}N] routines share. *)
Definition read_value (n : nat) (conv : Z → Z) (m : memory) : M Z Z := λ addr,
  match load n m addr with
  | Ok v => (Ok (conv v), u64 (addr + Z.of_nat n))
  | Err e => (Err e, addr)
  | Stop s => (Stop s, addr)
  end.

(** [src/include/dwarf_i.h:43-52], [dwarf_reads8] *)
Definition dwarf_reads8 (m : memory) : M Z Z := read_value 1 s8 m.

(** [src/include/dwarf_i.h:54-63], [dwarf_reads16] *)
Definition dwarf_reads16 (m : memory) : M Z Z := read_value 2 s16 m.

(** [src/include/dwarf_i.h:65-74], [dwarf_reads32] *)
Definition dwarf_reads32 (m : memory) : M Z Z := read_value 4 s32 m.

(** [src/include/dwarf_i.h:76-85], [dwarf_reads64] *)
Definition dwarf_reads64 (m : memory) : M Z Z := read_value 8 s64 m.

(** [src/include/dwarf_i.h:87-96], [dwarf_readu8] *)
Definition dwarf_readu8 (m : memory) : M Z Z := read_value 1 u8 m.

(** [src/include/dwarf_i.h:98-107], [dwarf_readu16] *)
Definition dwarf_readu16 (m : memory) : M Z Z := read_value 2 u16 m.

(** [src/include/dwarf_i.h:109-118], [dwarf_readu32] *)
Definition dwarf_readu32 (m : memory) : M Z Z := read_value 4 u32 m.

(** [src/include/dwarf_i.h:120-129], [dwarf_readu64] *)
Definition dwarf_readu64 (m : memory) : M Z Z := read_value 8 u64 m.

(** [src/include/dwarf_i.h:12-16], [dwarf_addr_size] *)
Definition dwarf_addr_size : Z := 8.

(** [src/include/dwarf_i.h:132-159], [dwarf_readw] *)
Definition dwarf_readw (m : memory) : M Z Z :=
  if dwarf_addr_size =? 4 then dwarf_readu32 m
  else if dwarf_addr_size =? 8 then dwarf_readu64 m
  else halt Panic.

(** Read at an address held in a local variable whose final value is not
    used afterwards. *)
Definition at_addr {A} (r : M Z A) (a : Z) : res A := fst (r a).

(** ** Byte strings in memory *)

Definition is_byte (b : Z) : Prop := 0 ≤ b < 256.

(** [bytes_at m a bs]: the bytes [bs] are stored at [a], [a+1], ... *)
Fixpoint bytes_at (m : memory) (a : Z) (bs : list Z) : Prop :=
  match bs with
  | [] => True
  | b :: bs' => m !! a = Some b ∧ is_byte b ∧ bytes_at m (u64 (a + 1)) bs'
  end.

#[export] Instance is_byte_dec b : Decision (is_byte b).
Proof. unfold is_byte. apply _. Defined.

#[export] Instance bytes_at_dec m a bs : Decision (bytes_at m a bs).
Proof.
  revert a. induction bs as [|b bs IH]; intros a; simpl; [apply _|].
  destruct (decide (m !! a = Some b)); [|right; tauto].
  destruct (decide (is_byte b)); [|right; tauto].
  destruct (IH (u64 (a + 1))); [left|right]; tauto.
Defined.

Fixpoint le_value (bs : list Z) : Z :=
  match bs with [] => 0 | b :: bs' => b + 256 * le_value bs' end.

Fixpoint le_bytes (n : nat) (v : Z) : list Z :=
  match n with O => [] | S n' => u8 v :: le_bytes n' (v / 256) end.

(** Place a byte string in memory. *)
Fixpoint put_bytes (m : memory) (a : Z) (bs : list Z) : memory :=
  match bs with [] => m | b :: bs' => <[a := b]> (put_bytes m (u64 (a + 1)) bs') end.

Lemma length_le_bytes n v : length (le_bytes n v) = n.
Proof. revert v. induction n; intros; simpl; auto. Qed.

Lemma le_bytes_byte n v : Forall is_byte (le_bytes n v).
Proof. revert v. induction n; intros; simpl; constructor; [apply u8_range|auto]. Qed.

Lemma le_value_range bs :
  Forall is_byte bs → 0 ≤ le_value bs < 256 ^ Z.of_nat (length bs).
Proof.
  induction 1 as [|b bs Hb _ IH]; [simpl; lia|].
  cbn [le_value length]. rewrite Nat2Z.inj_succ, Z.pow_succ_r by lia.
  unfold is_byte in Hb. lia.
Qed.

Lemma le_value_bytes n v : le_value (le_bytes n v) = v mod 256 ^ Z.of_nat n.
Proof.
  revert v. induction n as [|n IH]; intros v; [simpl; by rewrite Z.mod_1_r|].
  cbn [le_bytes le_value]. rewrite IH, Nat2Z.inj_succ, Z.pow_succ_r by lia.
  rewrite Z.rem_mul_r by (try apply Z.pow_nonzero; lia). unfold u8. lia.
Qed.

Lemma load_bytes_at m a bs :
  bytes_at m a bs → load (length bs) m a = Ok (le_value bs).
Proof.
  revert a. induction bs as [|b bs IH]; intros a; [done|].
  intros (Hb & Hr & H). simpl. rewrite Hb, (IH _ H). simpl.
  by rewrite u8_small.
Qed.

Lemma bytes_at_app m a bs1 bs2 :
  is_u64 a →
  bytes_at m a (bs1 ++ bs2) ↔
  bytes_at m a bs1 ∧ bytes_at m (u64 (a + Z.of_nat (length bs1))) bs2.
Proof.
  revert a. induction bs1 as [|b bs IH]; intros a Ha; simpl.
  - rewrite Z.add_0_r, u64_small by done. tauto.
  - rewrite IH by apply u64_range. rewrite u64_add_l.
    replace (a + 1 + Z.of_nat (length bs)) with (a + Z.of_nat (S (length bs))) by lia.
    tauto.
Qed.

#[global] Arguments le_bytes : simpl never.

(** ** The readers on a byte string *)

Lemma read_value_bytes n conv m a bs :
  bytes_at m a bs → length bs = n →
  read_value n conv m a = (Ok (conv (le_value bs)), u64 (a + Z.of_nat n)).
Proof. intros H <-. unfold read_value. by rewrite (load_bytes_at _ _ _ H). Qed.

Lemma readu8_byte m a b :
  bytes_at m a [b] → dwarf_readu8 m a = (Ok b, u64 (a + 1)).
Proof.
  intros H. unfold dwarf_readu8. rewrite (read_value_bytes _ _ _ _ _ H) by done.
  destruct H as (_ & Hb & _). simpl. rewrite Z.mul_0_r, Z.add_0_r.
  by rewrite u8_small.
Qed.

Lemma read_value_le n conv m a v :
  bytes_at m a (le_bytes n v) →
  read_value n conv m a =
    (Ok (conv (v mod 256 ^ Z.of_nat n)), u64 (a + Z.of_nat n)).
Proof.
  intros H. rewrite (read_value_bytes _ _ _ _ _ H) by apply length_le_bytes.
  by rewrite le_value_bytes.
Qed.

Lemma readu32_le m a v :
  bytes_at m a (le_bytes 4 v) → dwarf_readu32 m a = (Ok (u32 v), u64 (a + 4)).
Proof.
  intros H. unfold dwarf_readu32. rewrite (read_value_le _ _ _ _ _ H).
  unfold u32. do 2 f_equal. change (256 ^ Z.of_nat 4) with 4294967296.
  by rewrite Zmod_mod.
Qed.

Lemma readu16_le m a v :
  bytes_at m a (le_bytes 2 v) → dwarf_readu16 m a = (Ok (u16 v), u64 (a + 2)).
Proof.
  intros H. unfold dwarf_readu16. rewrite (read_value_le _ _ _ _ _ H).
  unfold u16. do 2 f_equal. change (256 ^ Z.of_nat 2) with 65536.
  by rewrite Zmod_mod.
Qed.

Lemma readu64_le m a v :
  bytes_at m a (le_bytes 8 v) → dwarf_readu64 m a = (Ok (u64 v), u64 (a + 8)).
Proof.
  intros H. unfold dwarf_readu64. rewrite (read_value_le _ _ _ _ _ H).
  unfold u64. do 2 f_equal. change (256 ^ Z.of_nat 8) with 18446744073709551616.
  by rewrite Zmod_mod.
Qed.

Lemma reads32_le m a v :
  bytes_at m a (le_bytes 4 v) → dwarf_reads32 m a = (Ok (s32 v), u64 (a + 4)).
Proof.
  intros H. unfold dwarf_reads32. rewrite (read_value_le _ _ _ _ _ H).
  unfold s32, sext. do 3 f_equal.
  change (256 ^ Z.of_nat 4) with (2 ^ 32). by rewrite Zplus_mod_idemp_l.
Qed.

Lemma reads64_le m a v :
  bytes_at m a (le_bytes 8 v) → dwarf_reads64 m a = (Ok (s64 v), u64 (a + 8)).
Proof.
  intros H. unfold dwarf_reads64. rewrite (read_value_le _ _ _ _ _ H).
  unfold s64, sext. do 3 f_equal.
  change (256 ^ Z.of_nat 8) with (2 ^ 64). by rewrite Zplus_mod_idemp_l.
Qed.

(** A reader either stops on an unmapped byte or returns: it has no error
    code of its own. *)
Lemma load_no_err n m a e : load n m a ≠ Err e.
Proof.
  revert a. induction n as [|n IH]; intros a; simpl; [done|].
  destruct (m !! a); [|done]. specialize (IH (u64 (a + 1))). mred.
  by destruct (load n m (u64 (a + 1))).
Qed.

Lemma load_range n m a v : load n m a = Ok v → 0 ≤ v < 256 ^ Z.of_nat n.
Proof.
  revert a v. induction n as [|n IH]; intros a v; [intros [= <-]; simpl; lia|].
  simpl. destruct (m !! a) as [b|]; [|done]. mred.
  destruct (load n m (u64 (a + 1))) as [r| |] eqn:E; intros [= <-].
  apply IH in E. rewrite Nat2Z.inj_succ, Z.pow_succ_r by lia.
  pose proof (u8_range b). lia.
Qed.

Lemma read_value_no_err n conv m a e a' : read_value n conv m a ≠ (Err e, a').
Proof.
  unfold read_value. pose proof (load_no_err n m a).
  destruct (load n m a) eqn:E; try done. naive_solver.
Qed.

Lemma load_stop n m a t : load n m a = Stop t → ∃ b, t = BadAddr b.
Proof.
  revert a. induction n as [|n IH]; intros a; simpl; [done|].
  destruct (m !! a); [|intros [= <-]; eauto]. mred.
  destruct (load n m (u64 (a + 1))) eqn:E; [done|done|]. intros [= <-]. eauto.
Qed.

Lemma read_value_Stop n conv m a t a' :
  read_value n conv m a = (Stop t, a') → t ≠ NoFuel.
Proof.
  unfold read_value. destruct (load n m a) eqn:E; intros [= <- <-].
  by apply load_stop in E as [b ->].
Qed.

Lemma read_value_Ok n conv m a v a' :
  read_value n conv m a = (Ok v, a') →
  ∃ r, load n m a = Ok r ∧ v = conv r ∧ a' = u64 (a + Z.of_nat n).
Proof.
  unfold read_value. destruct (load n m a) as [r| |]; intros [= <- <-]; eauto.
Qed.

(** ** Stores and loads *)

Lemma store_dom n m a v m' :
  store n m a v = Ok m' → dom m' = dom m.
Proof.
  revert m a v. induction n as [|n IH]; intros m a v; simpl; [by intros [= <-]|].
  destruct (m !! a) eqn:E; [|done]. intros ->%IH.
  apply dom_insert_lookup_L. eauto.
Qed.

Lemma store_lookup_ne n m a v m' b :
  store n m a v = Ok m' → is_u64 a →
  (∀ i, 0 ≤ i < Z.of_nat n → b ≠ u64 (a + i)) → m' !! b = m !! b.
Proof.
  revert m a v. induction n as [|n IH]; intros m a v; simpl; [by intros [= <-]|].
  destruct (m !! a) eqn:E; [|done]. intros H Ha Hb.
  rewrite (IH _ _ _ H); [|apply u64_range|].
  - apply lookup_insert_ne. intros ->. apply (Hb 0); [lia|].
    by rewrite u64_add_0.
  - intros i Hi. rewrite u64_add_l. replace (a + 1 + i) with (a + (i + 1)) by lia.
    apply Hb. lia.
Qed.

Lemma store_bytes_at n m a v m' :
  store n m a v = Ok m' → is_u64 a → Z.of_nat n < 18446744073709551616 →
  bytes_at m' a (le_bytes n v).
Proof.
  revert m a v. induction n as [|n IH]; intros m a v; simpl; [done|].
  destruct (m !! a) eqn:E; [|done]. intros H Ha Hn.
  split; [|split; [apply u8_range|apply (IH _ _ _ H); [apply u64_range|lia]]].
  rewrite (store_lookup_ne _ _ _ _ _ _ H); [apply lookup_insert_eq|apply u64_range|].
  intros i Hi. rewrite u64_add_l. unfold u64, is_u64 in *. dlia.
Qed.

Lemma load_S n m a :
  load (S n) m a =
  match m !! a with
  | None => Stop (BadAddr a)
  | Some b => r ← load n m (u64 (a + 1)); Ok (u8 b + 256 * r)
  end.
Proof. reflexivity. Qed.

#[global] Arguments load : simpl never.
#[global] Arguments store : simpl never.

(** ** Loads and stores of words *)

Lemma load_store_same m a v m' :
  store 8 m a v = Ok m' → is_u64 a → load 8 m' a = Ok (u64 v).
Proof.
  intros H Ha. apply store_bytes_at in H; [|done|lia].
  apply load_bytes_at in H. rewrite length_le_bytes in H. rewrite H. f_equal.
  apply (le_value_bytes 8).
Qed.

(** The eight bytes at [a] and at [b] do not overlap. *)
Definition disjoint_words (a b : Z) : Prop :=
  ∀ i j, 0 ≤ i < 8 → 0 ≤ j < 8 → u64 (a + i) ≠ u64 (b + j).

Lemma load_agree n m m' a :
  is_u64 a → (∀ i, 0 ≤ i < Z.of_nat n → m' !! u64 (a + i) = m !! u64 (a + i)) →
  load n m' a = load n m a.
Proof.
  revert a. induction n as [|n IH]; intros a Ha H; [done|]. rewrite !load_S.
  pose proof (H 0 ltac:(lia)) as H0. rewrite u64_add_0 in H0 by done. rewrite H0.
  destruct (m !! a); [|done]. rewrite IH; [done|apply u64_range|].
  intros i Hi. rewrite u64_add_l. replace (a + 1 + i) with (a + (i + 1)) by lia.
  apply H. lia.
Qed.

Lemma load_store_disjoint m a v m' b :
  store 8 m a v = Ok m' → is_u64 a → is_u64 b → disjoint_words b a →
  load 8 m' b = load 8 m b.
Proof.
  intros H Ha Hb Hd. apply load_agree; [done|]. intros i Hi.
  apply (store_lookup_ne _ _ _ _ _ _ H); [done|]. intros j Hj. by apply Hd.
Qed.

(** ** Mapped blocks *)

Lemma load_mapped n m a :
  (∀ i, 0 ≤ i < Z.of_nat n → is_Some (m !! u64 (a + i))) → is_u64 a →
  ∃ v, load n m a = Ok v.
Proof.
  revert a. induction n as [|n IH]; intros a H Ha; [by eexists|]. rewrite load_S.
  destruct (H 0 ltac:(lia)) as [b Hb]. rewrite u64_add_0 in Hb by done. rewrite Hb.
  destruct (IH (u64 (a + 1))) as [v ->]; [|apply u64_range|by eexists].
  intros i Hi. rewrite u64_add_l. replace (a + 1 + i) with (a + (i + 1)) by lia. apply H. lia.
Qed.

Lemma store_S n m a v :
  store (S n) m a v =
  match m !! a with
  | None => Stop (BadAddr a)
  | Some _ => store n (<[a := u8 v]> m) (u64 (a + 1)) (v / 256)
  end.
Proof. reflexivity. Qed.

Lemma store_mapped n m a v :
  (∀ i, 0 ≤ i < Z.of_nat n → is_Some (m !! u64 (a + i))) → is_u64 a →
  ∃ m', store n m a v = Ok m'.
Proof.
  revert m a v. induction n as [|n IH]; intros m a v H Ha; [by eexists|]. rewrite store_S.
  destruct (H 0 ltac:(lia)) as [b Hb]. rewrite u64_add_0 in Hb by done. rewrite Hb.
  apply IH; [|apply u64_range]. intros i Hi. rewrite u64_add_l.
  replace (a + 1 + i) with (a + (i + 1)) by lia.
  destruct (decide (u64 (a + (i + 1)) = a)) as [->|]; [rewrite lookup_insert_eq; by eexists|].
  rewrite lookup_insert_ne by done. apply H. lia.
Qed.

Lemma load_subseteq n m m' a v : load n m a = Ok v → m ⊆ m' → load n m' a = Ok v.
Proof.
  intros H Hm. revert a v H. induction n as [|n IH]; intros a v; [done|]. rewrite !load_S.
  destruct (m !! a) as [b|] eqn:E; [|done]. rewrite (lookup_weaken _ _ _ _ E Hm). mred.
  destruct (load n m (u64 (a + 1))) as [r| |] eqn:E'; [|done..]. by rewrite (IH _ _ E').
Qed.

(** The readers touch no C array. *)
Definition no_undef {A} (r : M Z A) : Prop := ∀ a a', r a ≠ (Stop Undef, a').

Lemma no_undef_read_value n conv m : no_undef (read_value n conv m).
Proof.
  intros a a'. unfold read_value. destruct (load n m a) as [|?|t] eqn:E; [done|done|].
  intros [= -> _]. by apply load_stop in E as [? ?].
Qed.

Lemma no_undef_bind {A B} (r : M Z A) (k : A → M Z B) :
  no_undef r → (∀ x, no_undef (k x)) → no_undef (r ≫= k).
Proof.
  intros Hr Hk a a'. mred. specialize (Hr a). destruct (r a) as [[x|e|t] a1].
  - apply Hk.
  - done.
  - intros [= -> ->]. by apply (Hr a').
Qed.

Lemma no_undef_ret {A} (x : A) : no_undef (mret x).
Proof. done. Qed.

Lemma no_undef_fail {A} e : no_undef (@fail Z A e).
Proof. done. Qed.

#[export] Hint Resolve no_undef_read_value no_undef_ret no_undef_fail : unw.

Lemma no_undef_get {B} (k : Z → M Z B) : (∀ x, no_undef (k x)) → no_undef (get_st ≫= k).
Proof. intros Hk a a'. apply Hk. Qed.

Lemma no_undef_readu8 m : no_undef (dwarf_readu8 m).
Proof. apply no_undef_read_value. Qed.

Lemma no_undef_readu16 m : no_undef (dwarf_readu16 m).
Proof. apply no_undef_read_value. Qed.

Lemma no_undef_readu32 m : no_undef (dwarf_readu32 m).
Proof. apply no_undef_read_value. Qed.

Lemma no_undef_readw m : no_undef (dwarf_readw m).
Proof. apply no_undef_read_value. Qed.

#[export] Hint Resolve no_undef_readu8 no_undef_readu16 no_undef_readu32 no_undef_readw : unw.
