(* ===== verification/Remote.v ===== *)
(** * Fetching from another address space

    The helpers of [remote.h], in both configurations: the local one reads memory,
    the other one asks the address space for aligned words and cuts them up.  The
    theorem says when the two agree. *)
From S2P Require Export Memory.

(** ** The local configuration *)

(** [src/remote.h:10-17], [fetch8] *)
Definition fetch8 (m : memory) : M Z Z := read_value 1 s8 m.
(** [src/remote.h:19-26], [fetch16] *)
Definition fetch16 (m : memory) : M Z Z := read_value 2 s16 m.
(** [src/remote.h:28-35], [fetch32] *)
Definition fetch32 (m : memory) : M Z Z := read_value 4 s32 m.
(** [src/remote.h:37-44], [fetchw] *)
Definition fetchw (m : memory) : M Z Z := read_value 8 u64 m.

(** ** The other configuration *)

(** [src/remote.h:48-48], [WSIZE] *)
Definition WSIZE : Z := 8.

Section remote.
(** [access_mem addr] is the word the address space has at [addr]; the target is
    little-endian. *)
Context (access_mem : Z → res Z).

(** The word that contains the address, and the address's place in it.
    [src/remote.h:54-54], [fetch8] *)
Definition word_of (addr : Z) : Z * Z :=
  let aligned_addr := Z.land addr (u64 (- WSIZE)) in (aligned_addr, u64 (addr - aligned_addr)).

(** When the access fails the value is not used.
    [src/remote.h:50-68], [fetch8] *)
Definition remote_fetch8 : M Z Z := λ addr,
  let '(aligned_addr, off) := word_of addr in
  (val ← access_mem aligned_addr; Ok (s8 (Z.land (Z.shiftr val (8 * off)) 0xff)), u64 (addr + 1)).

(** [src/remote.h:70-90], [fetch16] *)
Definition remote_fetch16 : M Z Z := λ addr,
  let '(aligned_addr, off) := word_of addr in
  if negb (Z.land off 1 =? 0) then (Stop Panic, addr)
  else (val ← access_mem aligned_addr; Ok (s16 (Z.land (Z.shiftr val (8 * off)) 0xffff)), u64 (addr + 2)).

(** [src/remote.h:92-112], [fetch32] *)
Definition remote_fetch32 : M Z Z := λ addr,
  let '(aligned_addr, off) := word_of addr in
  if negb (Z.land off 3 =? 0) then (Stop Panic, addr)
  else (val ← access_mem aligned_addr; Ok (s32 (Z.land (Z.shiftr val (8 * off)) 0xffffffff)), u64 (addr + 4)).

(** [src/remote.h:114-123], [fetchw] *)
Definition remote_fetchw : M Z Z := λ addr, (access_mem addr, u64 (addr + WSIZE)).
End remote.

(** ** Parts of a word *)

Lemma load_app n1 n2 m a : is_u64 a →
  load (n1 + n2) m a =
  (x ← load n1 m a; y ← load n2 m (u64 (a + Z.of_nat n1)); Ok (x + 256 ^ Z.of_nat n1 * y)).
Proof.
  revert a. induction n1 as [|n1 IH]; intros a Ha.
  - cbn [Nat.add]. rewrite u64_add_0 by done. change (load 0 m a) with (@Ok Z 0). mred.
    destruct (load n2 m a) as [y| |]; [|done..]. f_equal. change (256 ^ Z.of_nat 0) with 1. lia.
  - cbn [Nat.add]. rewrite !load_S. destruct (m !! a); [|done]. rewrite IH by apply u64_range. mred.
    destruct (load n1 m _) as [x| |]; [|done..]. rewrite u64_add_l.
    replace (a + 1 + Z.of_nat n1) with (a + Z.of_nat (S n1)) by lia.
    destruct (load n2 m _) as [y| |]; [|done..]. f_equal.
    rewrite Nat2Z.inj_succ, Z.pow_succ_r by lia. lia.
Qed.

Lemma load_part (k n : nat) m a v :
  is_u64 a → (k + n ≤ 8)%nat → load 8 m a = Ok v →
  load n m (u64 (a + Z.of_nat k)) = Ok (Z.land (Z.shiftr v (8 * Z.of_nat k)) (Z.ones (8 * Z.of_nat n))).
Proof.
  intros Ha Hk. replace 8%nat with (k + (n + (8 - k - n)))%nat by lia.
  rewrite load_app by done. destruct (load k m a) as [x| |] eqn:Ex; [|done..]. mred.
  rewrite load_app by apply u64_range.
  destruct (load n m _) as [y| |] eqn:Ey; [|done..]. mred.
  destruct (load (8 - k - n) m _) as [z| |]; [|done..]. intros [= <-]. f_equal.
  apply load_range in Ex, Ey.
  rewrite Z.shiftr_div_pow2, Z.land_ones by lia.
  assert (Hp : ∀ i : nat, 2 ^ (8 * Z.of_nat i) = 256 ^ Z.of_nat i) by (intros i; by rewrite Z.pow_mul_r by lia).
  rewrite !Hp. pose proof (Z.pow_pos_nonneg 256 (Z.of_nat k)). pose proof (Z.pow_pos_nonneg 256 (Z.of_nat n)).
  rewrite (Z.mul_comm (256 ^ Z.of_nat k)), Z.div_add, (Z.div_small x), Z.add_0_l by lia.
  rewrite (Z.mul_comm (256 ^ Z.of_nat n)), Z.mod_add, Z.mod_small by lia. done.
Qed.

Lemma word_of_spec addr : is_u64 addr →
  word_of addr = (addr - addr mod 8, addr mod 8) ∧ is_u64 (addr - addr mod 8).
Proof.
  intros Ha. unfold word_of, WSIZE. change (- (8)) with (- 2 ^ 3). rewrite land_high by done.
  change (2 ^ 3) with 8. unfold is_u64 in *.
  replace (addr - (addr - addr mod 8)) with (addr mod 8) by lia.
  rewrite u64_small by (unfold is_u64; dlia). split; [done|dlia].
Qed.

Lemma fetch_part n m addr w :
  is_u64 addr → addr mod 8 + Z.of_nat n ≤ 8 → load 8 m (fst (word_of addr)) = Ok w →
  load n m addr = Ok (Z.land (Z.shiftr w (8 * snd (word_of addr))) (Z.ones (8 * Z.of_nat n))).
Proof.
  intros Ha Hn. destruct (word_of_spec addr Ha) as [-> Hu]. cbn [fst snd]. intros Hw.
  pose proof (load_part (Z.to_nat (addr mod 8)) n m _ w Hu ltac:(dlia) Hw) as H.
  rewrite Z2Nat.id in H by dlia. rewrite <- H. f_equal.
  replace (addr - addr mod 8 + addr mod 8) with addr by lia. by rewrite u64_small.
Qed.

(** ** Properties *)

(** Where the word an address lies in is mapped, fetching through aligned words
    gives what the local configuration reads, for aligned addresses; the assertions
    stop a fetch from any other address. *)
Lemma remote_fetch_agrees (m : memory) (addr w : Z) :
  is_u64 addr → load 8 m (fst (word_of addr)) = Ok w →
  remote_fetch8 (load 8 m) addr = fetch8 m addr ∧
  (addr mod 2 = 0 → remote_fetch16 (load 8 m) addr = fetch16 m addr) ∧
  (addr mod 2 ≠ 0 → remote_fetch16 (load 8 m) addr = (Stop Panic, addr)) ∧
  (addr mod 4 = 0 → remote_fetch32 (load 8 m) addr = fetch32 m addr) ∧
  (addr mod 4 ≠ 0 → remote_fetch32 (load 8 m) addr = (Stop Panic, addr)) ∧
  (addr mod 8 = 0 → remote_fetchw (load 8 m) addr = fetchw m addr).
Proof.
  intros Ha Hw.
  assert (Hl : ∀ k, 0 ≤ k → Z.land (snd (word_of addr)) (Z.ones k) = (addr mod 8) mod 2 ^ k)
    by (intros; rewrite (proj1 (word_of_spec addr Ha)); by apply Z.land_ones).
  pose proof (Hl 1 ltac:(done)) as H1. pose proof (Hl 2 ltac:(done)) as H2.
  change (Z.ones 1) with 1 in H1. change (Z.ones 2) with 3 in H2.
  change (2 ^ 1) with 2 in H1. change (2 ^ 2) with 4 in H2.
  pose proof (fun n H => fetch_part n m addr w Ha H Hw) as Hf.
  unfold remote_fetch8, remote_fetch16, remote_fetch32, remote_fetchw, fetch8, fetch16, fetch32, fetchw, read_value.
  destruct (word_of addr) as [al off] eqn:Eo. cbn [fst snd] in *. rewrite Hw. mred.
  split_and!.
  - rewrite (Hf 1%nat) by dlia. done.
  - intros He. rewrite H1, (proj2 (Z.eqb_eq _ _)) by dlia. cbn [negb]. rewrite (Hf 2%nat) by dlia. done.
  - intros He. rewrite H1, (proj2 (Z.eqb_neq _ _)) by dlia. done.
  - intros He. rewrite H2, (proj2 (Z.eqb_eq _ _)) by dlia. cbn [negb]. rewrite (Hf 4%nat) by dlia. done.
  - intros He. rewrite H2, (proj2 (Z.eqb_neq _ _)) by dlia. done.
  - intros He. destruct (word_of_spec addr Ha) as [E _]. rewrite Eo, He, Z.sub_0_r in E.
    injection E as -> ->. rewrite Hw, (u64_small w); [done|].
    apply load_range in Hw. unfold is_u64. lia.
Qed.

Lemma remote_fetch_agrees_witness :
  let m := put_bytes ∅ 0x1000 [0x11; 0x92; 0x33; 0x84; 0x55; 0x66; 0x77; 0x88] in
  remote_fetch16 (load 8 m) 0x1002 = (Ok (-31693), 0x1004) ∧
  remote_fetch16 (load 8 m) 0x1002 = fetch16 m 0x1002 ∧
  remote_fetch32 (load 8 m) 0x1002 = (Stop Panic, 0x1002).
Proof.
  intros m.
  destruct (remote_fetch_agrees m 0x1002 0x8877665584339211) as (_ & H16 & _ & _ & H32 & _).
  - unfold is_u64. lia.
  - vm_compute. reflexivity.
  - split; [vm_compute; reflexivity|]. split; [apply H16; reflexivity|apply H32; discriminate].
Defined.
