(* ===== verification/Leb128.v ===== *)
(** * LEB128 numbers

    The two inline readers of [include/dwarf_i.h] and the stand-alone
    [_ReadULEB] and [_ReadSLEB].  A shift by 64 or more is undefined in C, so
    an over-long number (eleven bytes or more) stops with [BadShift]; hence eleven
    units of fuel are enough for every input. *)
From S2P Require Export Memory.

(** ** The readers *)

(** The [do ... while] loop of [dwarf_read_uleb128] and [dwarf_read_sleb128]:
    the accumulated value, the final shift and the last byte.
    [src/include/dwarf_i.h:168-183], [dwarf_read_uleb128] *)
Fixpoint leb_loop (fuel : nat) (m : memory) (val shift : Z) : M Z (Z * Z * Z) :=
  match fuel with
  | O => halt NoFuel
  | S fuel' =>
      byte ← dwarf_readu8 m;
      if 64 <=? shift then halt BadShift
      else
        let val' := Z.lor val (u64 (Z.shiftl (Z.land byte 0x7f) shift)) in
        let shift' := u64 (shift + 7) in
        if Z.land byte 0x80 =? 0 then mret (val', shift', byte)
        else leb_loop fuel' m val' shift'
  end.

Definition leb_fuel : nat := 11.

(** [src/include/dwarf_i.h:164-184], [dwarf_read_uleb128] *)
Definition dwarf_read_uleb128 (m : memory) : M Z Z :=
  r ← leb_loop leb_fuel m 0 0;
  mret (r.1.1).

(** [src/include/dwarf_i.h:189-213], [dwarf_read_sleb128] *)
Definition dwarf_read_sleb128 (m : memory) : M Z Z :=
  r ← leb_loop leb_fuel m 0 0;
  let '(val, shift, byte) := r in
  if (shift <? 8 * 8) && negb (Z.land byte 0x40 =? 0)
  then mret (Z.lor val (u64 (Z.shiftl (u64 (-1)) shift)))
  else mret val.

(** [src/_ReadULEB.c:13-20], [_ReadULEB] *)
Fixpoint read_uleb_loop (fuel : nat) (m : memory) (result shift : Z) : M Z Z :=
  match fuel with
  | O => halt NoFuel
  | S fuel' =>
      byte ← dwarf_readu8 m;
      if 64 <=? shift then halt BadShift
      else
        let result' := Z.lor result (u64 (Z.shiftl (Z.land byte 0x7f) shift)) in
        if Z.land byte 0x80 =? 0 then mret result'
        else read_uleb_loop fuel' m result' (u32 (shift + 7))
  end.

(** [src/_ReadULEB.c:6-23], [_ReadULEB] *)
Definition _ReadULEB (m : memory) : M Z Z := read_uleb_loop leb_fuel m 0 0.

(** [src/_ReadSLEB.c:13-20], [_ReadSLEB] *)
Fixpoint read_sleb_loop (fuel : nat) (m : memory) (result shift : Z)
    : M Z (Z * Z * Z) :=
  match fuel with
  | O => halt NoFuel
  | S fuel' =>
      byte ← dwarf_readu8 m;
      if 64 <=? shift then halt BadShift
      else
        let result' := Z.lor result (u64 (Z.shiftl (Z.land byte 0x7f) shift)) in
        let shift' := u32 (shift + 7) in
        if Z.land byte 0x80 =? 0 then mret (result', shift', byte)
        else read_sleb_loop fuel' m result' shift'
  end.

(** [src/_ReadSLEB.c:6-28], [_ReadSLEB] *)
Definition _ReadSLEB (m : memory) : M Z Z :=
  r ← read_sleb_loop leb_fuel m 0 0;
  let '(result, shift, byte) := r in
  if (shift <? 8 * 8) && negb (Z.land byte 0x40 =? 0)
  then mret (Z.lor result (u64 (Z.shiftl (u64 (-1)) shift)))
  else mret result.

(** ** The numbers a byte string denotes *)

(** DWARF 3, section 7.6: every byte but the last has bit 7 set. *)
Fixpoint leb_shape (bs : list Z) : Prop :=
  match bs with
  | [] => False
  | b :: bs' =>
      match bs' with
      | [] => 0 ≤ b < 128
      | _ :: _ => 128 ≤ b < 256 ∧ leb_shape bs'
      end
  end.

Fixpoint leb_value (bs : list Z) : Z :=
  match bs with [] => 0 | b :: bs' => b mod 128 + 128 * leb_value bs' end.

Definition sleb_value (bs : list Z) : Z :=
  leb_value bs - (if 64 <=? List.last bs 0 then 128 ^ Z.of_nat (length bs) else 0).

Fixpoint uleb_enc (fuel : nat) (n : Z) : list Z :=
  match fuel with
  | O => []
  | S f => if n <? 128 then [n] else (128 + n mod 128) :: uleb_enc f (n / 128)
  end.

Fixpoint sleb_enc (fuel : nat) (n : Z) : list Z :=
  match fuel with
  | O => []
  | S f =>
      if (-64 <=? n) && (n <? 64) then [n mod 128]
      else (128 + n mod 128) :: sleb_enc f (n / 128)
  end.

Definition uleb_encode (n : Z) : list Z := uleb_enc 10 n.
Definition sleb_encode (n : Z) : list Z := sleb_enc 10 n.

#[global] Arguments uleb_encode : simpl never.
#[global] Arguments sleb_encode : simpl never.

(** ** Bit-level facts *)

Lemma testbit_above a k i : 0 ≤ a < 2 ^ k → k ≤ i → Z.testbit a i = false.
Proof.
  intros Ha Hi. destruct (decide (a = 0)) as [->|Hne]; [apply Z.bits_0|].
  apply Z.bits_above_log2; [lia|].
  apply Z.lt_le_trans with k; [apply Z.log2_lt_pow2; lia|done].
Qed.

Lemma land_disjoint a b k :
  0 ≤ k → 0 ≤ a < 2 ^ k → b mod 2 ^ k = 0 → Z.land a b = 0.
Proof.
  intros Hk Ha Hb. apply Z.bits_inj'. intros i Hi.
  rewrite Z.land_spec, Z.bits_0. destruct (Z.ltb_spec i k).
  - assert (Z.testbit b i = false) as ->; [|apply andb_false_r].
    rewrite <- (Z.mod_pow2_bits_low b k i), Hb by lia. apply Z.bits_0.
  - by rewrite (testbit_above a k i).
Qed.

Lemma lor_disjoint a b k :
  0 ≤ k → 0 ≤ a < 2 ^ k → b mod 2 ^ k = 0 → Z.lor a b = a + b.
Proof.
  intros Hk Ha Hb. pose proof (land_disjoint a b k Hk Ha Hb) as H.
  by rewrite <- Z.lxor_lor, Z.add_nocarry_lxor.
Qed.

Lemma land_7f b : Z.land b 0x7f = b mod 128.
Proof. change 0x7f with (Z.ones 7). by rewrite Z.land_ones. Qed.

Lemma land_80 b : 0 ≤ b < 256 → (Z.land b 0x80 =? 0) = (b <? 128).
Proof.
  intros Hb. assert (Hall : forallb (λ i, Bool.eqb (Z.land (Z.of_nat i) 0x80 =? 0)
    (Z.of_nat i <? 128)) (seq 0 256) = true) by (vm_compute; reflexivity).
  rewrite forallb_forall in Hall. specialize (Hall (Z.to_nat b)).
  rewrite Z2Nat.id in Hall by lia. apply Bool.eqb_prop, Hall, in_seq. lia.
Qed.

Lemma land_40 b : 0 ≤ b < 128 → negb (Z.land b 0x40 =? 0) = (64 <=? b).
Proof.
  intros Hb. assert (Hall : forallb (λ i, Bool.eqb (negb (Z.land (Z.of_nat i) 0x40 =? 0))
    (64 <=? Z.of_nat i)) (seq 0 128) = true) by (vm_compute; reflexivity).
  rewrite forallb_forall in Hall. specialize (Hall (Z.to_nat b)).
  rewrite Z2Nat.id in Hall by lia. apply Bool.eqb_prop, Hall, in_seq. lia.
Qed.

(** ** The loop on a well-formed string *)

Lemma leb_value_range bs : 0 ≤ leb_value bs < 128 ^ Z.of_nat (length bs).
Proof.
  induction bs as [|b bs IH]; [simpl; lia|]. cbn [leb_value length].
  rewrite Nat2Z.inj_succ, Z.pow_succ_r by lia. pose proof (Z.mod_pos_bound b 128). lia.
Qed.

Lemma u64_shiftl_mod x k : 0 ≤ k < 64 → u64 (Z.shiftl x k) mod 2 ^ k = 0.
Proof.
  intros Hk. rewrite Z.shiftl_mul_pow2 by lia. unfold u64.
  replace 18446744073709551616 with (2 ^ k * 2 ^ (64 - k)).
  2: { rewrite <- Z.pow_add_r by lia. replace (k + (64 - k)) with 64 by lia. done. }
  assert (0 < 2 ^ k ∧ 0 < 2 ^ (64 - k)) as [H1 H2]
    by (split; apply Z.pow_pos_nonneg; lia).
  rewrite (Z.mul_comm x), Z.mul_mod_distr_l by lia.
  rewrite Z.mul_comm. apply Z_mod_mult.
Qed.

Lemma leb_accumulate val x k :
  0 ≤ k < 64 → 0 ≤ val < 2 ^ k →
  Z.lor val (u64 (Z.shiftl x k)) = u64 (val + x * 2 ^ k).
Proof.
  intros Hk Hv. rewrite (lor_disjoint _ _ k); [|lia|lia|by apply u64_shiftl_mod].
  rewrite Z.shiftl_mul_pow2 by lia.
  assert (val + u64 (x * 2 ^ k) < 18446744073709551616).
  { pose proof (u64_shiftl_mod x k Hk) as Hm. rewrite Z.shiftl_mul_pow2 in Hm by lia.
    pose proof (u64_range (x * 2 ^ k)) as [Hr1 Hr2].
    assert (18446744073709551616 = 2 ^ k * 2 ^ (64 - k)) as E.
    { rewrite <- Z.pow_add_r by lia. by replace (k + (64 - k)) with 64 by lia. }
    apply Z.mod_divide in Hm as [q Hq]; [|lia].
    rewrite Hq in *. rewrite E in *. generalize dependent (2 ^ (64 - k)). intros Q.
    generalize dependent (2 ^ k). intros P. intros. clear - Hv Hr2.
    assert (q < Q) by nia. nia. }
  rewrite <- u64_add_r. symmetry. apply u64_small.
  pose proof (u64_range (x * 2 ^ k)). unfold is_u64 in *. lia.
Qed.

Lemma leb_shape_byte b bs : leb_shape (b :: bs) → 0 ≤ b < 256.
Proof. destruct bs; simpl; lia. Qed.

Lemma leb_loop_spec bs : ∀ fuel k m a val,
  leb_shape bs → bytes_at m a bs →
  Z.of_nat k + Z.of_nat (length bs) ≤ 10 → (length bs ≤ fuel)%nat →
  is_u64 a → 0 ≤ val < 2 ^ (7 * Z.of_nat k) →
  leb_loop fuel m val (7 * Z.of_nat k) a =
    (Ok (u64 (val + leb_value bs * 2 ^ (7 * Z.of_nat k)),
         7 * (Z.of_nat k + Z.of_nat (length bs)), List.last bs 0),
     u64 (a + Z.of_nat (length bs))).
Proof.
  induction bs as [|b bs IH]; intros fuel k m a val Hs Hm Hk Hf Ha Hv; [done|].
  destruct fuel as [|fuel]; [simpl in Hf; lia|]. cbn [length] in Hk, Hf.
  pose proof (leb_shape_byte _ _ Hs) as Hb. destruct Hm as (Hm1 & Hm2 & Hm3).
  cbn [leb_loop]. mred. rewrite (readu8_byte m a b) by done.
  destruct (Z.leb_spec 64 (7 * Z.of_nat k)); [lia|].
  rewrite land_7f, leb_accumulate, land_80 by lia.
  rewrite (u64_small (7 * Z.of_nat k + 7)) by (unfold is_u64; lia).
  destruct bs as [|b' bs].
  - simpl in Hs. destruct (Z.ltb_spec b 128); [|lia]. cbn [length List.last].
    replace (leb_value [b]) with (b mod 128) by (simpl; lia).
    repeat f_equal; lia.
  - destruct Hs as [Hb' Hs]. destruct (Z.ltb_spec b 128); [lia|].
    replace (7 * Z.of_nat k + 7) with (7 * Z.of_nat (S k)) by lia.
    assert (Hpow : 2 ^ (7 * Z.of_nat (S k)) = 128 * 2 ^ (7 * Z.of_nat k)).
    { replace (7 * Z.of_nat (S k)) with (7 + 7 * Z.of_nat k) by lia.
      by rewrite Z.pow_add_r by lia. }
    assert (Hlt : val + b mod 128 * 2 ^ (7 * Z.of_nat k) < 2 ^ (7 * Z.of_nat (S k))).
    { pose proof (Z.mod_pos_bound b 128). nia. }
    assert (H63 : 2 ^ (7 * Z.of_nat (S k)) ≤ 2 ^ 63)
      by (apply Z.pow_le_mono_r; cbn [length] in Hk; lia).
    change (2 ^ 63) with 9223372036854775808 in H63.
    rewrite (u64_small (val + _)) by (unfold is_u64; pose proof (Z.mod_pos_bound b 128); nia).
    rewrite (IH fuel (S k) m (u64 (a + 1))) by
      (first [done | apply u64_range | cbn [length] in *; lia
             | pose proof (Z.mod_pos_bound b 128); nia]).
    rewrite Hpow, u64_add_l. cbn [leb_value length].
    repeat match goal with |- (_, _) = (_, _) => f_equal | |- Ok _ = Ok _ => f_equal end;
      try (cbn [length]; lia); f_equal; cbn [length]; try lia; ring.
Qed.

Lemma last_byte bs : leb_shape bs → 0 ≤ List.last bs 0 < 128.
Proof.
  induction bs as [|b bs IH]; [done|]. destruct bs; simpl in *; [lia|tauto].
Qed.

Lemma uleb_read_spec bs m a :
  leb_shape bs → bytes_at m a bs → (length bs ≤ 10)%nat → is_u64 a →
  dwarf_read_uleb128 m a = (Ok (u64 (leb_value bs)), u64 (a + Z.of_nat (length bs))).
Proof.
  intros Hs Hm Hl Ha. unfold dwarf_read_uleb128. mred.
  pose proof (leb_loop_spec bs leb_fuel 0 m a 0) as H.
  change (7 * Z.of_nat 0) with 0 in H. rewrite H by (done || unfold leb_fuel; lia).
  simpl. by rewrite Z.mul_1_r.
Qed.

Lemma sleb_read_spec bs m a :
  leb_shape bs → bytes_at m a bs → (length bs ≤ 10)%nat → is_u64 a →
  dwarf_read_sleb128 m a = (Ok (u64 (sleb_value bs)), u64 (a + Z.of_nat (length bs))).
Proof.
  intros Hs Hm Hl Ha. unfold dwarf_read_sleb128. mred.
  pose proof (leb_loop_spec bs leb_fuel 0 m a 0) as H.
  change (7 * Z.of_nat 0) with 0 in H. rewrite H by (done || unfold leb_fuel; lia).
  rewrite land_40 by by apply last_byte. clear H.
  change (2 ^ 0) with 1. change (Z.of_nat 0) with 0.
  rewrite Z.mul_1_r, !Z.add_0_l. unfold sleb_value.
  destruct (Z.leb_spec 64 (List.last bs 0)).
  2: { rewrite andb_false_r, Z.sub_0_r. done. }
  rewrite andb_true_r. destruct (Z.ltb_spec (7 * Z.of_nat (length bs)) (8 * 8)).
  - cbn [negb andb]. f_equal. f_equal.
    assert (Hv : 0 ≤ leb_value bs < 2 ^ (7 * Z.of_nat (length bs))).
    { rewrite Z.pow_mul_r by lia. apply leb_value_range. }
    assert (2 ^ (7 * Z.of_nat (length bs)) ≤ 2 ^ 63) by (apply Z.pow_le_mono_r; lia).
    change (2 ^ 63) with 9223372036854775808 in *.
    rewrite (u64_small (leb_value bs)) by (unfold is_u64; lia).
    rewrite leb_accumulate by lia. rewrite <- u64_add_r, u64_mul_l, u64_add_r.
    f_equal. change 128 with (2 ^ 7). rewrite <- Z.pow_mul_r by lia. lia.
  - assert (length bs = 10%nat) as -> by lia. f_equal. f_equal. unfold u64.
    rewrite <- Zminus_mod_idemp_r. change (128 ^ Z.of_nat 10 mod _) with 0.
    by rewrite Z.sub_0_r.
Qed.

(** ** The encoders *)

Lemma leb_value_last b : 0 ≤ b < 128 → leb_value [b] = b.
Proof. intros. simpl. rewrite Z.mod_small; lia. Qed.

Lemma uleb_enc_shape f n : (0 < f)%nat → 0 ≤ n < 128 ^ Z.of_nat f →
  leb_shape (uleb_enc f n) ∧ leb_value (uleb_enc f n) = n.
Proof.
  revert n. induction f as [|f IH]; intros n Hf Hn; [lia|].
  rewrite Nat2Z.inj_succ, Z.pow_succ_r in Hn by lia. cbn [uleb_enc].
  destruct (Z.ltb_spec n 128); [split; [simpl; lia|apply leb_value_last; lia]|].
  destruct f as [|f]; [simpl in Hn; lia|].
  destruct (IH (n / 128)) as [IH1 IH2]; [lia|split; [dlia|apply Z.div_lt_upper_bound; lia]|].
  pose proof (Z.mod_pos_bound n 128). split.
  - destruct (uleb_enc (S f) (n / 128)); [done|split; [lia|done]].
  - cbn [leb_value]. rewrite IH2. dlia.
Qed.

Lemma length_uleb_enc f n : (length (uleb_enc f n) ≤ f)%nat.
Proof. revert n. induction f as [|f IH]; intros n; simpl; [lia|]. case_match; simpl; [lia|]. specialize (IH (n / 128)). lia. Qed.

Lemma length_sleb_enc f n : (length (sleb_enc f n) ≤ f)%nat.
Proof. revert n. induction f as [|f IH]; intros n; simpl; [lia|]. case_match; simpl; [lia|]. specialize (IH (n / 128)). lia. Qed.

Lemma sleb_value_cons b bs :
  bs ≠ [] → sleb_value (b :: bs) = b mod 128 + 128 * sleb_value bs.
Proof.
  intros Hbs. unfold sleb_value. cbn [leb_value length].
  rewrite Nat2Z.inj_succ, Z.pow_succ_r by lia.
  destruct bs; [done|]. cbn [List.last]. case_match; lia.
Qed.

Lemma sleb_enc_shape f n :
  (0 < f)%nat → - (64 * 128 ^ Z.of_nat (f - 1)) ≤ n < 64 * 128 ^ Z.of_nat (f - 1) →
  leb_shape (sleb_enc f n) ∧ sleb_value (sleb_enc f n) = n.
Proof.
  revert n. induction f as [|f IH]; intros n Hf Hn; [lia|].
  cbn [sleb_enc]. replace (S f - 1)%nat with f in Hn by lia.
  destruct (Z.leb_spec (-64) n), (Z.ltb_spec n 64); simpl andb; cbn match.
  1: { split; [simpl; apply Z.mod_pos_bound; lia|].
    unfold sleb_value. cbn [length List.last].
    rewrite leb_value_last by (apply Z.mod_pos_bound; lia).
    change (128 ^ Z.of_nat 1) with 128.
    destruct (Z.leb_spec 64 (n mod 128)); dlia. }
  all: destruct f as [|f]; [change (128 ^ Z.of_nat 0) with 1 in Hn; lia|].
  all: destruct (IH (n / 128)) as [IH1 IH2]; [lia| |].
  all: replace (S f - 1)%nat with f in * by lia.
  all: rewrite ?Nat2Z.inj_succ, ?Z.pow_succ_r in Hn by lia.
  1,3,5: split; [apply Z.div_le_lower_bound|apply Z.div_lt_upper_bound]; lia.
  all: assert (sleb_enc (S f) (n / 128) ≠ []) by (by intros E; rewrite E in IH1).
  all: pose proof (Z.mod_pos_bound n 128).
  all: rewrite sleb_value_cons, IH2 by done.
  all: split; [|dlia].
  all: destruct (sleb_enc (S f) (n / 128)); [done|split; [lia|done]].
Qed.

Lemma uleb_encode_spec n : is_u64 n →
  leb_shape (uleb_encode n) ∧ leb_value (uleb_encode n) = n ∧
  (length (uleb_encode n) ≤ 10)%nat.
Proof.
  intros Hn. unfold uleb_encode. destruct (uleb_enc_shape 10 n); [lia|unfold is_u64 in Hn; simpl; lia|].
  auto using length_uleb_enc.
Qed.

Lemma sleb_encode_spec n : - 2 ^ 63 ≤ n < 2 ^ 63 →
  leb_shape (sleb_encode n) ∧ sleb_value (sleb_encode n) = n ∧
  (length (sleb_encode n) ≤ 10)%nat.
Proof.
  intros Hn. unfold sleb_encode. destruct (sleb_enc_shape 10 n); [lia|simpl in *; lia|].
  auto using length_sleb_enc.
Qed.

Lemma uleb_read_encode m a n :
  is_u64 n → is_u64 a → bytes_at m a (uleb_encode n) →
  dwarf_read_uleb128 m a = (Ok n, u64 (a + Z.of_nat (length (uleb_encode n)))).
Proof.
  intros Hn Ha Hm. destruct (uleb_encode_spec n Hn) as (Hs & Hv & Hl).
  by rewrite (uleb_read_spec _ _ _ Hs), Hv, (u64_small n).
Qed.

Lemma sleb_read_encode m a n :
  - 2 ^ 63 ≤ n < 2 ^ 63 → is_u64 a → bytes_at m a (sleb_encode n) →
  dwarf_read_sleb128 m a = (Ok (u64 n), u64 (a + Z.of_nat (length (sleb_encode n)))).
Proof.
  intros Hn Ha Hm. destruct (sleb_encode_spec n Hn) as (Hs & Hv & Hl).
  by rewrite (sleb_read_spec _ _ _ Hs), Hv.
Qed.

Lemma leb_value_last_le bs : leb_shape bs → List.last bs 0 ≤ leb_value bs.
Proof.
  induction bs as [|b bs IH]; [done|]. intros Hs. destruct bs as [|b' bs].
  - simpl in *. rewrite Z.mod_small; lia.
  - destruct Hs as [_ Hs]. specialize (IH Hs). cbn [leb_value List.last] in *.
    pose proof (Z.mod_pos_bound b 128). pose proof (leb_value_range (b' :: bs)) as [? _].
    cbn [leb_value] in *. lia.
Qed.

(** More fuel than needed does not change an encoding. *)
Lemma sleb_enc_fuel f n :
  (0 < f)%nat → - (64 * 128 ^ Z.of_nat (f - 1)) ≤ n < 64 * 128 ^ Z.of_nat (f - 1) →
  sleb_enc (S f) n = sleb_enc f n.
Proof.
  revert n. induction f as [|f IH]; intros n Hf Hn; [lia|].
  replace (S f - 1)%nat with f in Hn by lia.
  change (sleb_enc (S (S f)) n) with
    (if (-64 <=? n) && (n <? 64) then [n mod 128]
     else (128 + n mod 128) :: sleb_enc (S f) (n / 128)).
  cbn [sleb_enc].
  destruct (Z.leb_spec (-64) n), (Z.ltb_spec n 64); simpl andb; cbn match; try done.
  all: destruct f as [|f]; [change (128 ^ Z.of_nat 0) with 1 in Hn; lia|].
  all: f_equal; apply (IH (n / 128)); [lia|].
  all: replace (S f - 1)%nat with f by lia.
  all: rewrite ?Nat2Z.inj_succ, ?Z.pow_succ_r in Hn by lia.
  all: split; [apply Z.div_le_lower_bound|apply Z.div_lt_upper_bound]; lia.
Qed.

(** ** Every input *)

(** Close the case of a reader that stopped. *)
Ltac stopped := split_and!; intros; first [done | congruence].

Lemma leb_loop_total fuel : ∀ (k : nat) m val a r a',
  (k ≤ 10)%nat → (11 - k ≤ fuel)%nat → is_u64 val → is_u64 a →
  leb_loop fuel m val (7 * Z.of_nat k) a = (r, a') →
  r ≠ Stop NoFuel ∧ (∀ e, r ≠ Err e) ∧
  (∀ v s b, r = Ok (v, s, b) → is_u64 v ∧ is_u64 s ∧
     ∃ n, (1 ≤ n ≤ 10 - Z.of_nat k) ∧ a' = u64 (a + n)).
Proof.
  induction fuel as [|fuel IH]; intros k m val a r a' Hk Hf Hv Ha; [lia|].
  cbn [leb_loop]. mred.
  destruct (dwarf_readu8 m a) as [[b|e|t] a1] eqn:Hb.
  2: by apply read_value_no_err in Hb.
  2: { intros [= <- <-]. apply read_value_Stop in Hb. stopped. }
  apply read_value_Ok in Hb as (? & _ & _ & ->).
  destruct (Z.leb_spec 64 (7 * Z.of_nat k)); [intros [= <- <-]; stopped|].
  rewrite (u64_small (7 * Z.of_nat k + 7)) by (unfold is_u64; lia).
  assert (Hv' : is_u64 (Z.lor val (u64 (Z.shiftl (Z.land b 127) (7 * Z.of_nat k))))).
  { apply is_u64_lor; [done|apply u64_range]. }
  case_match.
  - intros [= <- <-]. split_and!; [done|done|]. intros ? ? ? [= <- <- <-].
    split_and!; [done|unfold is_u64; lia|]. exists 1. split; [lia|done].
  - replace (7 * Z.of_nat k + 7) with (7 * Z.of_nat (S k)) by lia. intros H'.
    apply IH in H'; [|lia|lia|done|apply u64_range].
    destruct H' as (H1 & H2 & H3). split_and!; [done|done|].
    intros v s' b' ->. destruct (H3 _ _ _ eq_refl) as (? & ? & n & ? & ->).
    split_and!; [done|done|]. exists (n + 1). split; [lia|].
    rewrite u64_add_l. f_equal. lia.
Qed.

(** The counter is 32 bits wide in one file and 64 in the other. *)
Lemma shift_width s : 0 ≤ s < 64 → u32 (s + 7) = u64 (s + 7).
Proof. intros. unfold u32, u64. by rewrite !Z.mod_small by lia. Qed.

Lemma uleb_loop_eq fuel : ∀ m val shift a,
  0 ≤ shift < 4294967296 →
  read_uleb_loop fuel m val shift a =
  (r ← leb_loop fuel m val shift; mret (r.1.1) : M Z Z) a.
Proof.
  induction fuel as [|fuel IH]; intros m val shift a Hs; [done|].
  cbn [read_uleb_loop leb_loop]. mred. destruct (dwarf_readu8 m a) as [[b|e|t] a1]; [|done..].
  destruct (Z.leb_spec 64 shift); [done|]. case_match; [done|].
  rewrite shift_width by lia. apply IH. unfold u64. dlia.
Qed.

Lemma sleb_loop_eq fuel : ∀ m val shift a,
  0 ≤ shift < 4294967296 →
  read_sleb_loop fuel m val shift a = leb_loop fuel m val shift a.
Proof.
  induction fuel as [|fuel IH]; intros m val shift a Hs; [done|].
  cbn [read_sleb_loop leb_loop]. mred. destruct (dwarf_readu8 m a) as [[b|e|t] a1]; [|done..].
  destruct (Z.leb_spec 64 shift); [done|]. rewrite shift_width by lia.
  case_match; [done|]. apply IH. unfold u64. dlia.
Qed.

Lemma uleb_read_total m a r a' :
  is_u64 a → dwarf_read_uleb128 m a = (r, a') →
  r ≠ Stop NoFuel ∧ (∀ e, r ≠ Err e) ∧
  (∀ v, r = Ok v → is_u64 v ∧ ∃ n, 1 ≤ n ≤ 10 ∧ a' = u64 (a + n)).
Proof.
  intros Ha. unfold dwarf_read_uleb128. mred.
  destruct (leb_loop leb_fuel m 0 0 a) as [r0 a0] eqn:E.
  apply (leb_loop_total _ 0) in E; [|unfold leb_fuel; lia|unfold leb_fuel; lia|done|done].
  destruct E as (H1 & H2 & H3). destruct r0 as [[[v s] b]|e|t]; intros [= <- <-].
  - split_and!; [done|done|]. intros ? [= <-]. simpl.
    destruct (H3 _ _ _ eq_refl) as (? & ? & n & ? & ->). eauto with lia.
  - stopped.
  - stopped.
Qed.

Lemma sleb_read_total m a r a' :
  is_u64 a → dwarf_read_sleb128 m a = (r, a') →
  r ≠ Stop NoFuel ∧ (∀ e, r ≠ Err e) ∧
  (∀ v, r = Ok v → is_u64 v ∧ ∃ n, 1 ≤ n ≤ 10 ∧ a' = u64 (a + n)).
Proof.
  intros Ha. unfold dwarf_read_sleb128. mred.
  destruct (leb_loop leb_fuel m 0 0 a) as [r0 a0] eqn:E.
  apply (leb_loop_total _ 0) in E; [|unfold leb_fuel; lia|unfold leb_fuel; lia|done|done].
  destruct E as (H1 & H2 & H3). destruct r0 as [[[v s] b]|e|t].
  - destruct (H3 _ _ _ eq_refl) as (? & ? & n & ? & ->).
    case_match; intros [= <- <-]; split_and!; try done; intros ? [= <-].
    all: split; [|eauto with lia]; auto using is_u64_lor, u64_range.
  - intros [= <- <-]. stopped.
  - intros [= <- <-]. stopped.
Qed.

Lemma no_undef_leb_loop fuel m val shift : no_undef (leb_loop fuel m val shift).
Proof.
  revert val shift. induction fuel as [|fuel IH]; intros val shift; [done|]. cbn [leb_loop].
  apply no_undef_bind; [apply no_undef_read_value|]. intros b.
  repeat case_match; [done|done|apply IH].
Qed.

Lemma no_undef_uleb m : no_undef (dwarf_read_uleb128 m).
Proof. apply no_undef_bind; [apply no_undef_leb_loop|done]. Qed.

Lemma no_undef_sleb m : no_undef (dwarf_read_sleb128 m).
Proof.
  apply no_undef_bind; [apply no_undef_leb_loop|]. intros [[v sh] b]. by case_match.
Qed.

#[export] Hint Resolve no_undef_uleb no_undef_sleb : unw.

(** ** Properties *)

(** C13. The unsigned reader inverts the unsigned encoder and stops right after
    the encoded number: for every 64-bit value placed anywhere in memory. *)
Theorem uleb128_roundtrip (m : memory) (a n : Z) :
  is_u64 n → is_u64 a → bytes_at m a (uleb_encode n) →
  dwarf_read_uleb128 m a = (Ok n, u64 (a + Z.of_nat (length (uleb_encode n)))).
Proof. apply uleb_read_encode. Qed.

Lemma uleb128_roundtrip_witness :
  dwarf_read_uleb128 (put_bytes ∅ 0x1000 (uleb_encode 624485)) 0x1000
  = (Ok 624485, 0x1003).
Proof.
  rewrite (uleb128_roundtrip _ 0x1000 624485); [reflexivity|done|done|].
  decided.
Defined.

(** C14. The signed reader yields the two's complement of the encoded number. *)
Theorem sleb128_roundtrip (m : memory) (a n : Z) :
  - 2 ^ 63 ≤ n < 2 ^ 63 → is_u64 a → bytes_at m a (sleb_encode n) →
  dwarf_read_sleb128 m a = (Ok (u64 n), u64 (a + Z.of_nat (length (sleb_encode n)))).
Proof. apply sleb_read_encode. Qed.

Lemma sleb128_roundtrip_witness :
  dwarf_read_sleb128 (put_bytes ∅ 0x1000 (sleb_encode (-123456))) 0x1000
  = (Ok (2 ^ 64 - 123456), 0x1003).
Proof.
  rewrite (sleb128_roundtrip _ 0x1000 (-123456)); [reflexivity|lia|done|].
  decided.
Defined.

(** [_ReadULEB] and [_ReadSLEB] agree with the DWARF readers on every
    memory and address: value, final pointer and stopping behaviour. *)
Lemma leb_readers_agree (m : memory) (a : Z) :
  _ReadULEB m a = dwarf_read_uleb128 m a ∧ _ReadSLEB m a = dwarf_read_sleb128 m a.
Proof.
  split; [apply uleb_loop_eq; lia|].
  unfold _ReadSLEB, dwarf_read_sleb128. mred. by rewrite sleb_loop_eq by lia.
Qed.
