(* ===== verification/Defs.v ===== *)
(** * The data of the unwinder

    Constants, enumerations and structures of [include/dwarf.h],
    [include/libunwind-common.h], [include/libunwind-x86_64.h],
    [include/libunwind-dynamic.h], [include/tdep-x86_64/libunwind_i.h],
    [unwind_i.h] and [ucontext_i.h].  A C structure is a record, an enumeration
    an inductive type (or [Z] constants where the code computes with arbitrary
    integers), and [set_f] is the assignment to field [f]. *)
From S2P Require Export Memory.

(** ** Registers *)

(** [src/include/libunwind-x86_64.h:55-106], [x86_64_regnum_t] *)
Inductive x86_64_regnum_t :=
  | UNW_X86_64_RAX | UNW_X86_64_RDX | UNW_X86_64_RCX | UNW_X86_64_RBX
  | UNW_X86_64_RSI | UNW_X86_64_RDI | UNW_X86_64_RBP | UNW_X86_64_RSP
  | UNW_X86_64_R8 | UNW_X86_64_R9 | UNW_X86_64_R10 | UNW_X86_64_R11
  | UNW_X86_64_R12 | UNW_X86_64_R13 | UNW_X86_64_R14 | UNW_X86_64_R15
  | UNW_X86_64_RIP
  | UNW_X86_64_CFA.

#[export] Instance x86_64_regnum_eq_dec : EqDecision x86_64_regnum_t.
Proof. solve_decision. Defined.

(** The enumerators in the order of their values. *)
Definition all_regnums : list x86_64_regnum_t :=
  [UNW_X86_64_RAX; UNW_X86_64_RDX; UNW_X86_64_RCX; UNW_X86_64_RBX;
   UNW_X86_64_RSI; UNW_X86_64_RDI; UNW_X86_64_RBP; UNW_X86_64_RSP;
   UNW_X86_64_R8; UNW_X86_64_R9; UNW_X86_64_R10; UNW_X86_64_R11;
   UNW_X86_64_R12; UNW_X86_64_R13; UNW_X86_64_R14; UNW_X86_64_R15;
   UNW_X86_64_RIP; UNW_X86_64_CFA].

(** The enumerator with a given value, if there is one. *)
Definition regnum_of_Z (z : Z) : option x86_64_regnum_t :=
  if z <? 0 then None else all_regnums !! Z.to_nat z.

(** The DWARF columns.  [src/unwind_i.h:37-37], [RAX] *)
Definition RAX : Z := 0.
(** [src/unwind_i.h:38-38], [RDX] *)
Definition RDX : Z := 1.
(** [src/unwind_i.h:39-39], [RCX] *)
Definition RCX : Z := 2.
(** [src/unwind_i.h:40-40], [RBX] *)
Definition RBX : Z := 3.
(** [src/unwind_i.h:41-41], [RSI] *)
Definition RSI : Z := 4.
(** [src/unwind_i.h:42-42], [RDI] *)
Definition RDI : Z := 5.
(** [src/unwind_i.h:43-43], [RBP] *)
Definition RBP : Z := 6.
(** [src/unwind_i.h:44-44], [RSP] *)
Definition RSP : Z := 7.
(** [src/unwind_i.h:47-47], [R10] *)
Definition R10 : Z := 10.
(** [src/unwind_i.h:53-53], [RIP] *)
Definition RIP : Z := 16.

(** [src/include/libunwind-common.h:65-72], [unw_frame_regnum_t] *)
Definition UNW_REG_IP : Z := 16.
(** [src/include/libunwind-common.h:68-68], [UNW_REG_SP] *)
Definition UNW_REG_SP : Z := 7.
(** [src/include/libunwind-common.h:69-69], [UNW_REG_EH] *)
Definition UNW_REG_EH : Z := 0.
(** [src/include/libunwind-common.h:70-70], [UNW_REG_LAST] *)
Definition UNW_REG_LAST : Z := 16.

(** [CONFIG_MSABI_SUPPORT] is not defined by the build.
    [src/include/tdep-x86_64/dwarf-config.h:34-39], [DWARF_NUM_PRESERVED_REGS] *)
Definition DWARF_NUM_PRESERVED_REGS : Z := 17.

(** The map has one entry per preserved register, each register mapping to
    the unwind register of the same number.
    [src/Gglobal.c:36-73], [dwarf_to_unw_regnum_map] *)
Definition dwarf_to_unw_regnum_map : list Z :=
  [0; 1; 2; 3; 4; 5; 6; 7; 8; 9; 10; 11; 12; 13; 14; 15; 16].

(** The bound of the macro is [<=], so the argument 17 reads one element past
    the end of the map.  [src/include/dwarf_i.h:18-24], [dwarf_to_unw_regnum] *)
Definition dwarf_to_unw_regnum (reg : Z) : res Z :=
  if reg <=? DWARF_NUM_PRESERVED_REGS then aread dwarf_to_unw_regnum_map reg
  else Ok 0.

(** The offsets of the saved registers in a [ucontext_t].
    [src/ucontext_i.h:47-80], [UC_MCONTEXT_GREGS] *)
Definition uc_mcontext_gregs (reg : x86_64_regnum_t) : option Z :=
  match reg with
  | UNW_X86_64_RDI => Some 0x18
  | UNW_X86_64_RSI => Some 0x20
  | UNW_X86_64_RDX => Some 0x28
  | UNW_X86_64_RCX => Some 0x30
  | UNW_X86_64_R8 => Some 0x38
  | UNW_X86_64_R9 => Some 0x40
  | UNW_X86_64_RAX => Some 0x48
  | UNW_X86_64_RBX => Some 0x50
  | UNW_X86_64_RBP => Some 0x58
  | UNW_X86_64_R10 => Some 0x60
  | UNW_X86_64_R11 => Some 0x68
  | UNW_X86_64_R12 => Some 0x70
  | UNW_X86_64_R13 => Some 0x78
  | UNW_X86_64_R14 => Some 0x80
  | UNW_X86_64_R15 => Some 0x88
  | UNW_X86_64_RIP => Some 0xb0
  | UNW_X86_64_RSP => Some 0xc8
  | UNW_X86_64_CFA => None
  end.

(** [src/ucontext_i.h:57-57], [UC_MCONTEXT_GREGS_RBP] *)
Definition UC_MCONTEXT_GREGS_RBP : Z := 0x58.
(** [src/ucontext_i.h:69-69], [UC_MCONTEXT_GREGS_RIP] *)
Definition UC_MCONTEXT_GREGS_RIP : Z := 0xb0.
(** [src/ucontext_i.h:72-72], [UC_MCONTEXT_GREGS_RSP] *)
Definition UC_MCONTEXT_GREGS_RSP : Z := 0xc8.

(** ** Unwind information *)

(** The format field is an [int] that also takes the value [-1].
    [src/include/libunwind-dynamic.h:74-81], [unw_dyn_info_format_t] *)
Definition UNW_INFO_FORMAT_DYNAMIC : Z := 0.
(** [src/include/libunwind-dynamic.h:77-77], [UNW_INFO_FORMAT_TABLE] *)
Definition UNW_INFO_FORMAT_TABLE : Z := 1.
(** [src/include/libunwind-dynamic.h:78-78], [UNW_INFO_FORMAT_REMOTE_TABLE] *)
Definition UNW_INFO_FORMAT_REMOTE_TABLE : Z := 2.

(** [src/include/libunwind-common.h:119-119], [UNW_PI_FLAG_DEBUG_FRAME] *)
Definition UNW_PI_FLAG_DEBUG_FRAME : Z := 32.

(** [src/include/dwarf.h:209-217], [dwarf_where_t] *)
Inductive dwarf_where_t :=
  | DWARF_WHERE_UNDEF
  | DWARF_WHERE_SAME
  | DWARF_WHERE_CFAREL
  | DWARF_WHERE_REG
  | DWARF_WHERE_EXPR.

#[export] Instance dwarf_where_eq_dec : EqDecision dwarf_where_t.
Proof. solve_decision. Defined.

(** [src/include/dwarf.h:219-224], [dwarf_save_loc_t] *)
Record dwarf_save_loc_t := SaveLoc { where_ : dwarf_where_t; sl_val : Z }.

#[export] Instance dwarf_save_loc_eq_dec : EqDecision dwarf_save_loc_t.
Proof. solve_decision. Defined.

(** [src/include/dwarf.h:236-236], [DWARF_CFA_REG_COLUMN] *)
Definition DWARF_CFA_REG_COLUMN : Z := DWARF_NUM_PRESERVED_REGS.
(** [src/include/dwarf.h:237-237], [DWARF_CFA_OFF_COLUMN] *)
Definition DWARF_CFA_OFF_COLUMN : Z := DWARF_NUM_PRESERVED_REGS + 1.

(** [next] only links the stack of remembered states, which the CFI
    interpreter keeps as a list.  [src/include/dwarf.h:239-251], [dwarf_reg_state] *)
Record dwarf_reg_state_t := RegState {
  rs_reg : list dwarf_save_loc_t;
  rs_ip : Z;
  rs_ret_addr_column : Z;
  lru_chain : Z;
  coll_chain : Z;
  rs_hint : Z;
  rs_valid : bool;
  rs_signal_frame : bool
}.

Definition set_rs_reg (x : list dwarf_save_loc_t) (r : dwarf_reg_state_t) : dwarf_reg_state_t :=
  RegState x (r.(rs_ip)) (r.(rs_ret_addr_column)) (r.(lru_chain)) (r.(coll_chain)) (r.(rs_hint)) (r.(rs_valid)) (r.(rs_signal_frame)).
Definition set_rs_ip (x : Z) (r : dwarf_reg_state_t) : dwarf_reg_state_t :=
  RegState (r.(rs_reg)) x (r.(rs_ret_addr_column)) (r.(lru_chain)) (r.(coll_chain)) (r.(rs_hint)) (r.(rs_valid)) (r.(rs_signal_frame)).
Definition set_lru_chain (x : Z) (r : dwarf_reg_state_t) : dwarf_reg_state_t :=
  RegState (r.(rs_reg)) (r.(rs_ip)) (r.(rs_ret_addr_column)) x (r.(coll_chain)) (r.(rs_hint)) (r.(rs_valid)) (r.(rs_signal_frame)).
Definition set_coll_chain (x : Z) (r : dwarf_reg_state_t) : dwarf_reg_state_t :=
  RegState (r.(rs_reg)) (r.(rs_ip)) (r.(rs_ret_addr_column)) (r.(lru_chain)) x (r.(rs_hint)) (r.(rs_valid)) (r.(rs_signal_frame)).
Definition set_rs_hint (x : Z) (r : dwarf_reg_state_t) : dwarf_reg_state_t :=
  RegState (r.(rs_reg)) (r.(rs_ip)) (r.(rs_ret_addr_column)) (r.(lru_chain)) (r.(coll_chain)) x (r.(rs_valid)) (r.(rs_signal_frame)).
Definition set_rs_valid (x : bool) (r : dwarf_reg_state_t) : dwarf_reg_state_t :=
  RegState (r.(rs_reg)) (r.(rs_ip)) (r.(rs_ret_addr_column)) (r.(lru_chain)) (r.(coll_chain)) (r.(rs_hint)) x (r.(rs_signal_frame)).

(** [src/include/dwarf.h:253-271], [dwarf_cie_info] *)
Record dwarf_cie_info_t := CieInfo {
  cie_instr_start : Z;
  cie_instr_end : Z;
  fde_instr_start : Z;
  fde_instr_end : Z;
  code_align : Z;
  data_align : Z;
  cie_ret_addr_column : Z;
  handler : Z;
  abi : Z;
  tag : Z;
  fde_encoding : Z;
  lsda_encoding : Z;
  sized_augmentation : bool;
  have_abi_marker : bool;
  signal_frame : bool
}.

Definition set_cie_instr_start (x : Z) (r : dwarf_cie_info_t) : dwarf_cie_info_t :=
  CieInfo x (r.(cie_instr_end)) (r.(fde_instr_start)) (r.(fde_instr_end)) (r.(code_align)) (r.(data_align)) (r.(cie_ret_addr_column)) (r.(handler)) (r.(abi)) (r.(tag)) (r.(fde_encoding)) (r.(lsda_encoding)) (r.(sized_augmentation)) (r.(have_abi_marker)) (r.(signal_frame)).
Definition set_cie_instr_end (x : Z) (r : dwarf_cie_info_t) : dwarf_cie_info_t :=
  CieInfo (r.(cie_instr_start)) x (r.(fde_instr_start)) (r.(fde_instr_end)) (r.(code_align)) (r.(data_align)) (r.(cie_ret_addr_column)) (r.(handler)) (r.(abi)) (r.(tag)) (r.(fde_encoding)) (r.(lsda_encoding)) (r.(sized_augmentation)) (r.(have_abi_marker)) (r.(signal_frame)).
Definition set_fde_instr_start (x : Z) (r : dwarf_cie_info_t) : dwarf_cie_info_t :=
  CieInfo (r.(cie_instr_start)) (r.(cie_instr_end)) x (r.(fde_instr_end)) (r.(code_align)) (r.(data_align)) (r.(cie_ret_addr_column)) (r.(handler)) (r.(abi)) (r.(tag)) (r.(fde_encoding)) (r.(lsda_encoding)) (r.(sized_augmentation)) (r.(have_abi_marker)) (r.(signal_frame)).
Definition set_fde_instr_end (x : Z) (r : dwarf_cie_info_t) : dwarf_cie_info_t :=
  CieInfo (r.(cie_instr_start)) (r.(cie_instr_end)) (r.(fde_instr_start)) x (r.(code_align)) (r.(data_align)) (r.(cie_ret_addr_column)) (r.(handler)) (r.(abi)) (r.(tag)) (r.(fde_encoding)) (r.(lsda_encoding)) (r.(sized_augmentation)) (r.(have_abi_marker)) (r.(signal_frame)).
Definition set_code_align (x : Z) (r : dwarf_cie_info_t) : dwarf_cie_info_t :=
  CieInfo (r.(cie_instr_start)) (r.(cie_instr_end)) (r.(fde_instr_start)) (r.(fde_instr_end)) x (r.(data_align)) (r.(cie_ret_addr_column)) (r.(handler)) (r.(abi)) (r.(tag)) (r.(fde_encoding)) (r.(lsda_encoding)) (r.(sized_augmentation)) (r.(have_abi_marker)) (r.(signal_frame)).
Definition set_data_align (x : Z) (r : dwarf_cie_info_t) : dwarf_cie_info_t :=
  CieInfo (r.(cie_instr_start)) (r.(cie_instr_end)) (r.(fde_instr_start)) (r.(fde_instr_end)) (r.(code_align)) x (r.(cie_ret_addr_column)) (r.(handler)) (r.(abi)) (r.(tag)) (r.(fde_encoding)) (r.(lsda_encoding)) (r.(sized_augmentation)) (r.(have_abi_marker)) (r.(signal_frame)).
Definition set_cie_ret_addr_column (x : Z) (r : dwarf_cie_info_t) : dwarf_cie_info_t :=
  CieInfo (r.(cie_instr_start)) (r.(cie_instr_end)) (r.(fde_instr_start)) (r.(fde_instr_end)) (r.(code_align)) (r.(data_align)) x (r.(handler)) (r.(abi)) (r.(tag)) (r.(fde_encoding)) (r.(lsda_encoding)) (r.(sized_augmentation)) (r.(have_abi_marker)) (r.(signal_frame)).
Definition set_handler (x : Z) (r : dwarf_cie_info_t) : dwarf_cie_info_t :=
  CieInfo (r.(cie_instr_start)) (r.(cie_instr_end)) (r.(fde_instr_start)) (r.(fde_instr_end)) (r.(code_align)) (r.(data_align)) (r.(cie_ret_addr_column)) x (r.(abi)) (r.(tag)) (r.(fde_encoding)) (r.(lsda_encoding)) (r.(sized_augmentation)) (r.(have_abi_marker)) (r.(signal_frame)).
Definition set_abi (x : Z) (r : dwarf_cie_info_t) : dwarf_cie_info_t :=
  CieInfo (r.(cie_instr_start)) (r.(cie_instr_end)) (r.(fde_instr_start)) (r.(fde_instr_end)) (r.(code_align)) (r.(data_align)) (r.(cie_ret_addr_column)) (r.(handler)) x (r.(tag)) (r.(fde_encoding)) (r.(lsda_encoding)) (r.(sized_augmentation)) (r.(have_abi_marker)) (r.(signal_frame)).
Definition set_tag (x : Z) (r : dwarf_cie_info_t) : dwarf_cie_info_t :=
  CieInfo (r.(cie_instr_start)) (r.(cie_instr_end)) (r.(fde_instr_start)) (r.(fde_instr_end)) (r.(code_align)) (r.(data_align)) (r.(cie_ret_addr_column)) (r.(handler)) (r.(abi)) x (r.(fde_encoding)) (r.(lsda_encoding)) (r.(sized_augmentation)) (r.(have_abi_marker)) (r.(signal_frame)).
Definition set_fde_encoding (x : Z) (r : dwarf_cie_info_t) : dwarf_cie_info_t :=
  CieInfo (r.(cie_instr_start)) (r.(cie_instr_end)) (r.(fde_instr_start)) (r.(fde_instr_end)) (r.(code_align)) (r.(data_align)) (r.(cie_ret_addr_column)) (r.(handler)) (r.(abi)) (r.(tag)) x (r.(lsda_encoding)) (r.(sized_augmentation)) (r.(have_abi_marker)) (r.(signal_frame)).
Definition set_lsda_encoding (x : Z) (r : dwarf_cie_info_t) : dwarf_cie_info_t :=
  CieInfo (r.(cie_instr_start)) (r.(cie_instr_end)) (r.(fde_instr_start)) (r.(fde_instr_end)) (r.(code_align)) (r.(data_align)) (r.(cie_ret_addr_column)) (r.(handler)) (r.(abi)) (r.(tag)) (r.(fde_encoding)) x (r.(sized_augmentation)) (r.(have_abi_marker)) (r.(signal_frame)).
Definition set_sized_augmentation (x : bool) (r : dwarf_cie_info_t) : dwarf_cie_info_t :=
  CieInfo (r.(cie_instr_start)) (r.(cie_instr_end)) (r.(fde_instr_start)) (r.(fde_instr_end)) (r.(code_align)) (r.(data_align)) (r.(cie_ret_addr_column)) (r.(handler)) (r.(abi)) (r.(tag)) (r.(fde_encoding)) (r.(lsda_encoding)) x (r.(have_abi_marker)) (r.(signal_frame)).
Definition set_have_abi_marker (x : bool) (r : dwarf_cie_info_t) : dwarf_cie_info_t :=
  CieInfo (r.(cie_instr_start)) (r.(cie_instr_end)) (r.(fde_instr_start)) (r.(fde_instr_end)) (r.(code_align)) (r.(data_align)) (r.(cie_ret_addr_column)) (r.(handler)) (r.(abi)) (r.(tag)) (r.(fde_encoding)) (r.(lsda_encoding)) (r.(sized_augmentation)) x (r.(signal_frame)).
Definition set_signal_frame (x : bool) (r : dwarf_cie_info_t) : dwarf_cie_info_t :=
  CieInfo (r.(cie_instr_start)) (r.(cie_instr_end)) (r.(fde_instr_start)) (r.(fde_instr_end)) (r.(code_align)) (r.(data_align)) (r.(cie_ret_addr_column)) (r.(handler)) (r.(abi)) (r.(tag)) (r.(fde_encoding)) (r.(lsda_encoding)) (r.(sized_augmentation)) (r.(have_abi_marker)) x.

(** [src/include/dwarf.h:273-281], [dwarf_state_record] *)
Record dwarf_state_record_t := StateRecord {
  sr_fde_encoding : Z;
  sr_args_size : Z;
  rs_initial : dwarf_reg_state_t;
  rs_current : dwarf_reg_state_t
}.

Definition set_sr_args_size (x : Z) (r : dwarf_state_record_t) : dwarf_state_record_t :=
  StateRecord (r.(sr_fde_encoding)) x (r.(rs_initial)) (r.(rs_current)).
Definition set_rs_initial (x : dwarf_reg_state_t) (r : dwarf_state_record_t) : dwarf_state_record_t :=
  StateRecord (r.(sr_fde_encoding)) (r.(sr_args_size)) x (r.(rs_current)).
Definition set_rs_current (x : dwarf_reg_state_t) (r : dwarf_state_record_t) : dwarf_state_record_t :=
  StateRecord (r.(sr_fde_encoding)) (r.(sr_args_size)) (r.(rs_initial)) x.

(** The [void *unwind_info] of a procedure: null, a [dwarf_cie_info] object
    allocated from the pool (with its address and contents), or a
    dynamically registered [unw_dyn_info_t]. *)
Inductive unwind_info_t :=
  | UI_null
  | UI_cie (obj : Z) (dci : dwarf_cie_info_t)
  | UI_dyn (di : Z).

(** [src/include/libunwind-common.h:121-135], [unw_proc_info] *)
Record unw_proc_info_t := ProcInfo {
  start_ip : Z;
  end_ip : Z;
  lsda : Z;
  pi_handler : Z;
  gp : Z;
  flags : Z;
  format : Z;
  unwind_info_size : Z;
  unwind_info : unwind_info_t
}.

Definition set_start_ip (x : Z) (r : unw_proc_info_t) : unw_proc_info_t :=
  ProcInfo x (r.(end_ip)) (r.(lsda)) (r.(pi_handler)) (r.(gp)) (r.(flags)) (r.(format)) (r.(unwind_info_size)) (r.(unwind_info)).
Definition set_end_ip (x : Z) (r : unw_proc_info_t) : unw_proc_info_t :=
  ProcInfo (r.(start_ip)) x (r.(lsda)) (r.(pi_handler)) (r.(gp)) (r.(flags)) (r.(format)) (r.(unwind_info_size)) (r.(unwind_info)).
Definition set_lsda (x : Z) (r : unw_proc_info_t) : unw_proc_info_t :=
  ProcInfo (r.(start_ip)) (r.(end_ip)) x (r.(pi_handler)) (r.(gp)) (r.(flags)) (r.(format)) (r.(unwind_info_size)) (r.(unwind_info)).
Definition set_pi_handler (x : Z) (r : unw_proc_info_t) : unw_proc_info_t :=
  ProcInfo (r.(start_ip)) (r.(end_ip)) (r.(lsda)) x (r.(gp)) (r.(flags)) (r.(format)) (r.(unwind_info_size)) (r.(unwind_info)).
Definition set_gp (x : Z) (r : unw_proc_info_t) : unw_proc_info_t :=
  ProcInfo (r.(start_ip)) (r.(end_ip)) (r.(lsda)) (r.(pi_handler)) x (r.(flags)) (r.(format)) (r.(unwind_info_size)) (r.(unwind_info)).
Definition set_flags (x : Z) (r : unw_proc_info_t) : unw_proc_info_t :=
  ProcInfo (r.(start_ip)) (r.(end_ip)) (r.(lsda)) (r.(pi_handler)) (r.(gp)) x (r.(format)) (r.(unwind_info_size)) (r.(unwind_info)).
Definition set_format (x : Z) (r : unw_proc_info_t) : unw_proc_info_t :=
  ProcInfo (r.(start_ip)) (r.(end_ip)) (r.(lsda)) (r.(pi_handler)) (r.(gp)) (r.(flags)) x (r.(unwind_info_size)) (r.(unwind_info)).
Definition set_unwind_info_size (x : Z) (r : unw_proc_info_t) : unw_proc_info_t :=
  ProcInfo (r.(start_ip)) (r.(end_ip)) (r.(lsda)) (r.(pi_handler)) (r.(gp)) (r.(flags)) (r.(format)) x (r.(unwind_info)).
Definition set_unwind_info (x : unwind_info_t) (r : unw_proc_info_t) : unw_proc_info_t :=
  ProcInfo (r.(start_ip)) (r.(end_ip)) (r.(lsda)) (r.(pi_handler)) (r.(gp)) (r.(flags)) (r.(format)) (r.(unwind_info_size)) x.

(** What [memset] leaves in a [unw_proc_info_t]. *)
Definition zero_proc_info : unw_proc_info_t := ProcInfo 0 0 0 0 0 0 0 0 UI_null.

(** What [memset] leaves in a [dwarf_cie_info]. *)
Definition zero_cie_info : dwarf_cie_info_t :=
  CieInfo 0 0 0 0 0 0 0 0 0 0 0 0 false false false.

(** ** Cursors *)

(** The classification of a frame; the values fit the signed two-bit field.
    [src/include/tdep-x86_64/libunwind_i.h:41-48], [unw_tdep_frame_type_t] *)
Definition UNW_X86_64_FRAME_STANDARD : Z := -2.
(** [src/include/tdep-x86_64/libunwind_i.h:44-44], [UNW_X86_64_FRAME_SIGRETURN] *)
Definition UNW_X86_64_FRAME_SIGRETURN : Z := -1.
(** [src/include/tdep-x86_64/libunwind_i.h:45-45], [UNW_X86_64_FRAME_OTHER] *)
Definition UNW_X86_64_FRAME_OTHER : Z := 0.
(** [src/include/tdep-x86_64/libunwind_i.h:46-46], [UNW_X86_64_FRAME_GUESSED] *)
Definition UNW_X86_64_FRAME_GUESSED : Z := 1.

(** An assignment to a field of width [w] stores [sext w].
    [src/include/tdep-x86_64/libunwind_i.h:50-60], [unw_tdep_frame_t] *)
Record unw_tdep_frame_t := TdepFrame {
  virtual_address : Z;
  frame_type : Z;
  last_frame : Z;
  cfa_reg_rsp : Z;
  cfa_reg_offset : Z;
  rbp_cfa_offset : Z;
  rsp_cfa_offset : Z
}.

Definition set_last_frame (x : Z) (r : unw_tdep_frame_t) : unw_tdep_frame_t :=
  TdepFrame (r.(virtual_address)) (r.(frame_type)) x (r.(cfa_reg_rsp)) (r.(cfa_reg_offset)) (r.(rbp_cfa_offset)) (r.(rsp_cfa_offset)).

#[export] Instance unw_tdep_frame_eq_dec : EqDecision unw_tdep_frame_t.
Proof. solve_decision. Defined.

(** A [dwarf_loc_t] is an address ([UNW_LOCAL_ONLY] removes its type field),
    so [loc] is a list of addresses, 0 being [DWARF_NULL_LOC].  The address
    space is always the local one and [as_arg] the enclosing cursor.
    [src/include/dwarf.h:283-306], [dwarf_cursor] *)
Record dwarf_cursor_t := DwarfCursor {
  cfa : Z;
  ip : Z;
  args_size : Z;
  ret_addr_column : Z;
  eh_args : list Z;
  eh_valid_mask : Z;
  loc : list Z;
  stash_frames : bool;
  use_prev_instr : bool;
  pi_valid : bool;
  pi_is_dynamic : bool;
  pi : unw_proc_info_t;
  hint : Z;
  prev_rs : Z
}.

Definition set_cfa (x : Z) (r : dwarf_cursor_t) : dwarf_cursor_t :=
  DwarfCursor x (r.(ip)) (r.(args_size)) (r.(ret_addr_column)) (r.(eh_args)) (r.(eh_valid_mask)) (r.(loc)) (r.(stash_frames)) (r.(use_prev_instr)) (r.(pi_valid)) (r.(pi_is_dynamic)) (r.(pi)) (r.(hint)) (r.(prev_rs)).
Definition set_ip (x : Z) (r : dwarf_cursor_t) : dwarf_cursor_t :=
  DwarfCursor (r.(cfa)) x (r.(args_size)) (r.(ret_addr_column)) (r.(eh_args)) (r.(eh_valid_mask)) (r.(loc)) (r.(stash_frames)) (r.(use_prev_instr)) (r.(pi_valid)) (r.(pi_is_dynamic)) (r.(pi)) (r.(hint)) (r.(prev_rs)).
Definition set_args_size (x : Z) (r : dwarf_cursor_t) : dwarf_cursor_t :=
  DwarfCursor (r.(cfa)) (r.(ip)) x (r.(ret_addr_column)) (r.(eh_args)) (r.(eh_valid_mask)) (r.(loc)) (r.(stash_frames)) (r.(use_prev_instr)) (r.(pi_valid)) (r.(pi_is_dynamic)) (r.(pi)) (r.(hint)) (r.(prev_rs)).
Definition set_ret_addr_column (x : Z) (r : dwarf_cursor_t) : dwarf_cursor_t :=
  DwarfCursor (r.(cfa)) (r.(ip)) (r.(args_size)) x (r.(eh_args)) (r.(eh_valid_mask)) (r.(loc)) (r.(stash_frames)) (r.(use_prev_instr)) (r.(pi_valid)) (r.(pi_is_dynamic)) (r.(pi)) (r.(hint)) (r.(prev_rs)).
Definition set_eh_args (x : list Z) (r : dwarf_cursor_t) : dwarf_cursor_t :=
  DwarfCursor (r.(cfa)) (r.(ip)) (r.(args_size)) (r.(ret_addr_column)) x (r.(eh_valid_mask)) (r.(loc)) (r.(stash_frames)) (r.(use_prev_instr)) (r.(pi_valid)) (r.(pi_is_dynamic)) (r.(pi)) (r.(hint)) (r.(prev_rs)).
Definition set_eh_valid_mask (x : Z) (r : dwarf_cursor_t) : dwarf_cursor_t :=
  DwarfCursor (r.(cfa)) (r.(ip)) (r.(args_size)) (r.(ret_addr_column)) (r.(eh_args)) x (r.(loc)) (r.(stash_frames)) (r.(use_prev_instr)) (r.(pi_valid)) (r.(pi_is_dynamic)) (r.(pi)) (r.(hint)) (r.(prev_rs)).
Definition set_loc (x : list Z) (r : dwarf_cursor_t) : dwarf_cursor_t :=
  DwarfCursor (r.(cfa)) (r.(ip)) (r.(args_size)) (r.(ret_addr_column)) (r.(eh_args)) (r.(eh_valid_mask)) x (r.(stash_frames)) (r.(use_prev_instr)) (r.(pi_valid)) (r.(pi_is_dynamic)) (r.(pi)) (r.(hint)) (r.(prev_rs)).
Definition set_stash_frames (x : bool) (r : dwarf_cursor_t) : dwarf_cursor_t :=
  DwarfCursor (r.(cfa)) (r.(ip)) (r.(args_size)) (r.(ret_addr_column)) (r.(eh_args)) (r.(eh_valid_mask)) (r.(loc)) x (r.(use_prev_instr)) (r.(pi_valid)) (r.(pi_is_dynamic)) (r.(pi)) (r.(hint)) (r.(prev_rs)).
Definition set_use_prev_instr (x : bool) (r : dwarf_cursor_t) : dwarf_cursor_t :=
  DwarfCursor (r.(cfa)) (r.(ip)) (r.(args_size)) (r.(ret_addr_column)) (r.(eh_args)) (r.(eh_valid_mask)) (r.(loc)) (r.(stash_frames)) x (r.(pi_valid)) (r.(pi_is_dynamic)) (r.(pi)) (r.(hint)) (r.(prev_rs)).
Definition set_pi_valid (x : bool) (r : dwarf_cursor_t) : dwarf_cursor_t :=
  DwarfCursor (r.(cfa)) (r.(ip)) (r.(args_size)) (r.(ret_addr_column)) (r.(eh_args)) (r.(eh_valid_mask)) (r.(loc)) (r.(stash_frames)) (r.(use_prev_instr)) x (r.(pi_is_dynamic)) (r.(pi)) (r.(hint)) (r.(prev_rs)).
Definition set_pi_is_dynamic (x : bool) (r : dwarf_cursor_t) : dwarf_cursor_t :=
  DwarfCursor (r.(cfa)) (r.(ip)) (r.(args_size)) (r.(ret_addr_column)) (r.(eh_args)) (r.(eh_valid_mask)) (r.(loc)) (r.(stash_frames)) (r.(use_prev_instr)) (r.(pi_valid)) x (r.(pi)) (r.(hint)) (r.(prev_rs)).
Definition set_pi (x : unw_proc_info_t) (r : dwarf_cursor_t) : dwarf_cursor_t :=
  DwarfCursor (r.(cfa)) (r.(ip)) (r.(args_size)) (r.(ret_addr_column)) (r.(eh_args)) (r.(eh_valid_mask)) (r.(loc)) (r.(stash_frames)) (r.(use_prev_instr)) (r.(pi_valid)) (r.(pi_is_dynamic)) x (r.(hint)) (r.(prev_rs)).
Definition set_hint (x : Z) (r : dwarf_cursor_t) : dwarf_cursor_t :=
  DwarfCursor (r.(cfa)) (r.(ip)) (r.(args_size)) (r.(ret_addr_column)) (r.(eh_args)) (r.(eh_valid_mask)) (r.(loc)) (r.(stash_frames)) (r.(use_prev_instr)) (r.(pi_valid)) (r.(pi_is_dynamic)) (r.(pi)) x (r.(prev_rs)).
Definition set_prev_rs (x : Z) (r : dwarf_cursor_t) : dwarf_cursor_t :=
  DwarfCursor (r.(cfa)) (r.(ip)) (r.(args_size)) (r.(ret_addr_column)) (r.(eh_args)) (r.(eh_valid_mask)) (r.(loc)) (r.(stash_frames)) (r.(use_prev_instr)) (r.(pi_valid)) (r.(pi_is_dynamic)) (r.(pi)) (r.(hint)) x.

(** [src/include/tdep-x86_64/libunwind_i.h:81-88], [sigcontext_format] *)
Inductive sigcontext_format_t :=
  | X86_64_SCF_NONE
  | X86_64_SCF_LINUX_RT_SIGFRAME
  | X86_64_SCF_FREEBSD_SIGFRAME
  | X86_64_SCF_FREEBSD_SYSCALL.

#[export] Instance sigcontext_format_eq_dec : EqDecision sigcontext_format_t.
Proof. solve_decision. Defined.

(** The value of the enumerator. *)
Definition scf_value (f : sigcontext_format_t) : Z :=
  match f with
  | X86_64_SCF_NONE => 0
  | X86_64_SCF_LINUX_RT_SIGFRAME => 1
  | X86_64_SCF_FREEBSD_SIGFRAME => 2
  | X86_64_SCF_FREEBSD_SYSCALL => 3
  end.

(** [uc] is the address of the machine context the cursor was initialised
    from.  [src/include/tdep-x86_64/libunwind_i.h:73-92], [cursor] *)
Record cursor := Cursor {
  dwarf : dwarf_cursor_t;
  frame_info : unw_tdep_frame_t;
  sigcontext_format : sigcontext_format_t;
  sigcontext_addr : Z;
  validate : bool;
  uc : Z
}.

Definition set_dwarf (x : dwarf_cursor_t) (r : cursor) : cursor :=
  Cursor x (r.(frame_info)) (r.(sigcontext_format)) (r.(sigcontext_addr)) (r.(validate)) (r.(uc)).
Definition set_frame_info (x : unw_tdep_frame_t) (r : cursor) : cursor :=
  Cursor (r.(dwarf)) x (r.(sigcontext_format)) (r.(sigcontext_addr)) (r.(validate)) (r.(uc)).
Definition set_sigcontext_format (x : sigcontext_format_t) (r : cursor) : cursor :=
  Cursor (r.(dwarf)) (r.(frame_info)) x (r.(sigcontext_addr)) (r.(validate)) (r.(uc)).
Definition set_sigcontext_addr (x : Z) (r : cursor) : cursor :=
  Cursor (r.(dwarf)) (r.(frame_info)) (r.(sigcontext_format)) x (r.(validate)) (r.(uc)).
Definition set_validate (x : bool) (r : cursor) : cursor :=
  Cursor (r.(dwarf)) (r.(frame_info)) (r.(sigcontext_format)) (r.(sigcontext_addr)) x (r.(uc)).

(** ** The machine

    The memory the unwinder runs in, and the static cache of validated
    addresses of [Ginit.c] (its slots and the next slot to evict). *)
Record machine := Machine {
  mem : memory;
  last_good_addr : list Z;
  lga_victim : Z
}.

Definition set_mem (x : memory) (r : machine) : machine :=
  Machine x (r.(last_good_addr)) (r.(lga_victim)).
Definition set_last_good_addr (x : list Z) (r : machine) : machine :=
  Machine (r.(mem)) x (r.(lga_victim)).
Definition set_lga_victim (x : Z) (r : machine) : machine :=
  Machine (r.(mem)) (r.(last_good_addr)) x.

(** What most routines act on: the machine and the cursor they were given. *)
Record ustate := UState { mach : machine; cur : cursor }.

Definition set_mach (x : machine) (s : ustate) : ustate := UState x (s.(cur)).
Definition set_cur (x : cursor) (s : ustate) : ustate := UState (s.(mach)) x.

(** Update the DWARF part of the cursor. *)
Definition on_dwarf (f : dwarf_cursor_t → dwarf_cursor_t) (s : ustate) : ustate :=
  set_cur (set_dwarf (f (s.(cur).(dwarf))) (s.(cur))) s.
