(* ===== verification/Names.v ===== *)
(** * Names and messages

    The texts for registers ([regname.c]) and for error codes ([strerror.c]). *)
From S2P Require Export Defs.
Open Scope string_scope.
Open Scope Z_scope.

(** [src/regname.c:28-47], [regname] *)
Definition regname : list string :=
  ["RAX"; "RDX"; "RCX"; "RBX"; "RSI"; "RDI"; "RBP"; "RSP"; "R8"; "R9"; "R10"; "R11"; "R12";
   "R13"; "R14"; "R15"; "RIP"]%string.

(** A negative number passes the test and reads before the table.
    [src/regname.c:49-56], [unw_regname] *)
Definition unw_regname (reg : Z) : res string :=
  if reg <? Z.of_nat (length regname) then aread regname reg else Ok "???"%string.

(** The value of an enumerator of [unw_error_t].
    [src/include/libunwind-common.h:42-56], [unw_error_t] *)
Definition error_code (e : unw_error) : Z :=
  match e with
  | UNW_ESUCCESS => 0 | UNW_EUNSPEC => 1 | UNW_ENOMEM => 2 | UNW_EBADREG => 3
  | UNW_EREADONLYREG => 4 | UNW_ESTOPUNWIND => 5 | UNW_EINVALIDIP => 6 | UNW_EBADFRAME => 7
  | UNW_EINVAL => 8 | UNW_EBADVERSION => 9 | UNW_ENOINFO => 10
  end.

(** What a routine of the library returns as an [int]: a value that is not
    negative, or a negated code. *)
Definition return_code (r : res Z) : option Z :=
  match r with Ok n => Some n | Err e => Some (- error_code e) | Stop _ => None end.

Definition all_errors : list unw_error :=
  [UNW_ESUCCESS; UNW_EUNSPEC; UNW_ENOMEM; UNW_EBADREG; UNW_EREADONLYREG; UNW_ESTOPUNWIND;
   UNW_EINVALIDIP; UNW_EBADFRAME; UNW_EINVAL; UNW_EBADVERSION; UNW_ENOINFO].

(** [(unw_error_t) -err_code]: the enumeration is unsigned; negating the least
    [int] overflows.  [None] is a value without a name.
    [src/strerror.c:34-35], [unw_strerror] *)
Definition error_of_code (err_code : Z) : res (option unw_error) :=
  if err_code =? -2147483648 then Stop Undef
  else let error := u32 (- err_code) in
       Ok (List.find (λ e, error_code e =? error) all_errors).

(** [src/strerror.c:30-51], [unw_strerror] *)
Definition unw_strerror (err_code : Z) : res string :=
  error ← error_of_code err_code;
  Ok match error with
     | Some UNW_ESUCCESS => "no error"
     | Some UNW_EUNSPEC => "unspecified (general) error"
     | Some UNW_ENOMEM => "out of memory"
     | Some UNW_EBADREG => "bad register number"
     | Some UNW_EREADONLYREG => "attempt to write read-only register"
     | Some UNW_ESTOPUNWIND => "stop unwinding"
     | Some UNW_EINVALIDIP => "invalid IP"
     | Some UNW_EBADFRAME => "bad frame"
     | Some UNW_EINVAL => "unsupported operation or bad value"
     | Some UNW_EBADVERSION => "unwind info has unsupported version"
     | Some UNW_ENOINFO => "no unwind info found"
     | None => "invalid error code"
     end%string.

(** The message identifies the code, and a code that is not one has the message
    that says so. *)
Lemma strerror_faithful (c c' : Z) (s : string) :
  -2147483648 < c ≤ 2147483647 → -2147483648 < c' ≤ 2147483647 →
  unw_strerror c = Ok s → unw_strerror c' = Ok s → s ≠ "invalid error code"%string → c = c'.
Proof.
  assert (H : ∀ c, -2147483648 < c ≤ 2147483647 → unw_strerror c = Ok "invalid error code"%string ∨ -10 ≤ c ≤ 0).
  { intros d Hd. destruct (decide (-10 ≤ d ≤ 0)); [by right|left]. unfold unw_strerror, error_of_code.
    rewrite (proj2 (Z.eqb_neq _ _)) by lia. mred.
    replace (List.find _ all_errors) with (@None unw_error); [done|]. symmetry.
    assert (Hu : u32 (- d) ≠ 0 ∧ ¬ u32 (- d) ≤ 10) by (unfold u32; dlia).
    unfold all_errors. cbn [List.find error_code].
    rewrite !(proj2 (Z.eqb_neq _ _)) by lia. done. }
  intros Hc Hc' E E' Hs.
  destruct (H c Hc) as [Ec|Hr]; [congruence|]. destruct (H c' Hc') as [Ec|Hr']; [congruence|].
  assert (Hall : ∀ d, -10 ≤ d ≤ 0 → d ∈ [-10; -9; -8; -7; -6; -5; -4; -3; -2; -1; 0])
    by (intros; rewrite !elem_of_cons; lia).
  apply Hall in Hr, Hr'. revert E E'. clear -Hr Hr'.
  repeat (apply elem_of_cons in Hr as [->|Hr]; [|]); repeat (apply elem_of_cons in Hr' as [->|Hr']; [|]);
    try (by apply elem_of_nil in Hr); try (by apply elem_of_nil in Hr'); cbv; intros [= <-]; try done.
Qed.

(** The names of the registers differ; larger numbers share one name, and negative
    ones are outside of the table. *)
Lemma regname_spec (reg : Z) :
  (reg < 0 → unw_regname reg = Stop Undef) ∧ (17 ≤ reg → unw_regname reg = Ok "???"%string) ∧
  (0 ≤ reg < 17 → ∃ name, unw_regname reg = Ok name ∧ name ≠ "???"%string ∧
     ∀ reg', 0 ≤ reg' → unw_regname reg' = Ok name → reg' = reg).
Proof.
  unfold unw_regname. change (Z.of_nat (length regname)) with 17. split_and!.
  - intros H. rewrite (proj2 (Z.ltb_lt _ _)) by lia. unfold aread. by rewrite (proj2 (Z.ltb_lt _ _)) by lia.
  - intros H. by rewrite (proj2 (Z.ltb_ge _ _)) by lia.
  - intros H. rewrite (proj2 (Z.ltb_lt _ _)) by lia. rewrite <- (Z2Nat.id reg) by lia.
    destruct (lookup_lt_is_Some_2 regname (Z.to_nat reg)) as [name Hn]; [simpl; lia|].
    exists name. rewrite (aread_lookup _ _ _ Hn). split; [done|].
    assert (Hd : NoDup ("???"%string :: regname)) by decided.
    apply NoDup_cons in Hd as [Hq Hd]. split.
    + intros ->. apply Hq. by eapply list_elem_of_lookup_2.
    + intros reg' Hr. destruct (Z.ltb_spec reg' 17).
      * rewrite <- (Z2Nat.id reg') by lia. unfold aread. rewrite (proj2 (Z.ltb_ge _ _)) by lia.
        rewrite Nat2Z.id. destruct (regname !! Z.to_nat reg') as [x|] eqn:E; [|done]. intros [= ->].
        f_equal. by eapply (NoDup_lookup regname).
      * intros [= <-]. destruct Hq. by eapply list_elem_of_lookup_2.
Qed.
