(* ===== verification/EncPtr.v ===== *)
(** * DWARF pointer encodings

    [dwarf_read_encoded_pointer_inlined] of [include/dwarf_i.h] and its wrapper
    in [Gpe.c].  The encoding byte has a format (low nibble), an application
    (bits 4 to 6) and an indirection flag (bit 7). *)
From S2P Require Export Leb128 Defs.

(** [src/include/dwarf.h:177-177], [DW_EH_PE_FORMAT_MASK] *)
Definition DW_EH_PE_FORMAT_MASK : Z := 0x0f.
(** [src/include/dwarf.h:178-178], [DW_EH_PE_APPL_MASK] *)
Definition DW_EH_PE_APPL_MASK : Z := 0x70.
(** [src/include/dwarf.h:179-181], [DW_EH_PE_indirect] *)
Definition DW_EH_PE_indirect : Z := 0x80.
(** [src/include/dwarf.h:184-184], [DW_EH_PE_omit] *)
Definition DW_EH_PE_omit : Z := 0xff.
(** [src/include/dwarf.h:204-204], [DW_EH_PE_aligned] *)
Definition DW_EH_PE_aligned : Z := 0x50.
(** [src/include/dwarf.h:198-198], [DW_EH_PE_textrel] *)
Definition DW_EH_PE_textrel : Z := 0x20.

(** [src/include/dwarf.h:183-193], [DW_EH_PE_ptr] *)
Inductive pe_format :=
  | DW_EH_PE_ptr
  | DW_EH_PE_uleb128
  | DW_EH_PE_udata2
  | DW_EH_PE_udata4
  | DW_EH_PE_udata8
  | DW_EH_PE_sleb128
  | DW_EH_PE_sdata2
  | DW_EH_PE_sdata4
  | DW_EH_PE_sdata8.

(** [src/include/dwarf.h:183-193], [DW_EH_PE_ptr] *)
Definition pe_format_of (f : Z) : option pe_format :=
  match f with
  | 0x00 => Some DW_EH_PE_ptr
  | 0x01 => Some DW_EH_PE_uleb128
  | 0x02 => Some DW_EH_PE_udata2
  | 0x03 => Some DW_EH_PE_udata4
  | 0x04 => Some DW_EH_PE_udata8
  | 0x09 => Some DW_EH_PE_sleb128
  | 0x0a => Some DW_EH_PE_sdata2
  | 0x0b => Some DW_EH_PE_sdata4
  | 0x0c => Some DW_EH_PE_sdata8
  | _ => None
  end.

(** [src/include/dwarf.h:195-204], [DW_EH_PE_absptr] *)
Inductive pe_application :=
  | DW_EH_PE_absptr
  | DW_EH_PE_pcrel
  | DW_EH_PE_datarel
  | DW_EH_PE_funcrel.

(** The applications the switch handles; text-relative ones share the error
    case with the unknown ones.  [src/include/dwarf.h:195-204], [DW_EH_PE_absptr] *)
Definition pe_application_of (a : Z) : option pe_application :=
  match a with
  | 0x00 => Some DW_EH_PE_absptr
  | 0x10 => Some DW_EH_PE_pcrel
  | 0x30 => Some DW_EH_PE_datarel
  | 0x40 => Some DW_EH_PE_funcrel
  | _ => None
  end.

(** The first switch: read the stored value.  The [sleb128] case calls the
    unsigned reader, as the source does.
    [src/include/dwarf_i.h:244-301], [dwarf_read_encoded_pointer_inlined] *)
Definition read_pe_format (m : memory) (f : pe_format) : M Z Z :=
  match f with
  | DW_EH_PE_ptr => dwarf_readw m
  | DW_EH_PE_uleb128 => dwarf_read_uleb128 m
  | DW_EH_PE_udata2 => dwarf_readu16 m
  | DW_EH_PE_udata4 => dwarf_readu32 m
  | DW_EH_PE_udata8 => dwarf_readu64 m
  | DW_EH_PE_sleb128 => dwarf_read_uleb128 m
  | DW_EH_PE_sdata2 => v ← dwarf_reads16 m; mret (u64 v)
  | DW_EH_PE_sdata4 => v ← dwarf_reads32 m; mret (u64 v)
  | DW_EH_PE_sdata8 => v ← dwarf_reads64 m; mret (u64 v)
  end.

(** The second switch: what is added to the stored value.
    [src/include/dwarf_i.h:310-337], [dwarf_read_encoded_pointer_inlined] *)
Definition pe_base (a : pe_application) (initial_addr : Z) (pi : unw_proc_info_t) : Z :=
  match a with
  | DW_EH_PE_absptr => 0
  | DW_EH_PE_pcrel => initial_addr
  | DW_EH_PE_datarel => pi.(gp)
  | DW_EH_PE_funcrel => pi.(start_ip)
  end.

(** [src/include/dwarf_i.h:215-358], [dwarf_read_encoded_pointer_inlined] *)
Definition dwarf_read_encoded_pointer_inlined (m : memory) (encoding : Z)
    (pi : unw_proc_info_t) : M Z Z :=
  initial_addr ← get_st;
  if encoding =? DW_EH_PE_omit then mret 0
  else if encoding =? DW_EH_PE_aligned then
    mod_st (λ _, Z.land (u64 (initial_addr + dwarf_addr_size - 1))
                        (u64 (- dwarf_addr_size)));;
    dwarf_readw m
  else
    val ← match pe_format_of (Z.land encoding DW_EH_PE_FORMAT_MASK) with
          | Some f => read_pe_format m f
          | None => fail UNW_EINVAL
          end;
    if val =? 0 then mret 0
    else
      match pe_application_of (Z.land encoding DW_EH_PE_APPL_MASK) with
      | None => fail UNW_EINVAL
      | Some app =>
          let val := u64 (val + pe_base app initial_addr pi) in
          if Z.land encoding DW_EH_PE_indirect =? 0 then mret val
          else lift (at_addr (dwarf_readw m) val)
      end.

(** [src/Gpe.c:29-37], [dwarf_read_encoded_pointer] *)
Definition dwarf_read_encoded_pointer (m : memory) (encoding : Z)
    (pi : unw_proc_info_t) : M Z Z :=
  dwarf_read_encoded_pointer_inlined m encoding pi.

(** ** What an encoded pointer denotes *)

Definition pe_format_code (f : pe_format) : Z :=
  match f with
  | DW_EH_PE_ptr => 0x00 | DW_EH_PE_uleb128 => 0x01 | DW_EH_PE_udata2 => 0x02
  | DW_EH_PE_udata4 => 0x03 | DW_EH_PE_udata8 => 0x04 | DW_EH_PE_sleb128 => 0x09
  | DW_EH_PE_sdata2 => 0x0a | DW_EH_PE_sdata4 => 0x0b | DW_EH_PE_sdata8 => 0x0c
  end.

Definition pe_application_code (a : pe_application) : Z :=
  match a with
  | DW_EH_PE_absptr => 0x00 | DW_EH_PE_pcrel => 0x10
  | DW_EH_PE_datarel => 0x30 | DW_EH_PE_funcrel => 0x40
  end.

Definition pe_code (f : pe_format) (a : pe_application) (ind : bool) : Z :=
  Z.lor (Z.lor (pe_format_code f) (pe_application_code a)) (if ind then 0x80 else 0).

(** The bytes that store [x] in a format, and the values the format can store, as
    [dwarf.h] has them. *)
Definition pe_bytes (f : pe_format) (x : Z) : list Z :=
  match f with
  | DW_EH_PE_ptr | DW_EH_PE_udata8 | DW_EH_PE_sdata8 => le_bytes 8 x
  | DW_EH_PE_udata2 | DW_EH_PE_sdata2 => le_bytes 2 x
  | DW_EH_PE_udata4 | DW_EH_PE_sdata4 => le_bytes 4 x
  | DW_EH_PE_uleb128 => uleb_encode x
  | DW_EH_PE_sleb128 => sleb_encode x
  end.

Definition pe_range (f : pe_format) (x : Z) : Prop :=
  match f with
  | DW_EH_PE_ptr | DW_EH_PE_udata8 | DW_EH_PE_uleb128 => is_u64 x
  | DW_EH_PE_udata2 => 0 ≤ x < 2 ^ 16
  | DW_EH_PE_udata4 => 0 ≤ x < 2 ^ 32
  | DW_EH_PE_sdata2 => - 2 ^ 15 ≤ x < 2 ^ 15
  | DW_EH_PE_sdata4 => - 2 ^ 31 ≤ x < 2 ^ 31
  | DW_EH_PE_sdata8 | DW_EH_PE_sleb128 => - 2 ^ 63 ≤ x < 2 ^ 63
  end.

(** What the reader takes the stored value for: the signed LEB128 bytes are read as an
    unsigned number, which for a negative one is a power of 128 too large. *)
Definition pe_read (f : pe_format) (x : Z) : Z :=
  match f with
  | DW_EH_PE_sleb128 => if x <? 0 then x + 128 ^ Z.of_nat (length (sleb_encode x)) else x
  | _ => x
  end.

Lemma pe_read_nonneg f x : 0 ≤ x → pe_read f x = x.
Proof. intros Hx. destruct f; try done. simpl. by rewrite (proj2 (Z.ltb_ge _ _)). Qed.

Lemma pe_read_signed f x : f ≠ DW_EH_PE_sleb128 → pe_read f x = x.
Proof. by destruct f. Qed.

Lemma leb_sleb_encode x :
  - 2 ^ 63 ≤ x < 2 ^ 63 → leb_value (sleb_encode x) = pe_read DW_EH_PE_sleb128 x.
Proof.
  intros Hx. destruct (sleb_encode_spec x Hx) as (Hs & Hv & _). simpl.
  pose proof (leb_value_range (sleb_encode x)) as Hr. pose proof (leb_value_last_le _ Hs).
  unfold sleb_value in Hv. destruct (Z.leb_spec 64 (List.last (sleb_encode x) 0)), (Z.ltb_spec x 0); lia.
Qed.

Lemma readw_u64 m : dwarf_readw m = dwarf_readu64 m.
Proof. reflexivity. Qed.

Lemma reads16_le m a v :
  bytes_at m a (le_bytes 2 v) → dwarf_reads16 m a = (Ok (s16 v), u64 (a + 2)).
Proof.
  intros H. unfold dwarf_reads16. rewrite (read_value_le _ _ _ _ _ H).
  unfold s16, sext. do 3 f_equal.
  change (256 ^ Z.of_nat 2) with (2 ^ 16). by rewrite Zplus_mod_idemp_l.
Qed.

Lemma read_pe_format_spec m f x a :
  pe_range f x → bytes_at m a (pe_bytes f x) → is_u64 a →
  read_pe_format m f a = (Ok (u64 (pe_read f x)), u64 (a + Z.of_nat (length (pe_bytes f x)))).
Proof.
  intros Hr Hm Ha. destruct f; simpl in *; rewrite ?readw_u64, ?length_le_bytes.
  all: mred.
  - by rewrite (readu64_le _ _ x).
  - by rewrite (uleb_read_encode _ _ x), (u64_small x).
  - rewrite (readu16_le _ _ x) by done. unfold u16. by rewrite Z.mod_small, (u64_small x)
      by (unfold is_u64; lia).
  - rewrite (readu32_le _ _ x) by done. unfold u32. by rewrite Z.mod_small, (u64_small x)
      by (unfold is_u64; lia).
  - by rewrite (readu64_le _ _ x).
  - destruct (sleb_encode_spec x Hr) as (Hs & _ & Hl). rewrite (uleb_read_spec _ _ _ Hs) by done.
    by rewrite leb_sleb_encode.
  - rewrite (reads16_le _ _ x) by done. unfold s16. by rewrite sext_small by lia.
  - rewrite (reads32_le _ _ x) by done. unfold s32. by rewrite sext_small by lia.
  - rewrite (reads64_le _ _ x) by done. unfold s64. by rewrite sext_small by lia.
Qed.

Lemma pe_code_fields f a ind :
  pe_format_of (Z.land (pe_code f a ind) DW_EH_PE_FORMAT_MASK) = Some f ∧
  pe_application_of (Z.land (pe_code f a ind) DW_EH_PE_APPL_MASK) = Some a ∧
  (Z.land (pe_code f a ind) DW_EH_PE_indirect =? 0) = negb ind ∧
  (pe_code f a ind =? DW_EH_PE_omit) = false ∧
  (pe_code f a ind =? DW_EH_PE_aligned) = false.
Proof. by destruct f, a, ind. Qed.

Lemma encoded_pointer_spec m f app ind x pi a :
  pe_range f x → bytes_at m a (pe_bytes f x) → is_u64 a →
  dwarf_read_encoded_pointer m (pe_code f app ind) pi a =
    (if decide (u64 (pe_read f x) = 0) then Ok 0
     else let v := u64 (pe_read f x + pe_base app a pi) in
          if ind then load 8 m v else Ok v,
     u64 (a + Z.of_nat (length (pe_bytes f x)))).
Proof.
  intros Hr Hm Ha.
  destruct (pe_code_fields f app ind) as (Hf & Happ & Hi & Ho & Hal).
  unfold dwarf_read_encoded_pointer, dwarf_read_encoded_pointer_inlined.
  mred. rewrite Ho, Hal, Hf, (read_pe_format_spec _ _ x) by done.
  destruct (Z.eqb_spec (u64 (pe_read f x)) 0); [by rewrite decide_True|]. rewrite decide_False by done.
  rewrite Happ, Hi, u64_add_l. destruct ind; cbn [negb]; [|done].
  f_equal. unfold at_addr. rewrite readw_u64. unfold dwarf_readu64, read_value.
  destruct (load 8 m _) eqn:E; [|done..]. simpl. f_equal. apply load_range in E.
  by rewrite u64_small.
Qed.

(** A text-relative pointer is refused, unless it is zero. *)
Lemma encoded_pointer_textrel m f ind x pi a :
  pe_range f x → bytes_at m a (pe_bytes f x) → is_u64 a →
  dwarf_read_encoded_pointer m (Z.lor (pe_code f DW_EH_PE_absptr ind) DW_EH_PE_textrel) pi a =
    (if decide (u64 (pe_read f x) = 0) then Ok 0 else Err UNW_EINVAL,
     u64 (a + Z.of_nat (length (pe_bytes f x)))).
Proof.
  intros Hr Hm Ha. set (enc := Z.lor _ _).
  assert (pe_format_of (Z.land enc DW_EH_PE_FORMAT_MASK) = Some f ∧
    pe_application_of (Z.land enc DW_EH_PE_APPL_MASK) = None ∧
    (enc =? DW_EH_PE_omit) = false ∧ (enc =? DW_EH_PE_aligned) = false) as (Hf & Happ & Ho & Hal)
    by by destruct f, ind.
  unfold dwarf_read_encoded_pointer, dwarf_read_encoded_pointer_inlined.
  mred. rewrite Ho, Hal, Hf, (read_pe_format_spec _ _ x) by done.
  destruct (Z.eqb_spec (u64 (pe_read f x)) 0); [by rewrite decide_True|].
  by rewrite decide_False, Happ by done.
Qed.

(** Rounding up to the size of an address. *)
Lemma align_up a : is_u64 a → Z.land (u64 (a + 8 - 1)) (u64 (- 8)) = u64 ((a + 7) / 8 * 8).
Proof.
  intros Ha. replace (a + 8 - 1) with (a + 7) by lia. set (n := a + 7).
  replace (n / 8 * 8) with (Z.ldiff n (Z.ones 3)).
  2: { rewrite Z.ldiff_ones_r, Z.shiftr_div_pow2, Z.shiftl_mul_pow2 by lia. done. }
  change (u64 (- 8)) with (Z.land (Z.lnot (Z.ones 3)) (Z.ones 64)).
  unfold u64. change 18446744073709551616 with (2 ^ 64). rewrite <- !Z.land_ones by lia.
  rewrite Z.ldiff_land. apply Z.bits_inj'. intros i Hi. rewrite !Z.land_spec.
  by destruct (Z.testbit n i), (Z.testbit (Z.ones 64) i), (Z.testbit (Z.lnot (Z.ones 3)) i).
Qed.

Lemma encoded_pointer_aligned m pi a w :
  let b := u64 ((a + 7) / 8 * 8) in
  is_u64 a → is_u64 w → bytes_at m b (le_bytes 8 w) →
  dwarf_read_encoded_pointer m DW_EH_PE_aligned pi a = (Ok w, u64 (b + 8)).
Proof.
  intros b Ha Hw Hb. unfold dwarf_read_encoded_pointer, dwarf_read_encoded_pointer_inlined.
  mred. cbn [Z.eqb]. change dwarf_addr_size with 8. rewrite align_up by done.
  fold b. rewrite readw_u64, (readu64_le _ _ w) by done. by rewrite u64_small.
Qed.

(** The unsigned formats with absolute application, the common use. *)
Lemma encoded_pointer_udata8 m x pi a :
  is_u64 x → bytes_at m a (le_bytes 8 x) → is_u64 a →
  dwarf_read_encoded_pointer m 0x04 pi a = (Ok x, u64 (a + 8)).
Proof.
  intros Hx Hm Ha. change 0x04 with (pe_code DW_EH_PE_udata8 DW_EH_PE_absptr false).
  rewrite (encoded_pointer_spec m DW_EH_PE_udata8 DW_EH_PE_absptr false x pi a) by done. cbn [pe_read].
  rewrite u64_small by done. case_decide; [by subst|]. simpl.
  by rewrite Z.add_0_r, u64_small by done.
Qed.

Lemma encoded_pointer_err m enc pi a e a' :
  is_u64 a → dwarf_read_encoded_pointer m enc pi a = (Err e, a') →
  e = UNW_EINVAL ∧ enc ≠ DW_EH_PE_omit ∧ enc ≠ DW_EH_PE_aligned ∧
  (pe_format_of (Z.land enc DW_EH_PE_FORMAT_MASK) = None ∨
   pe_application_of (Z.land enc DW_EH_PE_APPL_MASK) = None).
Proof.
  intros Ha. unfold dwarf_read_encoded_pointer, dwarf_read_encoded_pointer_inlined. mred.
  destruct (Z.eqb_spec enc DW_EH_PE_omit); [done|].
  destruct (Z.eqb_spec enc DW_EH_PE_aligned); [by intros H%read_value_no_err|].
  destruct (pe_format_of _) as [f|]; [|intros [= <- <-]; auto].
  destruct (read_pe_format m f a) as [[v|e'|t] a1] eqn:Hf.
  - case_match; [done|]. destruct (pe_application_of _) as [app|]; [|intros [= <- <-]; auto].
    case_match; [done|]. unfold at_addr.
    destruct (dwarf_readw m _) as [[]] eqn:E; try done. by apply read_value_no_err in E.
  - exfalso. destruct f; simpl in Hf; revert Hf; mred; intros Hf.
    all: try by apply read_value_no_err in Hf.
    1-2: apply uleb_read_total in Hf as (_ & Hf & _); [by eapply Hf|done].
    all: unfold dwarf_reads16, dwarf_reads32, dwarf_reads64 in Hf.
    all: destruct (read_value _ _ m a) as [[] ?] eqn:E; simplify_eq.
    all: by apply read_value_no_err in E.
  - done.
Qed.

Lemma no_undef_pe_format m f : no_undef (read_pe_format m f).
Proof.
  destruct f; simpl; auto with unw; try apply no_undef_read_value;
    (apply no_undef_bind; [apply no_undef_read_value|done]).
Qed.

Lemma no_undef_encoded_pointer m enc pi : no_undef (dwarf_read_encoded_pointer m enc pi).
Proof.
  unfold dwarf_read_encoded_pointer, dwarf_read_encoded_pointer_inlined.
  apply no_undef_get. intros a. case_match; [done|]. case_match.
  { apply no_undef_bind; [done|]. intros _. apply no_undef_read_value. }
  apply no_undef_bind; [case_match; [apply no_undef_pe_format|done]|].
  intros v. case_match; [done|]. case_match; [|done]. case_match; [done|].
  intros x x'. unfold lift, at_addr. pose proof (no_undef_read_value 8 u64 m) as H8.
  intros [= Hx _].
  match type of Hx with fst (dwarf_readw m ?y) = _ => specialize (H8 y) end.
  change (dwarf_readw m) with (read_value 8 u64 m) in Hx.
  destruct (read_value 8 u64 m _) as [r y'] eqn:E. simpl in Hx. subst r. by apply (H8 y').
Qed.

#[export] Hint Resolve no_undef_encoded_pointer : unw.

(** ** Properties *)

(** C17. In any format, an absolute, pc-, data- or function-relative pointer decodes
    to the stored value plus its base, or the word there for an indirect one, and a
    text-relative one is refused; zero stays absolute in all of them.  The signed LEB128
    format is the exception: a negative value is taken for an unsigned number
    ([pe_read]).  An aligned pointer is the word at the next multiple of eight, an
    omitted one zero. *)
Theorem encoded_pointer_decodes (m : memory) (f : pe_format) (ind : bool) (x : Z)
    (pi : unw_proc_info_t) (a : Z) :
  pe_range f x → bytes_at m a (pe_bytes f x) → is_u64 a →
  let v := u64 (pe_read f x) in
  let next := u64 (a + Z.of_nat (length (pe_bytes f x))) in
  (f ≠ DW_EH_PE_sleb128 ∨ 0 ≤ x → v = u64 x) ∧
  (∀ app, dwarf_read_encoded_pointer m (pe_code f app ind) pi a =
     (if decide (v = 0) then Ok 0
      else let base := match app with DW_EH_PE_absptr => 0 | DW_EH_PE_pcrel => a
                       | DW_EH_PE_datarel => pi.(gp) | DW_EH_PE_funcrel => pi.(start_ip) end in
           let p := u64 (v + base) in if ind then load 8 m p else Ok p, next)) ∧
  dwarf_read_encoded_pointer m (Z.lor (pe_code f DW_EH_PE_absptr ind) DW_EH_PE_textrel) pi a =
    (if decide (v = 0) then Ok 0 else Err UNW_EINVAL, next) ∧
  dwarf_read_encoded_pointer m DW_EH_PE_omit pi a = (Ok 0, a) ∧
  (∀ w, let b := u64 ((a + 7) / 8 * 8) in
     is_u64 w → bytes_at m b (le_bytes 8 w) →
     dwarf_read_encoded_pointer m DW_EH_PE_aligned pi a = (Ok w, u64 (b + 8))).
Proof.
  intros Hr Hm Ha v next. split_and!.
  - unfold v. intros [Hf|Hx]; [by rewrite pe_read_signed|by rewrite pe_read_nonneg].
  - intros app. rewrite (encoded_pointer_spec m f app ind x pi a Hr Hm Ha). unfold v. rewrite <- u64_add_l. by destruct app.
  - by apply encoded_pointer_textrel.
  - reflexivity.
  - intros w b Hw Hb. by apply encoded_pointer_aligned.
Qed.

(** A [DW_EH_PE_pcrel | DW_EH_PE_sdata4] pointer, the encoding GCC uses, and the same
    offset in signed LEB128. *)
Lemma encoded_pointer_decodes_witness :
  dwarf_read_encoded_pointer (put_bytes ∅ 0x2000 (le_bytes 4 (-0x100))) 0x1b
    zero_proc_info 0x2000 = (Ok 0x1f00, 0x2004) ∧
  dwarf_read_encoded_pointer (put_bytes ∅ 0x2000 (sleb_encode (-0x100))) 0x19
    zero_proc_info 0x2000 = (Ok 0x5f00, 0x2002).
Proof.
  change 0x1b with (pe_code DW_EH_PE_sdata4 DW_EH_PE_pcrel false).
  change 0x19 with (pe_code DW_EH_PE_sleb128 DW_EH_PE_pcrel false). split.
  - destruct (encoded_pointer_decodes (put_bytes ∅ 0x2000 (le_bytes 4 (-0x100))) DW_EH_PE_sdata4 false
      (-0x100) zero_proc_info 0x2000) as (_ & E & _); [simpl; lia|decided|done|].
    rewrite (E DW_EH_PE_pcrel). reflexivity.
  - destruct (encoded_pointer_decodes (put_bytes ∅ 0x2000 (sleb_encode (-0x100))) DW_EH_PE_sleb128 false
      (-0x100) zero_proc_info 0x2000) as (_ & E & _); [simpl; lia|decided|done|].
    rewrite (E DW_EH_PE_pcrel). reflexivity.
Defined.

(** The reader has one error, [-UNW_EINVAL], and reports it only for an
    encoding whose format or application it does not know. *)
Lemma encoded_pointer_errors (m : memory) (enc : Z) (pi : unw_proc_info_t)
    (a : Z) (e : unw_error) (a' : Z) :
  is_u64 a → dwarf_read_encoded_pointer m enc pi a = (Err e, a') →
  e = UNW_EINVAL ∧ enc ≠ DW_EH_PE_omit ∧ enc ≠ DW_EH_PE_aligned ∧
  (pe_format_of (Z.land enc DW_EH_PE_FORMAT_MASK) = None ∨
   pe_application_of (Z.land enc DW_EH_PE_APPL_MASK) = None).
Proof. apply encoded_pointer_err. Qed.

Lemma encoded_pointer_errors_witness :
  dwarf_read_encoded_pointer ∅ 0x05 zero_proc_info 0 = (Err UNW_EINVAL, 0) ∧
  pe_format_of (Z.land 0x05 DW_EH_PE_FORMAT_MASK) = None.
Proof.
  assert (H : dwarf_read_encoded_pointer ∅ 0x05 zero_proc_info 0 = (Err UNW_EINVAL, 0))
    by reflexivity.
  split; [exact H|].
  destruct (encoded_pointer_errors ∅ 0x05 zero_proc_info 0 _ _ ltac:(done) H)
    as (_ & _ & _ & [Hf|Hf]); [exact Hf|discriminate Hf].
Defined.

(** A pointer in the [DW_EH_PE_sleb128] format is decoded as an unsigned
    number: a negative offset of fewer than ten bytes yields a value that differs
    from its two's complement by a power of two. *)
Lemma sleb128_pointer_unsigned (m : memory) (n a : Z) (pi : unw_proc_info_t) :
  - 2 ^ 62 ≤ n < 0 → is_u64 a → bytes_at m a (sleb_encode n) →
  ∃ v, (dwarf_read_encoded_pointer m 0x09 pi a).1 = Ok v ∧ v ≠ u64 n ∧
       v = n + 128 ^ Z.of_nat (length (sleb_encode n)).
Proof.
  intros Hn Ha Hm.
  destruct (sleb_enc_shape 9 n) as [Hs Hv]; [lia|simpl; lia|].
  assert (sleb_encode n = sleb_enc 9 n) as E.
  { unfold sleb_encode. apply sleb_enc_fuel; simpl; lia. }
  rewrite E in *. pose proof (length_sleb_enc 9 n) as Hl.
  assert (Hu := uleb_read_spec _ m a Hs Hm ltac:(lia) Ha).
  pose proof (leb_value_range (sleb_enc 9 n)) as Hr.
  assert (128 ^ Z.of_nat (length (sleb_enc 9 n)) ≤ 128 ^ 9)
    by (apply Z.pow_le_mono_r; lia).
  change (128 ^ 9) with 9223372036854775808 in *.
  unfold sleb_value in Hv. destruct (Z.leb_spec 64 (List.last (sleb_enc 9 n) 0)); [|lia].
  rewrite u64_small in Hu by (unfold is_u64; lia).
  pose proof (leb_value_last_le _ Hs) as Hlast.
  clear Hs. set (L := leb_value (sleb_enc 9 n)) in *. clearbody L.
  set (N := 128 ^ Z.of_nat (length (sleb_enc 9 n))) in *. clearbody N.
  unfold dwarf_read_encoded_pointer, dwarf_read_encoded_pointer_inlined. mred. simpl.
  rewrite Hu.
  exists L. split_and!; [|unfold u64; dlia|lia].
  destruct (Z.eqb_spec L 0); [lia|]. simpl.
  by rewrite Z.add_0_r, u64_small by (unfold is_u64; lia).
Qed.

Lemma sleb128_pointer_unsigned_witness :
  ∃ v, (dwarf_read_encoded_pointer (put_bytes ∅ 0x2000 (sleb_encode (-16))) 0x09
          zero_proc_info 0x2000).1 = Ok v ∧ v ≠ u64 (-16) ∧ v = 112.
Proof.
  destruct (sleb128_pointer_unsigned (put_bytes ∅ 0x2000 (sleb_encode (-16))) (-16)
    0x2000 zero_proc_info) as (v & H1 & H2 & H3); [lia|done|decided|].
  exists v. split; [exact H1|]. split; [exact H2|]. exact H3.
Defined.
