(* ===== verification/Mempool.v ===== *)
(** * Memory pools

    [mempool.c]: pools of objects of one size, kept on a free list threaded
    through the objects themselves, refilled from the kernel's [malloc] and, as
    the last resort, from a static array.  The first part states what the other
    components rely on as a class; the last part proves that the pools
    implement it.  Locks are omitted: every routine runs to completion while
    it holds its pool's lock. *)
From S2P Require Export Memory.

(** ** The interface *)

(** The two operations on a pool of type [P]. *)
Class PoolOps (P : Type) := {
  pool_alloc : M P Z;
  pool_free : Z → M P ()
}.

(** [pool_ok p live]: the objects in [live] are allocated from [p].  An
    allocation returns an object that is not live, or panics; freeing a live
    object always succeeds, and freeing has no error to report. *)
Class PoolLaws (P : Type) `{!PoolOps P} := {
  pool_ok : P → gset Z → Prop;
  pool_alloc_ok p live :
    pool_ok p live →
    match pool_alloc p with
    | (Ok o, p') => o ≠ 0 ∧ o ∉ live ∧ pool_ok p' ({[o]} ∪ live)
    | (Err _, _) => False
    | (Stop t, _) => t = Panic
    end;
  pool_free_ok p live o :
    pool_ok p live → o ∈ live →
    ∃ p', pool_free o p = (Ok tt, p') ∧ pool_ok p' (live ∖ {[o]});
  pool_free_no_err p o e : fst (pool_free o p) ≠ Err e
}.

(** ** Constants *)

(** [__BIGGEST_ALIGNMENT__] of the target.
    [src/mempool.c:29-40], [MAX_ALIGN] *)
Definition MAX_ALIGN : Z := 16.

(** [src/include/libunwind_i.h:133-133], [SOS_MEMORY_SIZE] *)
Definition SOS_MEMORY_SIZE : Z := 16384.

(** [src/include/libunwind_i.h:241-241], [UNW_ALIGN] *)
Definition UNW_ALIGN (x a : Z) : Z := Z.land (u64 (x + a - 1)) (u64 (Z.lnot (a - 1))).

(** The page size.  [src/mempool.c:44-44], [pg_size] *)
Definition pg_size : Z := 4096.

(** [src/include/mempool.h:59-73], [mempool] *)
Record mempool := Mempool {
  obj_size : Z;
  chunk_size : Z;
  reserve : Z;
  num_free : Z;
  free_list : Z
}.

(** A pool with the memory it lives in and the position in the static array
    the pools share.  [src/mempool.c:42-44], [sos_memory_freepos] *)
Record pool_state := PoolState {
  pmem : memory;
  sos_memory_freepos : Z;
  pool : mempool
}.

Definition set_pmem (m : memory) (s : pool_state) : pool_state :=
  PoolState m s.(sos_memory_freepos) s.(pool).
Definition set_freepos (p : Z) (s : pool_state) : pool_state :=
  PoolState s.(pmem) p s.(pool).
Definition set_pool (p : mempool) (s : pool_state) : pool_state :=
  PoolState s.(pmem) s.(sos_memory_freepos) p.
Definition set_free (n head : Z) (s : pool_state) : pool_state :=
  let p := s.(pool) in
  set_pool (Mempool p.(obj_size) p.(chunk_size) p.(reserve) n head) s.

Definition assert_ (b : bool) : M pool_state () := if b then mret tt else halt Panic.

Section mempool.
(** [kmalloc size m] is the kernel's [malloc (size, M_LIBUNWIND_TYPE, M_WAITOK)]
    where [m] is the mapped memory: the address, 0 for a failure, and the
    memory with the new block.  [sos_memory] is the address of the static
    array. *)
Context (kmalloc : Z → memory → Z * memory) (sos_memory : Z).

(** [src/mempool.c:46-79], [sos_alloc] *)
Definition sos_alloc (size : Z) : M pool_state Z :=
  let size := UNW_ALIGN size MAX_ALIGN in
  assert_ (Z.land sos_memory (MAX_ALIGN - 1) =? 0);;
  s ← get_st;
  let pos := s.(sos_memory_freepos) in
  mod_st (set_freepos (u64 (pos + size)));;
  assert_ (Z.land (u64 (sos_memory + pos)) (MAX_ALIGN - 1) =? 0);;
  assert_ (u64 (pos + size) <=? SOS_MEMORY_SIZE);;
  mret (u64 (sos_memory + pos)).

(** [src/mempool.c:83-91], [free_object] *)
Definition free_object (object : Z) : M pool_state () :=
  s ← get_st;
  m ← lift (store 8 s.(pmem) object s.(pool).(free_list));
  mod_st (set_pmem m);;
  mod_st (set_free (u32 (s.(pool).(num_free) + 1)) object).

(** [src/mempool.c:93-100], [add_memory] *)
Fixpoint add_memory_loop (fuel : nat) (obj last obj_size : Z) : M pool_state () :=
  match fuel with
  | O => halt NoFuel
  | S fuel' =>
      if obj <=? last then
        free_object obj;; add_memory_loop fuel' (u64 (obj + obj_size)) last obj_size
      else mret tt
  end.

(** One more round than there are objects in the block.
    [src/mempool.c:93-100], [add_memory] *)
Definition add_memory (mem size obj_size : Z) : M pool_state () :=
  add_memory_loop (S (Z.to_nat (size / obj_size))) mem (u64 (mem + size - obj_size)) obj_size.

(** [src/include/libunwind_i.h:138-142], [GET_MEMORY] *)
Definition GET_MEMORY (size : Z) : M pool_state Z := λ s,
  let '(a, m) := kmalloc size s.(pmem) in (Ok a, set_pmem m s).

(** [src/mempool.c:102-122], [expand] *)
Definition expand : M pool_state () :=
  s ← get_st;
  let size := s.(pool).(chunk_size) in
  mem ← GET_MEMORY size;
  '(mem, size) ←
    (if mem =? 0 then
       let size := UNW_ALIGN s.(pool).(obj_size) pg_size in
       mem ← GET_MEMORY size;
       if mem =? 0 then
         let size := s.(pool).(obj_size) in
         mem ← sos_alloc size; mret (mem, size)
       else mret (mem, size)
     else mret (mem, size));
  add_memory mem size s.(pool).(obj_size).

(** [src/mempool.c:124-149], [mempool_init] *)
Definition mempool_init (obj_size reserve : Z) : M pool_state () :=
  let obj_size := UNW_ALIGN obj_size MAX_ALIGN in
  let reserve :=
    if reserve =? 0 then
      let reserve := pg_size / obj_size / 4 in
      if reserve =? 0 then 16 else reserve
    else reserve in
  mod_st (set_pool (Mempool obj_size (UNW_ALIGN (u64 (2 * reserve * obj_size)) pg_size)
                      (u32 reserve) 0 0));;
  expand.

(** [src/mempool.c:151-169], [mempool_alloc] *)
Definition mempool_alloc : M pool_state Z :=
  s ← get_st;
  (if s.(pool).(num_free) <=? s.(pool).(reserve) then expand else mret tt);;
  s ← get_st;
  assert_ (0 <? s.(pool).(num_free));;
  let obj := s.(pool).(free_list) in
  next ← lift (load 8 s.(pmem) obj);
  mod_st (set_free (s.(pool).(num_free) - 1) next);;
  mret obj.

(** [src/mempool.c:171-179], [mempool_free] *)
Definition mempool_free (object : Z) : M pool_state () := free_object object.

(** ** The invariant *)

Definition W : Z := 18446744073709551616.

(** [[a, a+n)] is mapped and does not wrap around. *)
Definition mapped (m : memory) (a n : Z) : Prop :=
  0 < a ∧ a + n < W ∧ ∀ i, 0 ≤ i < n → is_Some (m !! (a + i)).

(** The blocks [[a, a+n)] and [[b, b+k)] do not meet. *)
Definition apart (a n b k : Z) : Prop := a + n ≤ b ∨ b + k ≤ a.

(** What malloc(9) documents: a failure leaves memory as it is; otherwise the
    block is new, of the requested size, aligned for any type, and the rest of
    memory is unchanged. *)
Definition kmalloc_spec : Prop :=
  ∀ size m a m', 0 < size → kmalloc size m = (a, m') →
  (a = 0 ∧ m' = m) ∨
  (mapped m' a size ∧ a mod MAX_ALIGN = 0 ∧ m ⊆ m' ∧
   ∀ i, 0 ≤ i < size → m !! (a + i) = None).

(** The free list from [p] is [fl]. *)
Fixpoint chain (m : memory) (p : Z) (fl : list Z) : Prop :=
  match fl with
  | [] => p = 0
  | o :: fl => p = o ∧ ∃ next, load 8 m o = Ok next ∧ chain m next fl
  end.

(** The objects [os] of size [n] are mapped, aligned, and do not meet. *)
Definition objects_ok (m : memory) (n : Z) (os : gset Z) : Prop :=
  (∀ o, o ∈ os → mapped m o n ∧ o mod MAX_ALIGN = 0) ∧
  (∀ o o', o ∈ os → o' ∈ os → o ≠ o' → apart o n o' n).

(** The part of the static array that is not handed out meets no object. *)
Definition sos_ok (s : pool_state) (os : gset Z) : Prop :=
  0 ≤ s.(sos_memory_freepos) ≤ SOS_MEMORY_SIZE ∧
  s.(sos_memory_freepos) mod MAX_ALIGN = 0 ∧
  mapped s.(pmem) sos_memory SOS_MEMORY_SIZE ∧ sos_memory mod MAX_ALIGN = 0 ∧
  (∀ o, o ∈ os →
     apart o s.(pool).(obj_size) (sos_memory + s.(sos_memory_freepos))
       (SOS_MEMORY_SIZE - s.(sos_memory_freepos))).

(** The geometry of a pool set up by [mempool_init]. *)
Definition pool_shape (p : mempool) : Prop :=
  0 < p.(obj_size) < SOS_MEMORY_SIZE ∧ p.(obj_size) mod MAX_ALIGN = 0 ∧
  p.(obj_size) ≤ p.(chunk_size) < W ∧ 0 ≤ p.(reserve).

Definition pool_inv (s : pool_state) (fl : list Z) (live : gset Z) : Prop :=
  pool_shape s.(pool) ∧ chain s.(pmem) s.(pool).(free_list) fl ∧ NoDup fl ∧
  0 ≤ s.(pool).(num_free) ≤ Z.of_nat (length fl) ∧
  list_to_set fl ## live ∧
  objects_ok s.(pmem) s.(pool).(obj_size) (list_to_set fl ∪ live) ∧
  sos_ok s (list_to_set fl ∪ live).

(** ** Preservation *)

Lemma u32_range_id x : 0 ≤ x < 4294967296 → u32 x = x.
Proof. apply Z.mod_small. Qed.

Lemma u32_range x : 0 ≤ u32 x < 4294967296.
Proof. apply Z.mod_pos_bound. lia. Qed.

Lemma mapped_word m a n :
  mapped m a n → 8 ≤ n →
  is_u64 a ∧ ∀ i, 0 ≤ i < Z.of_nat 8 → u64 (a + i) = a + i ∧ is_Some (m !! u64 (a + i)).
Proof.
  intros (Ha & He & Hm) Hn. unfold W in *. split; [unfold is_u64; lia|]. intros i Hi.
  rewrite u64_small by (unfold is_u64; lia). split; [done|]. apply Hm. lia.
Qed.

Lemma mapped_dom m m' a n : dom m' = dom m → mapped m a n → mapped m' a n.
Proof.
  intros Hd (? & ? & Hm). split_and!; [done|done|]. intros i Hi.
  apply elem_of_dom. rewrite Hd. by apply elem_of_dom, Hm.
Qed.

Lemma mapped_subseteq m m' a n : m ⊆ m' → mapped m a n → mapped m' a n.
Proof.
  intros Hs (? & ? & Hm). split_and!; [done|done|]. intros i Hi.
  eapply lookup_weaken_is_Some; [by apply Hm|done].
Qed.

Lemma apart_words m a b n :
  mapped m a n → mapped m b n → 8 ≤ n → apart a n b n → disjoint_words a b.
Proof.
  intros Ha Hb Hn Hap i j Hi Hj.
  rewrite (proj1 (proj2 (mapped_word _ _ _ Ha Hn) i ltac:(lia))).
  rewrite (proj1 (proj2 (mapped_word _ _ _ Hb Hn) j ltac:(lia))).
  unfold apart in Hap. lia.
Qed.

Lemma chain_store m m' x v p fl n :
  store 8 m x v = Ok m' → mapped m x n → 8 ≤ n →
  (∀ o, o ∈ fl → mapped m o n ∧ apart o n x n) → chain m p fl → chain m' p fl.
Proof.
  intros Hs Hx Hn. revert p. induction fl as [|o fl IH]; intros p Hap Hc; [done|].
  destruct Hc as [-> (next & Hl & Hc)]. destruct (Hap o ltac:(left)) as [Ho Hox].
  split; [done|]. exists next. split; [|apply IH; [|done]; intros; apply Hap; by right].
  rewrite <- Hl. apply (load_store_disjoint _ _ _ _ _ Hs).
  - by apply (mapped_word _ _ _ Hx).
  - by apply (mapped_word _ _ _ Ho).
  - by apply (apart_words m o x n).
Qed.

Lemma chain_subseteq m m' p fl : m ⊆ m' → chain m p fl → chain m' p fl.
Proof.
  intros Hm. revert p. induction fl as [|o fl IH]; intros p; [done|].
  intros [-> (next & Hl & Hc)]. split; [done|]. exists next.
  split; [by eapply load_subseteq|by apply IH].
Qed.

Lemma shape_size p : pool_shape p → 16 ≤ p.(obj_size).
Proof.
  unfold pool_shape, MAX_ALIGN. intros ([? ?] & Hm & _). apply Z.mod_divide in Hm as [k Hk]; lia.
Qed.

(** A block that can become a free object. *)
Definition new_block (s : pool_state) (os : gset Z) (x n : Z) : Prop :=
  mapped s.(pmem) x n ∧ x mod MAX_ALIGN = 0 ∧
  (∀ o, o ∈ os → apart o s.(pool).(obj_size) x n) ∧
  apart x n (sos_memory + s.(sos_memory_freepos)) (SOS_MEMORY_SIZE - s.(sos_memory_freepos)).

(** The block [[b, b+k)] belongs neither to the pool with the objects [os] nor to
    what is left of the static array. *)
Definition foreign (s : pool_state) (os : gset Z) (b k : Z) : Prop :=
  mapped s.(pmem) b k ∧ 0 < k ∧ (∀ o, o ∈ os → apart o s.(pool).(obj_size) b k) ∧
  apart b k (sos_memory + s.(sos_memory_freepos)) (SOS_MEMORY_SIZE - s.(sos_memory_freepos)).

(** What became of the pool [s] and its objects in [s'] kept away from the
    foreign blocks that do not meet [[a, a+n)]. *)
Definition spares (a n : Z) (s : pool_state) (os : gset Z) (s' : pool_state) (os' : gset Z) : Prop :=
  ∀ b k, foreign s os b k → apart a n b k →
    foreign s' os' b k ∧ ∀ i, 0 ≤ i < k → s'.(pmem) !! (b + i) = s.(pmem) !! (b + i).

Lemma spares_refl s os : spares 0 0 s os s os.
Proof. by intros b k Hf _. Qed.

Lemma spares_trans a n s0 os0 s1 os1 s2 os2 :
  spares 0 0 s0 os0 s1 os1 → (∀ b k, foreign s0 os0 b k → apart a n b k) →
  spares a n s1 os1 s2 os2 → spares 0 0 s0 os0 s2 os2.
Proof.
  intros H1 Ha H2 b k Hf H0. destruct (H1 b k Hf H0) as [Hf1 E1].
  destruct (H2 b k Hf1 (Ha b k Hf)) as [Hf2 E2].
  split; [done|]. intros i Hi. by rewrite E2, E1.
Qed.

Lemma free_object_inv s fl live x :
  pool_inv s fl live →
  new_block s (list_to_set fl ∪ live) x s.(pool).(obj_size) →
  ∃ s', free_object x s = (Ok tt, s') ∧ pool_inv s' (x :: fl) live ∧
    dom s'.(pmem) = dom s.(pmem) ∧ s'.(sos_memory_freepos) = s.(sos_memory_freepos) ∧
    s'.(pool) = Mempool s.(pool).(obj_size) s.(pool).(chunk_size) s.(pool).(reserve)
                  (u32 (s.(pool).(num_free) + 1)) x ∧
    spares x s.(pool).(obj_size) s (list_to_set fl ∪ live) s' (list_to_set (x :: fl) ∪ live).
Proof.
  intros (Hsh & Hc & Hnd & Hnf & Hdj & [Ho Hap] & Hs1 & Hs2 & Hs3 & Hs4 & Hs5) (Hx & Hxa & Hxap & Hxs).
  pose proof (shape_size _ Hsh) as Hsz.
  destruct (mapped_word _ _ _ Hx ltac:(lia)) as [Hxu Hxm].
  destruct (store_mapped 8 s.(pmem) x s.(pool).(free_list)) as [m' Hm]; [apply Hxm|done|].
  pose proof (store_dom _ _ _ _ _ Hm) as Hdom.
  assert (Hxn : x ∉ (list_to_set fl : gset Z) ∪ live).
  { intros Hin. apply Hxap in Hin. unfold apart in Hin. lia. }
  eexists. unfold free_object. mred. rewrite Hm. split; [reflexivity|].
  split; [|split_and!; [done..|]].
  2: { cbn [list_to_set]. rewrite <- (union_assoc_L {[x]}). intros b k (Hb & Hk & Hbo & Hbs) Hxb. split.
       - split_and!; [by apply (mapped_dom s.(pmem))|done| |done]. simpl.
         intros o [->%elem_of_singleton|Hin]%elem_of_union; [done|by apply Hbo].
       - intros i Hi. simpl. apply (store_lookup_ne _ _ _ _ _ _ Hm Hxu). intros j Hj.
         destruct Hb as (? & ? & _). rewrite (proj1 (Hxm j ltac:(lia))).
         unfold apart in Hxb. lia. }
  unfold pool_inv. simpl. rewrite <- (union_assoc_L {[x]}).
  split_and!; try done.
  - exists s.(pool).(free_list). split.
    + rewrite (load_store_same _ _ _ _ Hm) by done. f_equal. apply u64_small.
      destruct fl as [|o fl]; simpl in Hc; [rewrite Hc; decided|].
      destruct Hc as [-> _]. destruct (Ho o) as [(? & ? & _) _]; [apply elem_of_union_l, elem_of_list_to_set; by left|].
      unfold is_u64, W in *. lia.
    + apply (chain_store _ _ _ _ _ _ s.(pool).(obj_size) Hm Hx ltac:(lia)); [|done].
      intros o Hin. split; [apply Ho|apply Hxap]; by apply elem_of_union_l, elem_of_list_to_set.
  - constructor; [|done]. intros Hin. by apply Hxn, elem_of_union_l, elem_of_list_to_set.
  - apply u32_range.
  - cbn [length]. unfold u32. dlia.
  - set_solver.
  - split.
    + intros o [->%elem_of_singleton|Hin]%elem_of_union.
      * split; [by apply (mapped_dom s.(pmem))|done].
      * destruct (Ho o Hin). split; [by apply (mapped_dom s.(pmem))|done].
    + intros o o' [->%elem_of_singleton|Hin]%elem_of_union
        [->%elem_of_singleton|Hin']%elem_of_union Hne; [done|..].
      * apply Hxap in Hin'. unfold apart in *. lia.
      * by apply Hxap.
      * by apply Hap.
  - unfold sos_ok. simpl. split_and!; try done; [lia|lia|by apply (mapped_dom s.(pmem))|].
    intros o [->%elem_of_singleton|Hin]%elem_of_union; [done|by apply Hs5].
Qed.

Definition same_geometry (s s' : pool_state) : Prop :=
  s'.(pool).(obj_size) = s.(pool).(obj_size) ∧
  s'.(pool).(chunk_size) = s.(pool).(chunk_size) ∧
  s'.(pool).(reserve) = s.(pool).(reserve).

Lemma add_memory_loop_inv live n last : ∀ fuel obj s fl,
  pool_inv s fl live → s.(pool).(obj_size) = n → obj ≤ last + n → last + n < W →
  new_block s (list_to_set fl ∪ live) obj (last + n - obj) →
  (last + n - obj) / n < Z.of_nat fuel →
  ∃ s' fl', add_memory_loop fuel obj last n s = (Ok tt, s') ∧ pool_inv s' fl' live ∧
    same_geometry s s' ∧
    spares obj (last + n - obj) s (list_to_set fl ∪ live) s' (list_to_set fl' ∪ live).
Proof.
  induction fuel as [|fuel IH]; intros obj s fl Hinv Hn Hle HW Hnew Hf;
    pose proof (shape_size _ (proj1 Hinv)) as Hsz; rewrite Hn in Hsz.
  { assert (0 ≤ (last + n - obj) / n) by (apply Z.div_pos; lia). lia. }
  cbn [add_memory_loop]. destruct (Z.leb_spec obj last); [|by exists s, fl].
  destruct Hnew as ((Hp & He & Hm) & Hal & Hap & Hs).
  destruct (free_object_inv s fl live obj Hinv) as (s1 & E & Hinv1 & Hd & Hfp & Hpool & Hsp).
  { rewrite Hn. split_and!; [split_and!; [done|lia|intros; apply Hm; lia]|done| |].
    - intros o Ho. destruct (Hap o Ho) as [?|?]; [left; lia|]. unfold apart. lia.
    - unfold apart in *. lia. }
  mred. rewrite E. rewrite u64_small by (unfold is_u64, W in *; lia).
  assert (Hmod : n mod MAX_ALIGN = 0) by (rewrite <- Hn; by destruct Hinv as [(_ & ? & _) _]).
  destruct (IH (obj + n) s1 (obj :: fl)) as (s2 & fl2 & E2 & Hinv2 & Hg & Hsp2); try lia.
  - done.
  - by rewrite Hpool.
  - split_and!; [split_and!; [lia|lia|]| | |].
    + intros i Hi. replace (obj + n + i) with (obj + (n + i)) by lia.
      apply elem_of_dom. rewrite Hd. apply elem_of_dom, Hm. lia.
    + unfold MAX_ALIGN in *. dlia.
    + rewrite Hpool. simpl. intros o Ho. rewrite <- (union_assoc_L {[obj]}) in Ho.
      apply elem_of_union in Ho as [->%elem_of_singleton|Ho]; [left; lia|].
      apply Hap in Ho. unfold apart in *. lia.
    + rewrite Hfp. unfold apart in *. lia.
  - replace (last + n - (obj + n)) with (last + n - obj + (-1) * n) by lia.
    rewrite Z.div_add by lia. lia.
  - exists s2, fl2. split_and!; [done|done|unfold same_geometry in *; by rewrite Hpool in Hg|].
    intros b k Hfo Hb. destruct (Hsp b k Hfo) as [Hf1 Eq1]; [unfold apart in *; lia|].
    destruct (Hsp2 b k Hf1) as [Hf2 Eq2]; [unfold apart in *; lia|].
    split; [done|]. intros i Hi. by rewrite Eq2, Eq1.
Qed.

Lemma add_memory_inv s fl live a size :
  pool_inv s fl live → s.(pool).(obj_size) ≤ size →
  new_block s (list_to_set fl ∪ live) a size →
  ∃ s' fl', add_memory a size s.(pool).(obj_size) s = (Ok tt, s') ∧ pool_inv s' fl' live ∧
    same_geometry s s' ∧ spares a size s (list_to_set fl ∪ live) s' (list_to_set fl' ∪ live).
Proof.
  intros Hinv Hsz Hnew. pose proof (shape_size _ (proj1 Hinv)). unfold add_memory.
  destruct Hnew as ((Hp & He & Hm) & Hrest).
  rewrite u64_small by (unfold is_u64, W in *; lia).
  assert (Hr : a + size - s.(pool).(obj_size) + s.(pool).(obj_size) - a = size) by lia.
  destruct (add_memory_loop_inv live s.(pool).(obj_size) (a + size - s.(pool).(obj_size))
    (S (Z.to_nat (size / s.(pool).(obj_size)))) a s fl) as (s' & fl' & ? & ? & ? & Hsp); try done; try lia.
  - rewrite Hr. split; [split_and!; done|done].
  - rewrite Hr. assert (0 ≤ size / s.(pool).(obj_size)) by (apply Z.div_pos; lia). lia.
  - rewrite Hr in Hsp. by exists s', fl'.
Qed.

(** A block from the kernel is new for the pool. *)
Lemma kmalloc_block s fl live size a m' :
  kmalloc_spec → pool_inv s fl live → 0 < size → kmalloc size s.(pmem) = (a, m') →
  (a = 0 ∧ m' = s.(pmem)) ∨
  (a ≠ 0 ∧ pool_inv (set_pmem m' s) fl live ∧
   new_block (set_pmem m' s) (list_to_set fl ∪ live) a size ∧
   spares 0 0 s (list_to_set fl ∪ live) (set_pmem m' s) (list_to_set fl ∪ live) ∧
   ∀ b k, foreign s (list_to_set fl ∪ live) b k → apart a size b k).
Proof.
  intros Hk (Hsh & Hc & Hnd & Hnf & Hdj & [Ho Hap] & Hs1 & Hs2 & Hs3 & Hs4 & Hs5) Hpos E.
  destruct (Hk _ _ _ _ Hpos E) as [?|(Hm & Ha & Hsub & Hfresh)]; [by left|right].
  pose proof (shape_size _ Hsh) as Hsz.
  assert (Hapart : ∀ b n, mapped s.(pmem) b n → 0 < n → apart b n a size).
  { intros b n (? & ? & Hb) Hn. unfold apart.
    destruct (decide (b + n ≤ a)); [by left|]. destruct (decide (a + size ≤ b)); [by right|].
    exfalso. destruct (decide (a ≤ b)).
    - pose proof (Hb 0 ltac:(lia)) as [v Hv]. pose proof (Hfresh (b - a) ltac:(lia)) as Hn'.
      replace (a + (b - a)) with (b + 0) in Hn' by lia. congruence.
    - pose proof (Hb (a - b) ltac:(lia)) as [v Hv]. pose proof (Hfresh 0 ltac:(lia)) as Hn'.
      replace (b + (a - b)) with (a + 0) in Hv by lia. congruence. }
  split; [destruct Hm; lia|]. split_and!.
  3: { intros b k (Hb & ? & ? & ?) _. split.
       - split_and!; try done. by eapply mapped_subseteq.
       - intros i Hi. destruct (proj2 (proj2 Hb) i Hi) as [v Hv]. rewrite Hv.
         by eapply lookup_weaken. }
  3: { intros b k (Hb & ? & _). destruct (Hapart b k); [done|done|by right|by left]. }
  - unfold pool_inv. simpl. split_and!; try done.
    + by eapply chain_subseteq.
    + lia.
    + lia.
    + split; [|done]. intros o Hin. destruct (Ho o Hin). split; [by eapply mapped_subseteq|done].
    + unfold sos_ok. simpl. split_and!; try done; [lia|lia|by eapply mapped_subseteq].
  - split_and!; try done.
    + intros o Hin. simpl. apply Hapart; [by apply Ho|lia].
    + simpl. destruct (Hapart sos_memory SOS_MEMORY_SIZE Hs3 ltac:(done)); unfold apart; lia.
Qed.

Lemma UNW_ALIGN_eq x k :
  0 ≤ k → 0 ≤ x → x + 2 ^ k - 1 < W →
  UNW_ALIGN x (2 ^ k) = (x + 2 ^ k - 1) - (x + 2 ^ k - 1) mod 2 ^ k.
Proof.
  intros Hk Hx Hw. unfold UNW_ALIGN, Z.lnot.
  assert (0 < 2 ^ k) by (apply Z.pow_pos_nonneg; lia).
  assert (is_u64 (x + 2 ^ k - 1)) by (unfold is_u64, W in *; lia).
  replace (Z.pred (- (2 ^ k - 1))) with (- 2 ^ k) by lia.
  rewrite (u64_small (x + _ - 1)) by done. by apply land_high.
Qed.

Lemma UNW_ALIGN_id x k :
  0 ≤ k → 0 ≤ x → x + 2 ^ k - 1 < W → x mod 2 ^ k = 0 → UNW_ALIGN x (2 ^ k) = x.
Proof.
  intros Hk Hx Hw Hm. rewrite UNW_ALIGN_eq by done.
  assert (0 < 2 ^ k) by (apply Z.pow_pos_nonneg; lia).
  replace (x + 2 ^ k - 1) with (2 ^ k - 1 + x) by lia.
  apply Z.mod_divide in Hm as [j ->]; [|lia]. rewrite Z.mod_add, Z.mod_small; lia.
Qed.

Lemma UNW_ALIGN_bounds x k :
  0 ≤ k → 0 ≤ x → x + 2 ^ k - 1 < W →
  x ≤ UNW_ALIGN x (2 ^ k) < x + 2 ^ k ∧ UNW_ALIGN x (2 ^ k) mod 2 ^ k = 0.
Proof.
  intros Hk Hx Hw. rewrite UNW_ALIGN_eq by done.
  assert (0 < 2 ^ k) by (apply Z.pow_pos_nonneg; lia).
  pose proof (Z.mod_pos_bound (x + 2 ^ k - 1) (2 ^ k)). split; [lia|].
  pose proof (Z.div_mod (x + 2 ^ k - 1) (2 ^ k)).
  replace (x + 2 ^ k - 1 - (x + 2 ^ k - 1) mod 2 ^ k)
    with ((x + 2 ^ k - 1) / 2 ^ k * 2 ^ k) by lia.
  by apply Z.mod_mul; lia.
Qed.

(** The emergency allocator: a fresh piece of the static array, or a panic
    when the array is used up. *)
Lemma sos_alloc_inv s fl live :
  pool_inv s fl live → let size := s.(pool).(obj_size) in
  (fst (sos_alloc size s) = Stop Panic) ∨
  (∃ a s', sos_alloc size s = (Ok a, s') ∧ pool_inv s' fl live ∧
     s'.(pool) = s.(pool) ∧ s'.(pmem) = s.(pmem) ∧ a ≠ 0 ∧
     new_block s' (list_to_set fl ∪ live) a size ∧
     spares 0 0 s (list_to_set fl ∪ live) s' (list_to_set fl ∪ live) ∧
     ∀ b k, foreign s (list_to_set fl ∪ live) b k → apart a size b k).
Proof.
  intros Hinv size. pose proof (shape_size _ (proj1 Hinv)) as Hsz. fold size in Hsz.
  destruct Hinv as (Hsh & Hc & Hnd & Hnf & Hdj & Hok & Hs1 & Hs2 & Hs3 & Hs4 & Hs5).
  destruct Hsh as (Hsh1 & Hsh2 & Hsh3). fold size in Hsh1, Hsh2.
  unfold sos_alloc. change MAX_ALIGN with (2 ^ 4).
  rewrite UNW_ALIGN_id by (try done; unfold SOS_MEMORY_SIZE, W in *; lia).
  change (2 ^ 4 - 1) with (Z.ones 4). rewrite !Z.land_ones by lia.
  unfold assert_. mred. change (2 ^ 4) with MAX_ALIGN. rewrite Hs4. simpl.
  destruct Hs3 as (Hm0 & HmW & Hmm). unfold SOS_MEMORY_SIZE, W, MAX_ALIGN in *.
  rewrite !(u64_small (sos_memory + _)) by (unfold is_u64; lia).
  rewrite Z.land_ones by lia. change (2 ^ 4) with 16.
  replace ((sos_memory + sos_memory_freepos s) mod 16) with 0 by dlia. simpl.
  rewrite !(u64_small (_ + size)) by (unfold is_u64; lia).
  destruct (Z.leb_spec (s.(sos_memory_freepos) + size) 16384); [right|by left].
  eexists _, _. split; [reflexivity|]. split; [|split_and!; try done; [lia|..]].
  3: { intros b k (Hb & ? & Hbo & Hbs) _. split; [|done]. split_and!; try done. simpl.
       unfold apart, SOS_MEMORY_SIZE in *. lia. }
  3: { intros b k (Hb & ? & _ & Hbs). unfold apart, SOS_MEMORY_SIZE in *. lia. }
  - unfold pool_inv, pool_shape, sos_ok, mapped, SOS_MEMORY_SIZE, W, MAX_ALIGN. simpl.
    split_and!; try done; try lia; [dlia|]. intros o Ho. apply Hs5 in Ho.
    unfold apart in *. lia.
  - split_and!.
    + split_and!; [lia|unfold W; lia|]. intros i Hi. simpl. rewrite <- Z.add_assoc.
      apply Hmm. lia.
    + unfold MAX_ALIGN. dlia.
    + intros o Ho. apply Hs5 in Ho. simpl. unfold apart in *. lia.
    + simpl. unfold apart, SOS_MEMORY_SIZE. lia.
Qed.

Lemma expand_inv s fl live :
  kmalloc_spec → pool_inv s fl live →
  fst (expand s) = Stop Panic ∨
  ∃ s' fl', expand s = (Ok tt, s') ∧ pool_inv s' fl' live ∧ same_geometry s s' ∧
    spares 0 0 s (list_to_set fl ∪ live) s' (list_to_set fl' ∪ live).
Proof.
  intros Hk Hinv. pose proof (shape_size _ (proj1 Hinv)) as Hsz.
  pose proof (proj1 (proj2 (proj2 (proj1 Hinv)))) as [Hch _].
  unfold expand, GET_MEMORY. mred.
  destruct (kmalloc s.(pool).(chunk_size) s.(pmem)) as [a m] eqn:E.
  destruct (kmalloc_block s fl live s.(pool).(chunk_size) _ _ Hk Hinv ltac:(lia) E) as [[-> ->]|(Ha & Hinv1 & Hb & Hsp & Hfo)].
  2: { rewrite (proj2 (Z.eqb_neq _ _) Ha).
       destruct (add_memory_inv (set_pmem m s) fl live a _ Hinv1 Hch Hb) as (s' & fl' & H & ? & ? & Hsp').
       simpl in H. rewrite H. right. exists s', fl'. split_and!; try done. by eapply spares_trans. }
  simpl. replace (set_pmem (pmem s) s) with s by by destruct s.
  change pg_size with (2 ^ 12).
  destruct (UNW_ALIGN_bounds s.(pool).(obj_size) 12) as [Hal _]; [done|lia| |].
  { destruct Hinv as [([_ ?] & _) _]. unfold SOS_MEMORY_SIZE, W in *. lia. }
  destruct (kmalloc (UNW_ALIGN _ _) s.(pmem)) as [a m] eqn:E2.
  destruct (kmalloc_block s fl live (UNW_ALIGN s.(pool).(obj_size) (2 ^ 12)) _ _ Hk Hinv ltac:(lia) E2) as [[-> ->]|(Ha & Hinv1 & Hb & Hsp & Hfo)].
  2: { rewrite (proj2 (Z.eqb_neq _ _) Ha).
       destruct (add_memory_inv (set_pmem m s) fl live a (UNW_ALIGN s.(pool).(obj_size) (2 ^ 12))
         Hinv1 ltac:(simpl; lia) Hb) as (s' & fl' & H & ? & ? & Hsp').
       simpl in H. rewrite H. right. exists s', fl'. split_and!; try done. by eapply spares_trans. }
  simpl. replace (set_pmem (pmem s) s) with s by by destruct s.
  destruct (sos_alloc_inv s fl live Hinv) as [Hp|(a & s1 & -> & Hinv1 & Hp1 & _ & _ & Hb & Hsp & Hfo)].
  - left. destruct (sos_alloc _ s) as [r s1]. simpl in Hp. by subst r.
  - destruct (add_memory_inv s1 fl live a s.(pool).(obj_size) Hinv1) as (s2 & fl2 & H & ? & Hg & Hsp');
      [rewrite Hp1; lia|exact Hb|].
    rewrite Hp1 in H. rewrite H. right. exists s2, fl2. split_and!; [done|done| |by eapply spares_trans].
    unfold same_geometry in *. by rewrite Hp1 in Hg.
Qed.

Lemma pop_free_inv s o fl live :
  pool_inv s (o :: fl) live → 0 < s.(pool).(num_free) →
  ∃ next, load 8 s.(pmem) o = Ok next ∧ s.(pool).(free_list) = o ∧
    pool_inv (set_free (s.(pool).(num_free) - 1) next s) fl ({[o]} ∪ live) ∧
    o ∉ live ∧ mapped s.(pmem) o s.(pool).(obj_size) ∧ o mod MAX_ALIGN = 0 ∧
    (∀ o', o' ∈ live → apart o s.(pool).(obj_size) o' s.(pool).(obj_size)).
Proof.
  intros (Hsh & [Hfl (next & Hl & Hc)] & Hnd & Hnf & Hdj & [Ho Hap] & Hs) Hpos.
  apply NoDup_cons in Hnd as [Hno Hnd].
  assert (Heq : list_to_set fl ∪ ({[o]} ∪ live) = (list_to_set (o :: fl) : gset Z) ∪ live).
  { cbn [list_to_set]. by rewrite (union_assoc_L _ {[o]}), (union_comm_L _ {[o]}). }
  assert (Ho_in : o ∈ (list_to_set (o :: fl) : gset Z)) by (apply elem_of_list_to_set; by left).
  assert (Hol : o ∉ live) by (intros ?; by apply (Hdj o)).
  exists next. split; [done|]. split; [done|].
  destruct (Ho o) as [Hm Ha]; [by apply elem_of_union_l|]. split; [|split_and!; try done].
  - unfold pool_inv. simpl in Hnf |- *. rewrite Heq. split_and!; try done; [lia|lia|].
    intros x Hx%elem_of_list_to_set [->%elem_of_singleton|Hin]%elem_of_union; [done|].
    apply (Hdj x); [|done]. apply elem_of_list_to_set. by right.
  - intros o' Hin. apply Hap; [by apply elem_of_union_l|by apply elem_of_union_r|].
    by intros ->.
Qed.

(** Taking the head of a list with enough free objects. *)
Lemma alloc_head s o fl live :
  pool_inv s (o :: fl) live → 0 < s.(pool).(num_free) → s.(pool).(reserve) < s.(pool).(num_free) →
  ∃ next, mempool_alloc s = (Ok o, set_free (s.(pool).(num_free) - 1) next s) ∧
    pool_inv (set_free (s.(pool).(num_free) - 1) next s) fl ({[o]} ∪ live) ∧ o ∉ live.
Proof.
  intros Hinv Hpos Hres. destruct (pop_free_inv _ _ _ _ Hinv Hpos) as (next & Hl & Hfl & Hinv' & ? & _).
  exists next. split; [|done]. unfold mempool_alloc, assert_. mred.
  rewrite (proj2 (Z.leb_gt _ _)), (proj2 (Z.ltb_lt _ _)) by done. simpl. by rewrite Hfl, Hl.
Qed.

Lemma mempool_alloc_inv s fl live :
  kmalloc_spec → pool_inv s fl live →
  fst (mempool_alloc s) = Stop Panic ∨
  ∃ o s' fl', mempool_alloc s = (Ok o, s') ∧ pool_inv s' fl' ({[o]} ∪ live) ∧
    o ≠ 0 ∧ o ∉ live ∧ o mod MAX_ALIGN = 0 ∧ mapped s'.(pmem) o s'.(pool).(obj_size) ∧
    (∀ o', o' ∈ live → apart o s'.(pool).(obj_size) o' s'.(pool).(obj_size)) ∧
    same_geometry s s' ∧
    spares 0 0 s (list_to_set fl ∪ live) s' (list_to_set fl' ∪ ({[o]} ∪ live)).
Proof.
  intros Hk Hinv. unfold mempool_alloc, assert_. mred.
  assert (Hex : fst ((if s.(pool).(num_free) <=? s.(pool).(reserve) then expand
                      else λ s, (Ok tt, s)) s) = Stop Panic ∨
    ∃ s' fl', (if s.(pool).(num_free) <=? s.(pool).(reserve) then expand
               else λ s, (Ok tt, s)) s = (Ok tt, s') ∧ pool_inv s' fl' live ∧ same_geometry s s' ∧
      spares 0 0 s (list_to_set fl ∪ live) s' (list_to_set fl' ∪ live)).
  { destruct (_ <=? _); [by eapply expand_inv|]. right. exists s, fl.
    split_and!; [done..|]. apply spares_refl. }
  destruct Hex as [Hp|(s1 & fl1 & -> & Hinv1 & Hg & Hsp)].
  { left. revert Hp. match goal with |- fst ?x = _ → _ => destruct x as [r s1] end.
    simpl. by intros ->. }
  destruct (Z.ltb_spec 0 s1.(pool).(num_free)) as [Hpos|]; [|by left]. right. simpl.
  destruct fl1 as [|o fl1].
  { destruct Hinv1 as (_ & _ & _ & Hnf & _). simpl in Hnf. lia. }
  destruct (pop_free_inv _ _ _ _ Hinv1 Hpos) as (next & Hl & -> & Hinv' & Hol & Hm & Ha & Hap).
  rewrite Hl. eexists o, _, fl1. split_and!; try done; try apply Hm; try (destruct Hm; lia).
  intros b k Hf H0. destruct (Hsp b k Hf H0) as [(Hb & Hk0 & Hbo & Hbs) E].
  split; [|exact E]. split_and!; try done. intros x Hx. apply Hbo.
  cbn [list_to_set]. rewrite <- union_assoc_L, (union_assoc_L _ {[o]}), (union_comm_L {[o]}) in *. set_solver.
Qed.

Lemma mempool_free_inv s fl live o :
  pool_inv s fl live → o ∈ live →
  ∃ s', mempool_free o s = (Ok tt, s') ∧ pool_inv s' (o :: fl) (live ∖ {[o]}) ∧
    s'.(pool) = Mempool s.(pool).(obj_size) s.(pool).(chunk_size) s.(pool).(reserve)
                  (u32 (s.(pool).(num_free) + 1)) o ∧
    s'.(sos_memory_freepos) = s.(sos_memory_freepos) ∧
    spares 0 0 s (list_to_set fl ∪ live) s' (list_to_set (o :: fl) ∪ (live ∖ {[o]})).
Proof.
  intros (Hsh & Hc & Hnd & Hnf & Hdj & [Ho Hap] & Hs1 & Hs2 & Hs3 & Hs4 & Hs5) Hin.
  assert (Hsub : list_to_set fl ∪ live ∖ {[o]} ⊆ (list_to_set fl : gset Z) ∪ live) by set_solver.
  assert (Hofl : o ∉ (list_to_set fl : gset Z)) by (intros ?; by apply (Hdj o)).
  assert (Hoin : o ∈ (list_to_set fl : gset Z) ∪ live) by by apply elem_of_union_r.
  destruct (free_object_inv s fl (live ∖ {[o]}) o) as (s' & ? & ? & _ & ? & ? & Hsp); [| |].
  3: { exists s'. split_and!; try done. intros b k (Hb & Hk & Hbo & Hbs) _. apply Hsp.
       - split_and!; try done. intros x Hx. by apply Hbo, Hsub.
       - by apply Hbo. }
  - unfold pool_inv, objects_ok, sos_ok. split_and!; try done; try lia.
    + intros x Hx Hx'. apply (Hdj x); [done|]. set_solver.
    + intros x Hx. apply Ho. by apply Hsub.
    + intros x x' Hx Hx'. apply Hap; by apply Hsub.
    + intros x Hx. apply Hs5. by apply Hsub.
  - destruct (Ho o Hoin). split_and!; try done; [|by apply Hs5].
    intros x Hx. apply Hap; [by apply Hsub|done|]. intros ->. set_solver.
Qed.

(** Setting up a pool in a memory where the static array is mapped. *)
Lemma mempool_init_inv s osz rsv :
  kmalloc_spec → 0 < osz < SOS_MEMORY_SIZE - MAX_ALIGN → 0 ≤ rsv < 4294967296 →
  0 ≤ s.(sos_memory_freepos) ≤ SOS_MEMORY_SIZE → s.(sos_memory_freepos) mod MAX_ALIGN = 0 →
  mapped s.(pmem) sos_memory SOS_MEMORY_SIZE → sos_memory mod MAX_ALIGN = 0 →
  fst (mempool_init osz rsv s) = Stop Panic ∨
  ∃ s' fl, mempool_init osz rsv s = (Ok tt, s') ∧ pool_inv s' fl ∅ ∧
    s'.(pool).(obj_size) = UNW_ALIGN osz MAX_ALIGN ∧ spares 0 0 s ∅ s' (list_to_set fl ∪ ∅).
Proof.
  intros Hk Hsz Hr Hs1 Hs2 Hs3 Hs4. unfold mempool_init.
  change MAX_ALIGN with (2 ^ 4) in *. change pg_size with (2 ^ 12).
  unfold SOS_MEMORY_SIZE, W in *.
  destruct (UNW_ALIGN_bounds osz 4) as [Hal Hmod]; [done|lia|unfold W; lia|].
  set (n := UNW_ALIGN osz (2 ^ 4)) in *.
  set (r := if rsv =? 0 then if 2 ^ 12 / n / 4 =? 0 then 16 else 2 ^ 12 / n / 4 else rsv).
  assert (Hrr : 1 ≤ r < 4294967296).
  { unfold r. destruct (Z.eqb_spec rsv 0); [|lia].
    destruct (Z.eqb_spec (2 ^ 12 / n / 4) 0); [lia|].
    assert (0 ≤ 2 ^ 12 / n / 4) by (apply Z.div_pos; [apply Z.div_pos|]; lia).
    assert (2 ^ 12 / n / 4 ≤ 2 ^ 12 / n) by (apply Z.div_le_upper_bound; [lia|];
      assert (0 ≤ 2 ^ 12 / n) by (apply Z.div_pos; lia); lia).
    assert (2 ^ 12 / n ≤ 2 ^ 12) by (apply Z.div_le_upper_bound; nia). lia. }
  rewrite (u64_small (2 * r * n)) by (unfold is_u64; nia).
  destruct (UNW_ALIGN_bounds (2 * r * n) 12) as [Hc _]; [done|nia|unfold W; nia|].
  set (c := UNW_ALIGN (2 * r * n) (2 ^ 12)) in *.
  set (s0 := set_pool (Mempool n c (u32 r) 0 0) s).
  assert (Hinv : pool_inv s0 [] ∅).
  { unfold pool_inv, pool_shape, objects_ok, sos_ok, s0, SOS_MEMORY_SIZE, W. simpl.
    pose proof (u32_range r). rewrite (u32_range_id r) by lia.
    split_and!; try done; try lia; try nia; try set_solver; constructor. }
  destruct (expand_inv s0 [] ∅ Hk Hinv) as [Hp|(s' & fl & ? & ? & Hg & Hsp)]; [by left|right].
  exists s', fl. split_and!; [done|done|apply Hg|].
  intros b k (Hb & Hk0 & _ & Hbs). apply Hsp. split_and!; try done.
Qed.
End mempool.

(** ** The pools implement the interface *)

Section instance.
Context (kmalloc : Z → memory → Z * memory) (sos_memory : Z).

Definition mempool_ops : PoolOps pool_state := {|
  pool_alloc := mempool_alloc kmalloc sos_memory;
  pool_free := mempool_free
|}.

Definition mempool_ok (s : pool_state) (live : gset Z) : Prop :=
  ∃ fl, pool_inv sos_memory s fl live.

Context (Hk : kmalloc_spec kmalloc).

Lemma mempool_alloc_law s live :
  mempool_ok s live →
  match mempool_alloc kmalloc sos_memory s with
  | (Ok o, s') => o ≠ 0 ∧ o ∉ live ∧ mempool_ok s' ({[o]} ∪ live)
  | (Err _, _) => False
  | (Stop t, _) => t = Panic
  end.
Proof.
  intros [fl Hinv].
  destruct (mempool_alloc_inv _ _ s fl live Hk Hinv) as [Hp|(o & s' & fl' & -> & ? & ? & ? & _)].
  - destruct (mempool_alloc _ _ s) as [r s']. simpl in Hp. by subst r.
  - split_and!; [done|done|by exists fl'].
Qed.

Lemma mempool_free_law s live o :
  mempool_ok s live → o ∈ live →
  ∃ s', mempool_free o s = (Ok tt, s') ∧ mempool_ok s' (live ∖ {[o]}).
Proof.
  intros [fl Hinv] Hin.
  destruct (mempool_free_inv kmalloc sos_memory s fl live o Hinv Hin) as (s' & ? & ? & _).
  exists s'. split; [done|by exists (o :: fl)].
Qed.

Lemma store_no_err n m a v e : store n m a v ≠ Err e.
Proof. revert m a v. induction n as [|n IH]; intros m a v; [done|]. unfold store; fold store. by destruct (m !! a). Qed.

Lemma mempool_free_no_err s o e : fst (mempool_free o s) ≠ Err e.
Proof.
  unfold mempool_free, free_object. mred.
  pose proof (store_no_err 8 s.(pmem) o s.(pool).(free_list) e).
  destruct (store _ _ _ _); [done|by intros [= ->]|done].
Qed.

Definition mempool_laws : @PoolLaws pool_state mempool_ops :=
  @Build_PoolLaws pool_state mempool_ops mempool_ok mempool_alloc_law mempool_free_law
    mempool_free_no_err.
End instance.

(** ** An example kernel allocator

    It hands out one block at [0x100000], of at most 64 kilobytes. *)
Definition block_map (a : Z) (n : nat) : memory :=
  list_to_map ((λ i, (a + Z.of_nat i, 0)) <$> seq 0 n).

Definition example_kmalloc (size : Z) (m : memory) : Z * memory :=
  let n := Z.to_nat size in
  if (size <=? 0x10000) && forallb (λ i, bool_decide (m !! (0x100000 + Z.of_nat i) = None)) (seq 0 n)
  then (0x100000, block_map 0x100000 n ∪ m) else (0, m).

Lemma block_map_lookup a n i :
  0 ≤ i < Z.of_nat n → is_Some (block_map a n !! (a + i)).
Proof.
  intros Hi. apply elem_of_dom. unfold block_map. rewrite dom_list_to_map_L, <- list_fmap_compose.
  apply elem_of_list_to_set, list_elem_of_fmap. exists (Z.to_nat i). simpl.
  split; [lia|]. apply elem_of_seq. lia.
Qed.

Lemma block_map_mapped a n m :
  0 < a → a + Z.of_nat n < W → mapped (block_map a n ∪ m) a (Z.of_nat n).
Proof.
  intros. split_and!; [done|done|]. intros i Hi.
  destruct (block_map_lookup a n i Hi) as [v Hv]. exists v. by apply lookup_union_Some_l.
Qed.

Lemma block_map_disjoint a n m :
  (∀ i, 0 ≤ i < Z.of_nat n → m !! (a + i) = None) → block_map a n ##ₘ m.
Proof.
  intros H. apply map_disjoint_dom. intros x Hx Hm.
  unfold block_map in Hx. rewrite dom_list_to_map_L, <- list_fmap_compose in Hx.
  apply elem_of_list_to_set, list_elem_of_fmap in Hx as (j & -> & [_ Hj]%elem_of_seq).
  simpl in Hm. apply elem_of_dom in Hm as [v Hv]. rewrite H in Hv by lia. done.
Qed.

Lemma example_kmalloc_spec : kmalloc_spec example_kmalloc.
Proof.
  intros size m a m' Hs. unfold example_kmalloc.
  destruct (Z.leb_spec size 0x10000) as [Hle|]; cbn [andb]; [|intros [= <- <-]; by left].
  destruct (forallb _ _) eqn:E; intros [= <- <-]; [right|by left].
  rewrite forallb_forall in E.
  assert (Hnone : ∀ i, 0 ≤ i < size → m !! (0x100000 + i) = None).
  { intros i Hi. specialize (E (Z.to_nat i)). rewrite Z2Nat.id in E by lia.
    eapply bool_decide_eq_true_1, E, list_elem_of_In, elem_of_seq. lia. }
  split_and!; [|done| |done].
  - rewrite <- (Z2Nat.id size) at 2 by lia. apply block_map_mapped; unfold W; lia.
  - apply map_union_subseteq_r, block_map_disjoint. intros i Hi. apply Hnone. lia.
Qed.

(** A machine whose static array is at [0x8000], and a pool with two objects of 32
    bytes that have been freed. *)
Definition example_pool_mem : memory :=
  block_map 0x100000 64 ∪ block_map 0x8000 (Z.to_nat SOS_MEMORY_SIZE).

Definition pool_on (m : memory) : pool_state :=
  snd ((free_object 0x100000;; free_object 0x100020) (PoolState m 0 (Mempool 32 4096 0 0 0))).

Definition example_pool : pool_state := pool_on example_pool_mem.

Lemma example_mem_mapped :
  mapped example_pool_mem 0x100000 64 ∧ mapped example_pool_mem 0x8000 SOS_MEMORY_SIZE.
Proof.
  unfold example_pool_mem. split; [apply (block_map_mapped 0x100000 64); unfold W; lia|].
  rewrite map_union_comm.
  - rewrite <- (Z2Nat.id SOS_MEMORY_SIZE) at 2 by done. by apply block_map_mapped.
  - apply block_map_disjoint. intros i Hi. apply not_elem_of_dom. unfold block_map.
    rewrite dom_list_to_map_L, <- list_fmap_compose. intros Hx.
    apply elem_of_list_to_set, list_elem_of_fmap in Hx as (j & E & [_ Hj]%elem_of_seq).
    unfold SOS_MEMORY_SIZE in Hj. simpl in E. lia.
Qed.

Lemma mapped_within m a n b k : mapped m a n → a ≤ b → b + k ≤ a + n → mapped m b k.
Proof.
  intros (? & ? & H) ??. split_and!; [lia|lia|]. intros i Hi.
  replace (b + i) with (a + (b - a + i)) by lia. apply H. lia.
Qed.

Lemma pool_on_ok m :
  mapped m 0x100000 64 → mapped m 0x8000 SOS_MEMORY_SIZE →
  pool_inv 0x8000 (pool_on m) [0x100020; 0x100000] ∅ ∧
  (pool_on m).(pool).(num_free) = 2 ∧ (pool_on m).(pool).(reserve) = 0.
Proof.
  intros Hb Hs. unfold pool_on. set (s0 := PoolState m 0 _).
  assert (H0 : pool_inv 0x8000 s0 [] ∅).
  { unfold pool_inv. rewrite (union_empty_r_L (list_to_set [])).
    split_and!; [by split_and!|done|constructor|done|done|set_solver|by split; set_solver|].
    split_and!; [done|done|done|exact Hs|done|set_solver]. }
  assert (Hx : 0x8000 + SOS_MEMORY_SIZE ≤ 0x100000) by done.
  destruct (free_object_inv example_kmalloc 0x8000 _ _ _ 0x100000 H0) as (s1 & E1 & H1 & D1 & F1 & P1 & _).
  { split_and!; [eapply mapped_within; [exact Hb|simpl; lia..]|done|set_solver|]. right. simpl. lia. }
  destruct (free_object_inv example_kmalloc 0x8000 _ _ _ 0x100020 H1) as (s2 & E2 & H2 & D2 & F2 & P2 & _).
  { split_and!; rewrite ?P1.
    - apply (mapped_dom m); [exact D1|]. eapply mapped_within; [exact Hb|simpl; lia..].
    - done.
    - intros o Ho. rewrite union_empty_r_L in Ho.
      apply elem_of_list_to_set, list_elem_of_singleton in Ho as ->. left. simpl. lia.
    - rewrite F1. right. simpl. lia. }
  mred. rewrite E1, E2. cbn [snd]. split; [exact H2|]. rewrite P2, P1. by split.
Qed.

(** What the witnesses need of the example. *)
Lemma example_pool_ok :
  pool_inv 0x8000 example_pool [0x100020; 0x100000] ∅ ∧
  example_pool.(pool).(num_free) = 2 ∧ example_pool.(pool).(reserve) = 0.
Proof. apply pool_on_ok; apply example_mem_mapped. Qed.

(** ** Properties *)

(** C10. Every object [mempool_alloc] hands out is new: aligned, mapped for its
    whole size, and apart from every object that is allocated and not yet freed;
    the free list, the emergency array and the other objects stay well formed. *)
Theorem mempool_alloc_fresh (kmalloc : Z → memory → Z * memory) (sos : Z)
    (s s' : pool_state) (fl : list Z) (live : gset Z) (o : Z) :
  kmalloc_spec kmalloc → pool_inv sos s fl live →
  mempool_alloc kmalloc sos s = (Ok o, s') →
  o ≠ 0 ∧ o ∉ live ∧ o mod MAX_ALIGN = 0 ∧ mapped s'.(pmem) o s'.(pool).(obj_size) ∧
  (∀ o', o' ∈ live → apart o s'.(pool).(obj_size) o' s'.(pool).(obj_size)) ∧
  s'.(pool).(obj_size) = s.(pool).(obj_size) ∧
  ∃ fl', pool_inv sos s' fl' ({[o]} ∪ live).
Proof.
  intros Hk Hinv E.
  destruct (mempool_alloc_inv _ _ s fl live Hk Hinv)
    as [Hp|(o' & s1 & fl' & E' & ? & ? & ? & ? & ? & ? & (Hg & _) & _)].
  - by rewrite E in Hp.
  - rewrite E in E'. injection E' as <- <-. split_and!; try done. by exists fl'.
Qed.

Lemma mempool_alloc_fresh_witness :
  ∃ s', mempool_alloc example_kmalloc 0x8000 example_pool = (Ok 0x100020, s') ∧
    mapped s'.(pmem) 0x100020 s'.(pool).(obj_size).
Proof.
  generalize example_pool, example_pool_ok. intros s (Hinv & Hn & Hr).
  destruct (alloc_head example_kmalloc 0x8000 s _ _ _ Hinv) as (next & E & _);
    [rewrite Hn; lia|rewrite Hn, Hr; lia|].
  destruct (mempool_alloc_fresh example_kmalloc 0x8000 s _ _ ∅ 0x100020
    example_kmalloc_spec Hinv E) as (_ & _ & _ & Hm & _).
  eexists. split; [exact E|exact Hm].
Defined.

(** While more objects are free than the reserve, allocation never touches
    the kernel's allocator: it returns the object freed last, so that freeing an
    object and allocating again gives the same object back. *)
Lemma mempool_free_then_alloc (kmalloc : Z → memory → Z * memory) (sos : Z)
    (s : pool_state) (fl : list Z) (live : gset Z) (o : Z) :
  pool_inv sos s fl live → o ∈ live →
  s.(pool).(reserve) ≤ s.(pool).(num_free) → s.(pool).(num_free) < 4294967295 →
  ∃ s1 s2, mempool_free o s = (Ok tt, s1) ∧ mempool_alloc kmalloc sos s1 = (Ok o, s2) ∧
    s2.(pool).(num_free) = s.(pool).(num_free) ∧ pool_inv sos s2 fl live.
Proof.
  intros Hinv Hin Hres Hmax.
  assert (0 ≤ s.(pool).(num_free) ∧ 0 ≤ s.(pool).(reserve)) as [Hn Hr].
  { destruct Hinv as ((_ & _ & _ & ?) & _ & _ & ? & _). lia. }
  destruct (mempool_free_inv kmalloc sos s fl live o Hinv Hin) as (s1 & E1 & Hinv1 & Hp1 & _).
  assert (Hnf : s1.(pool).(num_free) = s.(pool).(num_free) + 1).
  { rewrite Hp1. simpl. apply u32_range_id. lia. }
  destruct (alloc_head kmalloc sos s1 o fl (live ∖ {[o]}) Hinv1) as (next & E2 & Hinv2 & _).
  - lia.
  - rewrite Hnf, Hp1. simpl. lia.
  - rewrite <- union_difference_singleton_L in Hinv2 by done.
    eexists s1, _. split_and!; [done|exact E2|simpl; lia|exact Hinv2].
Qed.

Lemma mempool_free_then_alloc_witness :
  ∃ s0 s1 s2, mempool_alloc example_kmalloc 0x8000 example_pool = (Ok 0x100020, s0) ∧
    mempool_free 0x100020 s0 = (Ok tt, s1) ∧
    mempool_alloc example_kmalloc 0x8000 s1 = (Ok 0x100020, s2).
Proof.
  generalize example_pool, example_pool_ok. intros s (Hinv & Hn & Hr).
  destruct (alloc_head example_kmalloc 0x8000 s _ _ _ Hinv) as (next & E & Hinv0 & _);
    [rewrite Hn; lia|rewrite Hn, Hr; lia|].
  destruct (mempool_free_then_alloc example_kmalloc 0x8000 _ _ _ 0x100020 Hinv0)
    as (s1 & s2 & E1 & E2 & _).
  - apply elem_of_union_l, elem_of_singleton. reflexivity.
  - cbn [reserve num_free pool set_free set_pool]. rewrite Hn, Hr. lia.
  - cbn [num_free pool set_free set_pool]. rewrite Hn. lia.
  - eexists _, s1, s2. split; [exact E|]. split; [exact E1|exact E2].
Defined.

(** ** A pool that never runs out

    The simplest implementation of the interface, for examples: addresses are
    handed out in order and never reused. *)
Record bump := Bump { next_obj : Z }.

#[export] Instance bump_ops : PoolOps bump := {|
  pool_alloc := λ p, (Ok p.(next_obj), Bump (p.(next_obj) + 1));
  pool_free := λ o p, (Ok tt, p)
|}.

#[export, refine] Instance bump_laws : PoolLaws bump := {|
  pool_ok p live := 0 < p.(next_obj) ∧ ∀ o, o ∈ live → o < p.(next_obj)
|}.
Proof.
  - intros p live [Hp Hl]. simpl. split_and!; [lia| |lia|].
    + intros Hin. apply Hl in Hin. lia.
    + intros o [->%elem_of_singleton|Hin]%elem_of_union; [lia|]. apply Hl in Hin. lia.
  - intros p live o [Hp Hl] Hin. exists p. split_and!; [done|done|].
    intros o' Ho'. apply Hl. set_solver.
  - done.
Defined.

Lemma bump_start n : 0 < n → pool_ok (Bump n) ∅.
Proof. intros Hn. split; [done|]. intros o Ho. by apply elem_of_empty in Ho. Qed.
