(* ===== verification/Cfi.v ===== *)
(** * Call-frame instructions

    [run_cfi_program] of [Gparser.c] and the routines around it: one definition
    per group of instructions, composed by the loop.  The register states
    remembered on the way live in objects of a pool, reached through the
    interface [PoolOps].  The second half proves what every instruction keeps,
    on any bytes: the shape of the register rows and the pool's objects. *)
From S2P Require Export Mempool EncPtr.
From S2P Require Import Leb128.

(** ** Opcodes *)

(** [src/include/dwarf.h:129-129], [DWARF_CFA_OPCODE_MASK] *)
Definition DWARF_CFA_OPCODE_MASK : Z := 0xc0.
(** [src/include/dwarf.h:130-130], [DWARF_CFA_OPERAND_MASK] *)
Definition DWARF_CFA_OPERAND_MASK : Z := 0x3f.

(** [DW_CFA_unlisted] stands for the values the enumeration does not name.
    [src/include/dwarf.h:132-164], [dwarf_cfa_t] *)
Inductive dwarf_cfa_t :=
  | DW_CFA_advance_loc | DW_CFA_offset | DW_CFA_restore
  | DW_CFA_nop | DW_CFA_set_loc
  | DW_CFA_advance_loc1 | DW_CFA_advance_loc2 | DW_CFA_advance_loc4
  | DW_CFA_offset_extended | DW_CFA_restore_extended
  | DW_CFA_undefined | DW_CFA_same_value | DW_CFA_register
  | DW_CFA_remember_state | DW_CFA_restore_state
  | DW_CFA_def_cfa | DW_CFA_def_cfa_register | DW_CFA_def_cfa_offset
  | DW_CFA_def_cfa_expression | DW_CFA_expression
  | DW_CFA_offset_extended_sf | DW_CFA_def_cfa_sf | DW_CFA_def_cfa_offset_sf
  | DW_CFA_lo_user | DW_CFA_MIPS_advance_loc8
  | DW_CFA_GNU_window_save | DW_CFA_GNU_args_size
  | DW_CFA_GNU_negative_offset_extended
  | DW_CFA_hi_user
  | DW_CFA_unlisted.

#[export] Instance dwarf_cfa_eq_dec : EqDecision dwarf_cfa_t.
Proof. solve_decision. Defined.

(** The cast [(dwarf_cfa_t) op].  [src/include/dwarf.h:132-164], [dwarf_cfa_t] *)
Definition cfa_of_byte (op : Z) : dwarf_cfa_t :=
  match op with
  | 0x40 => DW_CFA_advance_loc | 0x80 => DW_CFA_offset | 0xc0 => DW_CFA_restore
  | 0x00 => DW_CFA_nop | 0x01 => DW_CFA_set_loc
  | 0x02 => DW_CFA_advance_loc1 | 0x03 => DW_CFA_advance_loc2
  | 0x04 => DW_CFA_advance_loc4
  | 0x05 => DW_CFA_offset_extended | 0x06 => DW_CFA_restore_extended
  | 0x07 => DW_CFA_undefined | 0x08 => DW_CFA_same_value | 0x09 => DW_CFA_register
  | 0x0a => DW_CFA_remember_state | 0x0b => DW_CFA_restore_state
  | 0x0c => DW_CFA_def_cfa | 0x0d => DW_CFA_def_cfa_register
  | 0x0e => DW_CFA_def_cfa_offset | 0x0f => DW_CFA_def_cfa_expression
  | 0x10 => DW_CFA_expression | 0x11 => DW_CFA_offset_extended_sf
  | 0x12 => DW_CFA_def_cfa_sf | 0x13 => DW_CFA_def_cfa_offset_sf
  | 0x1c => DW_CFA_lo_user | 0x1d => DW_CFA_MIPS_advance_loc8
  | 0x2d => DW_CFA_GNU_window_save | 0x2e => DW_CFA_GNU_args_size
  | 0x2f => DW_CFA_GNU_negative_offset_extended | 0x3c => DW_CFA_hi_user
  | _ => DW_CFA_unlisted
  end.

(** ** The interpreter *)

(** The register columns of a state: one per preserved register, the register
    and the offset of the frame address. *)
Abbreviation reg_row := (list dwarf_save_loc_t).

(** The local variables that live across iterations, the caller's [*addr] and
    [*sr], and the pool the remembered states come from.  A remembered state is
    its object with the columns stored in it; [next] is the list's order.
    [src/Gparser.c:65-73], [run_cfi_program] *)
Record cfi_state (P : Type) := CfiState {
  cs_addr : Z;
  curr_ip : Z;
  sr : dwarf_state_record_t;
  rs_stack : list (Z * reg_row);
  cs_pool : P
}.
Arguments CfiState {P}.
Arguments cs_addr {P}.
Arguments curr_ip {P}.
Arguments sr {P}.
Arguments rs_stack {P}.
Arguments cs_pool {P}.

Section cfi.
Context {P : Type} `{!PoolOps P}.

Definition set_cs_addr (x : Z) (s : cfi_state P) : cfi_state P :=
  CfiState x s.(curr_ip) s.(sr) s.(rs_stack) s.(cs_pool).
Definition set_curr_ip (x : Z) (s : cfi_state P) : cfi_state P :=
  CfiState s.(cs_addr) x s.(sr) s.(rs_stack) s.(cs_pool).
Definition set_sr (x : dwarf_state_record_t) (s : cfi_state P) : cfi_state P :=
  CfiState s.(cs_addr) s.(curr_ip) x s.(rs_stack) s.(cs_pool).
Definition set_rs_stack (x : list (Z * reg_row)) (s : cfi_state P) : cfi_state P :=
  CfiState s.(cs_addr) s.(curr_ip) s.(sr) x s.(cs_pool).
Definition set_cs_pool (x : P) (s : cfi_state P) : cfi_state P :=
  CfiState s.(cs_addr) s.(curr_ip) s.(sr) s.(rs_stack) x.

(** A reader applied to [*addr]. *)
Definition rd {A} (f : M Z A) : M (cfi_state P) A := λ s,
  let '(r, a) := f s.(cs_addr) in (r, set_cs_addr a s).

(** A call on the pool. *)
Definition on_pool {A} (f : M P A) : M (cfi_state P) A := λ s,
  let '(r, p) := f s.(cs_pool) in (r, set_cs_pool p s).

(** [src/Gparser.c:34-49], [read_regnum] *)
Definition read_regnum (m : memory) : M Z Z :=
  valp ← dwarf_read_uleb128 m;
  if DWARF_NUM_PRESERVED_REGS <=? valp then fail UNW_EBADREG else mret valp.

(** [src/Gparser.c:51-57], [set_reg] *)
Definition set_reg (regnum : Z) (where_ : dwarf_where_t) (val : Z) : M (cfi_state P) () :=
  s ← get_st;
  let rs := s.(sr).(rs_current) in
  regs ← lift (awrite rs.(rs_reg) regnum (SaveLoc where_ val));
  mod_st (set_sr (set_rs_current (set_rs_reg regs rs) s.(sr))).

(** [src/Gparser.c:101-142], [run_cfi_program] *)
Definition cfi_advance (m : memory) (dci : dwarf_cie_info_t) (op : dwarf_cfa_t) (operand : Z)
    : M (cfi_state P) () :=
  let advance delta :=
    mod_st (λ s, set_curr_ip (u64 (s.(curr_ip) + u64 (delta * dci.(code_align)))) s) in
  match op with
  | DW_CFA_advance_loc => advance operand
  | DW_CFA_advance_loc1 => u8 ← rd (dwarf_readu8 m); advance u8
  | DW_CFA_advance_loc2 => u16 ← rd (dwarf_readu16 m); advance u16
  | DW_CFA_advance_loc4 => u32 ← rd (dwarf_readu32 m); advance u32
  | _ (* DW_CFA_MIPS_advance_loc8 *) => fail UNW_EINVAL
  end.

(** [src/Gparser.c:144-176], [run_cfi_program] *)
Definition cfi_offset (m : memory) (dci : dwarf_cie_info_t) (op : dwarf_cfa_t) (operand : Z)
    : M (cfi_state P) () :=
  match op with
  | DW_CFA_offset =>
      let regnum := operand in
      if DWARF_NUM_PRESERVED_REGS <=? regnum then fail UNW_EBADREG
      else
        val ← rd (dwarf_read_uleb128 m);
        set_reg regnum DWARF_WHERE_CFAREL (u64 (val * dci.(data_align)))
  | DW_CFA_offset_extended =>
      regnum ← rd (read_regnum m);
      val ← rd (dwarf_read_uleb128 m);
      set_reg regnum DWARF_WHERE_CFAREL (u64 (val * dci.(data_align)))
  | _ (* DW_CFA_offset_extended_sf *) =>
      regnum ← rd (read_regnum m);
      val ← rd (dwarf_read_sleb128 m);
      set_reg regnum DWARF_WHERE_CFAREL (u64 (val * dci.(data_align)))
  end.

(** [sr->rs_current.reg[regnum] = sr->rs_initial.reg[regnum]] *)
Definition restore_reg (regnum : Z) : M (cfi_state P) () :=
  if DWARF_NUM_PRESERVED_REGS <=? regnum then fail UNW_EINVAL
  else
    s ← get_st;
    l ← lift (aread s.(sr).(rs_initial).(rs_reg) regnum);
    set_reg regnum l.(where_) l.(sl_val).

(** [src/Gparser.c:178-203], [run_cfi_program] *)
Definition cfi_restore (m : memory) (op : dwarf_cfa_t) (operand : Z) : M (cfi_state P) () :=
  match op with
  | DW_CFA_restore => restore_reg operand
  | _ (* DW_CFA_restore_extended *) =>
      regnum ← rd (dwarf_read_uleb128 m); restore_reg regnum
  end.

(** [src/Gparser.c:208-215], [run_cfi_program] *)
Definition cfi_set_loc (m : memory) (pi : unw_proc_info_t) (dci : dwarf_cie_info_t)
    : M (cfi_state P) () :=
  v ← rd (dwarf_read_encoded_pointer m dci.(fde_encoding) pi);
  mod_st (set_curr_ip v).

(** [src/Gparser.c:217-237], [run_cfi_program] *)
Definition cfi_register (m : memory) (op : dwarf_cfa_t) : M (cfi_state P) () :=
  regnum ← rd (read_regnum m);
  match op with
  | DW_CFA_undefined => set_reg regnum DWARF_WHERE_UNDEF 0
  | DW_CFA_same_value => set_reg regnum DWARF_WHERE_SAME 0
  | _ (* DW_CFA_register *) =>
      val ← rd (dwarf_read_uleb128 m);
      set_reg regnum DWARF_WHERE_REG val
  end.

(** [src/Gparser.c:239-252], [run_cfi_program] *)
Definition cfi_remember_state : M (cfi_state P) () :=
  new_rs ← on_pool pool_alloc;
  if new_rs =? 0 then fail UNW_ENOMEM
  else mod_st (λ s, set_rs_stack ((new_rs, s.(sr).(rs_current).(rs_reg)) :: s.(rs_stack)) s).

(** [src/Gparser.c:254-266], [run_cfi_program] *)
Definition cfi_restore_state : M (cfi_state P) () :=
  s ← get_st;
  match s.(rs_stack) with
  | [] => fail UNW_EINVAL
  | (old_rs, regs) :: rest =>
      mod_st (set_sr (set_rs_current (set_rs_reg regs s.(sr).(rs_current)) s.(sr)));;
      mod_st (set_rs_stack rest);;
      on_pool (pool_free old_rs)
  end.

(** The value 0 for [where] is [DWARF_WHERE_UNDEF].
    [src/Gparser.c:268-309], [run_cfi_program] *)
Definition cfi_def_cfa (m : memory) (dci : dwarf_cie_info_t) (op : dwarf_cfa_t)
    : M (cfi_state P) () :=
  match op with
  | DW_CFA_def_cfa =>
      regnum ← rd (read_regnum m);
      val ← rd (dwarf_read_uleb128 m);
      set_reg DWARF_CFA_REG_COLUMN DWARF_WHERE_REG regnum;;
      set_reg DWARF_CFA_OFF_COLUMN DWARF_WHERE_UNDEF val
  | DW_CFA_def_cfa_sf =>
      regnum ← rd (read_regnum m);
      val ← rd (dwarf_read_sleb128 m);
      set_reg DWARF_CFA_REG_COLUMN DWARF_WHERE_REG regnum;;
      set_reg DWARF_CFA_OFF_COLUMN DWARF_WHERE_UNDEF (u64 (val * dci.(data_align)))
  | DW_CFA_def_cfa_register =>
      regnum ← rd (read_regnum m);
      set_reg DWARF_CFA_REG_COLUMN DWARF_WHERE_REG regnum
  | DW_CFA_def_cfa_offset =>
      val ← rd (dwarf_read_uleb128 m);
      set_reg DWARF_CFA_OFF_COLUMN DWARF_WHERE_UNDEF val
  | _ (* DW_CFA_def_cfa_offset_sf *) =>
      val ← rd (dwarf_read_sleb128 m);
      set_reg DWARF_CFA_OFF_COLUMN DWARF_WHERE_UNDEF (u64 (val * dci.(data_align)))
  end.

(** The block is skipped; its address is kept for later evaluation.
    [src/Gparser.c:311-336], [run_cfi_program] *)
Definition cfi_expression (m : memory) (op : dwarf_cfa_t) : M (cfi_state P) () :=
  regnum ← match op with
           | DW_CFA_def_cfa_expression => mret DWARF_CFA_REG_COLUMN
           | _ (* DW_CFA_expression *) => rd (read_regnum m)
           end;
  s ← get_st;
  set_reg regnum DWARF_WHERE_EXPR s.(cs_addr);;
  len ← rd (dwarf_read_uleb128 m);
  mod_st (λ s, set_cs_addr (u64 (s.(cs_addr) + len)) s).

(** [src/Gparser.c:338-355], [run_cfi_program] *)
Definition cfi_gnu (m : memory) (dci : dwarf_cie_info_t) (op : dwarf_cfa_t)
    : M (cfi_state P) () :=
  match op with
  | DW_CFA_GNU_args_size =>
      val ← rd (dwarf_read_uleb128 m);
      mod_st (λ s, set_sr (set_sr_args_size val s.(sr)) s)
  | _ (* DW_CFA_GNU_negative_offset_extended *) =>
      regnum ← rd (read_regnum m);
      val ← rd (dwarf_read_uleb128 m);
      set_reg regnum DWARF_WHERE_CFAREL (u64 (- u64 (val * dci.(data_align))))
  end.

(** The [switch] has no default: a value the enumeration does not name falls
    through it.  [src/Gparser.c:99-374], [run_cfi_program] *)
Definition cfi_dispatch (m : memory) (pi : unw_proc_info_t) (dci : dwarf_cie_info_t)
    (op : dwarf_cfa_t) (operand : Z) : M (cfi_state P) () :=
  match op with
  | DW_CFA_advance_loc | DW_CFA_advance_loc1 | DW_CFA_advance_loc2
  | DW_CFA_advance_loc4 | DW_CFA_MIPS_advance_loc8 => cfi_advance m dci op operand
  | DW_CFA_offset | DW_CFA_offset_extended | DW_CFA_offset_extended_sf =>
      cfi_offset m dci op operand
  | DW_CFA_restore | DW_CFA_restore_extended => cfi_restore m op operand
  | DW_CFA_nop => mret tt
  | DW_CFA_set_loc => cfi_set_loc m pi dci
  | DW_CFA_undefined | DW_CFA_same_value | DW_CFA_register => cfi_register m op
  | DW_CFA_remember_state => cfi_remember_state
  | DW_CFA_restore_state => cfi_restore_state
  | DW_CFA_def_cfa | DW_CFA_def_cfa_sf | DW_CFA_def_cfa_register
  | DW_CFA_def_cfa_offset | DW_CFA_def_cfa_offset_sf => cfi_def_cfa m dci op
  | DW_CFA_def_cfa_expression | DW_CFA_expression => cfi_expression m op
  | DW_CFA_GNU_args_size | DW_CFA_GNU_negative_offset_extended => cfi_gnu m dci op
  | DW_CFA_GNU_window_save | DW_CFA_lo_user | DW_CFA_hi_user => fail UNW_EINVAL
  | DW_CFA_unlisted => mret tt
  end.

(** [src/Gparser.c:94-99], [run_cfi_program] *)
Definition cfi_switch (m : memory) (pi : unw_proc_info_t) (dci : dwarf_cie_info_t) (op : Z)
    : M (cfi_state P) () :=
  if negb (Z.land op DWARF_CFA_OPCODE_MASK =? 0)
  then cfi_dispatch m pi dci (cfa_of_byte (Z.land op (Z.lnot DWARF_CFA_OPERAND_MASK)))
         (Z.land op DWARF_CFA_OPERAND_MASK)
  else cfi_dispatch m pi dci (cfa_of_byte op) 0.

(** The code after [fail:] with [ret].  [src/Gparser.c:376-386], [run_cfi_program] *)
Fixpoint free_states (ret : res ()) (stack : list (Z * reg_row)) : M (cfi_state P) () :=
  match stack with
  | [] => mod_st (set_rs_stack []);; lift ret
  | (old_rs, _) :: rest => on_pool (pool_free old_rs);; free_states ret rest
  end.

Definition at_fail (ret : res ()) : M (cfi_state P) () :=
  s ← get_st; free_states ret s.(rs_stack).

(** An error reading the opcode returns at once, one in an instruction goes to
    [fail].  [src/Gparser.c:86-387], [run_cfi_program] *)
Fixpoint cfi_loop (fuel : nat) (m : memory) (pi : unw_proc_info_t) (dci : dwarf_cie_info_t)
    (ip end_addr : Z) : M (cfi_state P) () := λ s,
  match fuel with
  | O => (Stop NoFuel, s)
  | S fuel' =>
      if (s.(curr_ip) <=? ip) && (s.(cs_addr) <? end_addr) then
        match rd (dwarf_readu8 m) s with
        | (Ok op, s) =>
            match cfi_switch m pi dci op s with
            | (Ok _, s) => cfi_loop fuel' m pi dci ip end_addr s
            | (Err e, s) => at_fail (Err e) s
            | (Stop t, s) => (Stop t, s)
            end
        | (Err e, s) => (Err e, s)
        | (Stop t, s) => (Stop t, s)
        end
      else at_fail (Ok tt) s
  end.

(** [c->pi] is not changed.  The results are the state record, the pool and
    the final [*addr].  [src/Gparser.c:59-387], [run_cfi_program] *)
Definition run_cfi_program (fuel : nat) (m : memory) (pi : unw_proc_info_t)
    (dci : dwarf_cie_info_t) (ip addr end_addr : Z) (sr0 : dwarf_state_record_t) (p : P)
    : res () * cfi_state P :=
  cfi_loop fuel m pi dci ip end_addr (CfiState addr pi.(start_ip) sr0 [] p).

(** The first assignment, of [c->ret_addr_column], is in the caller ([Step.v]).
    The interpreter runs the instructions of the CIE without a limit on the
    address, keeps the result as the initial state, and runs those of the FDE
    up to [ip].  [src/Gparser.c:467-489], [parse_fde] *)
Definition parse_fde (fuel : nat) (m : memory) (pi : unw_proc_info_t) (dci : dwarf_cie_info_t)
    (ip : Z) (sr0 : dwarf_state_record_t) (p : P) : res dwarf_state_record_t * P :=
  match run_cfi_program fuel m pi dci (u64 (-1)) dci.(cie_instr_start) dci.(cie_instr_end) sr0 p with
  | (Ok _, s) =>
      let sr1 := set_rs_initial s.(sr).(rs_current) s.(sr) in
      match run_cfi_program fuel m pi dci ip dci.(fde_instr_start) dci.(fde_instr_end) sr1 s.(cs_pool) with
      | (Ok _, s) => (Ok s.(sr), s.(cs_pool))
      | (Err e, s) => (Err e, s.(cs_pool))
      | (Stop t, s) => (Stop t, s.(cs_pool))
      end
  | (Err e, s) => (Err e, s.(cs_pool))
  | (Stop t, s) => (Stop t, s.(cs_pool))
  end.
End cfi.

(** ** What every instruction keeps

    The register rows keep their nineteen columns, and the objects of the pool
    that are live are those of the caller and those of the remembered states. *)

(** The number of columns. *)
Definition num_columns : nat := 19.

Section invariant.
Context {P : Type} `{!PoolOps P, !PoolLaws P}.

Definition rows_ok (s : cfi_state P) : Prop :=
  length s.(sr).(rs_current).(rs_reg) = num_columns ∧
  length s.(sr).(rs_initial).(rs_reg) = num_columns ∧
  Forall (λ x, length (snd x) = num_columns) s.(rs_stack).

Definition stack_ok (live : gset Z) (s : cfi_state P) : Prop :=
  NoDup (fst <$> s.(rs_stack)) ∧ list_to_set (fst <$> s.(rs_stack)) ## live ∧
  pool_ok s.(cs_pool) (list_to_set (fst <$> s.(rs_stack)) ∪ live).

Definition cfi_inv (live : gset Z) (s : cfi_state P) : Prop := rows_ok s ∧ stack_ok live s.

Lemma safe_rd {A} live (f : M Z A) : no_undef f → safe (cfi_inv live) (rd f) (λ _, True).
Proof.
  intros Hf s Hs. unfold safe_at, rd. specialize (Hf s.(cs_addr)).
  destruct (f s.(cs_addr)) as [[v|e|t] a]; [done|done|]. intros ->. by apply (Hf a).
Qed.

Lemma read_regnum_range m a r a' :
  read_regnum m a = (Ok r, a') → is_u64 a → 0 ≤ r < DWARF_NUM_PRESERVED_REGS.
Proof.
  unfold read_regnum. mred. destruct (dwarf_read_uleb128 m a) as [[v| |] a1] eqn:E; [|done..].
  destruct (Z.leb_spec DWARF_NUM_PRESERVED_REGS v); [done|]. intros [= <- <-] Ha.
  destruct (uleb_read_total _ _ _ _ Ha E) as (_ & _ & Hv). destruct (Hv v eq_refl) as [[? _] _].
  lia.
Qed.

Lemma no_undef_regnum m : no_undef (read_regnum m).
Proof. apply no_undef_bind; [apply no_undef_uleb|]. intros v. by case_match. Qed.

Lemma safe_set_reg live r w v :
  0 ≤ r < Z.of_nat num_columns → safe (cfi_inv live) (set_reg r w v) (λ _, True).
Proof.
  intros Hr s [(H1 & H2 & H3) Hp]. unfold safe_at, set_reg. mred.
  rewrite awrite_Ok by (rewrite H1; done). simpl. split; [|done]. split; [|done].
  split_and!; [|done..]. simpl. by rewrite length_insert.
Qed.

Lemma uleb_nonneg m a v a' : dwarf_read_uleb128 m a = (Ok v, a') → 0 ≤ v.
Proof.
  intros H. assert (Hloop : ∀ fuel val shift a r, 0 ≤ val → 0 ≤ shift →
    fst (leb_loop fuel m val shift a) = Ok r → 0 ≤ r.1.1).
  { clear. induction fuel as [|fuel IH]; intros val shift a r Hv Hs; [done|]. cbn [leb_loop]. mred.
    destruct (dwarf_readu8 m a) as [[b| |] a1]; [|done..].
    destruct (64 <=? shift); [done|].
    assert (0 ≤ Z.lor val (u64 (Z.shiftl (Z.land b 0x7f) shift))).
    { apply Z.lor_nonneg. split; [done|]. pose proof (u64_range (Z.shiftl (Z.land b 0x7f) shift)) as [? _]. done. }
    destruct (Z.land b 0x80 =? 0); [by intros [= <-]|].
    apply IH; [done|]. pose proof (u64_range (shift + 7)) as [? _]. done. }
  revert H. unfold dwarf_read_uleb128. mred.
  destruct (leb_loop leb_fuel m 0 0 a) as [[r| |] a1] eqn:E; [|done..]. intros [= <- _].
  apply (Hloop leb_fuel 0 0 a r); [done|done|by rewrite E].
Qed.

Lemma safe_rd_uleb live m : safe (cfi_inv live) (rd (dwarf_read_uleb128 m)) (λ v, 0 ≤ v).
Proof.
  intros s Hs. pose proof (safe_rd live (dwarf_read_uleb128 m) (no_undef_uleb m) s Hs) as H.
  unfold safe_at, rd in *.
  destruct (dwarf_read_uleb128 m s.(cs_addr)) as [[v|e|t] a] eqn:E; [|done..].
  split; [done|]. by eapply uleb_nonneg.
Qed.

Lemma safe_rd_regnum live m :
  safe (cfi_inv live) (rd (read_regnum m)) (λ r, 0 ≤ r < DWARF_NUM_PRESERVED_REGS).
Proof.
  intros s Hs. pose proof (safe_rd live (read_regnum m) (no_undef_regnum m) s Hs) as H.
  unfold safe_at, rd in *.
  destruct (read_regnum m s.(cs_addr)) as [[r|e|t] a] eqn:E; [|done..].
  split; [done|]. revert E. unfold read_regnum. mred.
  destruct (dwarf_read_uleb128 m s.(cs_addr)) as [[v| |] a1] eqn:E; [|done..].
  apply uleb_nonneg in E. destruct (Z.leb_spec DWARF_NUM_PRESERVED_REGS v); [done|].
  intros [= <- _]. lia.
Qed.

Lemma safe_restore_reg live r : 0 ≤ r → safe (cfi_inv live) (restore_reg r) (λ _, True).
Proof.
  intros Hr. unfold restore_reg. destruct (Z.leb_spec DWARF_NUM_PRESERVED_REGS r); [apply safe_fail|].
  apply safe_get. intros s Hs. pose proof Hs as [(H1 & H2 & H3) Hp].
  unfold DWARF_NUM_PRESERVED_REGS, num_columns in *.
  destruct (aread_Ok s.(sr).(rs_initial).(rs_reg) r) as (l & E & _); [lia|]. rewrite E.
  apply (safe_set_reg live r l.(where_) l.(sl_val)); [unfold num_columns; lia|done].
Qed.

Lemma safe_remember live : safe (cfi_inv live) cfi_remember_state (λ _, True).
Proof.
  intros s [(H1 & H2 & H3) (Hnd & Hdj & Hp)]. unfold safe_at, cfi_remember_state, on_pool. mred.
  pose proof (pool_alloc_ok _ _ Hp) as Ha.
  destruct (pool_alloc s.(cs_pool)) as [[o|e|t] p]; [|done|by intros ->].
  destruct Ha as (Ho & Hn & Hp'). rewrite (proj2 (Z.eqb_neq _ _) Ho). split; [|done].
  split; [split_and!; try done; by constructor|]. unfold stack_ok. simpl.
  apply not_elem_of_union in Hn as [Hn1 Hn2]. split_and!.
  - constructor; [|done]. by intros ?%(elem_of_list_to_set (C:=gset Z)).
  - apply disjoint_union_l. split; [|done]. by apply disjoint_singleton_l.
  - by rewrite <- (union_assoc_L {[o]}).
Qed.

(** Dropping the top of the stack. *)
Lemma free_top live s o regs rest :
  stack_ok live s → s.(rs_stack) = (o, regs) :: rest →
  ∃ p', pool_free o s.(cs_pool) = (Ok tt, p') ∧
        stack_ok live (set_cs_pool p' (set_rs_stack rest s)).
Proof.
  intros (Hnd & Hdj & Hp) E. rewrite E in *. cbn [fmap list_fmap fst list_to_set] in *.
  apply NoDup_cons in Hnd as [Hno Hnd].
  assert (Hin : o ∈ ({[o]} : gset Z) ∪ list_to_set (fst <$> rest) ∪ live)
    by by apply elem_of_union_l, elem_of_union_l, elem_of_singleton.
  destruct (pool_free_ok _ _ o Hp Hin) as (p' & Hf & Hp').
  exists p'. split; [done|]. unfold stack_ok. simpl.
  apply disjoint_union_l in Hdj as [Hd1 Hd2]. split_and!; [done|done|].
  replace (list_to_set _ ∪ live) with
    ((({[o]} : gset Z) ∪ list_to_set (fst <$> rest) ∪ live) ∖ {[o]}); [done|].
  apply disjoint_singleton_l in Hd1.
  assert (o ∉ (list_to_set (fst <$> rest) : gset Z)) by by intros ?%elem_of_list_to_set.
  set_solver.
Qed.

Lemma safe_restore_state live : safe (cfi_inv live) cfi_restore_state (λ _, True).
Proof.
  apply safe_get. intros s Hs. pose proof Hs as [(H1 & H2 & H3) Hst].
  destruct s.(rs_stack) as [|[o regs] rest] eqn:E; [exact Hs|].
  destruct (free_top live s o regs rest Hst E) as (p' & Hf & Hst').
  unfold safe_at, on_pool. mred. simpl. rewrite Hf. split; [|done].
  apply Forall_cons in H3 as [? ?]. split; [by split_and!|done].
Qed.

(** Chain the rules over the body of an instruction. *)
Ltac safe_step :=
  lazymatch goal with
  | |- safe _ (rd (read_regnum _) ≫= _) _ =>
      eapply safe_bind; [apply safe_rd_regnum|]; intros
  | |- safe _ (rd (dwarf_read_uleb128 _) ≫= _) _ =>
      eapply safe_bind; [apply safe_rd_uleb|]; intros
  | |- safe _ (rd _ ≫= _) _ => eapply safe_bind; [apply safe_rd; auto with unw|]; intros
  | |- safe _ (set_reg _ _ _ ≫= _) _ => eapply safe_bind; [apply safe_set_reg|]; intros
  | |- safe _ (set_reg _ _ _) _ => apply safe_set_reg
  | |- safe _ (restore_reg _) _ => apply safe_restore_reg
  | |- safe _ (mod_st _) _ => apply safe_mod; [|done]; intros ? [? ?]; split; assumption
  end.

Ltac columns := cbn beta in *; unfold num_columns, DWARF_CFA_REG_COLUMN, DWARF_CFA_OFF_COLUMN,
                       DWARF_NUM_PRESERVED_REGS in *; lia.

Lemma cfi_switch_safe live m pi dci op :
  is_byte op → safe (cfi_inv live) (cfi_switch m pi dci op) (λ _, True).
Proof.
  intros Hop. unfold cfi_switch.
  assert (Hpart : ∀ c operand, 0 ≤ operand →
    safe (cfi_inv live) (cfi_dispatch m pi dci c operand) (λ _, True)).
  { intros c operand Ho.
    destruct c; unfold cfi_dispatch; try apply safe_fail; try (by apply safe_ret); unfold cfi_advance, cfi_offset, cfi_restore, cfi_set_loc,
      cfi_register, cfi_def_cfa, cfi_gnu; repeat safe_step; try apply safe_fail; try columns;
      try apply safe_remember; try apply safe_restore_state.
    - destruct (Z.leb_spec DWARF_NUM_PRESERVED_REGS operand); [apply safe_fail|]. repeat safe_step. columns.
    - unfold cfi_expression. eapply (safe_bind _ _ _ (λ r, 0 ≤ r < 18)).
      { apply safe_ret. columns. }
      intros r Hr. apply safe_get. intros s Hs. eapply safe_at_bind;
        [apply (safe_set_reg live); [columns|exact Hs]|]. intros _ _. repeat safe_step.
    - unfold cfi_expression. safe_step. apply safe_get. intros s Hs. eapply safe_at_bind;
        [apply (safe_set_reg live); [columns|exact Hs]|]. intros _ _. repeat safe_step. }
  destruct (negb _); apply Hpart; [|done].
  apply Z.land_nonneg. right. done.
Qed.

Lemma free_states_ok live ret stack s :
  stack_ok live (set_rs_stack stack s) →
  ∃ s', free_states ret stack s = (ret, s') ∧ s'.(rs_stack) = [] ∧
    s'.(sr) = s.(sr) ∧ s'.(cs_addr) = s.(cs_addr) ∧ pool_ok s'.(cs_pool) live.
Proof.
  revert s. induction stack as [|[o regs] stack IH]; intros s Hs.
  - eexists. split; [reflexivity|]. split_and!; try done. destruct Hs as (_ & _ & Hp).
    simpl in *. by rewrite (union_empty_l_L live) in Hp.
  - destruct (free_top live _ o regs stack Hs eq_refl) as (p' & Hf & Hs'). simpl in Hf.
    cbn [free_states]. unfold on_pool. mred. rewrite Hf.
    destruct (IH (set_cs_pool p' s)) as (s' & E & ?); [exact Hs'|]. exists s'. by rewrite E.
Qed.

Lemma readu8_is_byte m (s s' : cfi_state P) op : rd (dwarf_readu8 m) s = (Ok op, s') → is_byte op.
Proof.
  unfold rd. destruct (dwarf_readu8 m s.(cs_addr)) as [r a] eqn:E. intros [= -> _].
  apply read_value_Ok in E as (v & _ & -> & _). apply u8_range.
Qed.

Lemma cfi_loop_safe live fuel m pi dci ip end_addr s :
  cfi_inv live s →
  match cfi_loop fuel m pi dci ip end_addr s with
  | (Stop t, _) => t ≠ Undef
  | (_, s') => rows_ok s' ∧ s'.(rs_stack) = [] ∧ pool_ok s'.(cs_pool) live
  end.
Proof.
  revert s. induction fuel as [|fuel IH]; intros s Hs; [done|]. cbn [cfi_loop].
  assert (Hfail : ∀ ret s, cfi_inv live s →
    match at_fail ret s with
    | (Stop t, _) => Stop t = ret
    | (_, s') => rows_ok s' ∧ s'.(rs_stack) = [] ∧ pool_ok s'.(cs_pool) live
    end).
  { intros ret s0 [(H1 & H2 & H3) Hst]. unfold at_fail. mred.
    destruct (free_states_ok live ret s0.(rs_stack) s0) as (s' & -> & Hs1 & Hs2 & _ & Hs3).
    - by destruct s0.
    - assert (rows_ok s') by (unfold rows_ok; rewrite Hs1, Hs2; by split_and!).
      by destruct ret. }
  destruct (_ && _).
  - pose proof (safe_rd live (dwarf_readu8 m) (no_undef_readu8 m) s Hs) as Hrd. unfold safe_at in Hrd.
    destruct (rd (dwarf_readu8 m) s) as [[op|e|t] s1] eqn:E; [|exfalso|done].
    + apply readu8_is_byte in E. destruct Hrd as [Hs1 _].
      pose proof (cfi_switch_safe live m pi dci op E s1 Hs1) as Hsw. unfold safe_at in Hsw.
      destruct (cfi_switch m pi dci op s1) as [[[]|e|t] s2]; [apply IH; by destruct Hsw| |done].
      pose proof (Hfail (Err e) s2 Hsw) as H. by destruct (at_fail (Err e) s2) as [[]].
    + revert E. unfold rd. destruct (dwarf_readu8 m s.(cs_addr)) as [r a] eqn:E.
      intros [= -> _]. by apply read_value_no_err in E.
  - pose proof (Hfail (Ok tt) s Hs) as H. by destruct (at_fail (Ok tt) s) as [[]].
Qed.
End invariant.
