(* ===== verification/CfiSem.v ===== *)
(** * The meaning of call-frame programs

    Programs of call-frame instructions as lists of instructions: their
    encoding, their meaning on a row of register rules, and the proof that
    the interpreter of [Cfi.v] computes it.  The last part has the properties of
    [run_cfi_program] and [parse_fde]. *)
From S2P Require Export Cfi.
From S2P Require Import Leb128.

(** ** Programs of call-frame instructions *)

(** The instructions of DWARF 3, section 6.4.2, and the GNU extensions the
    interpreter knows; a signed operand is the signed number, a block its
    bytes. *)
Inductive cfa_instr :=
  | I_advance (delta : Z) | I_advance1 (delta : Z) | I_advance2 (delta : Z)
  | I_advance4 (delta : Z)
  | I_offset (r v : Z) | I_offset_extended (r v : Z) | I_offset_extended_sf (r v : Z)
  | I_restore (r : Z) | I_restore_extended (r : Z)
  | I_nop | I_undefined (r : Z) | I_same_value (r : Z) | I_register (r v : Z)
  | I_remember_state | I_restore_state
  | I_def_cfa (r v : Z) | I_def_cfa_sf (r v : Z) | I_def_cfa_register (r : Z)
  | I_def_cfa_offset (v : Z) | I_def_cfa_offset_sf (v : Z)
  | I_def_cfa_expression (block : list Z) | I_expression (r : Z) (block : list Z)
  | I_args_size (v : Z) | I_negative_offset (r v : Z).

Definition block_bytes (block : list Z) : list Z :=
  uleb_encode (Z.of_nat (length block)) ++ block.

Definition cfa_bytes (i : cfa_instr) : list Z :=
  match i with
  | I_advance d => [0x40 + d]
  | I_advance1 d => 0x02 :: le_bytes 1 d
  | I_advance2 d => 0x03 :: le_bytes 2 d
  | I_advance4 d => 0x04 :: le_bytes 4 d
  | I_offset r v => (0x80 + r) :: uleb_encode v
  | I_offset_extended r v => 0x05 :: uleb_encode r ++ uleb_encode v
  | I_offset_extended_sf r v => 0x11 :: uleb_encode r ++ sleb_encode v
  | I_restore r => [0xc0 + r]
  | I_restore_extended r => 0x06 :: uleb_encode r
  | I_nop => [0x00]
  | I_undefined r => 0x07 :: uleb_encode r
  | I_same_value r => 0x08 :: uleb_encode r
  | I_register r v => 0x09 :: uleb_encode r ++ uleb_encode v
  | I_remember_state => [0x0a]
  | I_restore_state => [0x0b]
  | I_def_cfa r v => 0x0c :: uleb_encode r ++ uleb_encode v
  | I_def_cfa_sf r v => 0x12 :: uleb_encode r ++ sleb_encode v
  | I_def_cfa_register r => 0x0d :: uleb_encode r
  | I_def_cfa_offset v => 0x0e :: uleb_encode v
  | I_def_cfa_offset_sf v => 0x13 :: sleb_encode v
  | I_def_cfa_expression b => 0x0f :: block_bytes b
  | I_expression r b => 0x10 :: uleb_encode r ++ block_bytes b
  | I_args_size v => 0x2e :: uleb_encode v
  | I_negative_offset r v => 0x2f :: uleb_encode r ++ uleb_encode v
  end.

Definition s64_range (v : Z) : Prop := - 2 ^ 63 ≤ v < 2 ^ 63.

#[export] Instance s64_range_dec v : Decision (s64_range v).
Proof. unfold s64_range. apply _. Defined.

(** The operands fit their encodings; register numbers are not restricted. *)
Definition cfa_encodable (i : cfa_instr) : Prop :=
  match i with
  | I_advance d => 0 ≤ d < 64
  | I_advance1 d => 0 ≤ d < 256
  | I_advance2 d => 0 ≤ d < 65536
  | I_advance4 d => 0 ≤ d < 4294967296
  | I_offset r v => 0 ≤ r < 64 ∧ is_u64 v
  | I_restore r => 0 ≤ r < 64
  | I_offset_extended_sf r v | I_def_cfa_sf r v => is_u64 r ∧ s64_range v
  | I_offset_extended r v | I_register r v | I_def_cfa r v | I_negative_offset r v =>
      is_u64 r ∧ is_u64 v
  | I_restore_extended r | I_undefined r | I_same_value r | I_def_cfa_register r => is_u64 r
  | I_def_cfa_offset v | I_args_size v => is_u64 v
  | I_def_cfa_offset_sf v => s64_range v
  | I_nop | I_remember_state | I_restore_state => True
  | I_def_cfa_expression b => is_u64 (Z.of_nat (length b))
  | I_expression r b => is_u64 r ∧ is_u64 (Z.of_nat (length b))
  end.

#[export] Instance cfa_encodable_dec i : Decision (cfa_encodable i).
Proof. destruct i; simpl; apply _. Defined.

(** ** Meaning

    A row in construction: the current location, the rules with the initial
    ones, and the rows remembered. *)
Record cfa_machine := CfaMachine {
  m_loc : Z;
  m_sr : dwarf_state_record_t;
  m_saved : list reg_row
}.

Definition upd_row (r : Z) (w : dwarf_where_t) (v : Z) (rs : dwarf_state_record_t)
    : dwarf_state_record_t :=
  set_rs_current (set_rs_reg (<[Z.to_nat r := SaveLoc w v]> rs.(rs_current).(rs_reg))
                    rs.(rs_current)) rs.

Definition sem_rule (r : Z) (w : dwarf_where_t) (v : Z) (c : cfa_machine) : cfa_machine :=
  CfaMachine c.(m_loc) (upd_row r w v c.(m_sr)) c.(m_saved).

(** A register operand names one of the preserved registers. *)
Definition for_reg {A} (e : unw_error) (r : Z) (k : res A) : res A :=
  if r <? DWARF_NUM_PRESERVED_REGS then k else Err e.

(** [a] is the address of the instruction, [cf] and [df] the alignment
    factors. *)
Definition sem_cfa (cf df a : Z) (i : cfa_instr) (c : cfa_machine) : res cfa_machine :=
  let advance d := Ok (CfaMachine (u64 (c.(m_loc) + u64 (d * cf))) c.(m_sr) c.(m_saved)) in
  let offset r v := for_reg UNW_EBADREG r (Ok (sem_rule r DWARF_WHERE_CFAREL v c)) in
  let restore r :=
    for_reg UNW_EINVAL r
      match c.(m_sr).(rs_initial).(rs_reg) !! Z.to_nat r with
      | Some l => Ok (sem_rule r l.(where_) l.(sl_val) c)
      | None => Stop Undef
      end in
  let cfa r v :=
    for_reg UNW_EBADREG r
      (Ok (sem_rule 18 DWARF_WHERE_UNDEF v (sem_rule 17 DWARF_WHERE_REG r c))) in
  match i with
  | I_advance d | I_advance1 d | I_advance2 d | I_advance4 d => advance d
  | I_offset r v | I_offset_extended r v => offset r (u64 (v * df))
  | I_offset_extended_sf r v => offset r (u64 (v * df))
  | I_negative_offset r v => offset r (u64 (- (v * df)))
  | I_restore r | I_restore_extended r => restore r
  | I_nop => Ok c
  | I_undefined r => for_reg UNW_EBADREG r (Ok (sem_rule r DWARF_WHERE_UNDEF 0 c))
  | I_same_value r => for_reg UNW_EBADREG r (Ok (sem_rule r DWARF_WHERE_SAME 0 c))
  | I_register r v => for_reg UNW_EBADREG r (Ok (sem_rule r DWARF_WHERE_REG v c))
  | I_remember_state =>
      Ok (CfaMachine c.(m_loc) c.(m_sr) (c.(m_sr).(rs_current).(rs_reg) :: c.(m_saved)))
  | I_restore_state =>
      match c.(m_saved) with
      | [] => Err UNW_EINVAL
      | row :: saved =>
          Ok (CfaMachine c.(m_loc)
                (set_rs_current (set_rs_reg row c.(m_sr).(rs_current)) c.(m_sr)) saved)
      end
  | I_def_cfa r v => cfa r v
  | I_def_cfa_sf r v => cfa r (u64 (v * df))
  | I_def_cfa_register r => for_reg UNW_EBADREG r (Ok (sem_rule 17 DWARF_WHERE_REG r c))
  | I_def_cfa_offset v => Ok (sem_rule 18 DWARF_WHERE_UNDEF v c)
  | I_def_cfa_offset_sf v => Ok (sem_rule 18 DWARF_WHERE_UNDEF (u64 (v * df)) c)
  | I_def_cfa_expression _ => Ok (sem_rule 17 DWARF_WHERE_EXPR (u64 (a + 1)) c)
  | I_expression r _ =>
      for_reg UNW_EBADREG r
        (Ok (sem_rule r DWARF_WHERE_EXPR (u64 (a + 1 + Z.of_nat (length (uleb_encode r)))) c))
  | I_args_size v => Ok (CfaMachine c.(m_loc) (set_sr_args_size v c.(m_sr)) c.(m_saved))
  end.

Definition cfa_prog_bytes (p : list cfa_instr) : list Z := p ≫= cfa_bytes.

(** Instructions are executed while the location is at most [ip]. *)
Fixpoint sem_cfa_prog (cf df a ip : Z) (p : list cfa_instr) (c : cfa_machine) : res cfa_machine :=
  match p with
  | [] => Ok c
  | i :: p =>
      if c.(m_loc) <=? ip then
        c' ← sem_cfa cf df a i c;
        sem_cfa_prog cf df (u64 (a + Z.of_nat (length (cfa_bytes i)))) ip p c'
      else Ok c
  end.

Section semantics.
Context {P : Type} `{!PoolOps P, !PoolLaws P}.

Definition abs (s : cfi_state P) : cfa_machine :=
  CfaMachine s.(curr_ip) s.(sr) (snd <$> s.(rs_stack)).

(** What one instruction does to the interpreter, up to a panic of the pool. *)
Definition implements (r : res () * cfi_state P) (o : res cfa_machine) (next : Z) : Prop :=
  match o with
  | Ok c => (∃ s', r = (Ok tt, s') ∧ abs s' = c ∧ s'.(cs_addr) = next) ∨ fst r = Stop Panic
  | Err e => fst r = Err e
  | Stop t => False
  end.

Lemma rd_ok {A} (f : M Z A) v a (s : cfi_state P) :
  f s.(cs_addr) = (Ok v, a) → rd f s = (Ok v, set_cs_addr a s).
Proof. unfold rd. by intros ->. Qed.

Lemma read_regnum_bytes m a r :
  is_u64 r → is_u64 a → bytes_at m a (uleb_encode r) →
  read_regnum m a = (if r <? DWARF_NUM_PRESERVED_REGS then Ok r else Err UNW_EBADREG,
                     u64 (a + Z.of_nat (length (uleb_encode r)))).
Proof.
  intros Hr Ha Hb. unfold read_regnum. mred. rewrite (uleb_read_encode _ _ r) by done.
  rewrite Z.leb_antisym. by destruct (r <? DWARF_NUM_PRESERVED_REGS).
Qed.

Lemma set_reg_ok r w v (s : cfi_state P) :
  rows_ok s → 0 ≤ r < Z.of_nat num_columns →
  set_reg r w v s = (Ok tt, set_sr (upd_row r w v s.(sr)) s).
Proof.
  intros (H1 & _ & _) Hr. unfold set_reg. mred. rewrite awrite_Ok; [done|]. by rewrite H1.
Qed.

Lemma restore_reg_ok r (s : cfi_state P) :
  rows_ok s → 0 ≤ r →
  (fst (restore_reg r s) = Err UNW_EINVAL ∧ DWARF_NUM_PRESERVED_REGS ≤ r) ∨
  (r < DWARF_NUM_PRESERVED_REGS ∧ ∃ l, s.(sr).(rs_initial).(rs_reg) !! Z.to_nat r = Some l ∧
   restore_reg r s = (Ok tt, set_sr (upd_row r l.(where_) l.(sl_val) s.(sr)) s)).
Proof.
  intros H Hr. unfold restore_reg. destruct (Z.leb_spec DWARF_NUM_PRESERVED_REGS r); [by left|right].
  split; [done|]. destruct (aread_Ok s.(sr).(rs_initial).(rs_reg) r) as (l & E & El).
  { destruct H as (_ & H & _). unfold num_columns, DWARF_NUM_PRESERVED_REGS in *. lia. }
  exists l. split; [done|]. mred. rewrite E. apply set_reg_ok; [done|].
  unfold num_columns, DWARF_NUM_PRESERVED_REGS in *. lia.
Qed.
End semantics.

Section decode.
Context {P : Type} `{!PoolOps P, !PoolLaws P}.

Definition adv (bs : list Z) (s : cfi_state P) : cfi_state P :=
  set_cs_addr (u64 (s.(cs_addr) + Z.of_nat (length bs))) s.

(** The bytes at the current address. *)
Definition at_bytes (m : memory) (s : cfi_state P) (bs : list Z) : Prop :=
  is_u64 s.(cs_addr) ∧ bytes_at m s.(cs_addr) bs.

Lemma at_bytes_app m s bs1 bs2 :
  at_bytes m s (bs1 ++ bs2) → at_bytes m s bs1 ∧ at_bytes m (adv bs1 s) bs2.
Proof.
  intros [Ha Hb]. apply bytes_at_app in Hb as [Hb1 Hb2]; [|done].
  split; [done|]. split; [apply u64_range|done].
Qed.

Lemma rd_uleb m s v :
  at_bytes m s (uleb_encode v) → is_u64 v →
  rd (dwarf_read_uleb128 m) s = (Ok v, adv (uleb_encode v) s).
Proof. intros [Ha Hb] Hv. apply rd_ok. by apply uleb_read_encode. Qed.

Lemma rd_sleb m s v :
  at_bytes m s (sleb_encode v) → s64_range v →
  rd (dwarf_read_sleb128 m) s = (Ok (u64 v), adv (sleb_encode v) s).
Proof. intros [Ha Hb] Hv. apply rd_ok. by apply sleb_read_encode. Qed.

Lemma rd_regnum m s r :
  at_bytes m s (uleb_encode r) → is_u64 r →
  rd (read_regnum m) s =
  (if r <? DWARF_NUM_PRESERVED_REGS then Ok r else Err UNW_EBADREG, adv (uleb_encode r) s).
Proof. intros [Ha Hb] Hv. unfold rd. by rewrite (read_regnum_bytes m _ r). Qed.

Lemma rd_le1 m s v :
  at_bytes m s (le_bytes 1 v) → 0 ≤ v < 256 →
  rd (dwarf_readu8 m) s = (Ok v, adv (le_bytes 1 v) s).
Proof.
  intros [Ha Hb] Hv. apply rd_ok. apply (readu8_byte m _ v).
  unfold le_bytes in Hb. simpl in *. by rewrite u8_small in Hb.
Qed.

Lemma rd_le2 m s v :
  at_bytes m s (le_bytes 2 v) → 0 ≤ v < 65536 →
  rd (dwarf_readu16 m) s = (Ok v, adv (le_bytes 2 v) s).
Proof.
  intros [Ha Hb] Hv. apply rd_ok. rewrite (readu16_le m _ v) by done.
  unfold u16. rewrite Z.mod_small by lia. by rewrite length_le_bytes.
Qed.

Lemma rd_le4 m s v :
  at_bytes m s (le_bytes 4 v) → 0 ≤ v < 4294967296 →
  rd (dwarf_readu32 m) s = (Ok v, adv (le_bytes 4 v) s).
Proof.
  intros [Ha Hb] Hv. apply rd_ok. rewrite (readu32_le m _ v) by done.
  unfold u32. rewrite Z.mod_small by lia. by rewrite length_le_bytes.
Qed.

Lemma rows_ok_adv bs s : rows_ok s → rows_ok (adv bs s).
Proof. done. Qed.

(** The opcodes that carry their operand. *)
Lemma short_opcode base d :
  base = 0x40 ∨ base = 0x80 ∨ base = 0xc0 → 0 ≤ d < 64 →
  Z.land (base + d) DWARF_CFA_OPCODE_MASK = base ∧
  Z.land (base + d) (Z.lnot DWARF_CFA_OPERAND_MASK) = base ∧
  Z.land (base + d) DWARF_CFA_OPERAND_MASK = d.
Proof.
  intros Hbase Hd.
  assert (H : ∀ b, 0 ≤ b < 256 → b < 64 →
    Forall (λ base, Z.land (base + b) DWARF_CFA_OPCODE_MASK = base ∧
      Z.land (base + b) (Z.lnot DWARF_CFA_OPERAND_MASK) = base ∧
      Z.land (base + b) DWARF_CFA_OPERAND_MASK = b) [0x40; 0x80; 0xc0]).
  { apply (byte_forall (λ b, b < 64 → Forall _ _)). decided. }
  specialize (H d ltac:(lia) ltac:(lia)). rewrite !Forall_cons in H.
  destruct H as (? & ? & ? & _). by destruct Hbase as [->|[->| ->]].
Qed.

Lemma length_app_adv bs1 bs2 (s : cfi_state P) :
  cs_addr (adv bs2 (adv bs1 s)) = u64 (s.(cs_addr) + Z.of_nat (length (bs1 ++ bs2))).
Proof. simpl. rewrite length_app. u64_eq. Qed.

Lemma switch_short m pi dci base d :
  base = 0x40 ∨ base = 0x80 ∨ base = 0xc0 → 0 ≤ d < 64 →
  cfi_switch m pi dci (base + d) = cfi_dispatch m pi dci (cfa_of_byte base) d.
Proof.
  intros Hb Hd. unfold cfi_switch. destruct (short_opcode base d Hb Hd) as (-> & -> & ->).
  by destruct Hb as [->|[->| ->]].
Qed.

Lemma implements_rule r w v (s : cfi_state P) next :
  rows_ok s → 0 ≤ r < 19 → s.(cs_addr) = next →
  implements (set_reg r w v s) (Ok (sem_rule r w v (abs s))) next.
Proof. intros H Hr <-. rewrite set_reg_ok by done. left. by eexists. Qed.

Lemma implements_for_reg (s s0 : cfi_state P) m r (k : Z → M (cfi_state P) ()) o next :
  at_bytes m s (uleb_encode r) → is_u64 r →
  (0 ≤ r < 17 → implements (k r (adv (uleb_encode r) s)) o next) →
  implements ((r ← rd (read_regnum m); k r) s) (for_reg UNW_EBADREG r o) next.
Proof.
  intros Hb Hr Hk. mred. rewrite (rd_regnum m s r) by done. unfold for_reg.
  destruct (Z.ltb_spec r DWARF_NUM_PRESERVED_REGS); [|done].
  apply Hk. unfold is_u64, DWARF_NUM_PRESERVED_REGS in *. lia.
Qed.

(** The instruction after its opcode byte. *)
Lemma after_opcode m s b bs :
  at_bytes m s (b :: bs) →
  rd (dwarf_readu8 m) s = (Ok b, adv [b] s) ∧ at_bytes m (adv [b] s) bs.
Proof.
  intros H. apply (at_bytes_app m s [b] bs) in H as [[Ha Hb] ?]. split; [|done].
  apply rd_ok. by apply readu8_byte.
Qed.
End decode.

Section implements.
Context {P : Type} `{!PoolOps P, !PoolLaws P}.

Ltac addr_eq :=
  unfold block_bytes, adv, cfa_bytes; cbn [cs_addr set_cs_addr set_sr length]; rewrite ?length_app, ?length_le_bytes;
  u64_eq.

Ltac one_reg := apply implements_for_reg; [done..|]; intros Hr.
Ltac reg_done := apply implements_rule; [done|lia|addr_eq].

Lemma cfi_advance_implements live m pi dci i (s : cfi_state P) :
  match i with I_advance _ | I_advance1 _ | I_advance2 _ | I_advance4 _ => True | _ => False end →
  cfa_encodable i → cfi_inv live s → at_bytes m s (cfa_bytes i) →
  ∃ b, rd (dwarf_readu8 m) s = (Ok b, adv [b] s) ∧
    implements (cfi_switch m pi dci b (adv [b] s))
      (sem_cfa dci.(code_align) dci.(data_align) s.(cs_addr) i (abs s))
      (u64 (s.(cs_addr) + Z.of_nat (length (cfa_bytes i)))).
Proof.
  intros Hi He [Hrows _] Hb.
  destruct i; try done; simpl in He;
    (eexists; apply after_opcode in Hb as [E Hb]; split; [exact E|]).
  - rewrite switch_short by (lia || auto). left. eexists. split; [reflexivity|]. split; [done|]. addr_eq.
  - change (cfi_switch m pi dci 2) with (cfi_dispatch m pi dci DW_CFA_advance_loc1 0).
    simpl cfi_dispatch. mred. rewrite (rd_le1 m _ delta) by done.
    left. eexists. split; [reflexivity|]. split; [done|]. addr_eq.
  - change (cfi_switch m pi dci 3) with (cfi_dispatch m pi dci DW_CFA_advance_loc2 0).
    simpl cfi_dispatch. mred. rewrite (rd_le2 m _ delta) by done.
    left. eexists. split; [reflexivity|]. split; [done|]. addr_eq.
  - change (cfi_switch m pi dci 4) with (cfi_dispatch m pi dci DW_CFA_advance_loc4 0).
    simpl cfi_dispatch. mred. rewrite (rd_le4 m _ delta) by done.
    left. eexists. split; [reflexivity|]. split; [done|]. addr_eq.
Qed.

(** A register operand followed by a number. *)
Lemma implements_reg_uleb m (s : cfi_state P) r v bs w (f : Z → Z) :
  rows_ok s → at_bytes m s (uleb_encode r ++ uleb_encode v) → is_u64 r → is_u64 v →
  bs = uleb_encode r ++ uleb_encode v →
  implements ((r ← rd (read_regnum m); v ← rd (dwarf_read_uleb128 m); set_reg r w (f v)) s)
    (for_reg UNW_EBADREG r (Ok (sem_rule r w (f v) (abs s)))) (cs_addr (adv bs s)).
Proof.
  intros Hrows Hb Hr Hv ->. apply at_bytes_app in Hb as [Hb1 Hb2].
  apply (implements_for_reg s s m r (λ r, v ← rd (dwarf_read_uleb128 m); set_reg r w (f v)));
    [done..|]. intros Hr'. mred. rewrite (rd_uleb m _ v) by done.
  apply (implements_rule r w (f v) (adv (uleb_encode v) (adv (uleb_encode r) s))); [done|lia|].
  apply length_app_adv.
Qed.

Lemma implements_reg_sleb m (s : cfi_state P) r v bs w (f : Z → Z) :
  rows_ok s → at_bytes m s (uleb_encode r ++ sleb_encode v) → is_u64 r → s64_range v →
  bs = uleb_encode r ++ sleb_encode v →
  implements ((r ← rd (read_regnum m); v ← rd (dwarf_read_sleb128 m); set_reg r w (f v)) s)
    (for_reg UNW_EBADREG r (Ok (sem_rule r w (f (u64 v)) (abs s)))) (cs_addr (adv bs s)).
Proof.
  intros Hrows Hb Hr Hv ->. apply at_bytes_app in Hb as [Hb1 Hb2].
  apply (implements_for_reg s s m r (λ r, v ← rd (dwarf_read_sleb128 m); set_reg r w (f v)));
    [done..|]. intros Hr'. mred. rewrite (rd_sleb m _ v) by done.
  apply (implements_rule r w (f (u64 v)) (adv (sleb_encode v) (adv (uleb_encode r) s))); [done|lia|].
  apply length_app_adv.
Qed.

Lemma implements_restore r (s s0 : cfi_state P) next :
  rows_ok s → 0 ≤ r → s.(cs_addr) = next →
  implements (restore_reg r s)
    (for_reg UNW_EINVAL r
      match s.(sr).(rs_initial).(rs_reg) !! Z.to_nat r with
      | Some l => Ok (sem_rule r l.(where_) l.(sl_val) (abs s))
      | None => Stop Undef
      end) next.
Proof.
  intros H Hr <-. unfold for_reg.
  destruct (restore_reg_ok r s H Hr) as [[E Hle]|(Hlt & l & -> & E)].
  - by rewrite (proj2 (Z.ltb_ge _ _)).
  - rewrite (proj2 (Z.ltb_lt _ _)) by done. left. rewrite E. by eexists.
Qed.

Ltac next_addr :=
  unfold adv, cfa_bytes; cbn [cs_addr set_cs_addr set_sr length]; rewrite ?length_app; u64_eq.

Lemma cfi_register_implements live m pi dci i (s : cfi_state P) :
  match i with
  | I_offset _ _ | I_offset_extended _ _ | I_offset_extended_sf _ _ | I_negative_offset _ _
  | I_restore _ | I_restore_extended _ | I_undefined _ | I_same_value _ | I_register _ _ => True
  | _ => False
  end →
  cfa_encodable i → cfi_inv live s → at_bytes m s (cfa_bytes i) →
  ∃ b, rd (dwarf_readu8 m) s = (Ok b, adv [b] s) ∧
    implements (cfi_switch m pi dci b (adv [b] s))
      (sem_cfa dci.(code_align) dci.(data_align) s.(cs_addr) i (abs s))
      (u64 (s.(cs_addr) + Z.of_nat (length (cfa_bytes i)))).
Proof.
  intros Hi He [Hrows _] Hb.
  destruct i; try done; simpl in He;
    (eexists; apply after_opcode in Hb as [E Hb]; split; [exact E|]).
  - destruct He as [Hr Hv]. rewrite switch_short by (lia || auto). simpl cfi_dispatch.
    unfold sem_cfa, for_reg. rewrite Z.leb_antisym.
    destruct (Z.ltb_spec r DWARF_NUM_PRESERVED_REGS); [|done]. mred. cbn [negb].
    rewrite (rd_uleb m _ v) by done.
    apply (implements_rule r _ _ (adv (uleb_encode v) (adv [128 + r] s)));
      [done|unfold DWARF_NUM_PRESERVED_REGS in *; lia|next_addr].
  - destruct He as [Hr Hv].
    change (cfi_switch m pi dci 5) with (cfi_dispatch m pi dci DW_CFA_offset_extended 0).
    replace (u64 (_ + _)) with (cs_addr (adv (uleb_encode r ++ uleb_encode v) (adv [5] s)))
      by next_addr.
    by apply (implements_reg_uleb m (adv [5] s) r v _ _ (λ v, u64 (v * data_align dci))).
  - destruct He as [Hr Hv].
    change (cfi_switch m pi dci 17) with (cfi_dispatch m pi dci DW_CFA_offset_extended_sf 0).
    replace (u64 (_ + _)) with (cs_addr (adv (uleb_encode r ++ sleb_encode v) (adv [17] s)))
      by next_addr.
    unfold sem_cfa. rewrite <- (u64_mul_l v).
    by apply (implements_reg_sleb m (adv [17] s) r v _ _ (λ v, u64 (v * data_align dci))).
  - rewrite switch_short by (lia || auto).
    apply (implements_restore r (adv [192 + r] s) s); [done|lia|next_addr].
  - change (cfi_switch m pi dci 6) with (cfi_dispatch m pi dci DW_CFA_restore_extended 0).
    simpl cfi_dispatch. mred. rewrite (rd_uleb m _ r) by done.
    apply (implements_restore r (adv (uleb_encode r) (adv [6] s)) s);
      [done|unfold is_u64 in He; lia|next_addr].
  - change (cfi_switch m pi dci 7) with (cfi_dispatch m pi dci DW_CFA_undefined 0).
    apply (implements_for_reg (adv [7] s) s m r (λ r, set_reg r DWARF_WHERE_UNDEF 0)); [done..|].
    intros Hr. apply (implements_rule r _ _ (adv (uleb_encode r) (adv [7] s))); [done|lia|next_addr].
  - change (cfi_switch m pi dci 8) with (cfi_dispatch m pi dci DW_CFA_same_value 0).
    apply (implements_for_reg (adv [8] s) s m r (λ r, set_reg r DWARF_WHERE_SAME 0)); [done..|].
    intros Hr. apply (implements_rule r _ _ (adv (uleb_encode r) (adv [8] s))); [done|lia|next_addr].
  - destruct He as [Hr Hv].
    change (cfi_switch m pi dci 9) with (cfi_dispatch m pi dci DW_CFA_register 0).
    replace (u64 (_ + _)) with (cs_addr (adv (uleb_encode r ++ uleb_encode v) (adv [9] s)))
      by next_addr.
    by apply (implements_reg_uleb m (adv [9] s) r v _ _ (λ v, v)).
  - destruct He as [Hr Hv].
    change (cfi_switch m pi dci 47) with
      (cfi_dispatch m pi dci DW_CFA_GNU_negative_offset_extended 0).
    replace (u64 (_ + _)) with (cs_addr (adv (uleb_encode r ++ uleb_encode v) (adv [47] s)))
      by next_addr.
    unfold sem_cfa. rewrite <- u64_opp.
    by apply (implements_reg_uleb m (adv [47] s) r v _ _ (λ v, u64 (- u64 (v * data_align dci)))).
Qed.

Lemma implements_cfa r v (s : cfi_state P) next :
  rows_ok s → s.(cs_addr) = next →
  implements ((set_reg DWARF_CFA_REG_COLUMN DWARF_WHERE_REG r;;
               set_reg DWARF_CFA_OFF_COLUMN DWARF_WHERE_UNDEF v) s)
    (Ok (sem_rule 18 DWARF_WHERE_UNDEF v (sem_rule 17 DWARF_WHERE_REG r (abs s)))) next.
Proof.
  intros Hrows <-. mred. rewrite set_reg_ok by done.
  rewrite set_reg_ok; [|destruct Hrows as (? & ? & ?); split_and!; try done; simpl;
                       by rewrite length_insert|done].
  left. by eexists.
Qed.

Lemma cfi_cfa_implements live m pi dci i (s : cfi_state P) :
  match i with
  | I_def_cfa _ _ | I_def_cfa_sf _ _ | I_def_cfa_register _ | I_def_cfa_offset _
  | I_def_cfa_offset_sf _ | I_def_cfa_expression _ | I_expression _ _ | I_args_size _ => True
  | _ => False
  end →
  cfa_encodable i → cfi_inv live s → at_bytes m s (cfa_bytes i) →
  ∃ b, rd (dwarf_readu8 m) s = (Ok b, adv [b] s) ∧
    implements (cfi_switch m pi dci b (adv [b] s))
      (sem_cfa dci.(code_align) dci.(data_align) s.(cs_addr) i (abs s))
      (u64 (s.(cs_addr) + Z.of_nat (length (cfa_bytes i)))).
Proof.
  intros Hi He [Hrows _] Hb.
  destruct i; try done; simpl in He;
    (eexists; apply after_opcode in Hb as [E Hb]; split; [exact E|]).
  - destruct He as [Hr Hv]. apply at_bytes_app in Hb as [Hb1 Hb2].
    change (cfi_switch m pi dci 12) with (cfi_dispatch m pi dci DW_CFA_def_cfa 0).
    apply (implements_for_reg (adv [12] s) s m r (λ r, val ← rd (dwarf_read_uleb128 m);
      set_reg DWARF_CFA_REG_COLUMN DWARF_WHERE_REG r;;
      set_reg DWARF_CFA_OFF_COLUMN DWARF_WHERE_UNDEF val)); [done..|].
    intros Hr'. mred. rewrite (rd_uleb m _ v) by done.
    apply (implements_cfa r v (adv (uleb_encode v) (adv (uleb_encode r) (adv [12] s)))); [done|].
    next_addr.
  - destruct He as [Hr Hv]. apply at_bytes_app in Hb as [Hb1 Hb2].
    change (cfi_switch m pi dci 18) with (cfi_dispatch m pi dci DW_CFA_def_cfa_sf 0).
    apply (implements_for_reg (adv [18] s) s m r (λ r, val ← rd (dwarf_read_sleb128 m);
      set_reg DWARF_CFA_REG_COLUMN DWARF_WHERE_REG r;;
      set_reg DWARF_CFA_OFF_COLUMN DWARF_WHERE_UNDEF (u64 (val * dci.(data_align))))); [done..|].
    intros Hr'. mred. rewrite (rd_sleb m _ v), <- (u64_mul_l v) by done.
    apply (implements_cfa r _ (adv (sleb_encode v) (adv (uleb_encode r) (adv [18] s)))); [done|].
    next_addr.
  - change (cfi_switch m pi dci 13) with (cfi_dispatch m pi dci DW_CFA_def_cfa_register 0).
    apply (implements_for_reg (adv [13] s) s m r
      (λ r, set_reg DWARF_CFA_REG_COLUMN DWARF_WHERE_REG r)); [done..|].
    intros Hr. apply (implements_rule _ _ _ (adv (uleb_encode r) (adv [13] s))); [done|done|next_addr].
  - change (cfi_switch m pi dci 14) with (cfi_dispatch m pi dci DW_CFA_def_cfa_offset 0).
    simpl cfi_dispatch. mred. rewrite (rd_uleb m _ v) by done.
    apply (implements_rule _ _ _ (adv (uleb_encode v) (adv [14] s))); [done|done|next_addr].
  - change (cfi_switch m pi dci 19) with (cfi_dispatch m pi dci DW_CFA_def_cfa_offset_sf 0).
    simpl cfi_dispatch. mred. rewrite (rd_sleb m _ v) by done. unfold sem_cfa.
    rewrite <- (u64_mul_l v).
    apply (implements_rule _ _ _ (adv (sleb_encode v) (adv [19] s))); [done|done|next_addr].
  - change (cfi_switch m pi dci 15) with (cfi_dispatch m pi dci DW_CFA_def_cfa_expression 0).
    apply at_bytes_app in Hb as [Hb1 Hb2]. simpl cfi_dispatch. unfold cfi_expression. mred.
    rewrite set_reg_ok by done.
    rewrite (rd_uleb m _ (Z.of_nat (length block))); [|exact Hb1|done].
    left. eexists. split; [reflexivity|]. split; [done|]. unfold cfa_bytes, block_bytes, adv.
    cbn [cs_addr set_cs_addr set_sr length]. rewrite !length_app. u64_eq.
  - destruct He as [Hr Hv]. apply at_bytes_app in Hb as [Hb1 Hb2].
    apply at_bytes_app in Hb2 as [Hb2 Hb3].
    change (cfi_switch m pi dci 16) with (cfi_dispatch m pi dci DW_CFA_expression 0).
    simpl cfi_dispatch. unfold cfi_expression, sem_cfa, for_reg. mred.
    rewrite (rd_regnum m _ r) by done.
    destruct (Z.ltb_spec r DWARF_NUM_PRESERVED_REGS); [|done].
    rewrite set_reg_ok; [|done|unfold is_u64, DWARF_NUM_PRESERVED_REGS, num_columns in *; lia].
    rewrite (rd_uleb m _ (Z.of_nat (length block))); [|exact Hb2|done].
    left. eexists. split; [reflexivity|]. split.
    + unfold sem_rule, abs, adv. simpl. rewrite u64_add_l. reflexivity.
    + unfold cfa_bytes, block_bytes, adv. cbn [cs_addr set_cs_addr set_sr length].
      rewrite !length_app. u64_eq.
  - change (cfi_switch m pi dci 46) with (cfi_dispatch m pi dci DW_CFA_GNU_args_size 0).
    simpl cfi_dispatch. mred. rewrite (rd_uleb m _ v) by done.
    left. eexists. split; [reflexivity|]. split; [done|next_addr].
Qed.

Lemma cfi_state_implements live m pi dci i (s : cfi_state P) :
  match i with I_nop | I_remember_state | I_restore_state => True | _ => False end →
  cfi_inv live s → at_bytes m s (cfa_bytes i) →
  ∃ b, rd (dwarf_readu8 m) s = (Ok b, adv [b] s) ∧
    implements (cfi_switch m pi dci b (adv [b] s))
      (sem_cfa dci.(code_align) dci.(data_align) s.(cs_addr) i (abs s))
      (u64 (s.(cs_addr) + Z.of_nat (length (cfa_bytes i)))).
Proof.
  intros Hi [Hrows Hst] Hb.
  destruct i; try done; (eexists; apply after_opcode in Hb as [E Hb]; split; [exact E|]).
  - left. by eexists.
  - change (cfi_switch m pi dci 10) with (cfi_dispatch m pi dci DW_CFA_remember_state 0).
    simpl cfi_dispatch. unfold cfi_remember_state, on_pool. mred.
    destruct Hst as (_ & _ & Hp). pose proof (pool_alloc_ok _ _ Hp) as Ha.
    simpl. destruct (pool_alloc s.(cs_pool)) as [[o|e|t] p]; [|done|right; by rewrite Ha].
    destruct Ha as (Ho & _). rewrite (proj2 (Z.eqb_neq _ _) Ho). left. by eexists.
  - change (cfi_switch m pi dci 11) with (cfi_dispatch m pi dci DW_CFA_restore_state 0).
    simpl cfi_dispatch. unfold cfi_restore_state, on_pool, sem_cfa. mred. simpl.
    destruct s.(rs_stack) as [|[o row] rest] eqn:Es; [done|].
    destruct (free_top live s o row rest Hst Es) as (p' & Hf & _).
    simpl. rewrite Hf. left. by eexists.
Qed.

Lemma cfi_instr_implements live m pi dci i (s : cfi_state P) :
  cfa_encodable i → cfi_inv live s → at_bytes m s (cfa_bytes i) →
  ∃ b, rd (dwarf_readu8 m) s = (Ok b, adv [b] s) ∧
    implements (cfi_switch m pi dci b (adv [b] s))
      (sem_cfa dci.(code_align) dci.(data_align) s.(cs_addr) i (abs s))
      (u64 (s.(cs_addr) + Z.of_nat (length (cfa_bytes i)))).
Proof.
  intros. destruct i; eauto using cfi_advance_implements, cfi_register_implements,
    cfi_cfa_implements, cfi_state_implements.
Qed.

Lemma cfa_bytes_length i : (0 < length (cfa_bytes i))%nat.
Proof. destruct i; simpl; lia. Qed.

(** The final state with the remembered states released. *)
Definition finished (ret : res ()) (c : cfa_machine) (r : res () * cfi_state P) : Prop :=
  ∃ s', r = (ret, s') ∧ s'.(sr) = c.(m_sr).

Lemma at_fail_ok live ret (s : cfi_state P) :
  cfi_inv live s → ∃ s', at_fail ret s = (ret, s') ∧ s'.(sr) = s.(sr).
Proof.
  intros [_ Hst]. unfold at_fail. mred.
  destruct (free_states_ok live ret s.(rs_stack) s) as (s' & -> & _ & ? & _); [by destruct s|].
  by exists s'.
Qed.

Lemma cfi_loop_prog live m pi dci ip p : ∀ s fuel,
  Forall cfa_encodable p → cfi_inv live s → at_bytes m s (cfa_prog_bytes p) →
  s.(cs_addr) + Z.of_nat (length (cfa_prog_bytes p)) < 18446744073709551616 →
  (length p < fuel)%nat →
  let r := cfi_loop fuel m pi dci ip (s.(cs_addr) + Z.of_nat (length (cfa_prog_bytes p))) s in
  fst r = Stop Panic ∨
  match sem_cfa_prog dci.(code_align) dci.(data_align) s.(cs_addr) ip p (abs s) with
  | Ok c => finished (Ok tt) c r
  | Err e => fst r = Err e
  | Stop t => False
  end.
Proof.
  induction p as [|i p IH]; intros s fuel He Hinv Hb Hw Hf;
    (destruct fuel as [|fuel]; [simpl in Hf; lia|]); cbn [cfi_loop sem_cfa_prog].
  - right. rewrite (proj2 (Z.ltb_ge _ _)) by (simpl; lia). rewrite andb_false_r.
    by apply (at_fail_ok live).
  - apply Forall_cons_1 in He as [Hi He]. unfold cfa_prog_bytes in Hb, Hw |- *.
    cbn [mbind list_bind] in Hb, Hw |- *. fold (cfa_prog_bytes p) in Hb, Hw |- *.
    rewrite length_app in Hw |- *. apply at_bytes_app in Hb as [Hb1 Hb2].
    pose proof (cfa_bytes_length i) as Hlen.
    destruct (Z.leb_spec s.(curr_ip) ip) as [Hip|Hip]; cbn [andb].
    2: { right. rewrite (proj2 (Z.leb_gt _ _)) by done. by apply (at_fail_ok live). }
    change (m_loc (abs s)) with s.(curr_ip). rewrite (proj2 (Z.leb_le _ _) Hip).
    rewrite (proj2 (Z.ltb_lt _ _)) by lia.
    destruct (cfi_instr_implements live m pi dci i s Hi Hinv Hb1) as (b & Hrd & Himp).
    assert (Hsafe : safe_at (cfi_inv live) (cfi_switch m pi dci b) (adv [b] s) (λ _, True)).
    { apply cfi_switch_safe; [by eapply readu8_is_byte|exact Hinv]. }
    rewrite Hrd. unfold safe_at in Hsafe.
    destruct (sem_cfa _ _ _ i (abs s)) as [c|e|t]; [| |done]; simpl in Himp |- *.
    + destruct Himp as [(s' & Hsw & Habs & Ha)|Hp].
      2: { left. destruct (cfi_switch m pi dci b (adv [b] s)) as [r s']. simpl in Hp. by subst r. }
      rewrite Hsw in Hsafe |- *. destruct Hsafe as [Hinv' _].
      rewrite u64_small in Ha by (destruct Hb1 as [[] _]; unfold is_u64; lia).
      replace (s.(cs_addr) + _) with (s'.(cs_addr) + Z.of_nat (length (cfa_prog_bytes p))) by lia.
      rewrite u64_small by (destruct Hb1 as [[] _]; unfold is_u64; lia). rewrite <- Ha, <- Habs.
      apply IH; [done|done| |lia|simpl in Hf; lia].
      unfold at_bytes in *. rewrite Ha. destruct Hb2 as [_ Hb2]. simpl in Hb2.
      rewrite u64_small in Hb2 by (destruct Hb1 as [[] _]; unfold is_u64; lia).
      split; [destruct Hb1 as [[] _]; unfold is_u64; lia|done].
    + right. destruct (cfi_switch m pi dci b (adv [b] s)) as [r s']. simpl in Himp. subst r.
      destruct (at_fail_ok live (Err e) s' Hsafe) as (s2 & -> & _). done.
Qed.
End implements.

Section theorems.
Context {P : Type} `{!PoolOps P, !PoolLaws P}.

(** The rows of a state record have the right number of columns. *)
Definition sr_ok (sr0 : dwarf_state_record_t) : Prop :=
  length sr0.(rs_current).(rs_reg) = num_columns ∧
  length sr0.(rs_initial).(rs_reg) = num_columns.

Lemma start_inv live a ip sr0 (p : P) :
  sr_ok sr0 → pool_ok p live → cfi_inv live (CfiState a ip sr0 [] p).
Proof.
  intros [H1 H2] Hp. split; [by split_and!|]. unfold stack_ok. simpl. split_and!.
  - constructor.
  - apply disjoint_empty_l.
  - by rewrite union_empty_l_L.
Qed.

Lemma run_cfi_prog live m pi dci ip a sr0 (p : P) prog fuel :
  Forall cfa_encodable prog → sr_ok sr0 → pool_ok p live →
  is_u64 a → bytes_at m a (cfa_prog_bytes prog) →
  a + Z.of_nat (length (cfa_prog_bytes prog)) < 18446744073709551616 →
  (length prog < fuel)%nat →
  let r := run_cfi_program fuel m pi dci ip a (a + Z.of_nat (length (cfa_prog_bytes prog))) sr0 p in
  fst r = Stop Panic ∨
  match sem_cfa_prog dci.(code_align) dci.(data_align) a ip prog
          (CfaMachine pi.(start_ip) sr0 []) with
  | Ok c => finished (Ok tt) c r
  | Err e => fst r = Err e
  | Stop t => False
  end.
Proof.
  intros He Hsr Hp Ha Hb Hw Hf.
  by apply (cfi_loop_prog live m pi dci ip prog (CfiState a pi.(start_ip) sr0 [] p) fuel He
              (start_inv live a _ sr0 p Hsr Hp)).
Qed.

Lemma run_cfi_inv live fuel m pi dci ip a e sr0 (p : P) :
  sr_ok sr0 → pool_ok p live →
  match run_cfi_program fuel m pi dci ip a e sr0 p with
  | (Stop t, _) => t ≠ Undef
  | (_, s') => sr_ok s'.(sr) ∧ s'.(rs_stack) = [] ∧ pool_ok s'.(cs_pool) live
  end.
Proof.
  intros Hsr Hp.
  pose proof (cfi_loop_safe live fuel m pi dci ip e _ (start_inv live a pi.(start_ip) sr0 p Hsr Hp)) as H.
  unfold run_cfi_program. destruct (cfi_loop _ _ _ _ _ _ _) as [[[]|er|t] s']; [| |done];
    destruct H as ((? & ? & _) & ? & ?); by split_and!.
Qed.
End theorems.

(** ** Example *)

Definition example_sr : dwarf_state_record_t :=
  let rs := RegState (replicate 19 (SaveLoc DWARF_WHERE_SAME 0)) 0 0 0 0 0 false false in
  StateRecord 0 0 rs rs.

(** [push %rbp] after one byte, [mov %rsp,%rbp] after three more. *)
Definition example_cfa_prog : list cfa_instr :=
  [I_def_cfa 7 8; I_offset 16 1; I_advance 1; I_def_cfa_offset 16; I_offset 6 2;
   I_advance 3; I_remember_state; I_def_cfa_register 6; I_restore_state].

Definition example_pi : unw_proc_info_t := ProcInfo 0x4000 0x4100 0 0 0 0 1 0 UI_null.

Definition example_dci : dwarf_cie_info_t :=
  set_code_align 1 (set_data_align (u64 (-8)) zero_cie_info).

Definition example_cfa_mem : memory := put_bytes ∅ 0x100 (cfa_prog_bytes example_cfa_prog).

(** ** Properties *)

(** C5. Running the interpreter over the encoding of a list of call-frame
    instructions computes their meaning: every instruction with a location at
    most [ip] is applied, in order, and the first invalid one determines the
    error; the only other outcome is a panic of the pool allocator, and fuel
    above the number of instructions is enough. *)
Theorem run_cfi_program_encoded (P : Type) `(PoolLaws P) (live : gset Z) (m : memory)
    (pi : unw_proc_info_t) (dci : dwarf_cie_info_t) (ip a : Z) (sr0 : dwarf_state_record_t)
    (p : P) (prog : list cfa_instr) (fuel : nat) :
  Forall cfa_encodable prog → sr_ok sr0 → pool_ok p live →
  is_u64 a → bytes_at m a (cfa_prog_bytes prog) →
  a + Z.of_nat (length (cfa_prog_bytes prog)) < 18446744073709551616 →
  (length prog < fuel)%nat →
  let r := run_cfi_program fuel m pi dci ip a (a + Z.of_nat (length (cfa_prog_bytes prog))) sr0 p in
  fst r = Stop Panic ∨
  match sem_cfa_prog dci.(code_align) dci.(data_align) a ip prog
          (CfaMachine pi.(start_ip) sr0 []) with
  | Ok c => ∃ s', r = (Ok tt, s') ∧ s'.(sr) = c.(m_sr)
  | Err e => fst r = Err e
  | Stop t => False
  end.
Proof. apply run_cfi_prog. Qed.

Lemma run_cfi_program_encoded_witness :
  ∃ s', run_cfi_program 20 example_cfa_mem example_pi example_dci 0x4002 0x100
          (0x100 + 15) example_sr (Bump 0x9000) = (Ok tt, s') ∧
    s'.(sr).(rs_current).(rs_reg) !! 6%nat = Some (SaveLoc DWARF_WHERE_CFAREL (u64 (-16))) ∧
    s'.(sr).(rs_current).(rs_reg) !! 17%nat = Some (SaveLoc DWARF_WHERE_REG 7).
Proof.
  pose proof (run_cfi_program_encoded bump bump_laws ∅ example_cfa_mem example_pi example_dci
    0x4002 0x100 example_sr (Bump 0x9000) example_cfa_prog 20) as H.
  assert (Hlen : Z.of_nat (length (cfa_prog_bytes example_cfa_prog)) = 15)
    by (vm_compute; reflexivity).
  rewrite Hlen in H. destruct H as [H|H].
  - decided.
  - vm_compute. split; reflexivity.
  - apply bump_start; lia.
  - decided.
  - decided.
  - vm_compute. reflexivity.
  - simpl. lia.
  - exfalso. revert H. vm_compute. discriminate.
  - assert (Hsem : match sem_cfa_prog example_dci.(code_align) example_dci.(data_align) 0x100 0x4002
        example_cfa_prog (CfaMachine example_pi.(start_ip) example_sr []) with
      | Ok c => c.(m_sr).(rs_current).(rs_reg) !! 6%nat = Some (SaveLoc DWARF_WHERE_CFAREL (u64 (-16))) ∧
                c.(m_sr).(rs_current).(rs_reg) !! 17%nat = Some (SaveLoc DWARF_WHERE_REG 7)
      | _ => False end) by (vm_compute; split; reflexivity).
    destruct (sem_cfa_prog _ _ _ _ _ _) as [c| |]; [|destruct Hsem..].
    destruct H as (s' & E & Hs). exists s'. split; [exact E|]. rewrite Hs. exact Hsem.
Defined.

(** C9. Whatever bytes the interpreter runs on, it never leaves the register
    rows, and when it returns, with success or with an error, every state it
    remembered has been given back to the pool: the live objects are those the
    caller had. *)
Theorem run_cfi_program_conserves_pool (P : Type) `(PoolLaws P) (live : gset Z) (fuel : nat)
    (m : memory) (pi : unw_proc_info_t) (dci : dwarf_cie_info_t) (ip a e : Z)
    (sr0 : dwarf_state_record_t) (p : P) :
  sr_ok sr0 → pool_ok p live →
  match run_cfi_program fuel m pi dci ip a e sr0 p with
  | (Stop t, _) => t ≠ Undef
  | (_, s') => sr_ok s'.(sr) ∧ s'.(rs_stack) = [] ∧ pool_ok s'.(cs_pool) live
  end.
Proof. apply run_cfi_inv. Qed.

Lemma run_cfi_program_conserves_pool_witness :
  let '(r, s') := run_cfi_program 20 (put_bytes ∅ 0x100 [0x0a; 0x0a; 0x1c]) example_pi example_dci
                    0x4002 0x100 0x103 example_sr (Bump 0x9000) in
  r = Err UNW_EINVAL ∧ s'.(rs_stack) = [].
Proof.
  pose proof (run_cfi_program_conserves_pool bump bump_laws ∅ 20
    (put_bytes ∅ 0x100 [0x0a; 0x0a; 0x1c]) example_pi example_dci
    0x4002 0x100 0x103 example_sr (Bump 0x9000)) as H.
  assert (E : fst (run_cfi_program 20 (put_bytes ∅ 0x100 [0x0a; 0x0a; 0x1c]) example_pi example_dci
    0x4002 0x100 0x103 example_sr (Bump 0x9000)) = Err UNW_EINVAL) by (vm_compute; reflexivity).
  destruct (run_cfi_program _ _ _ _ _ _ _ _ _) as [r s']. simpl in E. subst r.
  split; [reflexivity|]. apply H.
  - vm_compute. split; reflexivity.
  - apply bump_start; lia.
Defined.

(** *** The rules of a frame description entry *)

(** The rules of the CIE become the initial rules of the FDE. *)
Definition sem_fde (cf df ip start : Z) (a1 : Z) (p1 : list cfa_instr) (a2 : Z)
    (p2 : list cfa_instr) (sr0 : dwarf_state_record_t) : res dwarf_state_record_t :=
  c1 ← sem_cfa_prog cf df a1 (u64 (-1)) p1 (CfaMachine start sr0 []);
  let sr1 := set_rs_initial c1.(m_sr).(rs_current) c1.(m_sr) in
  c2 ← sem_cfa_prog cf df a2 ip p2 (CfaMachine start sr1 []);
  Ok c2.(m_sr).

(** [m] holds the program [p] between the two addresses. *)
Definition prog_at (m : memory) (a e : Z) (p : list cfa_instr) : Prop :=
  Forall cfa_encodable p ∧ is_u64 a ∧ bytes_at m a (cfa_prog_bytes p) ∧
  e = a + Z.of_nat (length (cfa_prog_bytes p)) ∧ e < 18446744073709551616.

#[export] Instance prog_at_dec m a e p : Decision (prog_at m a e p).
Proof. unfold prog_at. apply _. Defined.

(** The rules of an FDE, error and pool included. *)
Lemma parse_fde_spec (P : Type) `(PoolLaws P) (live : gset Z) (m : memory)
    (pi : unw_proc_info_t) (dci : dwarf_cie_info_t) (ip : Z) (sr0 : dwarf_state_record_t)
    (p : P) (p1 p2 : list cfa_instr) (fuel : nat) :
  prog_at m dci.(cie_instr_start) dci.(cie_instr_end) p1 →
  prog_at m dci.(fde_instr_start) dci.(fde_instr_end) p2 →
  sr_ok sr0 → pool_ok p live → (length p1 < fuel)%nat → (length p2 < fuel)%nat →
  let r := parse_fde fuel m pi dci ip sr0 p in
  fst r = Stop Panic ∨
  fst r = sem_fde dci.(code_align) dci.(data_align) ip pi.(start_ip)
            dci.(cie_instr_start) p1 dci.(fde_instr_start) p2 sr0 ∧ pool_ok (snd r) live.
Proof.
  intros (He1 & Ha1 & Hb1 & Hl1 & Hw1) (He2 & Ha2 & Hb2 & Hl2 & Hw2) Hsr Hp Hf1 Hf2.
  rewrite Hl1 in Hw1. rewrite Hl2 in Hw2. unfold parse_fde, sem_fde. rewrite Hl1, Hl2. mred.
  pose proof (run_cfi_prog live m pi dci (u64 (-1)) _ sr0 p p1 fuel He1 Hsr Hp Ha1 Hb1 Hw1 Hf1) as R1.
  pose proof (run_cfi_inv live fuel m pi dci (u64 (-1)) dci.(cie_instr_start)
    (dci.(cie_instr_start) + Z.of_nat (length (cfa_prog_bytes p1))) sr0 p Hsr Hp) as I1.
  cbn zeta in R1. destruct (run_cfi_program fuel m pi dci (u64 (-1)) _ _ sr0 p) as [r1 s1].
  destruct R1 as [R1|R1]; [simpl in R1; subst r1; by left|].
  destruct (sem_cfa_prog _ _ _ (u64 (-1)) _ _) as [c1|e1|t1]; [|simpl in R1; subst r1; right; split; [done|apply I1]|done].
  destruct R1 as (s1' & [= -> ->] & Hsr1). destruct I1 as ((Hi1 & Hi2) & _ & Hp1).
  rewrite Hsr1 in *.
  set (sr1 := set_rs_initial (rs_current (m_sr c1)) (m_sr c1)).
  assert (Hsr1' : sr_ok sr1) by by split.
  pose proof (run_cfi_prog live m pi dci ip _ sr1 _ p2 fuel He2 Hsr1' Hp1 Ha2 Hb2 Hw2 Hf2) as R2.
  pose proof (run_cfi_inv live fuel m pi dci ip dci.(fde_instr_start)
    (dci.(fde_instr_start) + Z.of_nat (length (cfa_prog_bytes p2))) sr1 _ Hsr1' Hp1) as I2.
  cbn zeta in R2. destruct (run_cfi_program fuel m pi dci ip _ _ sr1 _) as [r2 s2].
  destruct R2 as [R2|R2]; [simpl in R2; subst r2; by left|right].
  destruct (sem_cfa_prog _ _ _ ip _ _) as [c2|e2|t2]; [|simpl in R2; subst r2; split; [done|apply I2]|done].
  destruct R2 as (s2' & [= -> ->] & Hsr2). simpl. rewrite Hsr2. split; [done|apply I2].
Qed.

(** [parse_fde] runs the initial instructions of the CIE from the start of
    the procedure without a limit, makes the result the target of the restore
    instructions, and runs the instructions of the FDE up to [ip]; the pool gets
    back every object it lent. *)
Lemma parse_fde_encoded (P : Type) `(PoolLaws P) (live : gset Z) (m : memory)
    (pi : unw_proc_info_t) (dci : dwarf_cie_info_t) (ip : Z) (sr0 : dwarf_state_record_t)
    (p : P) (p1 p2 : list cfa_instr) (fuel : nat) :
  prog_at m dci.(cie_instr_start) dci.(cie_instr_end) p1 →
  prog_at m dci.(fde_instr_start) dci.(fde_instr_end) p2 →
  sr_ok sr0 → pool_ok p live → (length p1 < fuel)%nat → (length p2 < fuel)%nat →
  let r := parse_fde fuel m pi dci ip sr0 p in
  fst r = Stop Panic ∨
  fst r = sem_fde dci.(code_align) dci.(data_align) ip pi.(start_ip)
            dci.(cie_instr_start) p1 dci.(fde_instr_start) p2 sr0 ∧ pool_ok (snd r) live.
Proof. apply parse_fde_spec. Qed.

Definition example_fde_dci : dwarf_cie_info_t :=
  set_cie_instr_start 0x100 (set_cie_instr_end 0x105
    (set_fde_instr_start 0x105 (set_fde_instr_end 0x10f example_dci))).

Lemma parse_fde_encoded_witness :
  match fst (parse_fde 20 example_cfa_mem example_pi example_fde_dci 0x4001 example_sr (Bump 0x9000)) with
  | Ok sr1 => sr1.(rs_current).(rs_reg) !! 18%nat = Some (SaveLoc DWARF_WHERE_UNDEF 16) ∧
              sr1.(rs_initial).(rs_reg) !! 18%nat = Some (SaveLoc DWARF_WHERE_UNDEF 8)
  | _ => False
  end.
Proof.
  destruct (parse_fde_encoded bump bump_laws ∅ example_cfa_mem example_pi example_fde_dci 0x4001
    example_sr (Bump 0x9000) (take 2 example_cfa_prog) (drop 2 example_cfa_prog) 20) as [H|[H _]].
  - decided.
  - decided.
  - vm_compute. split; reflexivity.
  - apply bump_start; lia.
  - simpl. lia.
  - simpl. lia.
  - exfalso. revert H. vm_compute. discriminate.
  - rewrite H. vm_compute. split; reflexivity.
Defined.

(** *** Remembered states *)

(** Instructions that neither move the location nor touch the stack. *)
Definition is_rule (i : cfa_instr) : Prop :=
  match i with
  | I_advance _ | I_advance1 _ | I_advance2 _ | I_advance4 _
  | I_remember_state | I_restore_state => False
  | _ => True
  end.

#[export] Instance is_rule_dec i : Decision (is_rule i).
Proof. destruct i; apply _. Defined.

Lemma sem_rule_instr cf df a i c c' :
  is_rule i → sem_cfa cf df a i c = Ok c' →
  c'.(m_loc) = c.(m_loc) ∧ c'.(m_saved) = c.(m_saved).
Proof.
  unfold sem_cfa, for_reg. destruct i; try done; intros _ H;
    repeat case_match; simplify_eq; done.
Qed.

Lemma sem_rules cf df ip p rest : ∀ a c c',
  Forall is_rule p → c.(m_loc) ≤ ip → sem_cfa_prog cf df a ip (p ++ rest) c = Ok c' →
  ∃ a1 c1, c1.(m_loc) = c.(m_loc) ∧ c1.(m_saved) = c.(m_saved) ∧
    sem_cfa_prog cf df a1 ip rest c1 = Ok c'.
Proof.
  induction p as [|i p IH]; intros a c c' Hp Hle H; [by exists a, c|].
  apply Forall_cons_1 in Hp as [Hi Hp]. cbn [app sem_cfa_prog] in H.
  rewrite (proj2 (Z.leb_le _ _) Hle) in H. revert H. mred.
  destruct (sem_cfa _ _ _ i c) as [c1| |] eqn:E; [|done..]. intros H.
  destruct (sem_rule_instr _ _ _ _ _ _ Hi E) as [El Es].
  destruct (IH _ c1 c' Hp ltac:(lia) H) as (a2 & c2 & ? & ? & ?).
  exists a2, c2. split_and!; congruence.
Qed.

(** Between remembering and restoring a state any rules may be set: the row
    in force afterwards is the row before, whatever the instructions in
    between. *)
Lemma remember_restore_row (P : Type) `(PoolLaws P) (live : gset Z) (m : memory)
    (pi : unw_proc_info_t) (dci : dwarf_cie_info_t) (ip a e : Z) (sr0 : dwarf_state_record_t)
    (p : P) (prog : list cfa_instr) (fuel : nat) (s' : cfi_state P) :
  prog_at m a e (I_remember_state :: prog ++ [I_restore_state]) → Forall is_rule prog →
  sr_ok sr0 → pool_ok p live → pi.(start_ip) ≤ ip → (length prog + 2 < fuel)%nat →
  run_cfi_program fuel m pi dci ip a e sr0 p = (Ok tt, s') →
  s'.(sr).(rs_current).(rs_reg) = sr0.(rs_current).(rs_reg).
Proof.
  intros (He & Ha & Hb & -> & Hw) Hr Hsr Hp Hip Hf E.
  pose proof (run_cfi_prog live m pi dci ip a sr0 p _ fuel He Hsr Hp Ha Hb Hw) as R.
  rewrite E in R. destruct R as [R|R]; [simpl; rewrite length_app; simpl; lia|done|].
  cbn [sem_cfa_prog m_loc] in R. rewrite (proj2 (Z.leb_le _ _) Hip) in R. mred_in R.
  cbn [sem_cfa m_loc m_sr m_saved] in R.
  destruct (sem_cfa_prog _ _ _ _ _ _) as [c| |] eqn:Es; [|done..].
  destruct R as (s1 & [= <-] & ->).
  apply sem_rules in Es as (a1 & c1 & Hl & Hs & Es); [|done|done].
  cbn [sem_cfa_prog] in Es. rewrite Hl in Es. simpl in Es.
  rewrite (proj2 (Z.leb_le _ _) Hip) in Es. mred_in Es. rewrite Hs in Es.
  injection Es as <-. done.
Qed.

Definition example_nested : list cfa_instr := [I_offset 3 2; I_def_cfa 6 16; I_undefined 12].

Definition example_nested_mem : memory :=
  put_bytes ∅ 0x100 (cfa_prog_bytes (I_remember_state :: example_nested ++ [I_restore_state])).

Lemma remember_restore_row_witness :
  let '(r, s') := run_cfi_program 20 example_nested_mem example_pi example_dci 0x4002 0x100 0x109
                    example_sr (Bump 0x9000) in
  r = Ok tt ∧ s'.(sr).(rs_current).(rs_reg) = replicate 19 (SaveLoc DWARF_WHERE_SAME 0).
Proof.
  assert (Hr : fst (run_cfi_program 20 example_nested_mem example_pi example_dci 0x4002 0x100 0x109
                      example_sr (Bump 0x9000)) = Ok tt) by (vm_compute; reflexivity).
  destruct (run_cfi_program _ _ _ _ _ _ _ _ _) as [r s'] eqn:E. simpl in Hr. subst r.
  split; [reflexivity|].
  refine (remember_restore_row bump bump_laws ∅ _ _ _ _ _ _ example_sr (Bump 0x9000)
           example_nested 20 s' _ _ _ _ _ _ E).
  - decided.
  - decided.
  - vm_compute. split; reflexivity.
  - apply bump_start; lia.
  - simpl. lia.
  - simpl. lia.
Defined.

(** *** Malformed programs *)

(** The opcodes 0x14 to 0x1b (among them DWARF 3's value-offset and
    value-expression rules) are not in the enumeration and the switch has no
    default: they change nothing and their operands are taken for opcodes. *)
Lemma unlisted_opcode_ignored (P : Type) `(PoolOps P) (m : memory) (pi : unw_proc_info_t)
    (dci : dwarf_cie_info_t) (op : Z) (s : cfi_state P) :
  0x14 ≤ op ≤ 0x1b → cfi_switch m pi dci op s = (Ok tt, s).
Proof.
  intros Hop.
  assert (op = 0x14 ∨ op = 0x15 ∨ op = 0x16 ∨ op = 0x17 ∨ op = 0x18 ∨ op = 0x19 ∨
          op = 0x1a ∨ op = 0x1b) as Hc by lia.
  by destruct Hc as [->|[->|[->|[->|[->|[->|[->| ->]]]]]]].
Qed.

Lemma unlisted_opcode_ignored_witness :
  cfi_switch ∅ example_pi example_dci 0x14 (CfiState 0 0 example_sr [] (Bump 1)) =
  (Ok tt, CfiState 0 0 example_sr [] (Bump 1)).
Proof. apply unlisted_opcode_ignored. lia. Defined.

(** C18. The length of an expression block is added to the address without a
    check: with a length that wraps around to the instruction itself the
    interpreter never stops, whatever the fuel. *)
Theorem cfi_block_length_loops (P : Type) `(PoolLaws P) (m : memory) (pi : unw_proc_info_t)
    (dci : dwarf_cie_info_t) (ip a e : Z) (sr0 : dwarf_state_record_t) (p : P) (fuel : nat) :
  is_u64 a → sr_ok sr0 → a < e → pi.(start_ip) ≤ ip →
  bytes_at m a (0x0f :: uleb_encode (18446744073709551616 - 11)) →
  fst (run_cfi_program fuel m pi dci ip a e sr0 p) = Stop NoFuel.
Proof.
  intros Ha Hsr Hae Hip Hb. unfold run_cfi_program.
  assert (Hgen : ∀ s : cfi_state P, rows_ok s → s.(cs_addr) = a → s.(curr_ip) ≤ ip →
    fst (cfi_loop fuel m pi dci ip e s) = Stop NoFuel).
  2: { apply Hgen; [destruct Hsr; by split_and!|done|done]. }
  induction fuel as [|fuel IH]; intros s Hrows Hs Hc; [done|]. cbn [cfi_loop].
  rewrite (proj2 (Z.leb_le _ _) Hc), Hs, (proj2 (Z.ltb_lt _ _) Hae). cbn [andb].
  assert (Hat : at_bytes m s (0x0f :: uleb_encode (18446744073709551616 - 11))) by by rewrite <- Hs in *.
  apply after_opcode in Hat as [Hrd Hat]. rewrite Hrd.
  change (cfi_switch m pi dci 15) with (cfi_dispatch m pi dci DW_CFA_def_cfa_expression 0).
  simpl cfi_dispatch. unfold cfi_expression. mred. rewrite set_reg_ok by done.
  rewrite (rd_uleb m _ (18446744073709551616 - 11)) by (exact Hat || decided).
  apply IH.
  - destruct Hrows as (? & ? & ?). split_and!; try done. simpl. by rewrite length_insert.
  - unfold adv. cbn [cs_addr set_cs_addr set_sr length].
    change (length (uleb_encode (18446744073709551616 - 11))) with 10%nat.
    rewrite Hs. transitivity (u64 (a + 1 * 18446744073709551616)); [u64_eq|].
    unfold u64, is_u64 in *. by rewrite Z.mod_add, Z.mod_small by lia.
  - done.
Qed.

Lemma cfi_block_length_loops_witness :
  fst (run_cfi_program 100 (put_bytes ∅ 0x100 (0x0f :: uleb_encode (18446744073709551616 - 11)))
         example_pi example_dci 0x4002 0x100 0x10b example_sr (Bump 0x9000)) = Stop NoFuel.
Proof.
  apply (cfi_block_length_loops bump bump_laws); [decided|split; reflexivity|lia|simpl; lia|decided].
Defined.
