(* ===== verification/Fde.v ===== *)
(** * Common information and frame description entries

    [Gfde.c]: the parser of a CIE, cut into its header, its augmentation string
    and its augmentation data, and the extraction of a procedure's description
    from an FDE.  The second half encodes entries and proves that the parser
    recovers what was encoded. *)
From S2P Require Export Defs Mempool EncPtr.
From S2P Require Import Leb128.

(** [src/include/dwarf.h:127-127], [DWARF_CIE_VERSION] *)
Definition DWARF_CIE_VERSION : Z := 3.

(** [sizeof (struct dwarf_cie_info)]: eight words, two half-words, two bytes
    and the bit fields in the rest of a word. *)
Definition sizeof_dwarf_cie_info : Z := 72.

(** [src/Gfde.c:28-38], [is_cie_id] *)
Definition is_cie_id (val : Z) (is_debug_frame : bool) : bool :=
  if is_debug_frame then (val =? 0xffffffff) || (val =? 0xffffffffffffffff)
  else val =? 0.

(** ** The CIE *)

(** The default encoding of FDE pointers.  [src/Gfde.c:59-69], [parse_cie] *)
Definition default_fde_encoding : Z :=
  match dwarf_addr_size with
  | 4 => pe_format_code DW_EH_PE_udata4
  | 8 => pe_format_code DW_EH_PE_udata8
  | _ => DW_EH_PE_omit
  end.

(** The length, the identifier and the end of the entry.
    [src/Gfde.c:74-114], [parse_cie] *)
Definition cie_header (m : memory) (base : Z) : M Z Z :=
  u32val ← dwarf_readu32 m;
  if negb (u32val =? 0xffffffff) then
    let expected_id := if negb (base =? 0) then 0xffffffff else 0 in
    addr ← get_st;
    let cie_end_addr := u64 (addr + u32val) in
    cie_id ← dwarf_readu32 m;
    if negb (cie_id =? expected_id) then fail UNW_EINVAL else mret cie_end_addr
  else
    let expected_id := if negb (base =? 0) then 0xffffffffffffffff else 0 in
    u64val ← dwarf_readu64 m;
    addr ← get_st;
    let cie_end_addr := u64 (addr + u64val) in
    cie_id ← dwarf_readu64 m;
    if negb (cie_id =? expected_id) then fail UNW_EINVAL else mret cie_end_addr.

(** [uint8_t augstr[5]].  [src/Gfde.c:40-50], [parse_cie] *)
Definition augstr_size : Z := 5.

(** The loop keeps the first four characters; [fuel] bounds the string.
    [src/Gfde.c:126-138], [parse_cie] *)
Fixpoint read_augstr (fuel : nat) (m : memory) (augstr : list Z) (i : Z) : M Z (list Z) :=
  match fuel with
  | O => halt NoFuel
  | S fuel' =>
      ch ← dwarf_readu8 m;
      if ch =? 0 then mret augstr
      else if i <? augstr_size - 1 then
        augstr' ← lift (awrite augstr i ch);
        read_augstr fuel' m augstr' (i + 1)
      else read_augstr fuel' m augstr i
  end.

(** [src/Gfde.c:140-153], [parse_cie] *)
Definition cie_alignment (m : memory) (version : Z) (dci : dwarf_cie_info_t)
    : M Z dwarf_cie_info_t :=
  ca ← dwarf_read_uleb128 m;
  da ← dwarf_read_sleb128 m;
  col ← (if version =? 1 then dwarf_readu8 m else dwarf_read_uleb128 m);
  mret (set_cie_ret_addr_column col (set_data_align da (set_code_align ca dci))).

(** The characters of the augmentation string. *)
Definition ch_z : Z := 122.
Definition ch_L : Z := 76.
Definition ch_R : Z := 82.
Definition ch_P : Z := 80.
Definition ch_S : Z := 83.

(** The loop over the characters of [augstr] from position [i] on, the list
    [cs]; the results are the structure and the encoding of FDE pointers.
    [src/Gfde.c:164-206], [parse_cie] *)
Fixpoint parse_augmentation (m : memory) (pi : unw_proc_info_t) (cs : list Z)
    (dci : dwarf_cie_info_t) (fde_encoding : Z) : M Z (dwarf_cie_info_t * Z) :=
  match cs with
  | [] => mret (dci, fde_encoding)
  | c :: cs' =>
      if c =? 0 then mret (dci, fde_encoding)
      else if c =? ch_L then
        ch ← dwarf_readu8 m;
        parse_augmentation m pi cs' (set_lsda_encoding ch dci) fde_encoding
      else if c =? ch_R then
        fde_encoding' ← dwarf_readu8 m;
        parse_augmentation m pi cs' dci fde_encoding'
      else if c =? ch_P then
        handler_encoding ← dwarf_readu8 m;
        h ← dwarf_read_encoded_pointer m handler_encoding pi;
        parse_augmentation m pi cs' (set_handler h dci) fde_encoding
      else if c =? ch_S then
        parse_augmentation m pi cs' (set_have_abi_marker true (set_signal_frame true dci))
          fde_encoding
      else if dci.(sized_augmentation) then mret (dci, fde_encoding)
      else fail UNW_EINVAL
  end.

(** [src/Gfde.c:155-162], [parse_cie] *)
Definition cie_augmentation (m : memory) (pi : unw_proc_info_t) (augstr : list Z)
    (dci : dwarf_cie_info_t) : M Z (dwarf_cie_info_t * Z) :=
  c0 ← lift (aread augstr 0);
  if c0 =? ch_z then
    aug_size ← dwarf_read_uleb128 m;
    parse_augmentation m pi (tail augstr) (set_sized_augmentation true dci) default_fde_encoding
  else parse_augmentation m pi augstr dci default_fde_encoding.

(** [src/Gfde.c:45-213], [parse_cie] *)
Definition parse_cie (fuel : nat) (m : memory) (addr : Z) (pi : unw_proc_info_t)
    (dci : dwarf_cie_info_t) (base : Z) : res dwarf_cie_info_t :=
  fst ((
    let dci := set_handler 0 (set_lsda_encoding DW_EH_PE_omit dci) in
    cie_end_addr ← cie_header m base;
    let dci := set_cie_instr_end cie_end_addr dci in
    version ← dwarf_readu8 m;
    if negb (version =? 1) && negb (version =? DWARF_CIE_VERSION) then fail UNW_EBADVERSION
    else
      augstr ← read_augstr fuel m (replicate (Z.to_nat augstr_size) 0) 0;
      dci ← cie_alignment m version dci;
      '(dci, fde_enc) ← cie_augmentation m pi augstr dci;
      addr ← get_st;
      mret (set_cie_instr_start addr (set_fde_encoding fde_enc dci))) addr).

(** ** The FDE *)

(** What the extraction changes: the caller's [*addrp] and [*pi], and the pool
    of [dwarf_cie_info] objects. *)
Record fde_state (P : Type) := FdeState {
  fx_addrp : Z;
  fx_pi : unw_proc_info_t;
  fx_pool : P
}.
Arguments FdeState {P}.
Arguments fx_addrp {P}.
Arguments fx_pi {P}.
Arguments fx_pool {P}.

(** The start of an FDE: [None] at a CIE, or the end of the entry, the address
    of its CIE and the address after the CIE pointer.  The second component is
    the new [*addrp], if it is assigned.
    [src/Gfde.c:237-297], [dwarf_extract_proc_info_from_fde] *)
Definition fde_header (m : memory) (base addr : Z)
    : res (option (Z * Z * Z)) * option Z :=
  match dwarf_readu32 m addr with
  | (Ok u32val, addr) =>
      if negb (u32val =? 0xffffffff) then
        if u32val =? 0 then (Err UNW_ENOINFO, None)
        else
          let fde_end_addr := u64 (addr + u32val) in
          let cie_offset_addr := addr in
          match dwarf_reads32 m addr with
          | (Ok cie_offset, addr) =>
              if is_cie_id (u64 cie_offset) (negb (base =? 0)) then (Ok None, Some fde_end_addr)
              else
                let cie_addr := if negb (base =? 0) then u64 (base + cie_offset)
                                else u64 (cie_offset_addr - cie_offset) in
                (Ok (Some (fde_end_addr, cie_addr, addr)), Some fde_end_addr)
          | (Err e, _) => (Err e, Some fde_end_addr)
          | (Stop t, _) => (Stop t, Some fde_end_addr)
          end
      else
        match dwarf_readu64 m addr with
        | (Ok u64val, addr) =>
            let fde_end_addr := u64 (addr + u64val) in
            let cie_offset_addr := addr in
            match dwarf_reads64 m addr with
            | (Ok cie_offset, addr) =>
                if is_cie_id (u64 cie_offset) (negb (base =? 0)) then (Ok None, Some fde_end_addr)
                else
                  let cie_addr := if negb (base =? 0) then u64 (base + cie_offset)
                                  else u64 (cie_offset_addr - cie_offset) in
                  (Ok (Some (fde_end_addr, cie_addr, addr)), Some fde_end_addr)
            | (Err e, _) => (Err e, Some fde_end_addr)
            | (Stop t, _) => (Stop t, Some fde_end_addr)
            end
        | (Err e, _) => (Err e, None)
        | (Stop t, _) => (Stop t, None)
        end
  | (Err e, _) => (Err e, None)
  | (Stop t, _) => (Stop t, None)
  end.

Section extract.
Context {P : Type} `{!PoolOps P}.

Definition set_fx_addrp (x : Z) (s : fde_state P) : fde_state P :=
  FdeState x s.(fx_pi) s.(fx_pool).
Definition on_pi (f : unw_proc_info_t → unw_proc_info_t) (s : fde_state P) : fde_state P :=
  FdeState s.(fx_addrp) (f s.(fx_pi)) s.(fx_pool).
Definition set_fx_pool (x : P) (s : fde_state P) : fde_state P :=
  FdeState s.(fx_addrp) s.(fx_pi) x.

(** The address range, the personality routine and the language-specific data;
    the results are the address after them and the end of the augmentation.
    [src/Gfde.c:304-326], [dwarf_extract_proc_info_from_fde] *)
Definition fde_ranges (m : memory) (dci : dwarf_cie_info_t) (addr : Z)
    : M (fde_state P) (Z * Z) := λ s,
  let pi := s.(fx_pi) in
  let ip_range_encoding := Z.land dci.(fde_encoding) DW_EH_PE_FORMAT_MASK in
  match (start_ip ← dwarf_read_encoded_pointer m dci.(fde_encoding) pi;
         ip_range ← dwarf_read_encoded_pointer m ip_range_encoding pi;
         mret (start_ip, ip_range)) addr with
  | (Ok (start_ip, ip_range), addr) =>
      let pi := set_pi_handler dci.(handler)
                  (set_end_ip (u64 (start_ip + ip_range)) (set_start_ip start_ip pi)) in
      let s := on_pi (λ _, pi) s in
      match (aug_end_addr ← (if dci.(sized_augmentation) then
                aug_size ← dwarf_read_uleb128 m;
                addr ← get_st;
                mret (u64 (addr + aug_size))
              else mret 0);
             lsda ← dwarf_read_encoded_pointer m dci.(lsda_encoding) pi;
             mret (aug_end_addr, lsda)) addr with
      | (Ok (aug_end_addr, lsda), addr) =>
          (Ok (addr, aug_end_addr), on_pi (set_lsda lsda) s)
      | (Err e, _) => (Err e, s)
      | (Stop t, _) => (Stop t, s)
      end
  | (Err e, _) => (Err e, s)
  | (Stop t, _) => (Stop t, s)
  end.

(** The object with the unwind information.  The ABI marker takes four bytes.
    [src/Gfde.c:331-355], [dwarf_extract_proc_info_from_fde] *)
Definition fde_unwind_info (m : memory) (dci : dwarf_cie_info_t)
    (addr aug_end_addr fde_end_addr : Z) : M (fde_state P) () :=
  mod_st (on_pi (λ pi, set_unwind_info_size sizeof_dwarf_cie_info
                         (set_format UNW_INFO_FORMAT_TABLE pi)));;
  obj ← (λ s, let '(r, p) := pool_alloc s.(fx_pool) in (r, set_fx_pool p s));
  if obj =? 0 then mod_st (on_pi (set_unwind_info UI_null));; fail UNW_ENOMEM
  else
    mod_st (on_pi (set_unwind_info (UI_cie obj zero_cie_info)));;
    '(dci, addr) ←
      (if dci.(have_abi_marker) then
         match (abi ← dwarf_readu16 m; tag ← dwarf_readu16 m; mret (abi, tag)) addr with
         | (Ok (abi, tag), addr) => mret (set_tag tag (set_abi abi dci), addr)
         | (Err e, _) => fail e
         | (Stop t, _) => halt t
         end
       else mret (dci, addr));
    let dci := set_fde_instr_end fde_end_addr
                 (set_fde_instr_start (if dci.(sized_augmentation) then aug_end_addr else addr) dci) in
    mod_st (on_pi (set_unwind_info (UI_cie obj dci))).

(** [src/Gfde.c:220-357], [dwarf_extract_proc_info_from_fde] *)
Definition dwarf_extract_proc_info_from_fde (fuel : nat) (m : memory)
    (need_unwind_info : bool) (base : Z) : M (fde_state P) () :=
  s ← get_st;
  let '(hdr, addrp) := fde_header m base s.(fx_addrp) in
  mod_st (λ s, match addrp with Some a => set_fx_addrp a s | None => s end);;
  hdr ← lift hdr;
  match hdr with
  | None => mret tt
  | Some (fde_end_addr, cie_addr, addr) =>
      s ← get_st;
      dci ← lift (parse_cie fuel m cie_addr s.(fx_pi) zero_cie_info base);
      '(addr, aug_end_addr) ← fde_ranges m dci addr;
      if need_unwind_info then fde_unwind_info m dci addr aug_end_addr fde_end_addr
      else mret tt
  end.
End extract.

(** ** Readers on byte strings

    [reads m f bs a v]: on a memory that has [bs] at [a], the reader [f] returns
    [v] and leaves the address after [bs]. *)
Definition reads {A} (m : memory) (f : M Z A) (bs : list Z) (a : Z) (v : A) : Prop :=
  is_u64 a → bytes_at m a bs → f a = (Ok v, u64 (a + Z.of_nat (length bs))).

Lemma reads_ret {A} m a (v : A) : reads m (mret v) [] a v.
Proof. intros Ha _. simpl. by rewrite Z.add_0_r, u64_small. Qed.

Lemma reads_bind {A B} m (f : M Z A) (k : A → M Z B) bs1 bs2 a v w :
  reads m f bs1 a v → reads m (k v) bs2 (u64 (a + Z.of_nat (length bs1))) w →
  reads m (f ≫= k) (bs1 ++ bs2) a w.
Proof.
  intros Hf Hk Ha Hm. apply bytes_at_app in Hm as [H1 H2]; [|done].
  unfold mbind, M_bind. rewrite Hf, Hk by (done || apply u64_range).
  rewrite u64_add_l, length_app. do 2 f_equal. lia.
Qed.

Lemma reads_get {B} m (k : Z → M Z B) bs a w :
  reads m (k a) bs a w → reads m (get_st ≫= k) bs a w.
Proof. done. Qed.

Lemma reads_here {A} m (f : M Z A) bs a v :
  reads m f bs (u64 (a + Z.of_nat (length (@nil Z)))) v → reads m f bs a v.
Proof.
  intros Hr Ha. revert Hr. change (Z.of_nat (length [])) with 0.
  rewrite Z.add_0_r, u64_small by done. intros Hr. by apply Hr.
Qed.

Lemma reads_lift {A B} m (k : A → M Z B) v bs a w :
  reads m (k v) bs a w → reads m (lift (Ok v) ≫= k) bs a w.
Proof. done. Qed.

Lemma reads_u8 m a b : reads m (dwarf_readu8 m) [b] a b.
Proof. intros _ Hm. by rewrite (readu8_byte _ _ _ Hm). Qed.

Lemma reads_u32 m a v : 0 ≤ v < 4294967296 → reads m (dwarf_readu32 m) (le_bytes 4 v) a v.
Proof.
  intros Hv _ Hm. rewrite (readu32_le _ _ _ Hm), length_le_bytes.
  unfold u32. by rewrite Z.mod_small.
Qed.

Lemma reads_s32 m a v : - 2 ^ 31 ≤ v < 2 ^ 31 → reads m (dwarf_reads32 m) (le_bytes 4 v) a v.
Proof.
  intros Hv _ Hm. rewrite (reads32_le _ _ _ Hm), length_le_bytes.
  unfold s32. by rewrite sext_small.
Qed.

Lemma reads_uleb m a n : is_u64 n → reads m (dwarf_read_uleb128 m) (uleb_encode n) a n.
Proof. intros Hn Ha Hm. by rewrite (uleb_read_encode _ _ _ Hn Ha Hm). Qed.

Lemma reads_sleb m a n :
  - 2 ^ 63 ≤ n < 2 ^ 63 → reads m (dwarf_read_sleb128 m) (sleb_encode n) a (u64 n).
Proof. intros Hn Ha Hm. by rewrite (sleb_read_encode _ _ _ Hn Ha Hm). Qed.

(** The value of a stored pointer. *)
Definition pe_value (m : memory) (f : pe_format) (app : pe_application) (ind : bool) (x : Z)
    (pi : unw_proc_info_t) (a : Z) : res Z :=
  if decide (u64 (pe_read f x) = 0) then Ok 0
  else let v := u64 (pe_read f x + pe_base app a pi) in if ind then load 8 m v else Ok v.

Lemma reads_pointer m f app ind x pi a v :
  pe_range f x → pe_value m f app ind x pi a = Ok v →
  reads m (dwarf_read_encoded_pointer m (pe_code f app ind) pi) (pe_bytes f x) a v.
Proof.
  intros Hx Hv Ha Hm. rewrite (encoded_pointer_spec m f app ind x pi a Hx Hm Ha).
  f_equal. exact Hv.
Qed.

Lemma reads_omit m pi a : reads m (dwarf_read_encoded_pointer m DW_EH_PE_omit pi) [] a 0.
Proof. intros Ha _. simpl. by rewrite Z.add_0_r, u64_small. Qed.

(** ** The augmentation of a CIE *)

Inductive aug_item :=
  | Aug_lsda (enc : Z)
  | Aug_fde (enc : Z)
  | Aug_personality (f : pe_format) (app : pe_application) (ind : bool) (x : Z)
  | Aug_signal.

Definition aug_char (i : aug_item) : Z :=
  match i with
  | Aug_lsda _ => ch_L | Aug_fde _ => ch_R | Aug_personality _ _ _ _ => ch_P
  | Aug_signal => ch_S
  end.

Definition aug_data (i : aug_item) : list Z :=
  match i with
  | Aug_lsda enc | Aug_fde enc => [enc]
  | Aug_personality f app ind x => pe_code f app ind :: pe_bytes f x
  | Aug_signal => []
  end.

Definition aug_encodable (i : aug_item) : Prop :=
  match i with Aug_personality f _ _ x => pe_range f x | _ => True end.

(** What an item says, its data being at [a]. *)
Definition sem_item (m : memory) (pi : unw_proc_info_t) (a : Z) (i : aug_item)
    (c : dwarf_cie_info_t * Z) : res (dwarf_cie_info_t * Z) :=
  let '(dci, enc) := c in
  match i with
  | Aug_lsda e => Ok (set_lsda_encoding e dci, enc)
  | Aug_fde e => Ok (dci, e)
  | Aug_personality f app ind x =>
      h ← pe_value m f app ind x pi (u64 (a + 1)); Ok (set_handler h dci, enc)
  | Aug_signal => Ok (set_have_abi_marker true (set_signal_frame true dci), enc)
  end.

Fixpoint sem_aug (m : memory) (pi : unw_proc_info_t) (a : Z) (items : list aug_item)
    (c : dwarf_cie_info_t * Z) : res (dwarf_cie_info_t * Z) :=
  match items with
  | [] => Ok c
  | i :: items' =>
      c' ← sem_item m pi a i c;
      sem_aug m pi (u64 (a + Z.of_nat (length (aug_data i)))) items' c'
  end.

Definition aug_bytes (items : list aug_item) : list Z := concat (map aug_data items).

(** A character the loop stops at. *)
Definition aug_unknown (c : Z) : Prop :=
  c ≠ 0 ∧ c ≠ ch_L ∧ c ≠ ch_R ∧ c ≠ ch_P ∧ c ≠ ch_S.

Definition aug_stop (sized : bool) (rest : list Z) : Prop :=
  match rest with [] => True | c :: _ => c = 0 ∨ (aug_unknown c ∧ sized = true) end.

Lemma sem_item_sized m pi a i c c' :
  sem_item m pi a i c = Ok c' → c'.1.(sized_augmentation) = c.1.(sized_augmentation).
Proof.
  destruct c as [dci enc], i as [e|e|f app ind x|]; simpl; try (by intros [= <-]).
  destruct (pe_value _ _ _ _ _ _ _); [|done..]. by intros [= <-].
Qed.

Lemma reads_item m pi i rest bs a dci enc dci' enc' w :
  aug_encodable i → sem_item m pi a i (dci, enc) = Ok (dci', enc') →
  reads m (parse_augmentation m pi rest dci' enc') bs
    (u64 (a + Z.of_nat (length (aug_data i)))) w →
  reads m (parse_augmentation m pi (aug_char i :: rest) dci enc) (aug_data i ++ bs) a w.
Proof.
  intros Hi Hs Hr. destruct i as [e|e|f app ind x|]; simpl in Hi, Hs; simpl parse_augmentation.
  - injection Hs as <- <-. eapply reads_bind; [apply reads_u8|exact Hr].
  - injection Hs as <- <-. eapply reads_bind; [apply reads_u8|exact Hr].
  - destruct (pe_value m f app ind x pi (u64 (a + 1))) as [h| |] eqn:Hh; [|done..].
    injection Hs as <- <-. simpl aug_data.
    apply (reads_bind m _ _ [_] (pe_bytes f x ++ bs) a (pe_code f app ind)); [apply reads_u8|].
    eapply reads_bind; [by apply reads_pointer|].
    replace (u64 (u64 (a + Z.of_nat (length [pe_code f app ind])) + Z.of_nat (length (pe_bytes f x))))
      with (u64 (a + Z.of_nat (length (aug_data (Aug_personality f app ind x)))));
      [exact Hr|simpl length; u64_eq].
  - injection Hs as <- <-. by apply reads_here.
Qed.

Lemma reads_augmentation m pi items rest : ∀ a dci enc dci' enc',
  Forall aug_encodable items → aug_stop dci.(sized_augmentation) rest →
  sem_aug m pi a items (dci, enc) = Ok (dci', enc') →
  reads m (parse_augmentation m pi (map aug_char items ++ rest) dci enc) (aug_bytes items) a
    (dci', enc').
Proof.
  induction items as [|i items IH]; intros a dci enc dci' enc' Hi Hr Hs.
  - injection Hs as <- <-. destruct rest as [|c rest]; [apply reads_ret|].
    simpl. destruct Hr as [->|[(H0 & HL & HR & HP & HS) Hsz]]; [apply reads_ret|].
    rewrite (proj2 (Z.eqb_neq _ _) H0), (proj2 (Z.eqb_neq _ _) HL), (proj2 (Z.eqb_neq _ _) HR),
      (proj2 (Z.eqb_neq _ _) HP), (proj2 (Z.eqb_neq _ _) HS), Hsz. apply reads_ret.
  - apply Forall_cons_1 in Hi as [Hi Hitems]. cbn [sem_aug] in Hs.
    destruct (sem_item m pi a i (dci, enc)) as [[dci1 enc1]| |] eqn:E; [|done..].
    pose proof (sem_item_sized _ _ _ _ _ _ E) as Hz. simpl in Hz.
    eapply reads_item; [done|exact E|]. apply IH; [done|by rewrite Hz|exact Hs].
Qed.

(** Four characters of the string are kept. *)
Lemma replicate_insert (cs : list Z) (n : nat) (c : Z) :
  <[length cs := c]> (cs ++ replicate (S n) 0) = (cs ++ [c]) ++ replicate n 0.
Proof.
  replace (length cs) with (length cs + 0)%nat by lia.
  rewrite insert_app_r. simpl. by rewrite <- app_assoc.
Qed.

Lemma reads_augstr m cs : ∀ fuel pre a,
  (length cs < fuel)%nat → (length pre ≤ 4)%nat → Forall (λ c, c ≠ 0) cs →
  reads m (read_augstr fuel m (pre ++ replicate (5 - length pre) 0) (Z.of_nat (length pre)))
    (cs ++ [0]) a
    (take 4 (pre ++ cs) ++ replicate (5 - length (take 4 (pre ++ cs))) 0).
Proof.
  induction cs as [|c cs IH]; intros fuel pre a Hf Hp Hcs;
    (destruct fuel as [|fuel]; [simpl in Hf; lia|]); cbn [read_augstr].
  - apply (reads_bind m _ _ [0] [] a 0); [apply reads_u8|]. simpl.
    rewrite app_nil_r, take_ge by lia. apply reads_ret.
  - apply Forall_cons_1 in Hcs as [Hc Hcs]. simpl in Hf.
    apply (reads_bind m _ _ [c] (cs ++ [0]) a c); [apply reads_u8|].
    rewrite (proj2 (Z.eqb_neq _ _) Hc). unfold augstr_size.
    destruct (Z.ltb_spec (Z.of_nat (length pre)) (5 - 1)).
    + rewrite awrite_Ok by (rewrite length_app, length_replicate; lia). rewrite Nat2Z.id.
      replace (5 - length pre)%nat with (S (4 - length pre)) by lia.
      rewrite replicate_insert.
      replace (4 - length pre)%nat with (5 - length (pre ++ [c]))%nat
        by (rewrite length_app; simpl; lia).
      replace (Z.of_nat (length pre) + 1) with (Z.of_nat (length (pre ++ [c])))
        by (rewrite length_app; simpl; lia).
      replace (pre ++ c :: cs) with ((pre ++ [c]) ++ cs) by by rewrite <- app_assoc.
      intros Ha Hm. apply IH; [lia|rewrite length_app; simpl; lia|done|done|done].
    + assert (length pre = 4%nat) by lia.
      replace (take 4 (pre ++ c :: cs)) with (take 4 (pre ++ cs))
        by (rewrite !take_app_length' by lia; done).
      apply IH; [lia|lia|done].
Qed.

(** ** Entries *)

(** What a CIE of the 32-bit format holds.  [cd_base] is 0 for [.eh_frame]. *)
Record cie_desc := CieDesc {
  cd_version : Z;
  cd_augstr : list Z;
  cd_code_align : Z;
  cd_data_align : Z;
  cd_ret_column : Z;
  cd_aug_data : list Z;
  cd_instrs : list Z
}.

Definition cd_sized (d : cie_desc) : bool :=
  match d.(cd_augstr) with c :: _ => c =? ch_z | [] => false end.

(** Everything before the augmentation data, everything before the instructions,
    and the entry. *)
Definition cie_prefix (base : Z) (d : cie_desc) : list Z :=
  le_bytes 4 (if base =? 0 then 0 else 0xffffffff) ++ [d.(cd_version)] ++
  (d.(cd_augstr) ++ [0]) ++ uleb_encode d.(cd_code_align) ++ sleb_encode d.(cd_data_align) ++
  (if d.(cd_version) =? 1 then [d.(cd_ret_column)] else uleb_encode d.(cd_ret_column)) ++
  (if cd_sized d then uleb_encode (Z.of_nat (length d.(cd_aug_data))) else []).

Definition cie_body (base : Z) (d : cie_desc) : list Z :=
  cie_prefix base d ++ d.(cd_aug_data) ++ d.(cd_instrs).

Definition cie_bytes (base : Z) (d : cie_desc) : list Z :=
  le_bytes 4 (Z.of_nat (length (cie_body base d))) ++ cie_body base d.

Definition cie_encodable (base : Z) (d : cie_desc) : Prop :=
  (d.(cd_version) = 1 ∨ d.(cd_version) = DWARF_CIE_VERSION) ∧
  Forall (λ c, c ≠ 0) d.(cd_augstr) ∧ is_u64 d.(cd_code_align) ∧
  - 2 ^ 63 ≤ d.(cd_data_align) < 2 ^ 63 ∧
  (if d.(cd_version) =? 1 then is_byte d.(cd_ret_column) else is_u64 d.(cd_ret_column)) ∧
  Z.of_nat (length (cie_body base d)) < 0xffffffff.

#[export] Instance aug_encodable_dec i : Decision (aug_encodable i).
Proof. destruct i as [| |f app ind x|]; try apply _. destruct f; apply _. Defined.

#[export] Instance cie_encodable_dec base d : Decision (cie_encodable base d).
Proof. unfold cie_encodable. destruct (_ =? _); apply _. Defined.

(** The fields before the augmentation is read. *)
Definition cie_fields (a : Z) (base : Z) (d : cie_desc) (dci : dwarf_cie_info_t)
    : dwarf_cie_info_t :=
  (if cd_sized d then set_sized_augmentation true else λ x, x)
    (set_cie_ret_addr_column d.(cd_ret_column) (set_data_align (u64 d.(cd_data_align))
      (set_code_align d.(cd_code_align)
        (set_cie_instr_end (u64 (a + 4 + Z.of_nat (length (cie_body base d))))
          (set_handler 0 (set_lsda_encoding DW_EH_PE_omit dci)))))).

(** The address of the augmentation data. *)
Definition cie_aug_addr (a base : Z) (d : cie_desc) : Z :=
  u64 (a + 4 + Z.of_nat (length (cie_prefix base d))).

Lemma reads_cie_alignment m d dci a :
  (d.(cd_version) = 1 ∨ d.(cd_version) = DWARF_CIE_VERSION) → is_u64 d.(cd_code_align) →
  - 2 ^ 63 ≤ d.(cd_data_align) < 2 ^ 63 →
  (if d.(cd_version) =? 1 then is_byte d.(cd_ret_column) else is_u64 d.(cd_ret_column)) →
  reads m (cie_alignment m d.(cd_version) dci)
    (uleb_encode d.(cd_code_align) ++ sleb_encode d.(cd_data_align) ++
     (if d.(cd_version) =? 1 then [d.(cd_ret_column)] else uleb_encode d.(cd_ret_column)) ++ []) a
    (set_cie_ret_addr_column d.(cd_ret_column) (set_data_align (u64 d.(cd_data_align))
      (set_code_align d.(cd_code_align) dci))).
Proof.
  intros Hv Hca Hda Hcol. unfold cie_alignment.
  eapply reads_bind; [by apply reads_uleb|]. eapply reads_bind; [by apply reads_sleb|].
  eapply reads_bind; [|apply reads_ret].
  destruct (_ =? 1); [apply reads_u8|by apply reads_uleb].
Qed.

Lemma reads_cie_header m base d a :
  Z.of_nat (length (cie_body base d)) < 0xffffffff → is_u64 a →
  reads m (cie_header m base)
    (le_bytes 4 (Z.of_nat (length (cie_body base d))) ++
     le_bytes 4 (if base =? 0 then 0 else 0xffffffff) ++ []) a
    (u64 (a + 4 + Z.of_nat (length (cie_body base d)))).
Proof.
  intros Hl Ha. unfold cie_header. eapply reads_bind; [apply reads_u32; lia|].
  rewrite (proj2 (Z.eqb_neq _ _)) by lia. cbn [negb]. apply reads_get.
  eapply reads_bind; [apply reads_u32; case_match; lia|].
  replace (u64 (a + 4 + Z.of_nat (length (cie_body base d)))) with
    (u64 (u64 (a + Z.of_nat (length (le_bytes 4 (Z.of_nat (length (cie_body base d)))))) +
          Z.of_nat (length (cie_body base d)))) by (rewrite length_le_bytes; u64_eq).
  destruct (base =? 0); apply reads_ret.
Qed.

(** The string as the parser keeps it. *)
Definition kept_augstr (d : cie_desc) : list Z :=
  take 4 d.(cd_augstr) ++ replicate (5 - length (take 4 d.(cd_augstr))) 0.

Lemma reads_cie_augmentation m pi d dci bs a c :
  Z.of_nat (length d.(cd_aug_data)) < 0xffffffff →
  let size := if cd_sized d then uleb_encode (Z.of_nat (length d.(cd_aug_data))) else [] in
  reads m (parse_augmentation m pi
             ((if cd_sized d then tail else λ x, x) (kept_augstr d))
             ((if cd_sized d then set_sized_augmentation true else λ x, x) dci)
             default_fde_encoding) bs (u64 (a + Z.of_nat (length size))) c →
  reads m (cie_augmentation m pi (kept_augstr d) dci) (size ++ bs) a c.
Proof.
  unfold cie_augmentation, kept_augstr, cd_sized. intros Hl Hr.
  destruct (cd_augstr d) as [|c0 cs]; cbn [take app].
  - apply (reads_lift m _ 0). by apply reads_here.
  - apply (reads_lift m _ c0). destruct (Z.eqb_spec c0 ch_z) as [->|Hz].
    + eapply reads_bind; [apply reads_uleb; unfold is_u64; lia|]. exact Hr.
    + by apply reads_here.
Qed.

(** The augmentation of [d] parses to [c], consuming [bs]. *)
Lemma parse_cie_reads m base d a pi dci fuel bs tl c :
  cie_encodable base d → is_u64 a → bytes_at m a (cie_bytes base d) →
  (length d.(cd_augstr) < fuel)%nat → d.(cd_aug_data) ++ d.(cd_instrs) = bs ++ tl →
  reads m (parse_augmentation m pi ((if cd_sized d then tail else λ x, x) (kept_augstr d))
             (cie_fields a base d dci) default_fde_encoding) bs (cie_aug_addr a base d) c →
  parse_cie fuel m a pi dci base =
    Ok (set_cie_instr_start (u64 (cie_aug_addr a base d + Z.of_nat (length bs)))
          (set_fde_encoding c.2 c.1)).
Proof.
  intros (Hv & Hcs & Hca & Hda & Hcol & Hl) Ha Hm Hf Htl Hr.
  assert (Hlen : Z.of_nat (length d.(cd_aug_data)) < 0xffffffff).
  { unfold cie_body in Hl. rewrite !length_app in Hl. lia. }
  set (head := le_bytes 4 (Z.of_nat (length (cie_body base d))) ++
      le_bytes 4 (if base =? 0 then 0 else 0xffffffff) ++ []).
  set (align := uleb_encode d.(cd_code_align) ++ sleb_encode d.(cd_data_align) ++
      (if d.(cd_version) =? 1 then [d.(cd_ret_column)] else uleb_encode d.(cd_ret_column)) ++ []).
  set (size := if cd_sized d then uleb_encode (Z.of_nat (length d.(cd_aug_data))) else []).
  assert (Hpre : cie_bytes base d =
    (head ++ [d.(cd_version)] ++ (d.(cd_augstr) ++ [0]) ++ align ++ (size ++ bs) ++ []) ++ tl).
  { unfold cie_bytes, head, align, size. unfold cie_body at 2. unfold cie_prefix.
    rewrite ?app_nil_r, Htl, <- ?app_assoc. done. }
  rewrite Hpre in Hm. apply bytes_at_app in Hm as [Hm _]; [|done].
  assert (Haug : cie_aug_addr a base d =
    u64 (a + Z.of_nat (length (head ++ [d.(cd_version)] ++ (d.(cd_augstr) ++ [0]) ++ align ++ size)))).
  { unfold cie_aug_addr, cie_prefix, head, align, size.
    rewrite ?app_nil_r, <- ?app_assoc, (length_app (le_bytes 4 (Z.of_nat _))), length_le_bytes.
    u64_eq. }
  unfold parse_cie.
  match goal with |- fst (?P a) = Ok ?v =>
    enough (HP : reads m P (head ++ [d.(cd_version)] ++ (d.(cd_augstr) ++ [0]) ++ align ++
                            (size ++ bs) ++ []) a v) by by rewrite (HP Ha Hm) end.
  eapply reads_bind; [by apply reads_cie_header|]. eapply reads_bind; [apply reads_u8|].
  replace (negb (cd_version d =? 1) && negb (cd_version d =? DWARF_CIE_VERSION)) with false
    by by destruct Hv as [-> | ->].
  eapply reads_bind; [by apply (reads_augstr m _ fuel [] _ Hf ltac:(simpl; lia))|].
  eapply reads_bind; [by apply reads_cie_alignment|].
  eapply reads_bind.
  { apply reads_cie_augmentation; [done|]. fold size.
    replace (u64 (_ + Z.of_nat (length size))) with (cie_aug_addr a base d); [|].
    - unfold cie_fields in Hr. exact Hr.
    - rewrite Haug, !length_app. fold align. simpl length. u64_eq. }
  destruct c as [dci' enc']. intros _ _. mred. simpl length.
  rewrite Z.add_0_r, u64_idemp. do 3 f_equal. rewrite Haug, !length_app. simpl length.
  u64_eq.
Qed.

(** A CIE whose augmentation is a list of items; [more] follows the characters
    of the items and [extra] their data. *)
Definition item_cie (version ca da col : Z) (sized : bool) (items : list aug_item)
    (more extra instrs : list Z) : cie_desc :=
  CieDesc version ((if sized then [ch_z] else []) ++ map aug_char items ++ more) ca da col
    (aug_bytes items ++ extra) instrs.

Lemma aug_char_known i : aug_char i ≠ 0 ∧ aug_char i ≠ ch_z.
Proof. by destruct i. Qed.

Lemma aug_stop_zeros sized k : aug_stop sized (replicate k 0).
Proof. destruct k; [done|by left]. Qed.

Lemma item_cie_sized v ca da col sized items more extra instrs :
  (sized = false → more = []) →
  cd_sized (item_cie v ca da col sized items more extra instrs) = sized.
Proof.
  intros Hm. destruct sized; [done|]. unfold cd_sized. simpl.
  destruct items as [|i items]; simpl; [by rewrite Hm|].
  by apply Z.eqb_neq, aug_char_known.
Qed.

Lemma item_cie_kept v ca da col (sized : bool) items more extra instrs :
  let d := item_cie v ca da col sized items more extra instrs in
  ((if sized then 1 else 0) + length items ≤ 4)%nat →
  (more = [] ∨ (sized = true ∧ aug_stop true more)) →
  ∃ rest, (if cd_sized d then tail else λ x, x) (kept_augstr d) = map aug_char items ++ rest ∧
          aug_stop sized rest.
Proof.
  intros d Hl Hm. unfold d at 1. rewrite item_cie_sized by (destruct Hm as [|[? _]]; congruence).
  set (n := (4 - (if sized then 1 else 0) - length items)%nat).
  assert (Hk : (if sized then tail else λ x, x) (take 4 (cd_augstr d)) =
               map aug_char items ++ take n more).
  { assert (length (map aug_char items) = length items) by apply length_map.
    unfold n, d. destruct sized; cbn [item_cie cd_augstr app take tail].
    - rewrite take_app_ge by lia. do 2 f_equal. lia.
    - rewrite take_app_ge by lia. do 2 f_equal. lia. }
  exists (take n more ++ replicate (5 - length (take 4 (cd_augstr d))) 0).
  split.
  - unfold kept_augstr. rewrite app_assoc, <- Hk. destruct sized; [|done]. done.
  - destruct Hm as [->|[-> Hs]].
    + rewrite take_nil. apply aug_stop_zeros.
    + destruct n; [apply aug_stop_zeros|]. destruct more as [|c more]; [apply aug_stop_zeros|].
      exact Hs.
Qed.

(** What the parser makes of such a CIE. *)
Definition sem_cie (m : memory) (pi : unw_proc_info_t) (a base : Z) (items : list aug_item)
    (d : cie_desc) (dci : dwarf_cie_info_t) : res dwarf_cie_info_t :=
  let aug := cie_aug_addr a base d in
  '(dci, enc) ← sem_aug m pi aug items (cie_fields a base d dci, default_fde_encoding);
  Ok (set_cie_instr_start (u64 (aug + Z.of_nat (length (aug_bytes items))))
        (set_fde_encoding enc dci)).

Lemma parse_cie_items m base v ca da col sized items more extra instrs a pi dci dci' fuel :
  let d := item_cie v ca da col sized items more extra instrs in
  cie_encodable base d → Forall aug_encodable items →
  ((if sized : bool then 1 else 0) + length items ≤ 4)%nat →
  (more = [] ∨ (sized = true ∧ aug_stop true more)) →
  is_u64 a → bytes_at m a (cie_bytes base d) → (length d.(cd_augstr) < fuel)%nat →
  dci.(sized_augmentation) = false →
  sem_cie m pi a base items d dci = Ok dci' →
  parse_cie fuel m a pi dci base = Ok dci'.
Proof.
  intros d He Hi Hl Hm Ha Hb Hf Hz Hs.
  destruct (item_cie_kept v ca da col sized items more extra instrs Hl Hm) as (rest & Hk & Hr).
  unfold sem_cie in Hs.
  destruct (sem_aug m pi (cie_aug_addr a base d) items (cie_fields a base d dci, default_fde_encoding))
    as [[dci1 enc1]| |] eqn:E; [|done..]. revert Hs. mred. intros [= <-].
  apply (parse_cie_reads m base d a pi dci fuel (aug_bytes items) (extra ++ instrs) (dci1, enc1));
    try done.
  - unfold d. simpl. by rewrite <- app_assoc.
  - fold d in Hk. rewrite Hk. apply reads_augmentation; [done| |done].
    unfold cie_fields. unfold d. rewrite item_cie_sized by (destruct Hm as [|[? _]]; congruence).
    destruct sized; [exact Hr|]. simpl. by rewrite Hz.
Qed.

(** ** The extraction *)

(** A stored pointer, or nothing where the encoding is omitted. *)
Inductive pe_item := PeItem (f : pe_format) (app : pe_application) (ind : bool) (x : Z) | PeOmit.

Definition pe_item_code (i : pe_item) : Z :=
  match i with PeItem f app ind _ => pe_code f app ind | PeOmit => DW_EH_PE_omit end.
Definition pe_item_bytes (i : pe_item) : list Z :=
  match i with PeItem f _ _ x => pe_bytes f x | PeOmit => [] end.
Definition pe_item_range (i : pe_item) : Prop :=
  match i with PeItem f _ _ x => pe_range f x | PeOmit => True end.
Definition pe_item_value (m : memory) (i : pe_item) (pi : unw_proc_info_t) (a : Z) : res Z :=
  match i with PeItem f app ind x => pe_value m f app ind x pi a | PeOmit => Ok 0 end.

Lemma reads_pe_item m i pi a v :
  pe_item_range i → pe_item_value m i pi a = Ok v →
  reads m (dwarf_read_encoded_pointer m (pe_item_code i) pi) (pe_item_bytes i) a v.
Proof.
  destruct i; [apply reads_pointer|]. intros _ [= <-]. apply reads_omit.
Qed.

Lemma pe_code_absolute f app ind :
  Z.land (pe_code f app ind) DW_EH_PE_FORMAT_MASK = pe_code f DW_EH_PE_absptr false.
Proof. by destruct f, app, ind. Qed.

Lemma pe_value_absolute m f x pi a : pe_value m f DW_EH_PE_absptr false x pi a = Ok (u64 (pe_read f x)).
Proof. unfold pe_value. case_decide; [by rewrite H|]. simpl. by rewrite Z.add_0_r. Qed.

(** What an FDE of the 32-bit format holds: the pointer to its CIE, the start
    and the size of the procedure in the format of the start, the
    language-specific data, the ABI marker and what else the augmentation
    holds. *)
Record fde_desc := FdeDesc {
  fd_cie_offset : Z;
  fd_format : pe_format;
  fd_app : pe_application;
  fd_ind : bool;
  fd_start : Z;
  fd_range : Z;
  fd_sized : bool;
  fd_lsda : pe_item;
  fd_abi : option (Z * Z);
  fd_rest : list Z;
  fd_instrs : list Z
}.

Definition fd_abi_bytes (d : fde_desc) : list Z :=
  match d.(fd_abi) with Some (abi, tag) => le_bytes 2 abi ++ le_bytes 2 tag | None => [] end.

Definition fd_aug (d : fde_desc) : list Z :=
  pe_item_bytes d.(fd_lsda) ++ fd_abi_bytes d ++ d.(fd_rest).

Definition fd_size (d : fde_desc) : list Z :=
  if d.(fd_sized) then uleb_encode (Z.of_nat (length (fd_aug d))) else [].

(** Everything before the instructions, from the range on. *)
Definition fd_prefix (d : fde_desc) : list Z :=
  pe_bytes d.(fd_format) d.(fd_start) ++ pe_bytes d.(fd_format) d.(fd_range) ++
  fd_size d ++ fd_aug d.

Definition fde_body (d : fde_desc) : list Z :=
  le_bytes 4 d.(fd_cie_offset) ++ fd_prefix d ++ d.(fd_instrs).

Definition fde_bytes (d : fde_desc) : list Z :=
  le_bytes 4 (Z.of_nat (length (fde_body d))) ++ fde_body d.

Definition fde_encodable (d : fde_desc) : Prop :=
  - 2 ^ 31 ≤ d.(fd_cie_offset) < 2 ^ 31 ∧
  pe_range d.(fd_format) d.(fd_start) ∧ pe_range d.(fd_format) d.(fd_range) ∧
  pe_item_range d.(fd_lsda) ∧ (d.(fd_sized) = false → d.(fd_rest) = []) ∧
  match d.(fd_abi) with
  | Some (abi, tag) => 0 ≤ abi < 65536 ∧ 0 ≤ tag < 65536 | None => True end ∧
  Z.of_nat (length (fde_body d)) < 0xffffffff.

(** The size of the procedure. *)
Definition fd_length (d : fde_desc) : Z := u64 (pe_read d.(fd_format) d.(fd_range)).

#[export] Instance pe_range_dec f x : Decision (pe_range f x).
Proof. destruct f; apply _. Defined.
#[export] Instance pe_item_range_dec i : Decision (pe_item_range i).
Proof. destruct i; apply _. Defined.
#[export] Instance fde_encodable_dec d : Decision (fde_encodable d).
Proof. unfold fde_encodable. destruct (fd_abi d) as [[]|]; apply _. Defined.

(** The FDE [d] fits the CIE [dci]. *)
Definition fde_matches (d : fde_desc) (dci : dwarf_cie_info_t) : Prop :=
  dci.(fde_encoding) = pe_code d.(fd_format) d.(fd_app) d.(fd_ind) ∧
  dci.(lsda_encoding) = pe_item_code d.(fd_lsda) ∧
  dci.(sized_augmentation) = d.(fd_sized) ∧
  dci.(have_abi_marker) = bool_decide (is_Some d.(fd_abi)).

Lemma fde_header_spec m base a d :
  fde_encodable d → is_u64 a → bytes_at m a (fde_bytes d) →
  let fde_end := u64 (a + 4 + Z.of_nat (length (fde_body d))) in
  fde_header m base a =
    (Ok (if is_cie_id (u64 d.(fd_cie_offset)) (negb (base =? 0)) then None
         else Some (fde_end,
                    if negb (base =? 0) then u64 (base + d.(fd_cie_offset))
                    else u64 (a + 4 - d.(fd_cie_offset)), u64 (a + 8))),
     Some fde_end).
Proof.
  intros (Ho & _ & _ & _ & _ & _ & Hl) Ha Hm. unfold fde_header.
  apply bytes_at_app in Hm as [H1 H2]; [|done].
  assert (0 < Z.of_nat (length (fde_body d))).
  { unfold fde_body. rewrite length_app, length_le_bytes. lia. }
  assert (Hr : 0 ≤ Z.of_nat (length (fde_body d)) < 4294967296) by lia.
  rewrite (reads_u32 m a _ Hr Ha H1). rewrite length_le_bytes in *.
  rewrite (proj2 (Z.eqb_neq _ _)) by lia. cbn [negb].
  rewrite (proj2 (Z.eqb_neq _ _)) by lia.
  unfold fde_body in H2. apply bytes_at_app in H2 as [H2 _]; [|apply u64_range].
  rewrite (reads_s32 m _ _ Ho (u64_range _) H2), length_le_bytes.
  replace (u64 (u64 (a + Z.of_nat 4) + Z.of_nat 4)) with (u64 (a + 8)) by u64_eq.
  replace (u64 (u64 (a + Z.of_nat 4) + Z.of_nat (length (fde_body d)))) with
    (u64 (a + 4 + Z.of_nat (length (fde_body d)))) by u64_eq.
  replace (u64 (u64 (a + Z.of_nat 4) - d.(fd_cie_offset))) with (u64 (a + 4 - d.(fd_cie_offset))).
  - by destruct (is_cie_id _ _).
  - unfold Z.sub. u64_eq.
Qed.

Section extract_spec.
Context {P : Type} `{!PoolOps P}.

(** The address of the language-specific data. *)
Definition fd_lsda_addr (a : Z) (d : fde_desc) : Z :=
  u64 (a + 8 + Z.of_nat (length (pe_bytes d.(fd_format) d.(fd_start)) +
                         length (pe_bytes d.(fd_format) d.(fd_range)) + length (fd_size d))).

(** The description of the procedure, its start and data evaluated. *)
Definition fde_pi (d : fde_desc) (start lsda_ hnd : Z) (pi : unw_proc_info_t) : unw_proc_info_t :=
  set_lsda lsda_ (set_pi_handler hnd
    (set_end_ip (u64 (start + fd_length d)) (set_start_ip start pi))).

Lemma fde_ranges_spec m dci a d (s : fde_state P) start lsda_ :
  fde_encodable d → fde_matches d dci → is_u64 a →
  bytes_at m (u64 (a + 8)) (fd_prefix d) →
  pe_value m d.(fd_format) d.(fd_app) d.(fd_ind) d.(fd_start) s.(fx_pi) (u64 (a + 8)) = Ok start →
  pe_item_value m d.(fd_lsda)
    (fde_pi d start s.(fx_pi).(lsda) dci.(handler) s.(fx_pi)) (fd_lsda_addr a d) = Ok lsda_ →
  fde_ranges m dci (u64 (a + 8)) s =
    (Ok (u64 (fd_lsda_addr a d + Z.of_nat (length (pe_item_bytes d.(fd_lsda)))),
         if d.(fd_sized) then u64 (fd_lsda_addr a d + Z.of_nat (length (fd_aug d))) else 0),
     on_pi (fde_pi d start lsda_ dci.(handler)) s).
Proof.
  intros (_ & Hs & Hr & Hlr & _ & _ & Hl) (Me & Ml & Ms & _) Ha Hm Hstart Hlsda.
  assert (Hlen : Z.of_nat (length (fd_aug d)) < 0xffffffff).
  { unfold fde_body, fd_prefix in Hl. rewrite !length_app in Hl. lia. }
  unfold fd_prefix in Hm. rewrite app_assoc in Hm.
  apply bytes_at_app in Hm as [H1 H2]; [|apply u64_range].
  unfold fd_aug in H2. rewrite app_assoc in H2.
  apply bytes_at_app in H2 as [H2 _]; [|apply u64_range].
  unfold fde_ranges. rewrite Me, pe_code_absolute.
  match goal with |- context [match ?f (u64 (a + 8)) with _ => _ end] =>
    assert (E1 : reads m f (pe_bytes (fd_format d) (fd_start d) ++
                            pe_bytes (fd_format d) (fd_range d) ++ []) (u64 (a + 8))
                   (start, fd_length d)) end.
  { eapply reads_bind; [by apply reads_pointer|].
    eapply reads_bind; [apply reads_pointer; [done|apply pe_value_absolute]|]. apply reads_ret. }
  rewrite app_nil_r in E1. rewrite (E1 (u64_range _) H1). clear E1. cbn zeta.
  match goal with |- context [match ?f (u64 (u64 (a + 8) + ?n)) with _ => _ end] =>
    set (b := u64 (u64 (a + 8) + n)) in *;
    assert (E2 : reads m f ((fd_size d ++ []) ++ pe_item_bytes d.(fd_lsda) ++ []) b
                   (if d.(fd_sized) then u64 (fd_lsda_addr a d + Z.of_nat (length (fd_aug d))) else 0,
                    lsda_)) end.
  { assert (Hb : fd_lsda_addr a d = u64 (b + Z.of_nat (length (fd_size d)))).
    { unfold fd_lsda_addr, b. rewrite length_app. u64_eq. }
    apply (reads_bind m _ _ _ _ b
      (if d.(fd_sized) then u64 (fd_lsda_addr a d + Z.of_nat (length (fd_aug d))) else 0)).
    - rewrite Ms, Hb. unfold fd_size. destruct d.(fd_sized).
      + eapply reads_bind; [apply reads_uleb; unfold is_u64; lia|]. apply reads_get.
        apply reads_ret.
      + apply reads_ret.
    - rewrite (app_nil_r (fd_size d)), <- Hb. eapply reads_bind; [|apply reads_ret]. rewrite Ml.
      by apply reads_pe_item. }
  rewrite !app_nil_r in E2. rewrite (E2 (u64_range _) H2).
  unfold on_pi, fde_pi. cbn [fx_addrp fx_pi fx_pool]. do 3 f_equal.
  unfold fd_lsda_addr, b. rewrite !length_app. u64_eq.
Qed.

(** The object for the unwind information: the CIE's data, completed. *)
Definition fde_cie (a : Z) (d : fde_desc) (dci : dwarf_cie_info_t) : dwarf_cie_info_t :=
  set_fde_instr_end (u64 (a + 4 + Z.of_nat (length (fde_body d))))
    (set_fde_instr_start (u64 (fd_lsda_addr a d + Z.of_nat (length (fd_aug d))))
      match d.(fd_abi) with Some (abi, tag) => set_tag tag (set_abi abi dci) | None => dci end).

Definition with_unwind_info (obj : Z) (dci : dwarf_cie_info_t) (pi : unw_proc_info_t)
    : unw_proc_info_t :=
  set_unwind_info (UI_cie obj dci)
    (set_unwind_info_size sizeof_dwarf_cie_info (set_format UNW_INFO_FORMAT_TABLE pi)).

Lemma reads_u16 m a v : 0 ≤ v < 65536 → reads m (dwarf_readu16 m) (le_bytes 2 v) a v.
Proof.
  intros Hv _ Hm. rewrite (readu16_le _ _ _ Hm), length_le_bytes.
  unfold u16. by rewrite Z.mod_small.
Qed.

Lemma fde_unwind_info_spec m dci a d (s : fde_state P) obj p :
  fde_encodable d → fde_matches d dci → is_u64 a →
  bytes_at m (fd_lsda_addr a d) (fd_aug d) →
  pool_alloc s.(fx_pool) = (Ok obj, p) → obj ≠ 0 →
  fde_unwind_info m dci (u64 (fd_lsda_addr a d + Z.of_nat (length (pe_item_bytes d.(fd_lsda)))))
    (if d.(fd_sized) then u64 (fd_lsda_addr a d + Z.of_nat (length (fd_aug d))) else 0)
    (u64 (a + 4 + Z.of_nat (length (fde_body d)))) s =
  (Ok tt, FdeState s.(fx_addrp) (with_unwind_info obj (fde_cie a d dci) s.(fx_pi)) p).
Proof.
  intros (_ & _ & _ & _ & Hrest & Habi & _) (_ & _ & Ms & Ma) Ha Hm Hp Hobj.
  unfold fde_unwind_info. mred. cbn [fx_pool on_pi]. rewrite Hp, (proj2 (Z.eqb_neq _ _) Hobj).
  unfold fd_aug in Hm. apply bytes_at_app in Hm as [_ Hm]; [|apply u64_range].
  apply bytes_at_app in Hm as [Hm _]; [|apply u64_range]. rewrite Ma.
  set (b := u64 (fd_lsda_addr a d + Z.of_nat (length (pe_item_bytes (fd_lsda d))))) in *.
  assert (Hend : d.(fd_sized) = false →
    u64 (fd_lsda_addr a d + Z.of_nat (length (fd_aug d))) =
    u64 (b + Z.of_nat (length (fd_abi_bytes d)))).
  { intros Hz. unfold fd_aug. rewrite (Hrest Hz), !length_app. simpl. unfold b. u64_eq. }
  assert (Hstart : ∀ x, (d.(fd_sized) = false → u64 (fd_lsda_addr a d + Z.of_nat (length (fd_aug d))) = x) →
    (if d.(fd_sized) then if d.(fd_sized) then u64 (fd_lsda_addr a d + Z.of_nat (length (fd_aug d)))
                          else 0 else x) = u64 (fd_lsda_addr a d + Z.of_nat (length (fd_aug d)))).
  { intros x Hx. destruct (fd_sized d); [done|]. by rewrite Hx. }
  unfold fd_abi_bytes, fde_cie in *. destruct (fd_abi d) as [[abi tag]|].
  - destruct Habi as [Hab Htag]. rewrite bool_decide_eq_true_2 by done.
    apply bytes_at_app in Hm as [H1 H2]; [|apply u64_range].
    rewrite (reads_u16 m b abi Hab (u64_range _) H1), (reads_u16 m _ tag Htag (u64_range _) H2).
    change (sized_augmentation (set_tag tag (set_abi abi dci))) with (sized_augmentation dci).
    rewrite Ms, Hstart; [reflexivity|]. intros ->%Hend. rewrite length_app. u64_eq.
  - rewrite bool_decide_eq_false_2 by (intros [? ?]; done). cbv beta iota.
    rewrite Ms, Hstart; [reflexivity|]. intros ->%Hend. simpl.
    by rewrite Z.add_0_r, u64_small by apply u64_range.
Qed.

Lemma fde_unwind_info_stop m dci addr aug_end fde_end (s : fde_state P) t p :
  pool_alloc s.(fx_pool) = (Stop t, p) →
  ∃ s', fde_unwind_info m dci addr aug_end fde_end s = (Stop t, s').
Proof. intros Hp. unfold fde_unwind_info. mred. cbn [fx_pool on_pi]. rewrite Hp. eauto. Qed.

(** The extraction up to the unwind information, the CIE being parsed already. *)
Lemma extract_reduces m fuel d dci (s : fde_state P) start lsda_ :
  let a := s.(fx_addrp) in
  fde_encodable d → d.(fd_cie_offset) ≠ 0 → fde_matches d dci → is_u64 a →
  bytes_at m a (fde_bytes d) →
  parse_cie fuel m (u64 (a + 4 - d.(fd_cie_offset))) s.(fx_pi) zero_cie_info 0 = Ok dci →
  pe_value m d.(fd_format) d.(fd_app) d.(fd_ind) d.(fd_start) s.(fx_pi) (u64 (a + 8)) = Ok start →
  pe_item_value m d.(fd_lsda)
    (fde_pi d start s.(fx_pi).(lsda) dci.(handler) s.(fx_pi)) (fd_lsda_addr a d) = Ok lsda_ →
  bytes_at m (fd_lsda_addr a d) (fd_aug d) ∧
  ∀ need, dwarf_extract_proc_info_from_fde fuel m need 0 s =
    let s' := FdeState (u64 (a + 4 + Z.of_nat (length (fde_body d))))
                (fde_pi d start lsda_ dci.(handler) s.(fx_pi)) s.(fx_pool) in
    if need then
      fde_unwind_info m dci (u64 (fd_lsda_addr a d + Z.of_nat (length (pe_item_bytes d.(fd_lsda)))))
        (if d.(fd_sized) then u64 (fd_lsda_addr a d + Z.of_nat (length (fd_aug d))) else 0)
        (u64 (a + 4 + Z.of_nat (length (fde_body d)))) s'
    else (Ok tt, s').
Proof.
  intros a He Hoff Hmt Ha Hm Hc Hs Hls.
  pose proof Hm as Hm'. unfold fde_bytes, fde_body in Hm'.
  apply bytes_at_app in Hm' as [_ Hm']; [|done].
  apply bytes_at_app in Hm' as [_ Hm']; [|apply u64_range].
  apply bytes_at_app in Hm' as [Hm' _]; [|apply u64_range].
  rewrite !length_le_bytes in Hm'.
  replace (u64 (u64 (a + Z.of_nat 4) + Z.of_nat 4)) with (u64 (a + 8)) in Hm' by u64_eq.
  split.
  { unfold fd_prefix in Hm'. rewrite !app_assoc in Hm'.
    apply bytes_at_app in Hm' as [_ Hm']; [|apply u64_range].
    replace (fd_lsda_addr a d) with (u64 (u64 (a + 8) +
      Z.of_nat (length ((pe_bytes (fd_format d) (fd_start d) ++
        pe_bytes (fd_format d) (fd_range d)) ++ fd_size d)))); [done|].
    unfold fd_lsda_addr. rewrite !length_app. u64_eq. }
  intros need. unfold dwarf_extract_proc_info_from_fde. mred. fold a.
  rewrite (fde_header_spec m 0 a d He Ha Hm).
  replace (is_cie_id (u64 (fd_cie_offset d)) (negb (0 =? 0))) with false.
  2: { symmetry. apply Z.eqb_neq. destruct He as [Ho _]. unfold u64. dlia. }
  cbn [negb Z.eqb]. cbn [set_fx_addrp fx_pi fx_pool]. rewrite Hc.
  rewrite (fde_ranges_spec m dci a d _ start lsda_) by done.
  by destruct need.
Qed.
End extract_spec.

Lemma extract_at_cie (P : Type) `(PoolOps P) (m : memory) (fuel : nat) (need : bool)
    (len : Z) (s : fde_state P) :
  let a := s.(fx_addrp) in
  is_u64 a → 0 ≤ len < 0xffffffff → bytes_at m a (le_bytes 4 len ++ le_bytes 4 0) →
  dwarf_extract_proc_info_from_fde fuel m need 0 s =
    if len =? 0 then (Err UNW_ENOINFO, s) else (Ok tt, set_fx_addrp (u64 (a + 4 + len)) s).
Proof.
  intros a Ha Hl Hm. apply bytes_at_app in Hm as [H1 H2]; [|done].
  unfold dwarf_extract_proc_info_from_fde, fde_header. mred. fold a.
  assert (Hl' : 0 ≤ len < 4294967296) by lia.
  rewrite (reads_u32 m a len Hl' Ha H1), (proj2 (Z.eqb_neq len 0xffffffff)) by lia. cbn [negb].
  destruct (Z.eqb_spec len 0) as [->|Hz]; [done|].
  rewrite (reads_s32 m _ 0) by (exact H2 || apply u64_range || lia). simpl.
  do 2 f_equal. u64_eq.
Qed.

(** ** Examples *)

Definition example_items : list aug_item :=
  [Aug_personality DW_EH_PE_sdata4 DW_EH_PE_pcrel true 0x1fee; Aug_lsda 0x1b; Aug_fde 0x1b].

(** A CIE for procedures with a personality routine, as GCC writes it. *)
Definition example_cie : cie_desc :=
  item_cie 1 1 (-8) 16 true example_items [] [] [0x0c; 7; 8; 0x90; 1; 0; 0].

Definition example_fde : fde_desc :=
  FdeDesc 0x24 DW_EH_PE_sdata4 DW_EH_PE_pcrel false 0x100 0x40 true
    (PeItem DW_EH_PE_sdata4 DW_EH_PE_pcrel false 0x200) None [] [0x41; 0x0e; 16; 0x86; 2; 0; 0].

(** The CIE at [0x1000], the FDE at [0x1020], and the word the personality
    routine is reached through at [0x3001]. *)
Definition example_eh_frame : memory :=
  put_bytes (put_bytes (put_bytes ∅ 0x1000 (cie_bytes 0 example_cie))
    0x1020 (fde_bytes example_fde)) 0x3001 (le_bytes 8 0x7777).

Definition example_fde_state : fde_state bump :=
  FdeState 0x1020 zero_proc_info (Bump 0x9000).

(** ** Properties *)

(** The parser recovers from the bytes of a CIE the fields it was encoded
    from: the alignment factors, the return-address column, the encodings, the
    personality routine and the signal-frame mark that the augmentation names,
    and the bounds of the initial instructions. *)
Lemma parse_cie_encoded (m : memory) (base v ca da col : Z) (sized : bool)
    (items : list aug_item) (instrs : list Z) (a : Z) (pi : unw_proc_info_t)
    (dci dci' : dwarf_cie_info_t) (fuel : nat) :
  let d := item_cie v ca da col sized items [] [] instrs in
  cie_encodable base d → Forall aug_encodable items →
  ((if sized then 1 else 0) + length items ≤ 4)%nat → dci.(sized_augmentation) = false →
  is_u64 a → bytes_at m a (cie_bytes base d) → (length d.(cd_augstr) < fuel)%nat →
  sem_cie m pi a base items d dci = Ok dci' →
  parse_cie fuel m a pi dci base = Ok dci'.
Proof. intros d He Hi Hl Hz Ha Hb Hf. apply parse_cie_items; auto. Qed.

Lemma parse_cie_encoded_witness :
  match parse_cie 10 example_eh_frame 0x1000 zero_proc_info zero_cie_info 0 with
  | Ok dci => dci.(handler) = 0x7777 ∧ dci.(cie_instr_start) = 0x1019 ∧
              dci.(cie_instr_end) = 0x1020 ∧ dci.(data_align) = u64 (-8)
  | _ => False
  end.
Proof.
  rewrite (parse_cie_encoded example_eh_frame 0 1 1 (-8) 16 true example_items
    [0x0c; 7; 8; 0x90; 1; 0; 0] 0x1000 zero_proc_info zero_cie_info
    (CieInfo 0x1019 0x1020 0 0 1 (u64 (-8)) 16 0x7777 0 0 0x1b 0x1b true false false) 10).
  - split; [reflexivity|]. split; [reflexivity|]. split; reflexivity.
  - decided.
  - decided.
  - simpl. lia.
  - reflexivity.
  - decided.
  - decided.
  - simpl. lia.
  - vm_compute. reflexivity.
Defined.

(** C8. From the bytes of an FDE and of its CIE the extraction recovers the
    procedure: its range, its handler and data, and a new object of the pool
    holding the CIE's fields and the bounds of the FDE's instructions; the pointer
    moves to the end of the entry. *)
Theorem extract_proc_info_encoded (P : Type) `(PoolLaws P) (live : gset Z) (m : memory)
    (fuel : nat) (v ca da col : Z) (items : list aug_item) (instrs : list Z)
    (d : fde_desc) (dci : dwarf_cie_info_t) (s : fde_state P) (start lsda_ : Z) :
  let a := s.(fx_addrp) in
  let c := item_cie v ca da col d.(fd_sized) items [] [] instrs in
  let cie_addr := u64 (a + 4 - d.(fd_cie_offset)) in
  (* the CIE *)
  cie_encodable 0 c → Forall aug_encodable items →
  ((if d.(fd_sized) then 1 else 0) + length items ≤ 4)%nat →
  bytes_at m cie_addr (cie_bytes 0 c) → (length c.(cd_augstr) < fuel)%nat →
  sem_cie m s.(fx_pi) cie_addr 0 items c zero_cie_info = Ok dci →
  (* the FDE *)
  fde_encodable d → d.(fd_cie_offset) ≠ 0 → fde_matches d dci → is_u64 a →
  bytes_at m a (fde_bytes d) →
  pe_value m d.(fd_format) d.(fd_app) d.(fd_ind) d.(fd_start) s.(fx_pi) (u64 (a + 8)) = Ok start →
  pe_item_value m d.(fd_lsda)
    (fde_pi d start s.(fx_pi).(lsda) dci.(handler) s.(fx_pi)) (fd_lsda_addr a d) = Ok lsda_ →
  pool_ok s.(fx_pool) live →
  match dwarf_extract_proc_info_from_fde fuel m true 0 s with
  | (Ok _, s') => ∃ obj, obj ∉ live ∧ pool_ok s'.(fx_pool) ({[obj]} ∪ live) ∧
      s'.(fx_addrp) = u64 (a + 4 + Z.of_nat (length (fde_body d))) ∧
      s'.(fx_pi) = with_unwind_info obj (fde_cie a d dci)
                     (fde_pi d start lsda_ dci.(handler) s.(fx_pi))
  | (Err _, _) => False
  | (Stop t, _) => t = Panic
  end.
Proof.
  intros a c cie_addr Hc Hi Hl Hcb Hf Hs He Hoff Hmt Ha Hm Hst Hls Hp.
  assert (Hcie : parse_cie fuel m cie_addr s.(fx_pi) zero_cie_info 0 = Ok dci).
  { eapply (parse_cie_items m 0 v ca da col (fd_sized d) items [] [] instrs);
      auto; apply u64_range. }
  destruct (extract_reduces m fuel d dci s start lsda_) as [Haug E]; try done.
  rewrite (E true). clear E. cbn zeta. fold a.
  match goal with |- context [fde_unwind_info m dci _ _ _ ?x] => set (s' := x) end.
  pose proof (pool_alloc_ok s'.(fx_pool) live Hp) as Hal.
  destruct (pool_alloc s'.(fx_pool)) as [[obj|e|t] p] eqn:E; [|done|].
  - destruct Hal as (Hobj & Hnew & Hp').
    rewrite (fde_unwind_info_spec m dci a d s' obj p) by done.
    exists obj. by split_and!.
  - subst t. destruct (fde_unwind_info_stop m dci
      (u64 (fd_lsda_addr a d + Z.of_nat (length (pe_item_bytes d.(fd_lsda)))))
      (if d.(fd_sized) then u64 (fd_lsda_addr a d + Z.of_nat (length (fd_aug d))) else 0)
      (u64 (a + 4 + Z.of_nat (length (fde_body d)))) s' Panic p E) as [s1 ->].
    done.
Qed.

Lemma extract_proc_info_encoded_witness :
  match dwarf_extract_proc_info_from_fde 10 example_eh_frame true 0 example_fde_state with
  | (Ok _, s') => s'.(fx_pi).(start_ip) = 0x1128 ∧ s'.(fx_pi).(end_ip) = 0x1168 ∧
                  s'.(fx_pi).(lsda) = 0x1231 ∧ s'.(fx_pi).(pi_handler) = 0x7777
  | _ => False
  end.
Proof.
  pose proof (extract_proc_info_encoded bump bump_laws ∅ example_eh_frame 10 1 1 (-8) 16
    example_items [0x0c; 7; 8; 0x90; 1; 0; 0] example_fde
    (CieInfo 0x1019 0x1020 0 0 1 (u64 (-8)) 16 0x7777 0 0 0x1b 0x1b true false false)
    example_fde_state 0x1128 0x1231) as H.
  assert (Hr : is_Some (match fst (dwarf_extract_proc_info_from_fde 10 example_eh_frame true 0
    example_fde_state) with Ok x => Some x | _ => None end))
    by (vm_compute; eexists; reflexivity).
  destruct (dwarf_extract_proc_info_from_fde _ _ _ _ _) as [[x|e|t] s'];
    [|destruct Hr; discriminate..].
  destruct H as (obj & _ & _ & _ & Hpi).
  - decided.
  - decided.
  - simpl; lia.
  - decided.
  - simpl; lia.
  - vm_compute. reflexivity.
  - decided.
  - discriminate.
  - repeat split; vm_compute; reflexivity.
  - decided.
  - decided.
  - vm_compute. reflexivity.
  - vm_compute. reflexivity.
  - apply bump_start. lia.
  - rewrite Hpi. vm_compute. repeat split; reflexivity.
Defined.

(** At an augmentation character it does not know the parser of a sized
    augmentation stops, but the size it read is not used: the initial
    instructions are taken to start inside the augmentation data that follow the
    items understood. *)
Lemma unknown_augmentation_not_skipped (m : memory) (base v ca da col c : Z)
    (items : list aug_item) (more extra instrs : list Z) (a : Z) (pi : unw_proc_info_t)
    (dci' : dwarf_cie_info_t) (fuel : nat) :
  let d := item_cie v ca da col true items (c :: more) extra instrs in
  cie_encodable base d → Forall aug_encodable items → (length items ≤ 2)%nat → aug_unknown c →
  is_u64 a → bytes_at m a (cie_bytes base d) → (length d.(cd_augstr) < fuel)%nat →
  sem_cie m pi a base items d zero_cie_info = Ok dci' →
  parse_cie fuel m a pi zero_cie_info base = Ok dci' ∧
  dci'.(cie_instr_start) = u64 (cie_aug_addr a base d + Z.of_nat (length (aug_bytes items))).
Proof.
  intros d He Hi Hl Hc Ha Hb Hf Hs. split.
  - eapply (parse_cie_items m base v ca da col true items (c :: more) extra instrs); try done.
    + lia.
    + right. split; [done|]. by right.
  - revert Hs. unfold sem_cie. mred. destruct (sem_aug _ _ _ _ _) as [[? ?]| |]; [|done..].
    by intros [= <-].
Qed.

Definition example_eh_cie : cie_desc :=
  item_cie 1 1 (-8) 16 true [Aug_fde 0x1b] [0x42] [0xaa; 0xbb] [0x0c; 7; 8].

(** The augmentation [zRB]: two bytes of data are left over and become the first
    instructions. *)
Lemma unknown_augmentation_not_skipped_witness :
  match parse_cie 10 (put_bytes ∅ 0x1000 (cie_bytes 0 example_eh_cie)) 0x1000 zero_proc_info
          zero_cie_info 0 with
  | Ok dci => load 1 (put_bytes ∅ 0x1000 (cie_bytes 0 example_eh_cie)) dci.(cie_instr_start) = Ok 0xaa
  | _ => False
  end.
Proof.
  assert (Hs : ∃ dci', sem_cie (put_bytes ∅ 0x1000 (cie_bytes 0 example_eh_cie)) zero_proc_info 0x1000 0
    [Aug_fde 0x1b] example_eh_cie zero_cie_info = Ok dci') by (eexists; vm_compute; reflexivity).
  destruct Hs as [dci' Hs].
  destruct (unknown_augmentation_not_skipped (put_bytes ∅ 0x1000 (cie_bytes 0 example_eh_cie))
    0 1 1 (-8) 16 0x42 [Aug_fde 0x1b] [] [0xaa; 0xbb] [0x0c; 7; 8] 0x1000 zero_proc_info dci' 10)
    as [E Hi].
  - decided.
  - decided.
  - simpl; lia.
  - repeat split; discriminate.
  - decided.
  - decided.
  - simpl; lia.
  - exact Hs.
  - rewrite E, Hi. vm_compute. reflexivity.
Defined.
