(* ===== verification/Cursor.v ===== *)
(** * Cursors: registers and memory seen through a cursor

    The accessors of the local address space ([Ginit.c]), the inline
    [dwarf_get] and [dwarf_put] of [include/tdep-x86_64/libunwind_i.h], the
    register interface ([Gregs.c], [Gget_reg.c], [Gset_reg.c],
    [Gget_save_loc.c]) and the initialisation of a cursor ([init.h],
    [Ginit_local.c]).  The last argument [w] of an accessor is [None] for a
    read and [Some v] for a write of [v] (the [write] flag and [*val]). *)
From S2P Require Export Defs.

(** ** Validated addresses *)

(** The amd64 page size. *)
Definition PAGE_SIZE : Z := 4096.

(** [src/Ginit.c:67-67], [PAGE_START] *)
Definition PAGE_START (a : Z) : Z := Z.land a (u64 (- PAGE_SIZE)).

(** [src/Ginit.c:106-106], [NLGA] *)
Definition NLGA : nat := 4.

(** [HAVE_MINCORE] is not defined, so [mem_validate_func] is this function.
    [src/Ginit.c:70-73], [msync_validate] *)
Definition msync_validate (addr len : Z) : Z := 0.

(** The search for a free slot, starting at [victim]: [Some] of the slots with
    [addr] stored, or [None] and the slot where the search ended.
    [src/Ginit.c:135-142], [validate_mem] *)
Fixpoint lga_free_slot (i : nat) (lga : list Z) (victim addr : Z)
    : res (option (list Z) * Z) :=
  match i with
  | O => Ok (None, victim)
  | S i' =>
      x ← aread lga victim;
      if x =? 0 then lga' ← awrite lga victim addr; Ok (Some lga', victim)
      else lga_free_slot i' lga (Z.rem (victim + 1) (Z.of_nat NLGA)) addr
  end.

(** [src/Ginit.c:110-150], [validate_mem] *)
Definition validate_mem (addr : Z) : M machine Z :=
  let len := if PAGE_START (u64 (addr + 8 - 1)) =? PAGE_START addr
             then PAGE_SIZE else PAGE_SIZE * 2 in
  let addr := PAGE_START addr in
  if addr =? 0 then mret (-1)
  else
    s ← get_st;
    if existsb (λ x, negb (x =? 0) && (addr =? x)) (firstn NLGA s.(last_good_addr))
    then mret 0
    else if msync_validate addr len =? -1 then mret (-1)
    else
      r ← lift (lga_free_slot NLGA s.(last_good_addr) s.(lga_victim) addr);
      match r with
      | (Some lga, _) => mod_st (set_last_good_addr lga);; mret 0
      | (None, victim) =>
          lga ← lift (awrite s.(last_good_addr) victim addr);
          mod_st (λ s, set_lga_victim (Z.rem (victim + 1) (Z.of_nat NLGA))
                         (set_last_good_addr lga s));;
          mret 0
      end.

(** Run a routine of the machine in the state of a cursor. *)
Definition on_mach {A} (f : M machine A) : M ustate A := λ s,
  let '(r, mc) := f s.(mach) in (r, set_mach mc s).

(** ** Accessors *)

(** A direct load or store of a word, [*(unw_word_t * ) addr]. *)
Definition load_word (addr : Z) : M ustate Z := λ s, (load 8 s.(mach).(mem) addr, s).

Definition store_word (addr v : Z) : M ustate () := λ s,
  match store 8 s.(mach).(mem) addr v with
  | Ok m => (Ok tt, set_mach (set_mem m s.(mach)) s)
  | Err e => (Err e, s)
  | Stop t => (Stop t, s)
  end.

(** A failed validation returns [-1], the code of [-UNW_EUNSPEC].
    [src/Ginit.c:152-172], [access_mem] *)
Definition access_mem (addr : Z) (w : option Z) : M ustate Z :=
  match w with
  | Some v => store_word addr v;; mret v
  | None =>
      s ← get_st;
      bad ← (if s.(cur).(validate) then on_mach (validate_mem addr) else mret 0);
      if negb (bad =? 0) then fail UNW_EUNSPEC else load_word addr
  end.

(** [src/Gos-freebsd.c:155-185], [x86_64_r_uc_addr] *)
Definition x86_64_r_uc_addr (uc reg : Z) : Z :=
  match regnum_of_Z reg with
  | Some r => match uc_mcontext_gregs r with Some off => u64 (uc + off) | None => 0 end
  | None => 0
  end.

(** [src/is_fpreg.c:30-34], [unw_is_fpreg] *)
Definition unw_is_fpreg (regnum : Z) : bool := false.

(** [src/Ginit.c:174-202], [access_reg] *)
Definition access_reg (reg : Z) (w : option Z) : M ustate Z :=
  s ← get_st;
  if unw_is_fpreg reg then fail UNW_EBADREG
  else
    let addr := x86_64_r_uc_addr s.(cur).(uc) reg in
    if addr =? 0 then fail UNW_EBADREG
    else match w with
         | Some v => store_word addr v;; mret v
         | None => load_word addr
         end.

(** There is no floating-point register, so every access fails before the
    value is touched.  [src/Ginit.c:204-235], [access_fpreg] *)
Definition access_fpreg (reg : Z) : M ustate () :=
  if negb (unw_is_fpreg reg) then fail UNW_EBADREG
  else
    s ← get_st;
    if x86_64_r_uc_addr s.(cur).(uc) reg =? 0 then fail UNW_EBADREG
    else halt Undef.

(** [src/include/tdep-x86_64/libunwind_i.h:105-105], [DWARF_IS_NULL_LOC] *)
Definition DWARF_IS_NULL_LOC (l : Z) : bool := l =? 0.

(** [src/include/tdep-x86_64/libunwind_i.h:107-107], [DWARF_IS_REG_LOC] *)
Definition DWARF_IS_REG_LOC (l : Z) : bool := false.

(** [src/include/tdep-x86_64/libunwind_i.h:108-109], [DWARF_REG_LOC] *)
Definition DWARF_REG_LOC (c : cursor) (r : Z) : Z := x86_64_r_uc_addr c.(uc) r.

(** [src/include/tdep-x86_64/libunwind_i.h:130-137], [dwarf_getfp] *)
Definition dwarf_getfp (l : Z) : M ustate () :=
  if DWARF_IS_NULL_LOC l then fail UNW_EBADREG else halt Panic.

(** [src/include/tdep-x86_64/libunwind_i.h:139-146], [dwarf_putfp] *)
Definition dwarf_putfp (l : Z) : M ustate () :=
  if DWARF_IS_NULL_LOC l then fail UNW_EBADREG else halt Panic.

(** [src/include/tdep-x86_64/libunwind_i.h:148-161], [dwarf_get] *)
Definition dwarf_get (l : Z) : M ustate Z :=
  if DWARF_IS_NULL_LOC l then fail UNW_EBADREG
  else if DWARF_IS_REG_LOC l then access_reg l None
  else access_mem l None.

(** [src/include/tdep-x86_64/libunwind_i.h:163-175], [dwarf_put] *)
Definition dwarf_put (l v : Z) : M ustate Z :=
  if DWARF_IS_NULL_LOC l then fail UNW_EBADREG
  else if DWARF_IS_REG_LOC l then access_reg l (Some v)
  else access_mem l (Some v).

(** ** The register interface *)

(** [c->dwarf.loc[i]] *)
Definition get_loc (i : Z) : M ustate Z :=
  s ← get_st; lift (aread s.(cur).(dwarf).(loc) i).

(** [c->dwarf.loc[i] = l] *)
Definition put_loc (i l : Z) : M ustate () :=
  s ← get_st;
  ls ← lift (awrite s.(cur).(dwarf).(loc) i l);
  mod_st (on_dwarf (set_loc ls)).

(** The final read or write of the location a register was found at.
    [src/Gregs.c:127-130], [tdep_access_reg] *)
Definition access_loc (l : Z) (w : option Z) : M ustate Z :=
  match w with Some v => dwarf_put l v | None => dwarf_get l end.

(** [src/Gregs.c:88-105], [tdep_access_reg] *)
Definition access_eh_reg (arg_num column : Z) (w : option Z) : M ustate Z :=
  s ← get_st;
  let d := s.(cur).(dwarf) in
  let mask := Z.shiftl 1 arg_num in
  match w with
  | Some v =>
      args ← lift (awrite d.(eh_args) arg_num v);
      mod_st (on_dwarf (λ d, set_eh_valid_mask (Z.lor d.(eh_valid_mask) mask)
                               (set_eh_args args d)));;
      mret v
  | None =>
      if negb (Z.land d.(eh_valid_mask) mask =? 0) then lift (aread d.(eh_args) arg_num)
      else l ← get_loc column; access_loc l None
  end.

(** [src/Gregs.c:64-131], [tdep_access_reg] *)
Definition tdep_access_reg (reg : Z) (w : option Z) : M ustate Z :=
  match regnum_of_Z reg with
  | Some UNW_X86_64_RIP =>
      match w with Some v => mod_st (on_dwarf (set_ip v)) | None => mret tt end;;
      l ← get_loc RIP; access_loc l w
  | Some UNW_X86_64_CFA | Some UNW_X86_64_RSP =>
      match w with
      | Some _ => fail UNW_EREADONLYREG
      | None => s ← get_st; mret s.(cur).(dwarf).(cfa)
      end
  | Some UNW_X86_64_RAX => access_eh_reg 0 RAX w
  | Some UNW_X86_64_RDX => access_eh_reg 1 RDX w
  | Some _ => l ← get_loc reg; access_loc l w
  | None => fail UNW_EBADREG
  end.

(** [src/Gregs.c:133-138], [tdep_access_fpreg] *)
Definition tdep_access_fpreg (reg : Z) : M ustate () := fail UNW_EBADREG.

(** [src/Gget_reg.c:28-41], [unw_get_reg] *)
Definition unw_get_reg (regnum : Z) : M ustate Z :=
  if regnum =? UNW_REG_IP then s ← get_st; mret s.(cur).(dwarf).(ip)
  else tdep_access_reg regnum None.

(** [src/Gset_reg.c:28-34], [unw_set_reg] *)
Definition unw_set_reg (regnum v : Z) : M ustate () :=
  tdep_access_reg regnum (Some v);; mret tt.

(** [src/Gget_fpreg.c:28-34], [unw_get_fpreg] *)
Definition unw_get_fpreg (regnum : Z) : M ustate () := tdep_access_fpreg regnum.

(** [src/Gset_fpreg.c:28-34], [unw_set_fpreg] *)
Definition unw_set_fpreg (regnum : Z) : M ustate () := tdep_access_fpreg regnum.

(** [src/include/libunwind-common.h:182-201], [unw_save_loc] *)
Inductive unw_save_loc_t :=
  | UNW_SLT_NONE
  | UNW_SLT_MEMORY (addr : Z)
  | UNW_SLT_REG (regnum : Z).

(** [src/Gget_save_loc.c:30-73], [unw_get_save_loc] *)
Definition unw_get_save_loc (reg : Z) : M ustate unw_save_loc_t :=
  l ← match regnum_of_Z reg with
      | Some (UNW_X86_64_RBX | UNW_X86_64_RSP | UNW_X86_64_RBP | UNW_X86_64_R12
             | UNW_X86_64_R13 | UNW_X86_64_R14 | UNW_X86_64_R15) => get_loc reg
      | _ => mret 0
      end;
  mret (if DWARF_IS_NULL_LOC l then UNW_SLT_NONE else UNW_SLT_MEMORY l).

#[global] Arguments x86_64_r_uc_addr : simpl never.

(** ** Initialisation *)

(** The save locations of a fresh cursor: the fields of the machine context.
    [src/init.h:42-58], [common_init] *)
Definition init_locs (uc : Z) : list Z :=
  map (λ i, x86_64_r_uc_addr uc (Z.of_nat i)) (seq 0 (Z.to_nat DWARF_NUM_PRESERVED_REGS)).

(** The fields the routine does not mention keep whatever the caller's
    storage holds.  [src/init.h:37-82], [common_init] *)
Definition common_init (use_prev_instr : bool) : M ustate () :=
  s ← get_st;
  mod_st (on_dwarf (set_loc (init_locs s.(cur).(uc))));;
  l ← get_loc RIP;
  ip ← dwarf_get l;
  mod_st (on_dwarf (set_ip ip));;
  cfa ← dwarf_get (DWARF_REG_LOC s.(cur) RSP);
  mod_st (on_dwarf (set_cfa cfa));;
  mod_st (λ s, set_cur (set_sigcontext_addr 0
                 (set_sigcontext_format X86_64_SCF_NONE s.(cur))) s);;
  mod_st (on_dwarf (λ d,
    set_prev_rs 0 (set_hint 0 (set_pi_is_dynamic false (set_pi_valid false
      (set_use_prev_instr use_prev_instr (set_stash_frames false
        (set_ret_addr_column RIP (set_args_size 0 d))))))))).

(** The library is initialised before ([tdep_init]).
    [src/Ginit_local.c:34-51], [unw_init_local] *)
Definition unw_init_local (uc_addr : Z) : M ustate () :=
  mod_st (λ s, let c := s.(cur) in
    set_cur (Cursor c.(dwarf) c.(frame_info) c.(sigcontext_format)
               c.(sigcontext_addr) false uc_addr) s);;
  common_init true.

(** ** The cache of validated addresses *)

Definition lga_ok (mc : machine) : Prop :=
  length mc.(last_good_addr) = NLGA ∧ 0 ≤ mc.(lga_victim) < Z.of_nat NLGA.

#[export] Instance lga_ok_dec mc : Decision (lga_ok mc).
Proof. unfold lga_ok. apply _. Defined.

Lemma lga_free_slot_spec i lga v addr :
  length lga = NLGA → 0 ≤ v < Z.of_nat NLGA →
  ∃ o v', lga_free_slot i lga v addr = Ok (o, v') ∧ 0 ≤ v' < Z.of_nat NLGA ∧
    (∀ lga', o = Some lga' → length lga' = NLGA ∧ addr ∈ lga').
Proof.
  revert v. induction i as [|i IH]; intros v Hl Hv; [by exists None, v|].
  cbn [lga_free_slot]. destruct (aread_Ok lga v) as (x & -> & Hx); [lia|]. mred.
  case_match.
  - rewrite awrite_Ok by lia. eexists (Some _), v. split_and!; [done|lia|lia|].
    intros ? [= <-]. rewrite length_insert. split; [done|].
    apply list_elem_of_lookup. exists (Z.to_nat v). apply list_lookup_insert_eq. lia.
  - apply IH; [done|]. unfold NLGA in *.
    rewrite Z.rem_mod_nonneg by lia. apply Z.mod_pos_bound. lia.
Qed.

Lemma validate_mem_cases addr mc :
  lga_ok mc →
  (PAGE_START addr = 0 ∧ validate_mem addr mc = (Ok (-1), mc)) ∨
  (PAGE_START addr ≠ 0 ∧ ∃ mc', validate_mem addr mc = (Ok 0, mc') ∧ lga_ok mc' ∧
     mc'.(mem) = mc.(mem) ∧ PAGE_START addr ∈ mc'.(last_good_addr)).
Proof.
  intros [Hl Hv]. unfold validate_mem. mred.
  destruct (Z.eqb_spec (PAGE_START addr) 0); [by left|right]. split; [done|].
  destruct (existsb _ _) eqn:He.
  - exists mc. split_and!; [done|done|done|].
    apply existsb_exists in He as (x & Hin & Hx). apply andb_prop in Hx as [_ Hx].
    apply Z.eqb_eq in Hx as ->. apply list_elem_of_In. revert Hin.
    rewrite firstn_all2 by lia. done.
  - destruct (lga_free_slot_spec NLGA mc.(last_good_addr) mc.(lga_victim) (PAGE_START addr))
      as (o & v' & -> & Hv' & Ho); [done|done|]. simpl.
    destruct o as [lga'|].
    + destruct (Ho _ eq_refl). eexists. split_and!; [done|done|done|done].
    + rewrite awrite_Ok by lia. eexists. split_and!; [done|split| |]; simpl; [| |done|].
      * by rewrite length_insert.
      * unfold NLGA in *. rewrite Z.rem_mod_nonneg by lia. apply Z.mod_pos_bound. lia.
      * apply list_elem_of_lookup. exists (Z.to_nat v'). apply list_lookup_insert_eq. lia.
Qed.

(** ** Save locations *)

Lemma init_locs_read uc i :
  0 ≤ i < 17 → aread (init_locs uc) i = Ok (x86_64_r_uc_addr uc i).
Proof.
  intros Hi. rewrite <- (Z2Nat.id i) by lia. apply aread_lookup.
  unfold init_locs. rewrite list_lookup_fmap, lookup_seq_lt; [done|].
  unfold DWARF_NUM_PRESERVED_REGS. lia.
Qed.

(** The context lies in one piece of the address space, away from null. *)
Definition context_ok (uc : Z) : Prop := 0 ≤ uc ∧ uc + 0xd0 < 18446744073709551616.

Lemma greg_offset reg :
  0 ≤ reg < 17 → ∃ r off, regnum_of_Z reg = Some r ∧ uc_mcontext_gregs r = Some off ∧
                          0x18 ≤ off ≤ 0xc8.
Proof.
  intros Hr. rewrite <- (Z2Nat.id reg) by lia.
  assert (Z.to_nat reg < 17)%nat as Hn by lia. revert Hn. generalize (Z.to_nat reg).
  intros n Hn. do 17 (destruct n as [|n]; [do 2 eexists; split_and!; [reflexivity|reflexivity|lia|lia]|]).
  lia.
Qed.

Lemma r_uc_addr_range uc reg :
  context_ok uc → 0 ≤ reg < 17 →
  is_u64 (x86_64_r_uc_addr uc reg) ∧ x86_64_r_uc_addr uc reg ≠ 0 ∧
  uc ≤ x86_64_r_uc_addr uc reg < uc + 0xd0.
Proof.
  intros [Hu1 Hu2] Hr. destruct (greg_offset reg Hr) as (r & off & H1 & H2 & H3).
  unfold x86_64_r_uc_addr. rewrite H1, H2, u64_small by (unfold is_u64; lia).
  unfold is_u64. lia.
Qed.

(** Reading a location with validation off is a load of the word. *)
Lemma dwarf_get_load l s :
  l ≠ 0 → s.(cur).(validate) = false →
  dwarf_get l s = (load 8 s.(mach).(mem) l, s).
Proof.
  intros Hl Hv. unfold dwarf_get, DWARF_IS_NULL_LOC, DWARF_IS_REG_LOC, access_mem.
  destruct (Z.eqb_spec l 0); [done|]. mred. by rewrite Hv.
Qed.

(** The machine words of the context are mapped and hold [regs]. *)
Definition context_holds (m : memory) (uc : Z) (regs : Z → Z) : Prop :=
  ∀ reg, 0 ≤ reg < 17 → load 8 m (x86_64_r_uc_addr uc reg) = Ok (regs reg).

Lemma unw_init_local_spec s uca regs :
  context_ok uca → context_holds s.(mach).(mem) uca regs →
  ∃ s', unw_init_local uca s = (Ok tt, s') ∧
    s'.(mach) = s.(mach) ∧
    s'.(cur).(uc) = uca ∧ s'.(cur).(validate) = false ∧
    s'.(cur).(dwarf).(loc) = init_locs uca ∧
    s'.(cur).(dwarf).(ip) = regs RIP ∧ s'.(cur).(dwarf).(cfa) = regs RSP ∧
    s'.(cur).(dwarf).(eh_args) = s.(cur).(dwarf).(eh_args) ∧
    s'.(cur).(dwarf).(eh_valid_mask) = s.(cur).(dwarf).(eh_valid_mask) ∧
    s'.(cur).(dwarf).(ret_addr_column) = RIP ∧
    s'.(cur).(dwarf).(use_prev_instr) = true ∧
    s'.(cur).(dwarf).(pi_valid) = false.
Proof.
  intros Hu Hc. unfold unw_init_local, common_init, get_loc. mred.
  change (aread _ RIP) with (aread (init_locs uca) RIP).
  rewrite init_locs_read by (unfold RIP; lia).
  rewrite dwarf_get_load; [|apply r_uc_addr_range; [done|unfold RIP; lia]|done].
  simpl. rewrite (Hc RIP) by (unfold RIP; lia).
  rewrite dwarf_get_load; [|apply r_uc_addr_range; [done|unfold RSP; lia]|done].
  simpl. unfold DWARF_REG_LOC. simpl. rewrite (Hc RSP) by (unfold RSP; lia).
  eexists. split; [done|]. simpl. done.
Qed.

(** Every register but the two argument registers reads back from the context. *)
Lemma get_reg_loc reg s :
  0 ≤ reg < 17 → reg ≠ RIP → reg ≠ RSP → reg ≠ RAX → reg ≠ RDX →
  unw_get_reg reg s = (l ← get_loc reg; access_loc l None) s.
Proof.
  unfold RIP, RSP, RAX, RDX. intros H ? ? ? ?. unfold unw_get_reg, UNW_REG_IP.
  destruct (Z.eqb_spec reg 16); [done|].
  assert (reg = 2 ∨ reg = 3 ∨ reg = 4 ∨ reg = 5 ∨ reg = 6 ∨ reg = 8 ∨ reg = 9 ∨
          reg = 10 ∨ reg = 11 ∨ reg = 12 ∨ reg = 13 ∨ reg = 14 ∨ reg = 15) by lia.
  intuition (subst; reflexivity).
Qed.

(** The bit of [eh_valid_mask] for an argument register. *)
Lemma mask_bit x n :
  0 ≤ n → negb (Z.land x (Z.shiftl 1 n) =? 0) = Z.testbit x n.
Proof.
  intros Hn. rewrite Z.shiftl_1_l. destruct (Z.testbit x n) eqn:E.
  - apply negb_true_iff, Z.eqb_neq. intros H.
    assert (Z.testbit (Z.land x (2 ^ n)) n = false) as H' by (rewrite H; apply Z.bits_0).
    rewrite Z.land_spec, E, Z.pow2_bits_true in H' by done. done.
  - apply negb_false_iff, Z.eqb_eq. apply Z.bits_inj'. intros i Hi.
    rewrite Z.land_spec, Z.pow2_bits_eqb, Z.bits_0 by done.
    destruct (Z.eqb_spec n i) as [<-|]; [by rewrite E|apply andb_false_r].
Qed.

(** What a register reads as, with validation off. *)
Definition reg_value (s : ustate) (reg : Z) : res Z :=
  let d := s.(cur).(dwarf) in
  let saved :=
    l ← aread d.(loc) reg;
    if l =? 0 then Err UNW_EBADREG else load 8 s.(mach).(mem) l in
  if reg =? RIP then Ok d.(ip)
  else if reg =? RSP then Ok d.(cfa)
  else if (reg =? RAX) && Z.testbit d.(eh_valid_mask) 0 then aread d.(eh_args) 0
  else if (reg =? RDX) && Z.testbit d.(eh_valid_mask) 1 then aread d.(eh_args) 1
  else saved.

Lemma get_saved s reg :
  s.(cur).(validate) = false →
  (l ← get_loc reg; access_loc l None) s =
  (l ← aread s.(cur).(dwarf).(loc) reg;
   if l =? 0 then Err UNW_EBADREG else load 8 s.(mach).(mem) l, s).
Proof.
  intros Hv. unfold get_loc, access_loc. mred. destruct (aread _ reg) as [l| |]; [|done..].
  destruct (Z.eqb_spec l 0) as [->|]; [done|]. by rewrite dwarf_get_load.
Qed.

Lemma unw_get_reg_value s reg :
  s.(cur).(validate) = false → 0 ≤ reg < 17 → unw_get_reg reg s = (reg_value s reg, s).
Proof.
  intros Hv Hr. unfold reg_value.
  destruct (Z.eqb_spec reg RIP) as [->|]; [done|].
  destruct (Z.eqb_spec reg RSP) as [->|]; [done|].
  destruct (Z.eqb_spec reg RAX) as [->|]; [|destruct (Z.eqb_spec reg RDX) as [->|]].
  - change (unw_get_reg RAX s) with (access_eh_reg 0 RAX None s). unfold access_eh_reg. mred.
    rewrite mask_bit by lia. cbn [andb]. destruct (Z.testbit _ 0); [done|].
    by apply (get_saved s RAX).
  - change (unw_get_reg RDX s) with (access_eh_reg 1 RDX None s). unfold access_eh_reg. mred.
    rewrite mask_bit by lia. cbn [andb]. destruct (Z.testbit _ 1); [done|].
    by apply (get_saved s RDX).
  - rewrite get_reg_loc by done. by apply get_saved.
Qed.

(** The state a successful write of a register leaves. *)
Definition reg_write (s : ustate) (reg v : Z) : res ustate :=
  let d := s.(cur).(dwarf) in
  let eh n :=
    args ← awrite d.(eh_args) n v;
    Ok (on_dwarf (λ d, set_eh_valid_mask (Z.lor d.(eh_valid_mask) (Z.shiftl 1 n))
                         (set_eh_args args d)) s) in
  let saved s :=
    l ← aread d.(loc) reg;
    if l =? 0 then Err UNW_EBADREG
    else m ← store 8 s.(mach).(mem) l v; Ok (set_mach (set_mem m s.(mach)) s) in
  if reg =? RSP then Err UNW_EREADONLYREG
  else if reg =? RAX then eh 0
  else if reg =? RDX then eh 1
  else if reg =? RIP then saved (on_dwarf (set_ip v) s)
  else saved s.

Lemma put_saved s reg v s' :
  (l ← get_loc reg; access_loc l (Some v)) s = (Ok v, s') →
  (l ← aread s.(cur).(dwarf).(loc) reg;
   if l =? 0 then Err UNW_EBADREG
   else m ← store 8 s.(mach).(mem) l v; Ok (set_mach (set_mem m s.(mach)) s)) = Ok s'.
Proof.
  unfold get_loc, access_loc, dwarf_put, DWARF_IS_NULL_LOC, DWARF_IS_REG_LOC. mred.
  destruct (aread _ reg) as [l| |]; [|done..]. destruct (l =? 0); [done|].
  unfold access_mem, store_word. mred.
  destruct (store _ _ _ _); [|done..]. by intros [= <-].
Qed.

Lemma access_reg_loc reg v s :
  0 ≤ reg < 17 → reg ≠ RIP → reg ≠ RSP → reg ≠ RAX → reg ≠ RDX →
  tdep_access_reg reg (Some v) s = (l ← get_loc reg; access_loc l (Some v)) s.
Proof.
  unfold RIP, RSP, RAX, RDX. intros H ? ? ? ?.
  assert (reg = 2 ∨ reg = 3 ∨ reg = 4 ∨ reg = 5 ∨ reg = 6 ∨ reg = 8 ∨ reg = 9 ∨
          reg = 10 ∨ reg = 11 ∨ reg = 12 ∨ reg = 13 ∨ reg = 14 ∨ reg = 15) by lia.
  intuition (subst; reflexivity).
Qed.

Lemma access_loc_value l v s r s' : access_loc l (Some v) s = (Ok r, s') → r = v.
Proof.
  unfold access_loc, dwarf_put, access_mem, store_word. mred.
  destruct (DWARF_IS_NULL_LOC l); [done|]. unfold DWARF_IS_REG_LOC. mred.
  destruct (store _ _ _ _); [|done..]. by intros [= <- _].
Qed.

Lemma unw_set_reg_write s s' reg v :
  0 ≤ reg < 17 → unw_set_reg reg v s = (Ok tt, s') → reg_write s reg v = Ok s'.
Proof.
  intros Hr Hs.
  assert (∃ x, tdep_access_reg reg (Some v) s = (Ok x, s')) as [x Hx].
  { revert Hs. unfold unw_set_reg. mred.
    destruct (tdep_access_reg reg (Some v) s) as [[x| |] s1]; [|done..].
    intros [= <-]. eauto. }
  clear Hs. unfold reg_write.
  assert (Hp : ∀ c s0 x, (l ← get_loc c; access_loc l (Some v)) s0 = (Ok x, s') →
    (l ← get_loc c; access_loc l (Some v)) s0 = (Ok v, s')).
  { intros c s0 y H. rewrite H. revert H. mred.
    destruct (get_loc c s0) as [[l| |] s1]; [|done..]. by intros ->%access_loc_value. }
  destruct (Z.eqb_spec reg RSP) as [->|]; [done|].
  destruct (Z.eqb_spec reg RAX) as [->|]; [|destruct (Z.eqb_spec reg RDX) as [->|]].
  1: change (tdep_access_reg RAX (Some v) s) with (access_eh_reg 0 RAX (Some v) s) in Hx.
  2: change (tdep_access_reg RDX (Some v) s) with (access_eh_reg 1 RDX (Some v) s) in Hx.
  1-2: revert Hx; unfold access_eh_reg; mred; destruct (awrite _ _ _); [|done..];
    by intros [= _ <-].
  destruct (Z.eqb_spec reg RIP) as [->|].
  - change (tdep_access_reg RIP (Some v) s) with
      ((l ← get_loc RIP; access_loc l (Some v)) (on_dwarf (set_ip v) s)) in Hx.
    apply Hp, put_saved in Hx. exact Hx.
  - rewrite access_reg_loc in Hx by done. by apply Hp, put_saved in Hx.
Qed.

(** The ways a write of a register succeeds. *)
Lemma reg_write_inv s s' reg v :
  0 ≤ reg < 17 → reg_write s reg v = Ok s' →
  let d := s.(cur).(dwarf) in
  (∃ n args, (reg = RAX ∧ n = 0 ∨ reg = RDX ∧ n = 1) ∧ awrite d.(eh_args) n v = Ok args ∧
     s' = on_dwarf (λ d, set_eh_valid_mask (Z.lor d.(eh_valid_mask) (Z.shiftl 1 n))
                           (set_eh_args args d)) s) ∨
  (reg ≠ RAX ∧ reg ≠ RDX ∧ reg ≠ RSP ∧
   ∃ l m, aread d.(loc) reg = Ok l ∧ l ≠ 0 ∧ store 8 s.(mach).(mem) l v = Ok m ∧
     s' = set_mach (set_mem m s.(mach)) (if reg =? RIP then on_dwarf (set_ip v) s else s)).
Proof.
  intros Hr. unfold reg_write. cbn zeta. mred.
  destruct (Z.eqb_spec reg RSP) as [->|]; [done|].
  destruct (Z.eqb_spec reg RAX) as [->|].
  { destruct (awrite _ _ _) eqn:E; [|done..]. intros [= <-]. left. eexists 0, _. eauto. }
  destruct (Z.eqb_spec reg RDX) as [->|].
  { destruct (awrite _ _ _) eqn:E; [|done..]. intros [= <-]. left. eexists 1, _. eauto. }
  intros H. right. do 3 (split; [done|]).
  destruct (reg =? RIP); simpl in H;
    destruct (aread _ reg) as [l| |] eqn:E; try done;
    (destruct (Z.eqb_spec l 0); [done|]); destruct (store _ _ _ _) as [m| |] eqn:E';
    try done; injection H as <-; by exists l, m.
Qed.

Lemma reg_write_validate s s' reg v :
  0 ≤ reg < 17 → reg_write s reg v = Ok s' → s'.(cur).(validate) = s.(cur).(validate).
Proof.
  intros Hr [(n & args & _ & _ & ->)|(_ & _ & _ & l & m & _ & _ & _ & ->)]%reg_write_inv;
    [done| |done]. by destruct (reg =? RIP).
Qed.

Lemma reg_value_written s s' reg v :
  0 ≤ reg < 17 → is_u64 v → Forall is_u64 s.(cur).(dwarf).(loc) →
  reg_write s reg v = Ok s' → reg_value s' reg = Ok v.
Proof.
  intros Hr Hv Hl [(n & args & Hn & Ha & ->)|(? & ? & ? & l & m & Hal & Hl0 & Hs & ->)]%reg_write_inv;
    [..|done].
  - apply aread_awrite in Ha. unfold reg_value. simpl.
    destruct Hn as [[-> ->]|[-> ->]]; simpl;
      rewrite Z.lor_spec, orb_true_r; exact Ha.
  - unfold reg_value. simpl. destruct (Z.eqb_spec reg RIP) as [->|]; [done|]. simpl.
    destruct (Z.eqb_spec reg RSP), (Z.eqb_spec reg RAX), (Z.eqb_spec reg RDX); try done.
    simpl. rewrite Hal. mred. destruct (Z.eqb_spec l 0); [done|].
    rewrite (load_store_same _ _ _ _ Hs) by (by eapply aread_Forall). by rewrite u64_small.
Qed.

Lemma reg_value_other s s' reg v reg' l l' :
  0 ≤ reg < 17 → 0 ≤ reg' < 17 → reg' ≠ reg → Forall is_u64 s.(cur).(dwarf).(loc) →
  aread s.(cur).(dwarf).(loc) reg = Ok l → aread s.(cur).(dwarf).(loc) reg' = Ok l' →
  disjoint_words l' l →
  reg_write s reg v = Ok s' → reg_value s' reg' = reg_value s reg'.
Proof.
  intros Hr Hr' Hne Hl Hal Hal' Hd
    [(n & args & Hn & Ha & ->)|(? & ? & ? & l0 & m & Hal0 & Hl0 & Hs & ->)]%reg_write_inv;
    [..|done].
  - unfold reg_value. simpl. clear Hal Hal'.
    destruct Hn as [[-> ->]|[-> ->]].
    + rewrite (proj2 (Z.eqb_neq reg' RAX) Hne). simpl.
      rewrite (aread_awrite_ne _ _ _ _ _ Ha) by done.
      by rewrite Z.lor_spec, orb_false_r.
    + rewrite (proj2 (Z.eqb_neq reg' RDX) Hne). simpl.
      rewrite (aread_awrite_ne _ _ _ _ _ Ha) by done.
      by rewrite Z.lor_spec, orb_false_r.
  - rewrite Hal in Hal0. injection Hal0 as <-. unfold reg_value.
    replace (cur (set_mach _ _)) with (cur (if reg =? RIP then on_dwarf (set_ip v) s else s)) by done.
    assert (Hload : load 8 m l' = load 8 s.(mach).(mem) l').
    { eapply load_store_disjoint; eauto; by eapply (aread_Forall is_u64). }
    destruct (Z.eqb_spec reg RIP) as [->|]; simpl;
      rewrite ?Hal', ?(proj2 (Z.eqb_neq reg' RIP) Hne); mred; by rewrite Hload.
Qed.

(** ** An example machine

    A machine context at [0x10000] whose register [i] holds [100 + i], and a
    cursor in zeroed storage. *)
Definition example_context : Z := 0x10000.

Definition example_mem : memory :=
  foldr (λ i m, put_bytes m (x86_64_r_uc_addr example_context (Z.of_nat i))
                  (le_bytes 8 (100 + Z.of_nat i))) ∅ (seq 0 17).

Definition zero_cursor (eh_mask : Z) : cursor :=
  Cursor (DwarfCursor 0 0 0 0 [0; 0] eh_mask (replicate 17 0) false false false false
            zero_proc_info 0 0)
    (TdepFrame 0 0 0 0 0 0 0) X86_64_SCF_NONE 0 false example_context.

Definition example_state (eh_mask : Z) : ustate :=
  UState (Machine example_mem [0; 0; 0; 0] 0) (zero_cursor eh_mask).

Lemma example_context_holds : context_holds example_mem example_context (λ r, 100 + r).
Proof.
  intros reg Hr. rewrite <- (Z2Nat.id reg) by lia.
  assert (Hn : Z.to_nat reg ∈ seq 0 17) by (apply elem_of_seq; lia).
  assert (Hall : Forall (λ n, load 8 example_mem (x86_64_r_uc_addr example_context (Z.of_nat n))
                              = Ok (100 + Z.of_nat n)) (seq 0 17)).
  { repeat (constructor; [vm_compute; reflexivity|]). constructor. }
  by eapply Forall_forall in Hall.
Qed.

Definition example_cursor : ustate := snd (unw_init_local example_context (example_state 0)).

Lemma disjoint_words_apart a b :
  is_u64 a → is_u64 b → a + 8 ≤ b → b + 8 ≤ 18446744073709551616 → disjoint_words a b.
Proof.
  unfold disjoint_words, is_u64, u64. intros ???? i j ??.
  rewrite !Z.mod_small by lia. lia.
Qed.

(** ** Properties *)

(** The validation cache keeps its shape and leaves memory alone; an address
    in the zero page is always refused, and any other address is accepted and its
    page recorded. *)
Lemma validate_mem_spec (addr : Z) (mc : machine) :
  lga_ok mc →
  ∃ mc', lga_ok mc' ∧ mc'.(mem) = mc.(mem) ∧
    (PAGE_START addr = 0 → validate_mem addr mc = (Ok (-1), mc')) ∧
    (PAGE_START addr ≠ 0 → validate_mem addr mc = (Ok 0, mc') ∧
       PAGE_START addr ∈ mc'.(last_good_addr)).
Proof.
  intros H. destruct (validate_mem_cases addr mc H) as [[E ->]|(E & mc' & -> & ? & ? & ?)].
  - exists mc. by split_and!.
  - exists mc'. by split_and!.
Qed.

Lemma validate_mem_spec_witness :
  lga_ok (Machine ∅ [0x5000; 0x6000; 0x7000; 0x8000] 3) ∧
  validate_mem 0x9008 (Machine ∅ [0x5000; 0x6000; 0x7000; 0x8000] 3)
  = (Ok 0, Machine ∅ [0x5000; 0x6000; 0x7000; 0x9000] 0).
Proof.
  destruct (validate_mem_spec 0x9008 (Machine ∅ [0x5000; 0x6000; 0x7000; 0x8000] 3))
    as (mc' & _ & _ & _ & H); [decided|].
  split; [decided|vm_compute; reflexivity].
Defined.

(** C15. After a register has been set through a cursor, reading it gives the
    value, and every other register reads as before unless its save location
    overlaps that of the register written. *)
Theorem set_reg_get_reg (s s' : ustate) (reg v : Z) :
  s.(cur).(validate) = false → 0 ≤ reg < 17 → is_u64 v →
  Forall is_u64 s.(cur).(dwarf).(loc) →
  unw_set_reg reg v s = (Ok tt, s') →
  (unw_get_reg reg s').1 = Ok v ∧
  (∀ reg' l l', 0 ≤ reg' < 17 → reg' ≠ reg →
     aread s.(cur).(dwarf).(loc) reg = Ok l →
     aread s.(cur).(dwarf).(loc) reg' = Ok l' → disjoint_words l' l →
     (unw_get_reg reg' s').1 = (unw_get_reg reg' s).1).
Proof.
  intros Hv Hr Hu Hl Hs. apply unw_set_reg_write in Hs; [|done].
  assert (Hv' : s'.(cur).(validate) = false) by (by apply reg_write_validate in Hs as ->).
  rewrite (unw_get_reg_value s') by done. split; [by eapply reg_value_written|].
  intros reg' l l' Hr' Hne Hl1 Hl2 Hd. rewrite !unw_get_reg_value by done.
  by apply (reg_value_other s s' reg v reg' l l').
Qed.

Lemma set_reg_get_reg_witness :
  let s' := snd (unw_set_reg RBX 7 example_cursor) in
  (unw_get_reg RBX s').1 = Ok 7 ∧ (unw_get_reg R10 s').1 = Ok 110.
Proof.
  intros s'.
  assert (E : unw_set_reg RBX 7 example_cursor = (Ok tt, s')).
  { rewrite (surjective_pairing (unw_set_reg _ _ _)). f_equal. }
  destruct (set_reg_get_reg example_cursor s' RBX 7) as [H1 H2];
    [vm_compute; reflexivity|unfold RBX; lia|decided|decided|exact E|].
  split; [exact H1|].
  rewrite (H2 R10 0x10050 0x10060);
    [vm_compute; reflexivity|unfold R10; lia|done|vm_compute; reflexivity..|].
  intros i j Hi Hj. unfold u64. rewrite !Z.mod_small by lia. lia.
Defined.

(** C16. A cursor initialised from a machine context, in storage whose
    argument mask is clear, reads every one of the seventeen registers as the
    context holds it. *)
Theorem init_local_reads_context (uca : Z) (regs : Z → Z) (s : ustate) :
  context_ok uca → context_holds s.(mach).(mem) uca regs →
  s.(cur).(dwarf).(eh_valid_mask) = 0 →
  ∃ s', unw_init_local uca s = (Ok tt, s') ∧
    ∀ reg, 0 ≤ reg < 17 → unw_get_reg reg s' = (Ok (regs reg), s').
Proof.
  intros Hu Hc Hm.
  destruct (unw_init_local_spec s uca regs Hu Hc)
    as (s' & Hi & Hmach & _ & Hv & Hloc & Hip & Hcfa & Heh & Hmask & _).
  exists s'. split; [done|]. intros reg Hr. rewrite unw_get_reg_value by done.
  f_equal. unfold reg_value. rewrite Hip, Hcfa, Hmask, Hm, Hloc, Hmach, init_locs_read by done.
  destruct (Z.eqb_spec reg RIP) as [->|]; [done|].
  destruct (Z.eqb_spec reg RSP) as [->|]; [done|].
  rewrite !Z.bits_0, !andb_false_r. mred.
  destruct (r_uc_addr_range uca reg Hu Hr) as (_ & ?%Z.eqb_neq & _).
  rewrite H. by apply Hc.
Qed.

Lemma init_local_reads_context_witness :
  ∃ s', unw_init_local example_context (example_state 0) = (Ok tt, s') ∧
    unw_get_reg RBX s' = (Ok 103, s').
Proof.
  destruct (init_local_reads_context example_context (λ r, 100 + r) (example_state 0))
    as (s' & H & Hr).
  - unfold context_ok, example_context. lia.
  - exact example_context_holds.
  - reflexivity.
  - exists s'. split; [exact H|]. apply (Hr RBX). unfold RBX. lia.
Defined.

(** Initialisation does not clear the argument mask: in storage where bit 0
    of the mask happens to be set, the accumulator reads as whatever the stale
    argument slot holds and not as the context's register. *)
Lemma init_local_stale_eh_args (uca : Z) (regs : Z → Z) (s : ustate) :
  context_ok uca → context_holds s.(mach).(mem) uca regs →
  Z.testbit s.(cur).(dwarf).(eh_valid_mask) 0 = true →
  ∃ s', unw_init_local uca s = (Ok tt, s') ∧
    (unw_get_reg RAX s').1 = aread s.(cur).(dwarf).(eh_args) 0.
Proof.
  intros Hu Hc Hm.
  destruct (unw_init_local_spec s uca regs Hu Hc)
    as (s' & Hi & Hmach & _ & Hv & Hloc & Hip & Hcfa & Heh & Hmask & _).
  exists s'. split; [done|]. rewrite unw_get_reg_value by (done || unfold RAX; lia).
  unfold reg_value. cbn. by rewrite Hmask, Hm, Heh.
Qed.

Lemma init_local_stale_eh_args_witness :
  ∃ s', unw_init_local example_context (example_state 1) = (Ok tt, s') ∧
    (unw_get_reg RAX s').1 = Ok 0.
Proof.
  apply (init_local_stale_eh_args example_context (λ r, 100 + r) (example_state 1)).
  - unfold context_ok, example_context. lia.
  - exact example_context_holds.
  - reflexivity.
Defined.
