(* ===== verification/Expr.v ===== *)
(** * DWARF expressions

    The evaluator of [Gexpr.c]: the table of operand signatures, the operand
    reader, the stack of 64 words and one definition per group of operators,
    composed by the loop of [dwarf_eval_expr].  The stack is an array whose
    slots start uninitialised ([None]); reading such a slot would be undefined
    behaviour.  The second half gives the evaluator's specification on a plain
    list as stack, and proves that the array implements it. *)
From S2P Require Export Leb128 Cursor.

(** ** Opcodes *)

(** The three families carry their index; [DW_OP_unknown] stands for the byte
    values the enumeration does not name.
    [src/include/dwarf.h:43-125], [dwarf_expr_op_t] *)
Inductive dwarf_expr_op_t :=
  | DW_OP_addr | DW_OP_deref
  | DW_OP_const1u | DW_OP_const1s | DW_OP_const2u | DW_OP_const2s
  | DW_OP_const4u | DW_OP_const4s | DW_OP_const8u | DW_OP_const8s
  | DW_OP_constu | DW_OP_consts
  | DW_OP_dup | DW_OP_drop | DW_OP_over | DW_OP_pick | DW_OP_swap | DW_OP_rot
  | DW_OP_xderef | DW_OP_abs | DW_OP_and | DW_OP_div | DW_OP_minus | DW_OP_mod
  | DW_OP_mul | DW_OP_neg | DW_OP_not | DW_OP_or | DW_OP_plus | DW_OP_plus_uconst
  | DW_OP_shl | DW_OP_shr | DW_OP_shra | DW_OP_xor
  | DW_OP_bra | DW_OP_eq | DW_OP_ge | DW_OP_gt | DW_OP_le | DW_OP_lt | DW_OP_ne
  | DW_OP_skip
  | DW_OP_lit (n : Z) | DW_OP_reg (n : Z) | DW_OP_breg (n : Z)
  | DW_OP_regx | DW_OP_fbreg | DW_OP_bregx | DW_OP_piece
  | DW_OP_deref_size | DW_OP_xderef_size | DW_OP_nop | DW_OP_push_object_address
  | DW_OP_call2 | DW_OP_call4 | DW_OP_call_ref
  | DW_OP_lo_user | DW_OP_hi_user
  | DW_OP_unknown.

#[export] Instance dwarf_expr_op_eq_dec : EqDecision dwarf_expr_op_t.
Proof. solve_decision. Defined.

(** The enumerator of a byte, the cast [(dwarf_expr_op_t) opcode].
    [src/include/dwarf.h:43-125], [dwarf_expr_op_t] *)
Definition expr_op_of_byte (b : Z) : dwarf_expr_op_t :=
  if (0x30 <=? b) && (b <=? 0x4f) then DW_OP_lit (b - 0x30)
  else if (0x50 <=? b) && (b <=? 0x6f) then DW_OP_reg (b - 0x50)
  else if (0x70 <=? b) && (b <=? 0x8f) then DW_OP_breg (b - 0x70)
  else match b with
  | 0x03 => DW_OP_addr | 0x06 => DW_OP_deref
  | 0x08 => DW_OP_const1u | 0x09 => DW_OP_const1s
  | 0x0a => DW_OP_const2u | 0x0b => DW_OP_const2s
  | 0x0c => DW_OP_const4u | 0x0d => DW_OP_const4s
  | 0x0e => DW_OP_const8u | 0x0f => DW_OP_const8s
  | 0x10 => DW_OP_constu | 0x11 => DW_OP_consts
  | 0x12 => DW_OP_dup | 0x13 => DW_OP_drop | 0x14 => DW_OP_over
  | 0x15 => DW_OP_pick | 0x16 => DW_OP_swap | 0x17 => DW_OP_rot
  | 0x18 => DW_OP_xderef | 0x19 => DW_OP_abs | 0x1a => DW_OP_and
  | 0x1b => DW_OP_div | 0x1c => DW_OP_minus | 0x1d => DW_OP_mod
  | 0x1e => DW_OP_mul | 0x1f => DW_OP_neg | 0x20 => DW_OP_not
  | 0x21 => DW_OP_or | 0x22 => DW_OP_plus | 0x23 => DW_OP_plus_uconst
  | 0x24 => DW_OP_shl | 0x25 => DW_OP_shr | 0x26 => DW_OP_shra
  | 0x27 => DW_OP_xor | 0x28 => DW_OP_bra | 0x29 => DW_OP_eq
  | 0x2a => DW_OP_ge | 0x2b => DW_OP_gt | 0x2c => DW_OP_le
  | 0x2d => DW_OP_lt | 0x2e => DW_OP_ne | 0x2f => DW_OP_skip
  | 0x90 => DW_OP_regx | 0x91 => DW_OP_fbreg | 0x92 => DW_OP_bregx
  | 0x93 => DW_OP_piece | 0x94 => DW_OP_deref_size | 0x95 => DW_OP_xderef_size
  | 0x96 => DW_OP_nop | 0x97 => DW_OP_push_object_address
  | 0x98 => DW_OP_call2 | 0x99 => DW_OP_call4 | 0x9a => DW_OP_call_ref
  | 0xe0 => DW_OP_lo_user | 0xff => DW_OP_hi_user
  | _ => DW_OP_unknown
  end.

(** ** Operands *)

(** [src/Gexpr.c:29-33], [MAX_EXPR_STACK_SIZE] *)
Definition MAX_EXPR_STACK_SIZE : Z := 64.

(** [src/Gexpr.c:35-35], [NUM_OPERANDS] *)
Definition NUM_OPERANDS (signature : Z) : Z := Z.land (Z.shiftr signature 6) 0x3.
(** [src/Gexpr.c:36-36], [OPND1_TYPE] *)
Definition OPND1_TYPE (signature : Z) : Z := Z.land (Z.shiftr signature 3) 0x7.
(** [src/Gexpr.c:37-37], [OPND2_TYPE] *)
Definition OPND2_TYPE (signature : Z) : Z := Z.land (Z.shiftr signature 0) 0x7.

(** [src/Gexpr.c:39-39], [OPND_SIGNATURE] *)
Definition OPND_SIGNATURE (n t1 t2 : Z) : Z :=
  Z.lor (Z.lor (Z.shiftl n 6) (Z.shiftl t1 3)) (Z.shiftl t2 0).
(** [src/Gexpr.c:40-40], [OPND1] *)
Definition OPND1 (t1 : Z) : Z := OPND_SIGNATURE 1 t1 0.
(** [src/Gexpr.c:41-41], [OPND2] *)
Definition OPND2 (t1 t2 : Z) : Z := OPND_SIGNATURE 2 t1 t2.

(** [src/Gexpr.c:43-43], [VAL8] *)
Definition VAL8 : Z := 0.
(** [src/Gexpr.c:44-44], [VAL16] *)
Definition VAL16 : Z := 1.
(** [src/Gexpr.c:45-45], [VAL32] *)
Definition VAL32 : Z := 2.
(** [src/Gexpr.c:46-46], [VAL64] *)
Definition VAL64 : Z := 3.
(** [src/Gexpr.c:47-47], [ULEB128] *)
Definition ULEB128 : Z := 4.
(** [src/Gexpr.c:48-48], [SLEB128] *)
Definition SLEB128 : Z := 5.
(** [src/Gexpr.c:49-49], [OFFSET] *)
Definition OFFSET : Z := 6.
(** [src/Gexpr.c:50-50], [ADDR] *)
Definition ADDR : Z := 7.

(** The entries the table leaves out are zero: no operand.
    [src/Gexpr.c:52-108], [operands] *)
Definition operands (op : dwarf_expr_op_t) : Z :=
  match op with
  | DW_OP_addr => OPND1 ADDR
  | DW_OP_const1u | DW_OP_const1s => OPND1 VAL8
  | DW_OP_const2u | DW_OP_const2s => OPND1 VAL16
  | DW_OP_const4u | DW_OP_const4s => OPND1 VAL32
  | DW_OP_const8u | DW_OP_const8s => OPND1 VAL64
  | DW_OP_pick => OPND1 VAL8
  | DW_OP_plus_uconst => OPND1 ULEB128
  | DW_OP_skip | DW_OP_bra => OPND1 VAL16
  | DW_OP_breg _ => OPND1 SLEB128
  | DW_OP_regx => OPND1 ULEB128
  | DW_OP_fbreg => OPND1 SLEB128
  | DW_OP_bregx => OPND2 ULEB128 SLEB128
  | DW_OP_piece => OPND1 ULEB128
  | DW_OP_deref_size | DW_OP_xderef_size => OPND1 VAL8
  | DW_OP_call2 => OPND1 VAL16
  | DW_OP_call4 => OPND1 VAL32
  | DW_OP_call_ref => OPND1 OFFSET
  | _ => 0
  end.

(** [src/Gexpr.c:110-121], [sword] *)
Definition sword (val : Z) : res Z :=
  match dwarf_addr_size with
  | 1 => Ok (s8 val)
  | 2 => Ok (s16 val)
  | 4 => Ok (s32 val)
  | 8 => Ok (s64 val)
  | _ => Stop Panic
  end.

(** [src/Gexpr.c:123-187], [read_operand] *)
Definition read_operand (m : memory) (operand_type : Z) : M Z Z :=
  operand_type ← lift (if operand_type =? ADDR then
      match dwarf_addr_size with
      | 1 => Ok VAL8 | 2 => Ok VAL16 | 4 => Ok VAL32 | 8 => Ok VAL64
      | _ => Stop Panic
      end else Ok operand_type);
  if operand_type =? VAL8 then dwarf_readu8 m
  else if operand_type =? VAL16 then dwarf_readu16 m
  else if operand_type =? VAL32 then dwarf_readu32 m
  else if operand_type =? VAL64 then dwarf_readu64 m
  else if operand_type =? ULEB128 then dwarf_read_uleb128 m
  else if operand_type =? SLEB128 then dwarf_read_sleb128 m
  else fail UNW_EINVAL.

(** ** The evaluator's state *)

(** The local variables of the routine that live across iterations, with the
    caller's [*addr] and the machine and cursor it runs on.
    [src/Gexpr.c:193-203], [dwarf_eval_expr] *)
Record expr_state := ExprState {
  es_u : ustate;
  es_addr : Z;
  tos : Z;
  stack : list (option Z);
  operand1 : Z;
  operand2 : Z
}.

Definition set_es_u (x : ustate) (s : expr_state) : expr_state :=
  ExprState x s.(es_addr) s.(tos) s.(stack) s.(operand1) s.(operand2).
Definition set_es_addr (x : Z) (s : expr_state) : expr_state :=
  ExprState s.(es_u) x s.(tos) s.(stack) s.(operand1) s.(operand2).
Definition set_tos (x : Z) (s : expr_state) : expr_state :=
  ExprState s.(es_u) s.(es_addr) x s.(stack) s.(operand1) s.(operand2).
Definition set_stack (x : list (option Z)) (s : expr_state) : expr_state :=
  ExprState s.(es_u) s.(es_addr) s.(tos) x s.(operand1) s.(operand2).
Definition set_operand1 (x : Z) (s : expr_state) : expr_state :=
  ExprState s.(es_u) s.(es_addr) s.(tos) s.(stack) x s.(operand2).
Definition set_operand2 (x : Z) (s : expr_state) : expr_state :=
  ExprState s.(es_u) s.(es_addr) s.(tos) s.(stack) s.(operand1) x.

(** A call on the cursor. *)
Definition on_u {A} (f : M ustate A) : M expr_state A := λ s,
  let '(r, u) := f s.(es_u) in (r, set_es_u u s).

(** A reader applied to [*addr]. *)
Definition on_addr {A} (f : memory → M Z A) : M expr_state A := λ s,
  let '(r, a) := f s.(es_u).(mach).(mem) s.(es_addr) in (r, set_es_addr a s).

(** A reader applied to the address in a temporary. *)
Definition on_tmp {A} (f : memory → M Z A) (tmp : Z) : M expr_state A := λ s,
  (at_addr (f s.(es_u).(mach).(mem)) tmp, s).

(** [stack[i]] *)
Definition slot (i : Z) : M expr_state Z := λ s,
  match aread s.(stack) i with
  | Ok (Some x) => (Ok x, s)
  | Ok None => (Stop Undef, s)
  | Err e => (Err e, s)
  | Stop t => (Stop t, s)
  end.

(** [tos] is an [unsigned int].  [src/Gexpr.c:204-212], [pop] *)
Definition pop : M expr_state Z :=
  s ← get_st;
  if MAX_EXPR_STACK_SIZE <=? u32 (s.(tos) - 1) then fail UNW_EINVAL
  else mod_st (set_tos (u32 (s.(tos) - 1)));; slot (u32 (s.(tos) - 1)).

(** The argument of the macro is evaluated after the check; where it reads or
    changes [tos] it is evaluated before [tos++].
    [src/Gexpr.c:213-221], [push] *)
Definition push_of (x : M expr_state Z) : M expr_state () :=
  s ← get_st;
  if MAX_EXPR_STACK_SIZE <=? s.(tos) then fail UNW_EINVAL
  else
    v ← x;
    s ← get_st;
    st ← lift (awrite s.(stack) s.(tos) (Some v));
    mod_st (λ s, set_tos (u32 (s.(tos) + 1)) (set_stack st s)).

Definition push (x : Z) : M expr_state () := push_of (mret x).

(** [src/Gexpr.c:222-231], [pick] *)
Definition pick (n : Z) : M expr_state Z :=
  s ← get_st;
  let _index := u32 (u32 (s.(tos) - 1) - n) in
  if MAX_EXPR_STACK_SIZE <=? _index then fail UNW_EINVAL else slot _index.

(** ** The operators

    An operator either ends the evaluation with a value and the [is_register]
    flag, or goes on. *)
Inductive expr_result :=
  | Go
  | Done (val : Z) (is_register : bool).

(** [src/Gexpr.c:266-279], [dwarf_eval_expr] *)
Definition expr_lit (n : Z) : M expr_state expr_result := push n;; mret Go.

(** [src/Gexpr.c:281-308], [dwarf_eval_expr] *)
Definition expr_breg (reg offset : Z) : M expr_state expr_result :=
  r ← lift (dwarf_to_unw_regnum reg);
  tmp1 ← on_u (unw_get_reg r);
  push (u64 (tmp1 + offset));; mret Go.

(** [src/Gexpr.c:310-330], [dwarf_eval_expr] *)
Definition expr_reg (reg : Z) : M expr_state expr_result :=
  r ← lift (dwarf_to_unw_regnum reg); mret (Done r true).

(** The sign extension of the short constants is stored back in [operand1].
    [src/Gexpr.c:332-363], [dwarf_eval_expr] *)
Definition expr_const (op : dwarf_expr_op_t) : M expr_state expr_result :=
  s ← get_st;
  let extend sign mask :=
    if negb (Z.land s.(operand1) sign =? 0)
    then mod_st (set_operand1 (Z.lor s.(operand1) mask)) else mret tt in
  match op with
  | DW_OP_const1s => extend 0x80 (u64 (Z.shiftl (u64 (-1)) 8))
  | DW_OP_const2s => extend 0x8000 (u64 (Z.shiftl (u64 (-1)) 16))
  | DW_OP_const4s => extend 0x80000000 (u64 (Z.shiftl (u64 (Z.shiftl (u64 (-1)) 16)) 16))
  | _ => mret tt
  end;;
  s ← get_st; push s.(operand1);; mret Go.

(** [src/Gexpr.c:365-371], [dwarf_eval_expr] *)
Definition expr_deref : M expr_state expr_result :=
  tmp1 ← pop;
  tmp2 ← on_tmp dwarf_readw tmp1;
  push tmp2;; mret Go.

(** The host is little-endian.  [src/Gexpr.c:373-425], [dwarf_eval_expr] *)
Definition expr_deref_size : M expr_state expr_result :=
  s ← get_st;
  let operand1 := s.(operand1) in
  tmp1 ← pop;
  tmp2 ←
    (if operand1 =? 1 then on_tmp dwarf_readu8 tmp1
     else if operand1 =? 2 then on_tmp dwarf_readu16 tmp1
     else if (operand1 =? 3) || (operand1 =? 4) then
       v ← on_tmp dwarf_readu32 tmp1;
       mret (if operand1 =? 3 then Z.land v 0xffffff else v)
     else if (5 <=? operand1) && (operand1 <=? 8) then
       v ← on_tmp dwarf_readu64 tmp1;
       mret (if negb (operand1 =? 8)
             then Z.land v (u64 (Z.shiftl (u64 (-1)) (8 * operand1))) else v)
     else fail UNW_EINVAL);
  push tmp2;; mret Go.

(** [src/Gexpr.c:427-463], [dwarf_eval_expr] *)
Definition expr_stack_op (op : dwarf_expr_op_t) : M expr_state expr_result :=
  s ← get_st;
  match op with
  | DW_OP_dup => push_of (pick 0)
  | DW_OP_drop => pop;; mret tt
  | DW_OP_pick => push_of (pick s.(operand1))
  | DW_OP_over => push_of (pick 1)
  | DW_OP_swap =>
      tmp1 ← pop; tmp2 ← pop;
      push tmp1;; push tmp2
  | _ (* DW_OP_rot *) =>
      tmp1 ← pop; tmp2 ← pop; tmp3 ← pop;
      push tmp1;; push tmp3;; push tmp2
  end;; mret Go.

(** A signed division whose result is not representable is undefined. *)
Definition sdiv (x y : Z) : res Z :=
  if (x =? -9223372036854775808) && (y =? -1) then Stop Undef else Ok (Z.quot x y).

(** A shift by the width or more is undefined; a right shift of a negative
    value is arithmetic, as the compilers for this target have it. *)
Definition shift_count (n : Z) : res () := if 64 <=? n then Stop BadShift else Ok tt.

(** [tmp1] is the value popped first.  [src/Gexpr.c:465-571], [dwarf_eval_expr] *)
Definition expr_arith (op : dwarf_expr_op_t) : M expr_state expr_result :=
  s ← get_st;
  match op with
  | DW_OP_abs =>
      tmp1 ← pop;
      push (if negb (Z.land tmp1 (Z.shiftl 1 (8 * dwarf_addr_size - 1)) =? 0)
            then u64 (- tmp1) else tmp1)
  | DW_OP_and => tmp1 ← pop; tmp2 ← pop; push (Z.land tmp1 tmp2)
  | DW_OP_div =>
      tmp1 ← pop; tmp2 ← pop;
      r ← (if negb (tmp1 =? 0)
           then lift (x ← sword tmp2; y ← sword tmp1; q ← sdiv x y; Ok (u64 q))
           else mret tmp1);
      push r
  | DW_OP_minus => tmp1 ← pop; tmp2 ← pop; push (u64 (tmp2 - tmp1))
  | DW_OP_mod =>
      tmp1 ← pop; tmp2 ← pop;
      push (if negb (tmp1 =? 0) then Z.rem tmp2 tmp1 else tmp1)
  | DW_OP_mul =>
      tmp1 ← pop; tmp2 ← pop;
      push (if negb (tmp1 =? 0) then u64 (tmp2 * tmp1) else tmp1)
  | DW_OP_neg => push_of (x ← pop; mret (u64 (- x)))
  | DW_OP_not => push_of (x ← pop; mret (u64 (Z.lnot x)))
  | DW_OP_or => tmp1 ← pop; tmp2 ← pop; push (Z.lor tmp1 tmp2)
  | DW_OP_plus => tmp1 ← pop; tmp2 ← pop; push (u64 (tmp1 + tmp2))
  | DW_OP_plus_uconst => tmp1 ← pop; push (u64 (tmp1 + s.(operand1)))
  | DW_OP_shl =>
      tmp1 ← pop; tmp2 ← pop;
      push_of (lift (shift_count tmp1;; Ok (u64 (Z.shiftl tmp2 tmp1))))
  | DW_OP_shr =>
      tmp1 ← pop; tmp2 ← pop;
      push_of (lift (shift_count tmp1;; Ok (Z.shiftr tmp2 tmp1)))
  | DW_OP_shra =>
      tmp1 ← pop; tmp2 ← pop;
      push_of (lift (x ← sword tmp2; shift_count tmp1;; Ok (u64 (Z.shiftr x tmp1))))
  | _ (* DW_OP_xor *) => tmp1 ← pop; tmp2 ← pop; push (Z.lxor tmp1 tmp2)
  end;; mret Go.

(** [src/Gexpr.c:573-613], [dwarf_eval_expr] *)
Definition expr_compare (op : dwarf_expr_op_t) : M expr_state expr_result :=
  tmp1 ← pop; tmp2 ← pop;
  push_of (lift (x ← sword tmp1; y ← sword tmp2;
    Ok (b2z (match op with
             | DW_OP_le => x <=? y
             | DW_OP_ge => y <=? x
             | DW_OP_eq => x =? y
             | DW_OP_lt => x <? y
             | DW_OP_gt => y <? x
             | _ (* DW_OP_ne *) => negb (x =? y)
             end))));;
  mret Go.

(** [src/Gexpr.c:615-629], [dwarf_eval_expr] *)
Definition expr_control (op : dwarf_expr_op_t) : M expr_state expr_result :=
  s ← get_st;
  let jump := mod_st (λ s, set_es_addr (u64 (s.(es_addr) + s16 s.(operand1))) s) in
  match op with
  | DW_OP_skip => jump
  | DW_OP_bra =>
      tmp1 ← pop;
      if negb (tmp1 =? 0) then jump else mret tt
  | _ (* DW_OP_nop *) => mret tt
  end;; mret Go.

(** [src/Gexpr.c:264-642], [dwarf_eval_expr] *)
Definition expr_switch (op : dwarf_expr_op_t) : M expr_state expr_result :=
  s ← get_st;
  match op with
  | DW_OP_lit n => expr_lit n
  | DW_OP_breg n => expr_breg n s.(operand1)
  | DW_OP_bregx => expr_breg s.(operand1) s.(operand2)
  | DW_OP_reg n => expr_reg n
  | DW_OP_regx => expr_reg s.(operand1)
  | DW_OP_addr | DW_OP_const1u | DW_OP_const2u | DW_OP_const4u | DW_OP_const8u
  | DW_OP_constu | DW_OP_const8s | DW_OP_consts
  | DW_OP_const1s | DW_OP_const2s | DW_OP_const4s => expr_const op
  | DW_OP_deref => expr_deref
  | DW_OP_deref_size => expr_deref_size
  | DW_OP_dup | DW_OP_drop | DW_OP_pick | DW_OP_over | DW_OP_swap | DW_OP_rot =>
      expr_stack_op op
  | DW_OP_abs | DW_OP_and | DW_OP_div | DW_OP_minus | DW_OP_mod | DW_OP_mul
  | DW_OP_neg | DW_OP_not | DW_OP_or | DW_OP_plus | DW_OP_plus_uconst
  | DW_OP_shl | DW_OP_shr | DW_OP_shra | DW_OP_xor => expr_arith op
  | DW_OP_le | DW_OP_ge | DW_OP_eq | DW_OP_lt | DW_OP_gt | DW_OP_ne =>
      expr_compare op
  | DW_OP_skip | DW_OP_bra | DW_OP_nop => expr_control op
  | DW_OP_call2 | DW_OP_call4 | DW_OP_call_ref | DW_OP_fbreg | DW_OP_piece
  | DW_OP_push_object_address | DW_OP_xderef | DW_OP_xderef_size
  | DW_OP_lo_user | DW_OP_hi_user | DW_OP_unknown => fail UNW_EINVAL
  end.

(** Fetch the opcode and its operands.  [src/Gexpr.c:246-262], [dwarf_eval_expr] *)
Definition expr_fetch : M expr_state dwarf_expr_op_t :=
  opcode ← on_addr dwarf_readu8;
  let op := expr_op_of_byte opcode in
  let operands_signature := operands op in
  (if 0 <? NUM_OPERANDS operands_signature then
     v ← on_addr (λ m, read_operand m (OPND1_TYPE operands_signature));
     mod_st (set_operand1 v);;
     if 1 <? NUM_OPERANDS operands_signature then
       v ← on_addr (λ m, read_operand m (OPND2_TYPE operands_signature));
       mod_st (set_operand2 v)
     else mret tt
   else mret tt);;
  mret op.

(** [src/Gexpr.c:244-646], [dwarf_eval_expr] *)
Fixpoint expr_loop (fuel : nat) (end_addr : Z) : M expr_state (Z * bool) :=
  match fuel with
  | O => halt NoFuel
  | S fuel' =>
      s ← get_st;
      if s.(es_addr) <? end_addr then
        op ← expr_fetch;
        r ← expr_switch op;
        match r with
        | Done v is_register => mret (v, is_register)
        | Go => expr_loop fuel' end_addr
        end
      else v ← pop; mret (v, false)
  end.

(** The value with the [is_register] flag, and the state with the final
    [*addr].  [src/Gexpr.c:189-647], [dwarf_eval_expr] *)
Definition dwarf_eval_expr (fuel : nat) (addr len : Z) (u : ustate)
    : res (Z * bool) * expr_state :=
  (s ← get_st;
   push s.(es_u).(cur).(dwarf).(cfa);;
   expr_loop fuel (u64 (addr + len)))
    (ExprState u addr 0 (replicate (Z.to_nat MAX_EXPR_STACK_SIZE) None) 0 0).

(** ** Specification: a stack that is a list

    The head of the list is the top of the stack. *)
Definition sem_push (v : Z) (l : list Z) : res (list Z) :=
  if MAX_EXPR_STACK_SIZE <=? Z.of_nat (length l) then Err UNW_EINVAL else Ok (v :: l).

Definition sem_un (f : Z → res Z) (l : list Z) : res (list Z) :=
  match l with x :: l => v ← f x; Ok (v :: l) | [] => Err UNW_EINVAL end.

(** [f] takes the second entry and the top, in the order DWARF names them. *)
Definition sem_bin (f : Z → Z → res Z) (l : list Z) : res (list Z) :=
  match l with b :: a :: l => v ← f a b; Ok (v :: l) | _ => Err UNW_EINVAL end.

Definition sem_pick (n : nat) (l : list Z) : res (list Z) :=
  match l !! n with Some x => sem_push x l | None => Err UNW_EINVAL end.

(** Loads of a size that is not a power of two. *)
Definition sem_deref_size (m : memory) (n a : Z) : res Z :=
  match n with
  | 1 => load 1 m a | 2 => load 2 m a | 4 => load 4 m a | 8 => load 8 m a
  | 3 => v ← load 4 m a; Ok (Z.land v 0xffffff)
  | 5 | 6 | 7 => v ← load 8 m a; Ok (Z.land v (u64 (Z.shiftl (u64 (-1)) (8 * n))))
  | _ => Err UNW_EINVAL
  end.

Definition sem_shift (f : Z → Z → Z) (a n : Z) : res Z :=
  if 64 <=? n then Stop BadShift else Ok (f a n).

(** The operators that act on the stack alone, given the registers and memory
    of [u] and the operands. *)
Definition sem_op (u : ustate) (op : dwarf_expr_op_t) (o1 o2 : Z) (l : list Z)
    : res (list Z) :=
  let breg n off := r ← dwarf_to_unw_regnum n; v ← reg_value u r; sem_push (u64 (v + off)) l in
  let room k := if MAX_EXPR_STACK_SIZE <=? Z.of_nat (length l) then Err UNW_EINVAL else k in
  match op with
  | DW_OP_lit n => sem_push n l
  | DW_OP_breg n => breg n o1
  | DW_OP_bregx => breg o1 o2
  | DW_OP_addr | DW_OP_const1u | DW_OP_const2u | DW_OP_const4u | DW_OP_const8u
  | DW_OP_constu | DW_OP_const8s | DW_OP_consts => sem_push o1 l
  | DW_OP_const1s => sem_push (u64 (s8 o1)) l
  | DW_OP_const2s => sem_push (u64 (s16 o1)) l
  | DW_OP_const4s => sem_push (u64 (s32 o1)) l
  | DW_OP_deref => sem_un (load 8 u.(mach).(mem)) l
  | DW_OP_deref_size => sem_un (sem_deref_size u.(mach).(mem) o1) l
  | DW_OP_dup => sem_pick 0 l
  | DW_OP_over => sem_pick 1 l
  | DW_OP_pick => sem_pick (Z.to_nat o1) l
  | DW_OP_drop => match l with _ :: l => Ok l | [] => Err UNW_EINVAL end
  | DW_OP_swap => match l with b :: a :: l => Ok (a :: b :: l) | _ => Err UNW_EINVAL end
  | DW_OP_rot =>
      match l with c :: b :: a :: l => Ok (b :: a :: c :: l) | _ => Err UNW_EINVAL end
  | DW_OP_abs => sem_un (λ a, Ok (if Z.testbit a 63 then u64 (- a) else a)) l
  | DW_OP_neg => room (sem_un (λ a, Ok (u64 (- a))) l)
  | DW_OP_not => room (sem_un (λ a, Ok (u64 (Z.lnot a))) l)
  | DW_OP_plus_uconst => sem_un (λ a, Ok (u64 (a + o1))) l
  | DW_OP_and => sem_bin (λ a b, Ok (Z.land a b)) l
  | DW_OP_or => sem_bin (λ a b, Ok (Z.lor a b)) l
  | DW_OP_xor => sem_bin (λ a b, Ok (Z.lxor a b)) l
  | DW_OP_plus => sem_bin (λ a b, Ok (u64 (a + b))) l
  | DW_OP_minus => sem_bin (λ a b, Ok (u64 (a - b))) l
  | DW_OP_mul => sem_bin (λ a b, Ok (u64 (a * b))) l
  | DW_OP_div =>
      sem_bin (λ a b, if b =? 0 then Ok 0 else q ← sdiv (s64 a) (s64 b); Ok (u64 q)) l
  | DW_OP_mod => sem_bin (λ a b, Ok (if b =? 0 then 0 else Z.rem a b)) l
  | DW_OP_shl => sem_bin (sem_shift (λ a n, u64 (Z.shiftl a n))) l
  | DW_OP_shr => sem_bin (sem_shift Z.shiftr) l
  | DW_OP_shra => sem_bin (sem_shift (λ a n, u64 (Z.shiftr (s64 a) n))) l
  | DW_OP_eq => sem_bin (λ a b, Ok (b2z (s64 a =? s64 b))) l
  | DW_OP_ne => sem_bin (λ a b, Ok (b2z (negb (s64 a =? s64 b)))) l
  | DW_OP_le => sem_bin (λ a b, Ok (b2z (s64 b <=? s64 a))) l
  | DW_OP_lt => sem_bin (λ a b, Ok (b2z (s64 b <? s64 a))) l
  | DW_OP_ge => sem_bin (λ a b, Ok (b2z (s64 a <=? s64 b))) l
  | DW_OP_gt => sem_bin (λ a b, Ok (b2z (s64 a <? s64 b))) l
  | _ => Err UNW_EINVAL
  end.

Inductive sem_out :=
  | Next (l : list Z) (addr : Z)
  | Final (reg : Z).

Definition sem_step (u : ustate) (op : dwarf_expr_op_t) (o1 o2 addr : Z) (l : list Z)
    : res sem_out :=
  match op with
  | DW_OP_reg n => r ← dwarf_to_unw_regnum n; Ok (Final r)
  | DW_OP_regx => r ← dwarf_to_unw_regnum o1; Ok (Final r)
  | DW_OP_skip => Ok (Next l (u64 (addr + s16 o1)))
  | DW_OP_bra =>
      match l with
      | c :: l => Ok (Next l (if c =? 0 then addr else u64 (addr + s16 o1)))
      | [] => Err UNW_EINVAL
      end
  | DW_OP_nop => Ok (Next l addr)
  | _ => l' ← sem_op u op o1 o2 l; Ok (Next l' addr)
  end.

(** The range of the first operand that the operand table guarantees. *)
Definition operand_range (op : dwarf_expr_op_t) (o1 : Z) : Prop :=
  match op with
  | DW_OP_const1s | DW_OP_pick => 0 ≤ o1 < 256
  | DW_OP_const2s => 0 ≤ o1 < 65536
  | DW_OP_const4s => 0 ≤ o1 < 4294967296
  | _ => True
  end.

(** ** The array represents the list *)

Definition repr (s : expr_state) (l : list Z) : Prop :=
  length s.(stack) = 64%nat ∧ s.(tos) = Z.of_nat (length l) ∧ (length l ≤ 64)%nat ∧
  take (length l) s.(stack) = Some <$> reverse l.

(** Everything but the stack. *)
Definition same_env (s s' : expr_state) : Prop :=
  s'.(es_u) = s.(es_u) ∧ s'.(es_addr) = s.(es_addr) ∧
  s'.(operand1) = s.(operand1) ∧ s'.(operand2) = s.(operand2).

Lemma same_env_refl s : same_env s s.
Proof. done. Qed.

Lemma same_env_trans s1 s2 s3 : same_env s1 s2 → same_env s2 s3 → same_env s1 s3.
Proof. unfold same_env. intuition congruence. Qed.

Lemma u32_small x : 0 ≤ x < 4294967296 → u32 x = x.
Proof. apply Z.mod_small. Qed.

Lemma u32_neg x : -4294967232 ≤ x < 0 → 64 ≤ u32 x.
Proof. unfold u32. dlia. Qed.

Lemma repr_slot s l n x :
  repr s l → l !! n = Some x → slot (Z.of_nat (length l) - 1 - Z.of_nat n) s = (Ok x, s).
Proof.
  intros (Hl & Ht & Hm & He) Hx. pose proof (lookup_lt_Some _ _ _ Hx) as Hn.
  unfold slot.
  replace (Z.of_nat (length l) - 1 - Z.of_nat n) with (Z.of_nat (length l - 1 - n)) by lia.
  rewrite (aread_lookup _ _ (Some x)); [done|].
  rewrite <- (lookup_take_lt _ (length l)) by lia.
  rewrite He, list_lookup_fmap, reverse_lookup by lia.
  replace (length l - S (length l - 1 - n))%nat with n by lia. by rewrite Hx.
Qed.

Lemma slot_set_tos i t s : slot i (set_tos t s) = (fst (slot i s), set_tos t s).
Proof. unfold slot. simpl. by repeat case_match. Qed.

Lemma pop_cons s x l :
  repr s (x :: l) → ∃ s', pop s = (Ok x, s') ∧ repr s' l ∧ same_env s s'.
Proof.
  intros H. pose proof H as (Hl & Ht & Hm & He). cbn [length] in *.
  exists (set_tos (Z.of_nat (length l)) s). unfold pop. mred.
  rewrite Ht, u32_small, (proj2 (Z.leb_gt _ _)) by (unfold MAX_EXPR_STACK_SIZE; lia).
  pose proof (repr_slot s (x :: l) 0 x H eq_refl) as Hs. cbn [length] in Hs.
  replace (Z.of_nat (S (length l)) - 1 - Z.of_nat 0) with (Z.of_nat (length l)) in Hs by lia.
  replace (Z.of_nat (S (length l)) - 1) with (Z.of_nat (length l)) by lia.
  split_and!; [by rewrite slot_set_tos, Hs| |done]. split_and!; [done|done|lia|].
  simpl. apply (f_equal (take (length l))) in He.
  rewrite take_take, Nat.min_l in He by lia. rewrite He, reverse_cons, fmap_app.
  rewrite take_app_le by (rewrite length_fmap, length_reverse; lia).
  apply take_ge. by rewrite length_fmap, length_reverse.
Qed.

Lemma pop_nil s : repr s [] → pop s = (Err UNW_EINVAL, s).
Proof. intros (_ & Ht & _). unfold pop. mred. by rewrite Ht. Qed.

(** The assignment at the end of [push]. *)
Lemma push_of_full m s l :
  repr s l → (64 <= length l)%nat → push_of m s = (Err UNW_EINVAL, s).
Proof.
  intros (_ & Ht & Hm & _) Hf. unfold push_of. mred. rewrite Ht, (proj2 (Z.leb_le _ _)); [done|].
  unfold MAX_EXPR_STACK_SIZE. lia.
Qed.

Lemma push_of_fail m s s' r l :
  repr s l → (length l < 64)%nat → m s = (r, s') →
  match r with Ok _ => False | _ => True end →
  push_of m s = (match r with Err e => Err e | Stop t => Stop t | Ok _ => Ok tt end, s').
Proof.
  intros (_ & Ht & Hm & _) Hf Hr Hn. unfold push_of. mred.
  rewrite Ht, (proj2 (Z.leb_gt _ _)) by (unfold MAX_EXPR_STACK_SIZE; lia).
  rewrite Hr. by destruct r.
Qed.

Lemma push_of_ok m v s s1 l l1 :
  repr s l → (length l < 64)%nat → m s = (Ok v, s1) →
  repr s1 l1 → (length l1 < 64)%nat →
  ∃ s', push_of m s = (Ok tt, s') ∧ repr s' (v :: l1) ∧ same_env s1 s'.
Proof.
  intros (_ & Ht & _ & _) Hf Hr (Hl1 & Ht1 & _ & He1) Hf1. unfold push_of. mred.
  rewrite Ht, (proj2 (Z.leb_gt _ _)) by (unfold MAX_EXPR_STACK_SIZE; lia).
  rewrite Hr, Ht1, awrite_Ok by lia. eexists. split; [done|]. split; [|done].
  unfold repr. simpl. rewrite length_insert, u32_small by lia. split_and!; [done|lia|lia|].
  rewrite Nat2Z.id, (take_S_r _ _ (Some v)) by (apply list_lookup_insert_eq; lia).
  rewrite take_insert_ge by done. by rewrite He1, reverse_cons, fmap_app.
Qed.

Lemma push_ok v s l :
  repr s l → (length l < 64)%nat →
  ∃ s', push v s = (Ok tt, s') ∧ repr s' (v :: l) ∧ same_env s s'.
Proof. intros H Hl. by apply (push_of_ok _ v s s l l). Qed.

Lemma pick_some n s l x :
  repr s l → l !! n = Some x → pick (Z.of_nat n) s = (Ok x, s).
Proof.
  intros H Hx. pose proof (lookup_lt_Some _ _ _ Hx) as Hn. pose proof H as (_ & Ht & Hm & _).
  unfold pick. mred. rewrite Ht, (u32_small (_ - 1)), u32_small by lia.
  rewrite (proj2 (Z.leb_gt _ _)) by (unfold MAX_EXPR_STACK_SIZE; lia).
  by apply repr_slot.
Qed.

Lemma pick_none n s l :
  repr s l → l !! n = None → (n < 256)%nat → pick (Z.of_nat n) s = (Err UNW_EINVAL, s).
Proof.
  intros (_ & Ht & Hm & _) Hn%lookup_ge_None H256. unfold pick. mred. rewrite Ht.
  rewrite (proj2 (Z.leb_le _ _)); [done|]. unfold MAX_EXPR_STACK_SIZE.
  assert (u32 (u32 (Z.of_nat (length l) - 1) - Z.of_nat n) =
          u32 (Z.of_nat (length l) - 1 - Z.of_nat n)) as ->.
  { unfold u32. by rewrite Zminus_mod_idemp_l. }
  apply u32_neg. lia.
Qed.

(** An operator applied to the array acts as the specification on the list. *)
Definition matches (s : expr_state) (r : res expr_result * expr_state) (o : res sem_out) : Prop :=
  match o with
  | Ok (Next l a) => ∃ s', r = (Ok Go, s') ∧ repr s' l ∧ s'.(es_u) = s.(es_u) ∧ s'.(es_addr) = a
  | Ok (Final v) => ∃ s', r = (Ok (Done v true), s') ∧ s'.(es_u) = s.(es_u)
  | Err e => fst r = Err e
  | Stop t => fst r = Stop t
  end.

Lemma repr_length s l : repr s l → (length l ≤ 64)%nat.
Proof. by intros (_ & _ & ? & _). Qed.

Lemma matches_push v s s' l addr :
  repr s' l → s'.(es_u) = s.(es_u) → s'.(es_addr) = addr →
  matches s ((push v;; mret Go) s') (l' ← sem_push v l; Ok (Next l' addr)).
Proof.
  intros H Hu Ha. unfold sem_push, MAX_EXPR_STACK_SIZE.
  destruct (Z.leb_spec 64 (Z.of_nat (length l))).
  - simpl. mred. unfold push. by rewrite (push_of_full _ _ l) by (done || lia).
  - destruct (push_ok v s' l H) as (s2 & E & H2 & Hu2 & Ha2 & _); [lia|].
    exists s2. mred. rewrite E. split_and!; [done|done|congruence|congruence].
Qed.

(** One step of the stack machine in the goal. *)
Ltac stk :=
  match goal with
  | H : repr ?s (?x :: ?l) |- context [pop ?s] =>
      let s' := fresh "s" in let E := fresh "E" in
      destruct (pop_cons s x l H) as (s' & E & ? & ?); rewrite E; clear E
  | H : repr ?s [] |- context [pop ?s] => rewrite (pop_nil s H)
  | H : repr ?s ?l |- context [push ?v ?s] =>
      let s' := fresh "s" in let E := fresh "E" in
      destruct (push_ok v s l H) as (s' & E & ? & ?);
        [cbn [length] in *; lia|rewrite E; clear E]
  end; mred.

Ltac same_fields :=
  repeat match goal with H : same_env _ _ |- _ => destruct H as (? & ? & ? & ?) end;
  split_and?; congruence.

Ltac finish := first [reflexivity | eexists; split; [reflexivity|split; [eassumption|same_fields]]].

Ltac on_list l :=
  let H := fresh in
  match goal with H' : repr _ l |- _ => pose proof (repr_length _ _ H') as H end;
  destruct l as [|? [|? [|? ?]]]; cbn [length] in H; repeat stk; try finish.

(** The operands shifted, divided and compared as signed words. *)
Lemma sword_s64 v : sword v = Ok (s64 v).
Proof. reflexivity. Qed.

Lemma get_st_bind {A} (k : expr_state → M expr_state A) s : (get_st ≫= k) s = k s s.
Proof. reflexivity. Qed.

(** The computation pushes [r], or fails as [r] does. *)
Definition pushes (m : M expr_state ()) (r : res Z) : Prop :=
  ∀ s l, repr s l → (length l < 64)%nat →
  match r with
  | Ok v => ∃ s', m s = (Ok tt, s') ∧ repr s' (v :: l) ∧ same_env s s'
  | Err e => m s = (Err e, s)
  | Stop t => m s = (Stop t, s)
  end.

Lemma pushes_lift r : pushes (push_of (lift r)) r.
Proof.
  intros s l Hr Hl. destruct r as [v|e|t].
  - by apply (push_of_ok (lift (Ok v)) v s s l l).
  - by rewrite (push_of_fail _ s s (Err e) l).
  - by rewrite (push_of_fail _ s s (Stop t) l).
Qed.

Lemma pushes_push v : pushes (push v) (Ok v).
Proof. apply (pushes_lift (Ok v)). Qed.

Lemma pushes_bind (r : res Z) : pushes (v ← lift r; push v) r.
Proof.
  intros s l Hr Hl. destruct r as [v|e|t]; [|done..]. by apply (pushes_push v s l).
Qed.

Lemma pushes_ext m r r' : pushes m r' → r' = r → pushes m r.
Proof. by intros ? <-. Qed.

Lemma bin_matches (F : Z → Z → M expr_state ()) (g : Z → Z → res Z) s l :
  repr s l → (∀ a b, pushes (F b a) (g a b)) →
  matches s (((tmp1 ← pop; tmp2 ← pop; F tmp1 tmp2);; mret Go) s)
    (l' ← sem_bin g l; Ok (Next l' s.(es_addr))).
Proof.
  intros Hr HF. pose proof (repr_length _ _ Hr) as Hlen.
  destruct l as [|b [|a l]]; cbn [length] in *; mred; repeat stk; [done..|].
  specialize (HF a b s1 l ltac:(done) ltac:(lia)). simpl.
  destruct (g a b) as [v|e|t]; simpl in HF; [destruct HF as (s2 & -> & ? & ?)|rewrite HF..];
    [finish|done..].
Qed.

Lemma un_matches (F : Z → M expr_state ()) (g : Z → res Z) s l :
  repr s l → (∀ a, pushes (F a) (g a)) →
  matches s (((tmp1 ← pop; F tmp1);; mret Go) s)
    (l' ← sem_un g l; Ok (Next l' s.(es_addr))).
Proof.
  intros Hr HF. pose proof (repr_length _ _ Hr) as Hlen.
  destruct l as [|a l]; cbn [length] in *; mred; repeat stk; [done..|].
  specialize (HF a s0 l ltac:(done) ltac:(lia)). simpl.
  destruct (g a) as [v|e|t]; simpl in HF; [destruct HF as (s2 & -> & ? & ?)|rewrite HF..];
    [finish|done..].
Qed.

Lemma expr_breg_matches s l reg off :
  repr s l → s.(es_u).(cur).(validate) = false → 0 ≤ reg →
  matches s (expr_breg reg off s)
    (l' ← (r ← dwarf_to_unw_regnum reg; v ← reg_value s.(es_u) r; sem_push (u64 (v + off)) l);
     Ok (Next l' s.(es_addr))).
Proof.
  intros Hr Hv Hreg. unfold expr_breg. mred.
  destruct (dwarf_to_unw_regnum reg) as [r|e|t] eqn:E; [|done..].
  assert (0 ≤ r < 17).
  { revert E. unfold dwarf_to_unw_regnum. case_match; [|intros [= <-]; lia].
    unfold aread. case_match; [done|].
    case_match eqn:E; [|done]. intros [= <-]. revert E. apply (Forall_lookup_1 (λ z, 0 ≤ z < 17)).
    decided. }
  unfold on_u. rewrite unw_get_reg_value by done.
  replace (set_es_u (es_u s) s) with s by (by destruct s).
  destruct (reg_value s.(es_u) r) as [v| |]; [|done..].
  by apply (matches_push (u64 (v + off)) s s l).
Qed.

Lemma testbit_land x n : 0 ≤ n → negb (Z.land x (2 ^ n) =? 0) = Z.testbit x n.
Proof. intros Hn. rewrite <- Z.shiftl_1_l. by apply mask_bit. Qed.

(** Sign extension by or-ing the high bits in. *)
Lemma sign_extend w x :
  0 < w < 64 → 0 ≤ x < 2 ^ w →
  (if Z.testbit x (w - 1) then Z.lor x (u64 (- 2 ^ w)) else x) = u64 (sext w x).
Proof.
  intros Hw Hx.
  assert (H64 : 2 ^ w * 2 ^ (64 - w) = 18446744073709551616).
  { rewrite <- Z.pow_add_r by lia. by replace (w + (64 - w)) with 64 by lia. }
  assert (H1 : 2 ^ w = 2 * 2 ^ (w - 1)).
  { rewrite <- Z.pow_succ_r by lia. f_equal. lia. }
  assert (0 < 2 ^ (64 - w)) by (apply Z.pow_pos_nonneg; lia).
  assert (0 < 2 ^ (w - 1)) by (apply Z.pow_pos_nonneg; lia).
  assert (Hn : u64 (- 2 ^ w) = 2 ^ w * (2 ^ (64 - w) - 1)).
  { unfold u64. rewrite <- (Z.mod_add _ 1) by lia. rewrite Z.mod_small; nia. }
  assert (Hb : Z.testbit x (w - 1) = (2 ^ (w - 1) <=? x)).
  { apply eq_true_iff_eq. rewrite Z.leb_le, Z.testbit_true by lia.
    split; intros H'.
    - pose proof (Z.div_mod x (2 ^ (w - 1))). destruct (Z.leb_spec (2 ^ (w - 1)) x); [done|].
      rewrite Z.div_small in H' by lia. done.
    - replace (x / 2 ^ (w - 1)) with 1; [done|].
      apply (Z.div_unique x _ 1 (x - 2 ^ (w - 1))); lia. }
  rewrite Hb. unfold sext. destruct (Z.leb_spec (2 ^ (w - 1)) x).
  - rewrite Hn, Z.mul_comm, (lor_disjoint _ _ w), (Z.mul_comm _ (2 ^ w))
      by (done || lia || (apply Z.mod_mul; lia)).
    replace ((x + 2 ^ (w - 1)) mod 2 ^ w) with (x - 2 ^ (w - 1)).
    + unfold u64. apply (Z.mod_unique _ _ (-1)); nia.
    + apply (Z.mod_unique _ _ 1); lia.
  - rewrite (Z.mod_small (x + _)) by lia. rewrite u64_small; [lia|]. unfold is_u64. nia.
Qed.

Lemma expr_const_matches s l op :
  repr s l → operand_range op s.(operand1) →
  matches s (expr_const op s)
    (l' ← sem_push (match op with
                    | DW_OP_const1s => u64 (s8 s.(operand1))
                    | DW_OP_const2s => u64 (s16 s.(operand1))
                    | DW_OP_const4s => u64 (s32 s.(operand1))
                    | _ => s.(operand1)
                    end) l; Ok (Next l' s.(es_addr))).
Proof.
  intros Hr Ho.
  assert (Hext : ∀ w x, w = 8 ∨ w = 16 ∨ w = 32 → 0 ≤ x < 2 ^ w →
    (if negb (Z.land x (2 ^ (w - 1)) =? 0) then Z.lor x (u64 (- 2 ^ w)) else x) = u64 (sext w x)).
  { intros w x Hw Hx. rewrite testbit_land by lia. apply sign_extend; lia. }
  assert (Hgo : ∀ v, matches s ((push v;; mret Go) (set_operand1 v s))
    (l' ← sem_push v l; Ok (Next l' s.(es_addr)))) by (intros v; by apply matches_push).
  assert (Hgo' : ∀ v, matches s ((push v;; mret Go) s)
    (l' ← sem_push v l; Ok (Next l' s.(es_addr)))) by (intros v; by apply matches_push).
  unfold expr_const. mred.
  destruct op; try apply Hgo'.
  1: specialize (Hext 8 s.(operand1) ltac:(lia) Ho); unfold s8.
  2: specialize (Hext 16 s.(operand1) ltac:(lia) Ho); unfold s16.
  3: specialize (Hext 32 s.(operand1) ltac:(lia) Ho); unfold s32.
  all: cbn in Hext |- *; rewrite <- Hext; destruct (Z.land _ _ =? 0);
    [apply Hgo'|apply Hgo].
Qed.

Lemma expr_stack_op_matches s l op :
  repr s l → operand_range op s.(operand1) →
  match op with
  | DW_OP_dup | DW_OP_drop | DW_OP_pick | DW_OP_over | DW_OP_swap | DW_OP_rot => True
  | _ => False
  end →
  matches s (expr_stack_op op s)
    (l' ← sem_op s.(es_u) op s.(operand1) s.(operand2) l; Ok (Next l' s.(es_addr))).
Proof.
  intros Hr Ho Hop.
  assert (Hpick : ∀ n, (n < 256)%nat →
    matches s ((push_of (pick (Z.of_nat n));; mret Go) s)
      (l' ← sem_pick n l; Ok (Next l' s.(es_addr)))).
  { intros n Hn. pose proof (repr_length _ _ Hr). unfold sem_pick, sem_push, MAX_EXPR_STACK_SIZE.
    destruct (Z.leb_spec 64 (Z.of_nat (length l))).
    - mred. rewrite (push_of_full _ _ l) by (done || lia). by destruct (l !! n).
    - mred. destruct (l !! n) as [x|] eqn:E.
      + destruct (push_of_ok (pick (Z.of_nat n)) x s s l l) as (s' & -> & ? & ?);
          [done|lia|by apply (pick_some _ _ l)|done|lia|]. finish.
      + by rewrite (push_of_fail _ s s (Err UNW_EINVAL) l) by
          (done || lia || by apply (pick_none _ _ l)). }
  unfold expr_stack_op.
  destruct op; try done; simpl sem_op.
  - exact (Hpick 0%nat ltac:(lia)).
  - mred. on_list l.
  - exact (Hpick 1%nat ltac:(lia)).
  - simpl in Ho. specialize (Hpick (Z.to_nat s.(operand1)) ltac:(lia)).
    rewrite Z2Nat.id in Hpick by lia. exact Hpick.
  - mred. on_list l.
  - mred. on_list l.
Qed.

Lemma expr_arith_matches s l op :
  repr s l →
  match op with
  | DW_OP_abs | DW_OP_and | DW_OP_div | DW_OP_minus | DW_OP_mod | DW_OP_mul
  | DW_OP_neg | DW_OP_not | DW_OP_or | DW_OP_plus | DW_OP_plus_uconst
  | DW_OP_shl | DW_OP_shr | DW_OP_shra | DW_OP_xor => True
  | _ => False
  end →
  matches s (expr_arith op s)
    (l' ← sem_op s.(es_u) op s.(operand1) s.(operand2) l; Ok (Next l' s.(es_addr))).
Proof.
  intros Hr Hop.
  assert (Hneg : ∀ f : Z → Z, matches s ((push_of (x ← pop; mret (f x));; mret Go) s)
    (l' ← (if MAX_EXPR_STACK_SIZE <=? Z.of_nat (length l) then Err UNW_EINVAL
           else sem_un (λ a, Ok (f a)) l); Ok (Next l' s.(es_addr)))).
  { intros f. pose proof (repr_length _ _ Hr). unfold MAX_EXPR_STACK_SIZE.
    destruct (Z.leb_spec 64 (Z.of_nat (length l))).
    - mred. by rewrite (push_of_full _ _ l) by (done || lia).
    - destruct l as [|a l]; mred.
      + rewrite (push_of_fail _ s s (Err UNW_EINVAL) []); try (done || simpl; lia).
        mred. by rewrite pop_nil.
      + destruct (pop_cons s a l Hr) as (s' & E & ? & ?). cbn [length] in *.
        destruct (push_of_ok (x ← pop; mret (f x)) (f a) s s' (a :: l) l) as (s2 & E2 & ? & ?);
          [done|simpl; lia|mred; by rewrite E|done|simpl in *; lia|].
        mred_in E2. rewrite E2. finish. }
  unfold expr_arith. rewrite get_st_bind.
  destruct op; try done; simpl sem_op; try apply Hneg;
    first [apply bin_matches; [done|intros a b]|apply un_matches; [done|intros a]];
    try apply pushes_lift; try apply pushes_push.
  all: try (eapply pushes_ext; [apply pushes_push|f_equal]).
  all: try apply Z.land_comm || apply Z.lor_comm || apply Z.lxor_comm.
  - by rewrite <- (mask_bit a 63).
  - destruct (Z.eqb_spec b 0) as [->|].
    + apply (pushes_bind (Ok 0)).
    + apply pushes_bind.
  - by destruct (Z.eqb_spec b 0) as [->|].
  - destruct (Z.eqb_spec b 0) as [->|]; [by rewrite Z.mul_0_r|done].
  - by rewrite Z.add_comm.
  - eapply pushes_ext; [apply pushes_lift|]. unfold shift_count, sem_shift. by destruct (64 <=? b).
  - eapply pushes_ext; [apply pushes_lift|]. unfold shift_count, sem_shift. by destruct (64 <=? b).
  - eapply pushes_ext; [apply pushes_lift|]. unfold shift_count, sem_shift. simpl. by destruct (64 <=? b).
Qed.

(** A comparison [c] of the two values popped. *)
Lemma cmp_matches (c : Z → Z → bool) (g : Z → Z → bool) s l :
  repr s l → (∀ a b, c b a = g a b) →
  matches s ((tmp1 ← pop; tmp2 ← pop;
    push_of (lift (x ← sword tmp1; y ← sword tmp2; Ok (b2z (c x y))));; mret Go) s)
    (l' ← sem_bin (λ a b, Ok (b2z (g (s64 a) (s64 b)))) l; Ok (Next l' s.(es_addr))).
Proof.
  intros Hr Hc. pose proof (repr_length _ _ Hr) as Hlen.
  destruct l as [|b [|a l]]; cbn [length] in *; mred; repeat stk; [done..|].
  destruct (pushes_lift (Ok (b2z (c (s64 b) (s64 a)))) s1 l) as (s2 & E & ? & ?);
    [done|lia|].
  mred_in E. rewrite !sword_s64, E. simpl. rewrite <- Hc. finish.
Qed.

Lemma expr_compare_matches s l op :
  repr s l →
  match op with
  | DW_OP_le | DW_OP_ge | DW_OP_eq | DW_OP_lt | DW_OP_gt | DW_OP_ne => True
  | _ => False
  end →
  matches s (expr_compare op s)
    (l' ← sem_op s.(es_u) op s.(operand1) s.(operand2) l; Ok (Next l' s.(es_addr))).
Proof.
  intros Hr Hop. destruct op; try done.
  - apply (cmp_matches Z.eqb Z.eqb); [done|intros a b; apply Z.eqb_sym].
  - by apply (cmp_matches (λ x y, y <=? x) (λ a b, a <=? b)).
  - by apply (cmp_matches (λ x y, y <? x) (λ a b, a <? b)).
  - by apply (cmp_matches Z.leb (λ a b, b <=? a)).
  - by apply (cmp_matches Z.ltb (λ a b, b <? a)).
  - apply (cmp_matches (λ x y, negb (x =? y)) (λ a b, negb (a =? b))); [done|].
    intros a b. by rewrite Z.eqb_sym.
Qed.

Lemma expr_deref_matches s l :
  repr s l →
  matches s (expr_deref s)
    (l' ← sem_un (load 8 s.(es_u).(mach).(mem)) l; Ok (Next l' s.(es_addr))).
Proof.
  intros Hr. pose proof (repr_length _ _ Hr). unfold expr_deref, on_tmp.
  destruct l as [|a l]; cbn [length] in *; mred; repeat stk; [done|].
  replace (s0.(es_u)) with s.(es_u) by same_fields.
  unfold at_addr, dwarf_readw, dwarf_readu64, read_value. simpl.
  destruct (load 8 _ a) as [v| |] eqn:E; simpl; [|done..].
  apply load_range in E. rewrite (u64_small v) by (unfold is_u64; lia).
  stk. finish.
Qed.

Lemma on_tmp_load n conv a m s :
  m = s.(es_u).(mach).(mem) → (∀ v, 0 ≤ v < 256 ^ Z.of_nat n → conv v = v) →
  on_tmp (read_value n conv) a s = (load n m a, s).
Proof.
  intros -> Hc. unfold on_tmp, at_addr, read_value.
  destruct (load n _ a) eqn:E; simpl; [|done..]. by rewrite Hc by by apply load_range in E.
Qed.

Lemma expr_deref_size_matches s l :
  repr s l →
  matches s (expr_deref_size s)
    (l' ← sem_un (sem_deref_size s.(es_u).(mach).(mem) s.(operand1)) l;
     Ok (Next l' s.(es_addr))).
Proof.
  intros Hr. pose proof (repr_length _ _ Hr). unfold expr_deref_size.
  rewrite get_st_bind. generalize s.(operand1) as n. intros n.
  destruct l as [|a l]; cbn [length] in *; mred; stk; [done|].
  assert (Hm : s.(es_u).(mach).(mem) = s0.(es_u).(mach).(mem)) by (f_equal; f_equal; same_fields).
  assert (Hn : (n = 1 ∨ n = 2 ∨ n = 3 ∨ n = 4 ∨ n = 5 ∨ n = 6 ∨ n = 7 ∨ n = 8) ∨
    (sem_deref_size s.(es_u).(mach).(mem) n a = Err UNW_EINVAL ∧ ¬ 1 ≤ n ≤ 8)).
  { destruct n as [|p|p]; [right; split; [done|lia]| |right; split; [done|lia]].
    destruct (decide (Z.pos p ≤ 8)); [left; lia|right; split; [|lia]].
    do 4 (destruct p as [p|p|]; try reflexivity; try lia). }
  destruct Hn as [Hn|[Hn ?]].
  - assert (H1' : on_tmp dwarf_readu8 a s0 = (load 1 s.(es_u).(mach).(mem) a, s0))
      by (apply (on_tmp_load 1 u8); [done|intros; apply Z.mod_small; lia]).
    assert (H2' : on_tmp dwarf_readu16 a s0 = (load 2 s.(es_u).(mach).(mem) a, s0))
      by (apply (on_tmp_load 2 u16); [done|intros; apply Z.mod_small; lia]).
    assert (H4' : on_tmp dwarf_readu32 a s0 = (load 4 s.(es_u).(mach).(mem) a, s0))
      by (apply (on_tmp_load 4 u32); [done|intros; apply Z.mod_small; lia]).
    assert (H8' : on_tmp dwarf_readu64 a s0 = (load 8 s.(es_u).(mach).(mem) a, s0))
      by (apply (on_tmp_load 8 u64); [done|intros; apply Z.mod_small; lia]).
    destruct Hn as [->|[->|[->|[->|[->|[->|[->| ->]]]]]]]; cbn [Z.eqb Z.leb Z.compare
      Pos.eqb Pos.compare Pos.compare_cont orb andb negb sem_un sem_deref_size]; mred;
      rewrite ?H1', ?H2', ?H4', ?H8'; 
      match goal with |- context [load ?n ?m a] => destruct (load n m a) end;
      try done; mred; stk; finish.
  - rewrite !(proj2 (Z.eqb_neq n _)) by lia. cbn [orb].
    replace ((5 <=? n) && (n <=? 8)) with false by (symmetry; apply andb_false_iff;
      rewrite !Z.leb_gt; lia).
    simpl. by rewrite Hn.
Qed.

Lemma expr_control_matches s l op :
  repr s l →
  match op with DW_OP_skip | DW_OP_bra | DW_OP_nop => True | _ => False end →
  matches s (expr_control op s) (sem_step s.(es_u) op s.(operand1) s.(operand2) s.(es_addr) l).
Proof.
  intros Hr Hop. unfold expr_control. destruct op; try done; mred.
  - destruct l as [|c l]; cbn [sem_step]; stk; [done|].
    destruct (c =? 0); simpl; eexists; (split; [reflexivity|]); [by split; [|same_fields]|].
    split; [done|]. repeat match goal with H : same_env _ _ |- _ => destruct H as (? & ? & ? & ?) end.
    simpl. split; [done|congruence].
  - eexists. by split.
  - eexists. by split.
Qed.

(** Every operator, on every stack. *)
Lemma expr_switch_matches op s l :
  repr s l → s.(es_u).(cur).(validate) = false → operand_range op s.(operand1) →
  (match op with DW_OP_breg n => 0 ≤ n | DW_OP_bregx => 0 ≤ s.(operand1) | _ => True end) →
  matches s (expr_switch op s)
    (sem_step s.(es_u) op s.(operand1) s.(operand2) s.(es_addr) l).
Proof.
  intros Hr Hv Ho Hb. unfold expr_switch. rewrite get_st_bind.
  destruct op; try done; cbn [sem_step sem_op];
    lazymatch goal with
    | |- matches _ (expr_const _ _) _ => by apply expr_const_matches
    | |- matches _ (expr_breg _ _ _) _ => by apply expr_breg_matches
    | |- matches _ (expr_stack_op _ _) _ => by apply (expr_stack_op_matches s l)
    | |- matches _ (expr_arith _ _) _ => by apply (expr_arith_matches s l)
    | |- matches _ (expr_compare _ _) _ => by apply (expr_compare_matches s l)
    | |- matches _ (expr_control _ _) _ => by apply (expr_control_matches s l)
    | |- matches _ (expr_deref _) _ => by apply expr_deref_matches
    | |- matches _ (expr_deref_size _) _ => by apply expr_deref_size_matches
    | |- matches _ (expr_lit _ _) _ => by apply matches_push
    | |- _ => unfold expr_reg; mred; destruct (dwarf_to_unw_regnum _); [by eexists|done..]
    end.
Qed.

(** ** Programs as byte strings *)

(** An instruction: the opcode byte and the values of its operands. *)
Record expr_instr := Instr { i_byte : Z; i_op1 : Z; i_op2 : Z }.

Definition i_op (i : expr_instr) : dwarf_expr_op_t := expr_op_of_byte i.(i_byte).

Definition operand_bytes (t v : Z) : list Z :=
  if t =? VAL8 then le_bytes 1 v
  else if t =? VAL16 then le_bytes 2 v
  else if t =? VAL32 then le_bytes 4 v
  else if (t =? VAL64) || (t =? ADDR) then le_bytes 8 v
  else if t =? ULEB128 then uleb_encode v
  else sleb_encode (s64 v).

(** [v] can be an operand of type [t]. *)
Definition operand_fits (t v : Z) : Prop :=
  if t =? VAL8 then 0 ≤ v < 256
  else if t =? VAL16 then 0 ≤ v < 65536
  else if t =? VAL32 then 0 ≤ v < 4294967296
  else t ≠ OFFSET ∧ is_u64 v.

#[export] Instance operand_fits_dec t v : Decision (operand_fits t v).
Proof. unfold operand_fits. repeat case_match; apply _. Defined.

Definition op_types (op : dwarf_expr_op_t) : list Z :=
  let sig := operands op in
  if 1 <? NUM_OPERANDS sig then [OPND1_TYPE sig; OPND2_TYPE sig]
  else if 0 <? NUM_OPERANDS sig then [OPND1_TYPE sig] else [].

Definition i_types (i : expr_instr) : list Z := op_types (i_op i).

Definition instr_bytes (i : expr_instr) : list Z :=
  i.(i_byte) ::
  match i_types i with
  | [] => []
  | [t1] => operand_bytes t1 i.(i_op1)
  | t1 :: t2 :: _ => operand_bytes t1 i.(i_op1) ++ operand_bytes t2 i.(i_op2)
  end.

(** The operands fit their encoding. *)
Definition encodable (i : expr_instr) : Prop :=
  is_byte i.(i_byte) ∧
  match i_types i with
  | [] => True
  | [t1] => operand_fits t1 i.(i_op1)
  | t1 :: t2 :: _ => operand_fits t1 i.(i_op1) ∧ operand_fits t2 i.(i_op2)
  end.

#[export] Instance encodable_dec i : Decision (encodable i).
Proof. unfold encodable. repeat case_match; apply _. Defined.

(** The instruction falls through to the next one, and takes its first operand
    from its encoding. *)
Definition instr_ok (i : expr_instr) : Prop :=
  encodable i ∧ i_op i ∉ [DW_OP_skip; DW_OP_bra; DW_OP_constu; DW_OP_consts].

#[export] Instance instr_ok_dec i : Decision (instr_ok i).
Proof. unfold instr_ok. apply _. Defined.

Definition prog_bytes (p : list expr_instr) : list Z := p ≫= instr_bytes.

(** The meaning of a straight-line program on a list stack. *)
Fixpoint sem_prog (u : ustate) (p : list expr_instr) (l : list Z) : res (Z * bool) :=
  match p with
  | [] => match l with v :: _ => Ok (v, false) | [] => Err UNW_EINVAL end
  | i :: p =>
      o ← sem_step u (i_op i) i.(i_op1) i.(i_op2) 0 l;
      match o with
      | Next l _ => sem_prog u p l
      | Final r => Ok (r, true)
      end
  end.

Lemma reads_le n conv m a v :
  bytes_at m a (le_bytes n v) → 0 ≤ v < 256 ^ Z.of_nat n →
  (∀ v, 0 ≤ v < 256 ^ Z.of_nat n → conv v = v) →
  read_value n conv m a = (Ok v, u64 (a + Z.of_nat n)).
Proof.
  intros H Hv Hc. rewrite (read_value_le _ _ _ _ _ H), Z.mod_small by done. by rewrite Hc.
Qed.

Lemma u64_s64_id v : is_u64 v → u64 (s64 v) = v.
Proof. intros. rewrite u64_s64. by apply u64_small. Qed.

Lemma read_operand_bytes m t v a :
  operand_fits t v → 0 ≤ t < 8 → is_u64 a → bytes_at m a (operand_bytes t v) →
  read_operand m t a = (Ok v, u64 (a + Z.of_nat (length (operand_bytes t v)))).
Proof.
  intros Hf Ht Ha Hb.
  assert (Ht' : t = 0 ∨ t = 1 ∨ t = 2 ∨ t = 3 ∨ t = 4 ∨ t = 5 ∨ t = 6 ∨ t = 7) by lia.
  unfold read_operand, operand_fits, operand_bytes in *.
  destruct Ht' as [->|[->|[->|[->|[->|[->|[->| ->]]]]]]]; cbn [Z.eqb VAL8 VAL16 VAL32 VAL64
    ULEB128 SLEB128 OFFSET ADDR Pos.eqb orb] in *; try (destruct Hf as [Hne Hf]); try done;
    mred; cbn [dwarf_addr_size Z.eqb VAL8 VAL16 VAL32 VAL64 ULEB128 SLEB128 OFFSET ADDR Pos.eqb].
  - apply (reads_le 1); [done|lia|]. intros. apply Z.mod_small. lia.
  - apply (reads_le 2); [done|lia|]. intros. apply Z.mod_small. lia.
  - apply (reads_le 4); [done|lia|]. intros. apply Z.mod_small. lia.
  - apply (reads_le 8); [done|unfold is_u64 in Hf; lia|]. intros. apply Z.mod_small. lia.
  - by apply uleb_read_encode.
  - rewrite (sleb_read_encode _ _ (s64 v)); [by rewrite u64_s64_id| |done..].
    apply (sext_range 64). lia.
  - apply (reads_le 8); [done|unfold is_u64 in Hf; lia|]. intros. apply Z.mod_small. lia.
Qed.

Lemma opnd_types sig :
  0 ≤ OPND1_TYPE sig < 8 ∧ 0 ≤ OPND2_TYPE sig < 8.
Proof.
  unfold OPND1_TYPE, OPND2_TYPE. change 7 with (Z.ones 3). rewrite !Z.land_ones by lia.
  change (2 ^ 3) with 8. split; apply Z.mod_pos_bound; lia.
Qed.

(** What the operands are after the fetch of [i]. *)
Definition fetched (i : expr_instr) (s s' : expr_state) : Prop :=
  s'.(es_u) = s.(es_u) ∧ s'.(stack) = s.(stack) ∧ s'.(tos) = s.(tos) ∧
  s'.(es_addr) = u64 (s.(es_addr) + Z.of_nat (length (instr_bytes i))) ∧
  (i_types i ≠ [] → s'.(operand1) = i.(i_op1)) ∧
  ((1 < length (i_types i))%nat → s'.(operand2) = i.(i_op2)).

Lemma expr_fetch_bytes i s :
  encodable i → is_u64 s.(es_addr) →
  bytes_at s.(es_u).(mach).(mem) s.(es_addr) (instr_bytes i) →
  ∃ s', expr_fetch s = (Ok (i_op i), s') ∧ fetched i s s'.
Proof.
  intros (Hb & Hops) Ha Hbytes. unfold instr_bytes in Hbytes.
  destruct (opnd_types (operands (i_op i))) as [Ht1 Ht2].
  unfold expr_fetch, on_addr, fetched, instr_bytes, i_types, op_types in *. mred.
  rewrite (readu8_byte _ _ i.(i_byte)) by (destruct Hbytes as (? & ? & _); by split_and!).
  fold (i_op i). destruct Hbytes as (_ & _ & Hbytes). simpl es_u.
  revert Hops Hbytes.
  destruct (Z.ltb_spec 0 (NUM_OPERANDS (operands (i_op i)))) as [H0|H0];
    destruct (Z.ltb_spec 1 (NUM_OPERANDS (operands (i_op i)))) as [H1|H1]; try lia;
    intros Hops Hbytes; cbn [es_u es_addr set_es_addr].
  - destruct Hops as [Hf1 Hf2]. apply bytes_at_app in Hbytes as [Hb1 Hb2]; [|apply u64_range].
    rewrite (read_operand_bytes _ _ _ _ Hf1 Ht1) by (done || apply u64_range).
    cbn [es_u es_addr set_es_addr set_operand1].
    rewrite (read_operand_bytes _ _ _ _ Hf2 Ht2) by (done || apply u64_range).
    eexists. split; [done|]. simpl. split_and!; try done.
    rewrite length_app. u64_eq.
  - rewrite (read_operand_bytes _ _ _ _ Hops Ht1) by (done || apply u64_range).
    eexists. split; [done|]. simpl. split_and!; try done; [|lia].
    u64_eq.
  - eexists. split; [done|]. simpl. split_and!; try done; simpl; lia.
Qed.

(** Evaluate the operand types of a known operator. *)
Ltac eval_types :=
  repeat match goal with
  | H : context [op_types ?op] |- _ =>
      let t := eval vm_compute in (op_types op) in change (op_types op) with t in H
  end.

Lemma instr_ok_neq i :
  instr_ok i → i_op i ≠ DW_OP_skip ∧ i_op i ≠ DW_OP_bra ∧
               i_op i ≠ DW_OP_constu ∧ i_op i ≠ DW_OP_consts.
Proof. intros [_ H]. rewrite !not_elem_of_cons in H. tauto. Qed.

Lemma sem_step_operands i u o1 o2 a l :
  instr_ok i → (i_types i ≠ [] → o1 = i.(i_op1)) →
  ((1 < length (i_types i))%nat → o2 = i.(i_op2)) →
  sem_step u (i_op i) o1 o2 a l = sem_step u (i_op i) i.(i_op1) i.(i_op2) a l.
Proof.
  intros (_ & _ & Hops)%instr_ok_neq H1 H2. unfold i_types in *. revert Hops H1 H2.
  destruct (i_op i); intros Hops H1 H2; eval_types; try done;
    first [by destruct Hops|rewrite ?(H1 ltac:(done)), ?(H2 ltac:(simpl; lia))]; done.
Qed.

Lemma sem_step_addr u op o1 o2 a l :
  op ≠ DW_OP_skip → op ≠ DW_OP_bra →
  sem_step u op o1 o2 a l =
  (o ← sem_step u op o1 o2 0 l;
   match o with Next l' _ => Ok (Next l' a) | Final r => Ok (Final r) end).
Proof.
  intros H1 H2. unfold sem_step. destruct op; try done; mred;
    match goal with
    | |- context [sem_op ?u ?op ?o1 ?o2 ?l] => by destruct (sem_op u op o1 o2 l)
    | |- context [dwarf_to_unw_regnum ?n] => by destruct (dwarf_to_unw_regnum n)
    end.
Qed.

Lemma instr_operand_range i s s' :
  instr_ok i → fetched i s s' →
  operand_range (i_op i) s'.(operand1) ∧
  (match i_op i with DW_OP_breg n => 0 ≤ n | DW_OP_bregx => 0 ≤ s'.(operand1) | _ => True end).
Proof.
  intros [[Hb Hops] _] (_ & _ & _ & _ & H1 & _).
  assert (Hn : match i_op i with DW_OP_breg n => 0 ≤ n | _ => True end).
  { unfold i_op. revert Hb. apply (byte_forall (λ b,
      match expr_op_of_byte b with DW_OP_breg n => 0 ≤ n | _ => True end)).
    repeat (constructor; [vm_compute; done|]). constructor. }
  revert Hops H1 Hn. unfold i_types. destruct (i_op i); intros Hops H1 Hn; eval_types;
    rewrite ?(H1 ltac:(done)); try (split; [done|]); try done.
  destruct Hops as [[_ Hops] _]. unfold is_u64 in Hops. lia.
Qed.

(** The loop on the encoding of a straight-line program. *)
Lemma expr_loop_prog p : ∀ s l fuel,
  Forall instr_ok p → repr s l → s.(es_u).(cur).(validate) = false →
  is_u64 s.(es_addr) → bytes_at s.(es_u).(mach).(mem) s.(es_addr) (prog_bytes p) →
  s.(es_addr) + Z.of_nat (length (prog_bytes p)) < 18446744073709551616 →
  (length p < fuel)%nat →
  fst (expr_loop fuel (s.(es_addr) + Z.of_nat (length (prog_bytes p))) s) =
  sem_prog s.(es_u) p l.
Proof.
  induction p as [|i p IH]; intros s l fuel Hok Hr Hv Ha Hb He Hf;
    (destruct fuel as [|fuel]; [simpl in Hf; lia|]); cbn [expr_loop sem_prog]; mred.
  - rewrite (proj2 (Z.ltb_ge _ _)) by (simpl; lia).
    destruct l as [|v l]; [by rewrite pop_nil|].
    by destruct (pop_cons s v l Hr) as (s' & -> & _).
  - apply Forall_cons_1 in Hok as [Hi Hok]. unfold prog_bytes in Hb, He |- *.
    cbn [mbind list_bind] in Hb, He |- *. fold (prog_bytes p) in Hb, He |- *.
    pose proof (eq_refl : length (instr_bytes i) = S (length (tail (instr_bytes i)))) as Hlen.
    rewrite length_app in He |- *.
    apply bytes_at_app in Hb as [Hb1 Hb2]; [|done].
    rewrite (proj2 (Z.ltb_lt _ _)) by lia.
    destruct (expr_fetch_bytes i s (proj1 Hi) Ha Hb1) as (s1 & -> & Hs1).
    destruct (instr_operand_range i s s1 Hi Hs1) as [Ho Hbr].
    destruct Hs1 as (Hu1 & Hst1 & Ht1 & Ha1 & Ho1 & Ho2).
    rewrite u64_small in Ha1 by (unfold is_u64 in *; lia).
    assert (Hr1 : repr s1 l) by (unfold repr; by rewrite Hst1, Ht1).
    pose proof (expr_switch_matches (i_op i) s1 l Hr1 ltac:(by rewrite Hu1) Ho Hbr) as Hm.
    rewrite (sem_step_operands i), sem_step_addr, Hu1 in Hm by (done || by apply instr_ok_neq).
    destruct (sem_step s.(es_u) (i_op i) i.(i_op1) i.(i_op2) 0 l) as [[l' a'|r]|e|t]; simpl in Hm.
    + destruct Hm as (s2 & -> & Hr2 & Hu2 & Ha2).
      replace (s.(es_addr) + _) with (s2.(es_addr) + Z.of_nat (length (prog_bytes p))) by lia.
      rewrite (IH s2 l'); [by rewrite Hu2, Hu1|done|done|by rewrite Hu2, Hu1| | |lia|simpl in Hf; lia].
      * rewrite Ha2, Ha1. unfold is_u64 in *. lia.
      * rewrite Hu2, Hu1, Ha2, Ha1.
        rewrite u64_small in Hb2 by (unfold is_u64 in *; lia). done.
    + by destruct Hm as (s2 & -> & _).
    + destruct (expr_switch (i_op i) s1) as [r s2]. simpl in Hm. by subst r.
    + destruct (expr_switch (i_op i) s1) as [r s2]. simpl in Hm. by subst r.
Qed.

Lemma eval_start u addr len :
  repr (ExprState u addr 1 (Some u.(cur).(dwarf).(cfa) :: replicate 63 None) 0 0)
    [u.(cur).(dwarf).(cfa)] ∧
  ∀ fuel, dwarf_eval_expr fuel addr len u =
    expr_loop fuel (u64 (addr + len))
      (ExprState u addr 1 (Some u.(cur).(dwarf).(cfa) :: replicate 63 None) 0 0).
Proof. split; [split_and!; simpl; (done || lia)|done]. Qed.

(** ** Properties *)

(** C6. The array with its top index behaves as a list for every operator:
    from any state whose first [tos] slots hold the list [l], the operator gives
    the stack, the jump, the register or the error that the specification gives
    on [l], never reads an uninitialised slot and never leaves the 64 slots. *)
Theorem expr_stack_refines_list (op : dwarf_expr_op_t) (s : expr_state) (l : list Z) :
  repr s l → s.(es_u).(cur).(validate) = false → operand_range op s.(operand1) →
  (match op with DW_OP_breg n => 0 ≤ n | DW_OP_bregx => 0 ≤ s.(operand1) | _ => True end) →
  match sem_step s.(es_u) op s.(operand1) s.(operand2) s.(es_addr) l with
  | Ok (Next l' a) =>
      ∃ s', expr_switch op s = (Ok Go, s') ∧ repr s' l' ∧
            s'.(es_u) = s.(es_u) ∧ s'.(es_addr) = a
  | Ok (Final v) => ∃ s', expr_switch op s = (Ok (Done v true), s') ∧ s'.(es_u) = s.(es_u)
  | Err e => fst (expr_switch op s) = Err e
  | Stop t => fst (expr_switch op s) = Stop t
  end.
Proof. intros. by apply (expr_switch_matches op s l). Qed.

Lemma expr_stack_refines_list_witness :
  ∃ s', expr_switch DW_OP_rot
          (ExprState example_cursor 0 3 ([Some 1; Some 2; Some 3] ++ replicate 61 None) 0 0)
        = (Ok Go, s') ∧ repr s' [2; 1; 3].
Proof.
  destruct (expr_stack_refines_list DW_OP_rot
    (ExprState example_cursor 0 3 ([Some 1; Some 2; Some 3] ++ replicate 61 None) 0 0) [3; 2; 1])
    as (s' & E & H & _); [|reflexivity|exact I|exact I|by exists s'].
  unfold repr. simpl. split_and!; [reflexivity|reflexivity|lia|reflexivity].
Defined.

(** C7. Evaluating the byte encoding of a straight-line expression gives the
    meaning of its instructions, started on the stack that holds the frame
    address; fuel above the number of instructions is enough. *)
Theorem eval_expr_encoded (u : ustate) (p : list expr_instr) (addr : Z) (fuel : nat) :
  Forall instr_ok p → u.(cur).(validate) = false → is_u64 addr →
  bytes_at u.(mach).(mem) addr (prog_bytes p) →
  addr + Z.of_nat (length (prog_bytes p)) < 18446744073709551616 →
  (length p < fuel)%nat →
  fst (dwarf_eval_expr fuel addr (Z.of_nat (length (prog_bytes p))) u) =
  sem_prog u p [u.(cur).(dwarf).(cfa)].
Proof.
  intros Hp Hv Ha Hb He Hf.
  destruct (eval_start u addr (Z.of_nat (length (prog_bytes p)))) as [Hr ->].
  rewrite u64_small by (unfold is_u64 in *; lia).
  by apply (expr_loop_prog p _ _ fuel Hp Hr).
Qed.

(** The expression of a PLT entry: [cfa' = rsp + 8 + ((rip & 15) >= 11) << 3]. *)
Definition plt_prog : list expr_instr :=
  [Instr 0x77 8 0; Instr 0x80 0 0; Instr 0x3f 0 0; Instr 0x1a 0 0; Instr 0x3b 0 0;
   Instr 0x2a 0 0; Instr 0x33 0 0; Instr 0x24 0 0; Instr 0x22 0 0].

Definition expr_machine (bs : list Z) : ustate :=
  on_dwarf (λ d, set_cfa 0x7000 (set_ip 0x40000c d))
    (set_mach (set_mem (put_bytes ∅ 0x100 bs) example_cursor.(mach)) example_cursor).

Definition plt_machine : ustate := expr_machine (prog_bytes plt_prog).

Lemma eval_expr_encoded_witness :
  fst (dwarf_eval_expr 20 0x100 11 plt_machine) = Ok (0x7008, false).
Proof.
  change 11 with (Z.of_nat (length (prog_bytes plt_prog))).
  rewrite (eval_expr_encoded plt_machine plt_prog 0x100 20);
    [vm_compute; reflexivity|decided|reflexivity|decided|decided|vm_compute; reflexivity
    |simpl; lia].
Defined.

(** A comparison pops its right operand first, so DWARF's [a op b], with
    [b] on top, is evaluated as [b op a]: on [5, 3] with 3 on top, "greater or
    equal" is false. *)
Lemma comparison_operands_swapped (a b : Z) (l : list Z) (s : expr_state) :
  repr s (b :: a :: l) → s.(es_u).(cur).(validate) = false →
  ∃ s', expr_switch DW_OP_ge s = (Ok Go, s') ∧ repr s' (b2z (s64 a <=? s64 b) :: l).
Proof.
  intros Hr Hv. destruct (expr_compare_matches s _ DW_OP_ge Hr I) as (s' & ? & ? & _).
  by exists s'.
Qed.

Lemma comparison_operands_swapped_witness :
  ∃ s', expr_switch DW_OP_ge
          (ExprState example_cursor 0 2 ([Some 5; Some 3] ++ replicate 62 None) 0 0)
        = (Ok Go, s') ∧ repr s' [0].
Proof.
  apply (comparison_operands_swapped 5 3 []); [|reflexivity].
  unfold repr. simpl. split_and!; [reflexivity|reflexivity|lia|reflexivity].
Defined.

(** [DW_OP_constu] and [DW_OP_consts] have no entry in the operand table:
    the evaluator pushes the operand left over from the previous instruction
    and takes the constant's own bytes for opcodes. *)
Lemma constu_pushes_stale_operand (b : Z) (s : expr_state) (l : list Z) :
  b = 0x10 ∨ b = 0x11 → repr s l → (length l < 64)%nat → is_u64 s.(es_addr) →
  bytes_at s.(es_u).(mach).(mem) s.(es_addr) [b] →
  ∃ s', (op ← expr_fetch; expr_switch op) s = (Ok Go, s') ∧
        repr s' (s.(operand1) :: l) ∧ s'.(es_addr) = u64 (s.(es_addr) + 1).
Proof.
  intros Hb Hr Hl Ha Hm. unfold expr_fetch, on_addr. mred. rewrite (readu8_byte _ _ b) by done.
  set (s1 := set_es_addr (u64 (s.(es_addr) + 1)) s).
  assert (Hr1 : repr s1 l) by exact Hr.
  assert (Hc : matches s1 (expr_const DW_OP_constu s1)
    (l' ← sem_push s.(operand1) l; Ok (Next l' s1.(es_addr)))).
  { by apply (expr_const_matches s1 l DW_OP_constu). }
  assert (Hc' : matches s1 (expr_const DW_OP_consts s1)
    (l' ← sem_push s.(operand1) l; Ok (Next l' s1.(es_addr)))).
  { by apply (expr_const_matches s1 l DW_OP_consts). }
  unfold sem_push, MAX_EXPR_STACK_SIZE in *.
  rewrite (proj2 (Z.leb_gt _ _)) in Hc, Hc' by lia.
  destruct Hb as [-> | ->]; simpl.
  - destruct Hc as (s' & E & ? & ? & ?). exists s'. by split_and!.
  - destruct Hc' as (s' & E & ? & ? & ?). exists s'. by split_and!.
Qed.

Lemma constu_pushes_stale_operand_witness :
  ∃ s', (op ← expr_fetch; expr_switch op)
          (ExprState (expr_machine [0x10]) 0x100 1 (Some 9 :: replicate 63 None) 77 0)
        = (Ok Go, s') ∧ repr s' [77; 9] ∧ s'.(es_addr) = 0x101.
Proof.
  apply (constu_pushes_stale_operand 0x10
    (ExprState (expr_machine [0x10]) 0x100 1 (Some 9 :: replicate 63 None) 77 0) [9]);
    [by left| |simpl; lia|decided|decided].
  unfold repr. simpl. split_and!; [reflexivity|reflexivity|lia|reflexivity].
Defined.

(** A load of five, six or seven bytes keeps the high bytes of the word
    instead of the low ones: the [8 * n] low bits of the value pushed are zero. *)
Lemma deref_size_keeps_high_bytes (n a v : Z) (s : expr_state) (l : list Z) :
  5 ≤ n ≤ 7 → s.(operand1) = n → repr s (a :: l) →
  load 8 s.(es_u).(mach).(mem) a = Ok v →
  ∃ s', expr_deref_size s = (Ok Go, s') ∧ repr s' ((v - v mod 2 ^ (8 * n)) :: l).
Proof.
  intros Hn Ho Hr Hl. pose proof (expr_deref_size_matches s _ Hr) as Hm. rewrite Ho in Hm.
  assert (Hland : Z.land v (u64 (Z.shiftl (u64 (-1)) (8 * n))) = v - v mod 2 ^ (8 * n)).
  { apply load_range in Hl. rewrite u64_land_ones.
    rewrite (Z.land_comm _ (Z.ones 64)), Z.land_assoc, <- u64_land_ones.
    rewrite u64_small by (unfold is_u64; lia).
    apply Z.bits_inj'. intros i Hi. rewrite Z.land_spec, Z.shiftl_spec by done.
    replace (v - v mod 2 ^ (8 * n)) with (Z.shiftl (Z.shiftr v (8 * n)) (8 * n)).
    2: { rewrite Z.shiftl_mul_pow2, Z.shiftr_div_pow2 by lia.
         pose proof (Z.div_mod v (2 ^ (8 * n))). lia. }
    rewrite Z.shiftl_spec by done. destruct (Z.ltb_spec i (8 * n)).
    - rewrite !(Z.testbit_neg_r _ (i - 8 * n)) by lia. by rewrite andb_false_r.
    - rewrite Z.shiftr_spec by lia. replace (i - 8 * n + 8 * n) with i by lia.
      change (u64 (-1)) with (Z.ones 64).
      destruct (Z.ltb_spec i 64).
      + rewrite Z.ones_spec_low by lia. by rewrite andb_true_r.
      + rewrite (testbit_above v 64) by lia. done. }
  assert (Hs : sem_deref_size s.(es_u).(mach).(mem) n a = Ok (v - v mod 2 ^ (8 * n))).
  { rewrite <- Hland. assert (n = 5 ∨ n = 6 ∨ n = 7) as [->|[->| ->]] by lia;
      simpl; by rewrite Hl. }
  simpl in Hm. rewrite Hs in Hm. destruct Hm as (s' & ? & ? & _). by exists s'.
Qed.

Lemma deref_size_keeps_high_bytes_witness :
  ∃ s', expr_deref_size (ExprState (expr_machine [1; 2; 3; 4; 5; 6; 7; 8]) 0 1
                           (Some 0x100 :: replicate 63 None) 6 0)
        = (Ok Go, s') ∧ repr s' [0x0807000000000000].
Proof.
  apply (deref_size_keeps_high_bytes 6 0x100 0x0807060504030201); [lia|reflexivity|..].
  - unfold repr. simpl. split_and!; [reflexivity|reflexivity|lia|reflexivity].
  - vm_compute. reflexivity.
Defined.

(** An expression can loop: the three bytes of a [DW_OP_skip] back to
    itself exhaust any amount of fuel. *)
Lemma skip_to_itself_diverges (u : ustate) (addr : Z) (fuel : nat) :
  is_u64 addr → addr + 3 < 18446744073709551616 →
  bytes_at u.(mach).(mem) addr [0x2f; 0xfd; 0xff] →
  fst (dwarf_eval_expr fuel addr 3 u) = Stop NoFuel.
Proof.
  intros Ha Hw Hb. destruct (eval_start u addr 3) as [_ ->].
  rewrite (u64_small (addr + 3)) by (unfold is_u64 in *; lia).
  assert (Hgen : ∀ s, s.(es_u) = u → s.(es_addr) = addr →
    fst (expr_loop fuel (addr + 3) s) = Stop NoFuel); [|by apply Hgen].
  induction fuel as [|fuel IH]; intros s Hu Hs; [done|]. cbn [expr_loop]. mred.
  rewrite (proj2 (Z.ltb_lt _ _)) by lia.
  destruct (expr_fetch_bytes (Instr 0x2f 0xfffd 0) s) as (s1 & -> & Hu1 & _ & _ & Ha1 & Ho1 & _);
    [decided|by rewrite Hs|by rewrite Hu, Hs|].
  cbn -[expr_loop u64]. apply IH; simpl; [congruence|].
  rewrite Ha1, (Ho1 ltac:(done)), Hs. simpl. change (s16 0xfffd) with (-3).
  change (length (instr_bytes (Instr 0x2f 0xfffd 0))) with 3%nat.
  rewrite !u64_add_l. unfold u64, is_u64 in *. rewrite Z.mod_small; lia.
Qed.

Lemma skip_to_itself_diverges_witness :
  fst (dwarf_eval_expr 1000 0x100 3 (expr_machine [0x2f; 0xfd; 0xff])) = Stop NoFuel.
Proof. apply skip_to_itself_diverges; [decided|lia|decided]. Defined.
