(* ===== verification/RsCache.v ===== *)
(** * The cache of register states

    [Gparser.c]: a table of 128 register states found through a hash table on
    the instruction pointer, its states reused in the order of a chain; with the
    address space that owns it and the routines that flush it
    ([flush_cache.c], [Gset_caching_policy.c]).  The second half relates the
    cache to the queue of the instruction pointers it knows. *)
From S2P Require Export Defs.

(** ** The cache *)

(** [src/include/dwarf.h:308-309], [DWARF_UNW_CACHE_SIZE] *)
Definition DWARF_UNW_CACHE_SIZE : Z := 128.
(** [src/include/dwarf.h:311-311], [DWARF_LOG_UNW_HASH_SIZE] *)
Definition DWARF_LOG_UNW_HASH_SIZE : Z := 8.
(** [src/include/dwarf.h:312-312], [DWARF_UNW_HASH_SIZE] *)
Definition DWARF_UNW_HASH_SIZE : Z := 256.

(** What the 16-bit indices hold where the code stores -1. *)
Definition NO_INDEX : Z := 65535.

(** [lock] counts the acquisitions of the (recursive) lock.
    [src/include/dwarf.h:316-329], [dwarf_rs_cache] *)
Record dwarf_rs_cache := RsCache {
  rc_lock : Z;
  lru_head : Z;
  lru_tail : Z;
  hash_table : list Z;
  generation : Z;
  buckets : list dwarf_reg_state_t
}.

Definition set_rc_lock (x : Z) (r : dwarf_rs_cache) : dwarf_rs_cache :=
  RsCache x r.(lru_head) r.(lru_tail) r.(hash_table) r.(generation) r.(buckets).
Definition set_lru_head (x : Z) (r : dwarf_rs_cache) : dwarf_rs_cache :=
  RsCache r.(rc_lock) x r.(lru_tail) r.(hash_table) r.(generation) r.(buckets).
Definition set_lru_tail (x : Z) (r : dwarf_rs_cache) : dwarf_rs_cache :=
  RsCache r.(rc_lock) r.(lru_head) x r.(hash_table) r.(generation) r.(buckets).
Definition set_hash_table (x : list Z) (r : dwarf_rs_cache) : dwarf_rs_cache :=
  RsCache r.(rc_lock) r.(lru_head) r.(lru_tail) x r.(generation) r.(buckets).
Definition set_generation (x : Z) (r : dwarf_rs_cache) : dwarf_rs_cache :=
  RsCache r.(rc_lock) r.(lru_head) r.(lru_tail) r.(hash_table) x r.(buckets).
Definition set_buckets (x : list dwarf_reg_state_t) (r : dwarf_rs_cache) : dwarf_rs_cache :=
  RsCache r.(rc_lock) r.(lru_head) r.(lru_tail) r.(hash_table) r.(generation) x.

(** [cache->buckets[i].f = ...] *)
Definition upd_bucket (i : Z) (f : dwarf_reg_state_t → dwarf_reg_state_t) (c : dwarf_rs_cache)
    : res dwarf_rs_cache :=
  b ← aread c.(buckets) i;
  bs ← awrite c.(buckets) i (f b);
  Ok (set_buckets bs c).

(** [cache->hash[i] = x] *)
Definition upd_hash (i x : Z) (c : dwarf_rs_cache) : res dwarf_rs_cache :=
  h ← awrite c.(hash_table) i x; Ok (set_hash_table h c).

(** The first bucket keeps its [lru_chain]: it is the last of the chain.
    [src/Gparser.c:499-506], [flush_rs_cache] *)
Definition flush_bucket (i : nat) (b : dwarf_reg_state_t) : dwarf_reg_state_t :=
  let b := if (0 <? Z.of_nat i) then set_lru_chain (Z.of_nat i - 1) b else b in
  set_rs_valid false (set_rs_ip 0 (set_coll_chain NO_INDEX b)).

(** [src/Gparser.c:491-509], [flush_rs_cache] *)
Definition flush_rs_cache (c : dwarf_rs_cache) : dwarf_rs_cache :=
  set_hash_table (replicate (Z.to_nat DWARF_UNW_HASH_SIZE) NO_INDEX)
    (set_buckets (imap flush_bucket c.(buckets))
      (set_lru_tail 0 (set_lru_head (DWARF_UNW_CACHE_SIZE - 1) c))).

(** [src/Gparser.c:546-553], [hash] *)
Definition hash (ip : Z) : Z :=
  Z.shiftr (u64 (ip * 0x9e3779b97f4a7c16)) (8 * 8 - DWARF_LOG_UNW_HASH_SIZE).

(** [src/Gparser.c:555-561], [cache_match] *)
Definition cache_match (rs : dwarf_reg_state_t) (ip : Z) : bool :=
  rs.(rs_valid) && (ip =? rs.(rs_ip)).

(** The walk along the collisions: the index of the state found.
    [src/Gparser.c:580-592], [rs_lookup] *)
Fixpoint rs_lookup_loop (fuel : nat) (c : dwarf_rs_cache) (ip rs : Z) : res (option Z) :=
  match fuel with
  | O => Stop NoFuel
  | S fuel' =>
      b ← aread c.(buckets) rs;
      if cache_match b ip then Ok (Some rs)
      else if DWARF_UNW_HASH_SIZE <=? b.(coll_chain) then Ok None
      else rs_lookup_loop fuel' c ip b.(coll_chain)
  end.

(** A chain has at most as many links as there are states. *)
Definition chain_fuel : nat := 129.

(** The result is the index of the state in [buckets]; the hints of the cursor
    and of the previous state are updated when the state was found through the
    hash table.  [src/Gparser.c:563-593], [rs_lookup] *)
Definition rs_lookup (cache : dwarf_rs_cache) (c : dwarf_cursor_t)
    : res (option Z * dwarf_rs_cache * dwarf_cursor_t) :=
  b ← aread cache.(buckets) c.(hint);
  if cache_match b c.(ip) then Ok (Some c.(hint), cache, c)
  else
    index ← aread cache.(hash_table) (hash c.(ip));
    if DWARF_UNW_CACHE_SIZE <=? index then Ok (None, cache, c)
    else
      r ← rs_lookup_loop chain_fuel cache c.(ip) index;
      match r with
      | Some rs =>
          cache ← upd_bucket c.(prev_rs) (set_rs_hint rs) cache;
          Ok (Some rs, cache, set_hint rs c)
      | None => Ok (None, cache, c)
      end.

(** Removing the state [rs] from the collision chain of [index]: [tmp] is the
    state looked at and [prev] the one before it.
    [src/Gparser.c:616-632], [rs_new] *)
Fixpoint rs_unlink (fuel : nat) (c : dwarf_rs_cache) (rs index tmp : Z) (prev : option Z)
    : res dwarf_rs_cache :=
  match fuel with
  | O => Stop NoFuel
  | S fuel' =>
      b ← aread c.(buckets) tmp;
      if tmp =? rs then
        match prev with
        | Some p => upd_bucket p (set_coll_chain b.(coll_chain)) c
        | None => upd_hash index b.(coll_chain) c
        end
      else if DWARF_UNW_CACHE_SIZE <=? b.(coll_chain) then Ok c
      else rs_unlink fuel' c rs index b.(coll_chain) (Some tmp)
  end.

(** The state at the head of the chain moves to its tail.
    [src/Gparser.c:602-608], [rs_new] *)
Definition rs_recycle (cache : dwarf_rs_cache) : res (Z * dwarf_rs_cache) :=
  let head := cache.(lru_head) in
  rs ← aread cache.(buckets) head;
  let cache := set_lru_head rs.(lru_chain) cache in
  cache ← upd_bucket cache.(lru_tail) (set_lru_chain head) cache;
  Ok (head, set_lru_tail head cache).

(** The result is the index of the state.  [tdep_cache_frame] does nothing.
    [src/Gparser.c:595-648], [rs_new] *)
Definition rs_new (cache : dwarf_rs_cache) (c : dwarf_cursor_t) : res (Z * dwarf_rs_cache) :=
  '(rs, cache) ← rs_recycle cache;
  b ← aread cache.(buckets) rs;
  cache ← (if negb (b.(rs_ip) =? 0) then
             let index := hash b.(rs_ip) in
             tmp ← aread cache.(hash_table) index;
             rs_unlink chain_fuel cache rs index tmp None
           else Ok cache);
  let index := hash c.(ip) in
  h ← aread cache.(hash_table) index;
  cache ← upd_bucket rs (set_coll_chain h) cache;
  cache ← upd_hash index rs cache;
  cache ← upd_bucket rs (λ b,
    RegState b.(rs_reg) c.(ip) c.(ret_addr_column) b.(lru_chain) b.(coll_chain) 0 true false) cache;
  Ok (rs, cache).

(** ** The address space *)

(** [src/include/libunwind-common.h:77-83], [unw_caching_policy_t] *)
Inductive unw_caching_policy_t :=
  | UNW_CACHE_NONE
  | UNW_CACHE_GLOBAL
  | UNW_CACHE_PER_THREAD.

#[export] Instance unw_caching_policy_eq_dec : EqDecision unw_caching_policy_t.
Proof. solve_decision. Defined.

(** [debug_frames] is the list of descriptors: the addresses of their index and
    of their section.  [src/include/tdep-x86_64/libunwind_i.h:62-71], [unw_addr_space] *)
Record unw_addr_space := AddrSpace {
  caching_policy : unw_caching_policy_t;
  cache_generation : Z;
  dyn_generation : Z;
  dyn_info_list_addr : Z;
  global_cache : dwarf_rs_cache;
  debug_frames : list (Z * Z)
}.

Definition set_global_cache (x : dwarf_rs_cache) (r : unw_addr_space) : unw_addr_space :=
  AddrSpace r.(caching_policy) r.(cache_generation) r.(dyn_generation)
    r.(dyn_info_list_addr) x r.(debug_frames).

(** The lock is recursive ([SX_RECURSE]).
    [src/include/libunwind_i.h:128-129], [lock_acquire] *)
Definition lock_acquire (c : dwarf_rs_cache) : dwarf_rs_cache := set_rc_lock (c.(rc_lock) + 1) c.

(** [src/include/libunwind_i.h:130-131], [lock_release] *)
Definition lock_release (c : dwarf_rs_cache) : dwarf_rs_cache := set_rc_lock (c.(rc_lock) - 1) c.

(** [None] is the null pointer.  [src/Gparser.c:511-533], [get_rs_cache] *)
Definition get_rs_cache (as_ : unw_addr_space) : option dwarf_rs_cache :=
  let cache := as_.(global_cache) in
  match as_.(caching_policy) with
  | UNW_CACHE_NONE => None
  | caching =>
      let cache := match caching with UNW_CACHE_GLOBAL => lock_acquire cache | _ => cache end in
      Some (if negb (as_.(cache_generation) =? cache.(generation))
            then set_generation as_.(cache_generation) (flush_rs_cache cache)
            else cache)
  end.

(** [src/Gparser.c:535-544], [put_rs_cache] *)
Definition put_rs_cache (as_ : unw_addr_space) (cache : dwarf_rs_cache) : res dwarf_rs_cache :=
  match as_.(caching_policy) with
  | UNW_CACHE_NONE => Stop Panic
  | UNW_CACHE_GLOBAL => Ok (lock_release cache)
  | UNW_CACHE_PER_THREAD => Ok cache
  end.

(** The second component lists the pointers passed to [free], in order.
    [src/flush_cache.c:28-50], [unw_flush_cache] *)
Definition unw_flush_cache (as_ : unw_addr_space) : unw_addr_space * list Z :=
  (AddrSpace as_.(caching_policy) (u32 (as_.(cache_generation) + 1)) as_.(dyn_generation)
     0 as_.(global_cache) [],
   as_.(debug_frames) ≫= λ '(index, frame), if negb (index =? 0) then [index; frame] else [frame]).

(** [HAVE___THREAD] is not defined.  The library is initialised before.
    [src/Gset_caching_policy.c:28-46], [unw_set_caching_policy] *)
Definition unw_set_caching_policy (as_ : unw_addr_space) (policy : unw_caching_policy_t)
    : unw_addr_space * list Z :=
  let policy := match policy with UNW_CACHE_PER_THREAD => UNW_CACHE_GLOBAL | p => p end in
  if decide (policy = as_.(caching_policy)) then (as_, [])
  else unw_flush_cache (AddrSpace policy as_.(cache_generation) as_.(dyn_generation)
                          as_.(dyn_info_list_addr) as_.(global_cache) as_.(debug_frames)).

#[global] Arguments chain_fuel : simpl never.

(** ** Collision chains *)

(** The chain that starts at the index [i] visits the buckets [l]. *)
Fixpoint hchain (bs : list dwarf_reg_state_t) (i : Z) (l : list nat) : Prop :=
  match l with
  | [] => i = NO_INDEX
  | x :: l' => i = Z.of_nat x ∧ ∃ b, bs !! x = Some b ∧ hchain bs b.(coll_chain) l'
  end.

(** The valid buckets with the hash [h]. *)
Definition in_bucket (bs : list dwarf_reg_state_t) (h : Z) (x : nat) : Prop :=
  ∃ b, bs !! x = Some b ∧ b.(rs_valid) = true ∧ hash b.(rs_ip) = h.

(** Every chain visits the valid buckets of its hash, but [o]. *)
Definition chains_but (o : option nat) (tbl : list Z) (bs : list dwarf_reg_state_t) : Prop :=
  ∀ h, 0 ≤ h < 256 → ∃ i l, tbl !! Z.to_nat h = Some i ∧ hchain bs i l ∧ NoDup l ∧
    ∀ x, x ∈ l ↔ in_bucket bs h x ∧ o ≠ Some x.

(** The fields the chains depend on. *)
Definition key (b : dwarf_reg_state_t) : Z * bool * Z :=
  (b.(coll_chain), b.(rs_valid), b.(rs_ip)).

Lemma hash_range ip : is_u64 ip → 0 ≤ hash ip < 256.
Proof.
  intros _. unfold hash, DWARF_LOG_UNW_HASH_SIZE. rewrite Z.shiftr_div_pow2 by lia.
  pose proof (u64_range (ip * 0x9e3779b97f4a7c16)) as H. unfold is_u64 in H. dlia.
Qed.

Lemma hchain_ext bs bs' l : ∀ i,
  (∀ x, x ∈ l → coll_chain <$> (bs' !! x) = coll_chain <$> (bs !! x)) →
  hchain bs i l → hchain bs' i l.
Proof.
  induction l as [|x l IH]; intros i He; [done|]. cbn [hchain]. intros (-> & b & Hb & Hl).
  split; [done|]. pose proof (He x ltac:(left)) as Hx. rewrite Hb in Hx.
  destruct (bs' !! x) as [b'|]; [|done]. injection Hx as Hx. exists b'. split; [done|].
  rewrite Hx. apply IH; [|done]. intros y Hy. apply He. by right.
Qed.

Lemma hchain_lookup bs l : ∀ i, hchain bs i l → ∀ x, x ∈ l → is_Some (bs !! x).
Proof.
  induction l as [|y l IH]; intros i; [intros _ x Hx; by apply elem_of_nil in Hx|].
  intros (-> & b & Hb & Hl) x [->|Hx]%elem_of_cons; [by eexists|by eapply IH].
Qed.

(** Taking [x] out of a chain. *)
Lemma hchain_remove bs l1 x l2 c : ∀ i,
  hchain bs i (l1 ++ x :: l2) → NoDup (l1 ++ x :: l2) → coll_chain <$> (bs !! x) = Some c →
  match last l1 with
  | Some y => hchain (alter (set_coll_chain c) y bs) i (l1 ++ l2)
  | None => hchain bs c l2
  end.
Proof.
  induction l1 as [|y l1 IH]; intros i Hc Hnd Hx.
  - destruct Hc as (-> & b & Hb & Hl). rewrite Hb in Hx. by injection Hx as <-.
  - cbn [app hchain] in Hc. destruct Hc as (-> & b & Hb & Hl).
    apply NoDup_cons in Hnd as [Hy Hnd]. rewrite last_cons.
    specialize (IH _ Hl Hnd Hx). cbn [app hchain].
    destruct (last l1) as [z|] eqn:Ez.
    + split; [done|]. exists b. rewrite list_lookup_alter_ne; [done|].
      intros ->. apply Hy, elem_of_app. left. apply last_Some in Ez as (l' & ->).
      apply elem_of_app. right. left.
    + apply last_None in Ez as ->. simpl in *. split; [done|].
      exists (set_coll_chain c b). rewrite list_lookup_alter_eq, Hb. split; [done|].
      eapply hchain_ext; [|exact IH]. intros z Hz. rewrite list_lookup_alter_ne; [done|].
      intros ->. apply Hy. by right.
Qed.

Lemma chains_but_ext o tbl bs bs' :
  (∀ x, key <$> (bs' !! x) = key <$> (bs !! x)) → chains_but o tbl bs → chains_but o tbl bs'.
Proof.
  intros He Hc h Hh. destruct (Hc h Hh) as (i & l & Hi & Hl & Hnd & Hm).
  exists i, l. split_and!; [done| |done|].
  - eapply hchain_ext; [|exact Hl]. intros x _. specialize (He x).
    destruct (bs' !! x), (bs !! x); try discriminate He; [|done]. simpl in *. unfold key in He. congruence.
  - intros x. rewrite Hm. enough (in_bucket bs h x ↔ in_bucket bs' h x) by tauto.
    unfold in_bucket. specialize (He x).
    destruct (bs' !! x) as [b'|], (bs !! x) as [b|]; try discriminate He; [|naive_solver].
    unfold key in He. injection He as _ Hv Hip.
    split; intros (? & [= <-] & ? & ?); eexists; (split; [done|]); split; congruence.
Qed.

Lemma in_bucket_hash bs h h' x : in_bucket bs h x → in_bucket bs h' x → h = h'.
Proof. intros (b & Hb & _ & <-) (b' & Hb' & _ & <-). by simplify_eq. Qed.

Lemma in_bucket_alter bs h x y f :
  (∀ b, rs_valid (f b) = rs_valid b ∧ rs_ip (f b) = rs_ip b) →
  in_bucket (alter f y bs) h x ↔ in_bucket bs h x.
Proof.
  intros Hf. unfold in_bucket. destruct (decide (y = x)) as [->|].
  - rewrite list_lookup_alter_eq. destruct (bs !! x) as [b|]; [|naive_solver].
    destruct (Hf b) as [Hv Hi].
    split; intros (? & [= <-] & ? & ?); eexists; (split; [done|]); split; congruence.
  - by rewrite list_lookup_alter_ne.
Qed.

(** Unlinking a valid bucket leaves the chains with all the others. *)
Lemma unlink_chains tbl bs x b :
  length tbl = 256%nat → chains_but None tbl bs →
  bs !! x = Some b → b.(rs_valid) = true → is_u64 b.(rs_ip) →
  ∃ i l1 l2, tbl !! Z.to_nat (hash b.(rs_ip)) = Some i ∧
    hchain bs i (l1 ++ x :: l2) ∧ NoDup (l1 ++ x :: l2) ∧
    match last l1 with
    | Some y => chains_but (Some x) tbl (alter (set_coll_chain b.(coll_chain)) y bs)
    | None => chains_but (Some x) (<[Z.to_nat (hash b.(rs_ip)) := b.(coll_chain)]> tbl) bs
    end.
Proof.
  intros Ht Hc Hb Hv Hu. pose proof (hash_range _ Hu) as Hr. set (h := hash b.(rs_ip)) in *.
  destruct (Hc h Hr) as (i & l & Hi & Hl & Hnd & Hm).
  assert (Hx : in_bucket bs h x) by by exists b.
  assert (Hin : x ∈ l) by (apply Hm; by split).
  apply list_elem_of_split in Hin as (l1 & l2 & ->).
  exists i, l1, l2. split_and!; [done|done|done|].
  pose proof (hchain_remove bs l1 x l2 b.(coll_chain) i Hl Hnd ltac:(by rewrite Hb)) as Hrem.
  assert (Hnd' : NoDup (l1 ++ l2) ∧ x ∉ l1 ++ l2).
  { apply NoDup_app in Hnd as (? & Hd & [? ?]%NoDup_cons). split.
    - apply NoDup_app. split_and!; [done| |done]. intros y Hy ?. eapply Hd; [done|by right].
    - intros [Hy|Hy]%elem_of_app; [|done]. eapply Hd; [done|left]. }
  destruct Hnd' as [Hnd' Hnx].
  assert (Hm' : ∀ z, z ∈ l1 ++ l2 ↔ in_bucket bs h z ∧ Some x ≠ Some z).
  { intros z. specialize (Hm z). rewrite elem_of_app, elem_of_cons in Hm. rewrite elem_of_app.
    split.
    - intros Hz. split; [apply Hm; tauto|]. intros [= ->]. rewrite elem_of_app in Hnx. tauto.
    - intros [Hz Hne]. destruct (proj2 Hm) as [?|[->|?]];
        [by split|tauto|done|tauto]. }
  assert (Hother : ∀ h' (l' : list nat), h' ≠ h → (∀ z, z ∈ l' ↔ in_bucket bs h' z ∧ None ≠ Some z) →
    ∀ z, z ∈ l' ↔ in_bucket bs h' z ∧ Some x ≠ Some z).
  { intros h' l' Hne Hl' z. rewrite Hl'. split; intros [Hz _]; (split; [done|]); [|done].
    intros [= ->]. apply Hne. by eapply in_bucket_hash. }
  destruct (last l1) as [y|] eqn:Ey.
  - assert (Hy : in_bucket bs h y).
    { apply Hm'. apply last_Some in Ey as (l' & ->). rewrite !elem_of_app. left. right. left. }
    intros h' Hh'. destruct (decide (h' = h)) as [->|Hne].
    + exists i, (l1 ++ l2). split_and!; [done|done|done|]. intros z. by rewrite in_bucket_alter.
    + destruct (Hc h' Hh') as (i' & l' & ? & Hl' & ? & Hml').
      exists i', l'. split_and!; [done| |done|intros z; rewrite in_bucket_alter by done; by apply Hother].
      eapply hchain_ext; [|exact Hl']. intros z Hz. rewrite list_lookup_alter_ne; [done|].
      intros ->. apply Hne. eapply in_bucket_hash; [|done]. by apply Hml'.
  - apply last_None in Ey as ->. intros h' Hh'. destruct (decide (h' = h)) as [->|Hne].
    + exists b.(coll_chain), l2. split_and!; [|done|done|done].
      apply list_lookup_insert_eq. lia.
    + destruct (Hc h' Hh') as (i' & l' & ? & Hl' & ? & Hml').
      exists i', l'. split_and!; [|done|done|by apply Hother].
      rewrite list_lookup_insert_ne by lia. done.
Qed.

(** Entering an unlinked bucket at the head of its chain. *)
Lemma insert_chains tbl bs x b t :
  length tbl = 256%nat → chains_but (Some x) tbl bs → (x < length bs)%nat →
  b.(rs_valid) = true → is_u64 b.(rs_ip) → tbl !! Z.to_nat (hash b.(rs_ip)) = Some t →
  b.(coll_chain) = t →
  chains_but None (<[Z.to_nat (hash b.(rs_ip)) := Z.of_nat x]> tbl) (<[x := b]> bs).
Proof.
  intros Ht Hc Hx Hv Hu Htb Hcc. pose proof (hash_range _ Hu) as Hr. set (h := hash b.(rs_ip)) in *.
  assert (Hin : ∀ h' z, in_bucket (<[x:=b]> bs) h' z ↔
                        z = x ∧ h' = h ∨ in_bucket bs h' z ∧ Some x ≠ Some z).
  { intros h' z. unfold in_bucket. destruct (decide (x = z)) as [->|Hne].
    - rewrite list_lookup_insert_eq by done. split.
      + intros (? & [= <-] & _ & <-). by left.
      + intros [[_ ->]|[_ Hne]]; [by exists b|done].
    - rewrite list_lookup_insert_ne by done. split.
      + intros Hz. right. split; [done|congruence].
      + intros [[-> _]|[? _]]; done. }
  intros h' Hh'. destruct (Hc h' Hh') as (i & l & Hi & Hl & Hnd & Hm).
  assert (Hnx : x ∉ l) by (intros Hxl; by apply Hm in Hxl as [_ ?]).
  assert (Hl' : hchain (<[x:=b]> bs) i l).
  { eapply hchain_ext; [|exact Hl]. intros z Hz. rewrite list_lookup_insert_ne; [done|].
    intros ->. done. }
  destruct (decide (h' = h)) as [->|Hne].
  - exists (Z.of_nat x), (x :: l). split_and!.
    + apply list_lookup_insert_eq. lia.
    + split; [done|]. exists b. rewrite list_lookup_insert_eq by done. split; [done|].
      rewrite Htb in Hi. injection Hi as <-. by rewrite Hcc.
    + by apply NoDup_cons.
    + intros z. rewrite elem_of_cons, Hin, Hm. split.
      * intros [->|[? ?]]; (split; [|done]); [by left|by right].
      * intros [[[-> _]|[? ?]] _]; [by left|by right].
  - exists i, l. split_and!; [|done|done|].
    + rewrite list_lookup_insert_ne by lia. done.
    + intros z. rewrite Hin, Hm. split.
      * intros [? ?]. split; [by right|done].
      * by intros [[[_ ->]|[? ?]] _].
Qed.

(** ** The invariant of the cache *)

(** [order] lists the buckets from the one to be reused first; the bucket [o] is
    in no chain. *)
Record rs_inv_but (o : option nat) (c : dwarf_rs_cache) (order : list nat) : Prop := {
  inv_buckets : length c.(buckets) = 128%nat;
  inv_hash : length c.(hash_table) = 256%nat;
  inv_length : length order = 128%nat;
  inv_nodup : NoDup order;
  inv_bound : Forall (λ x, (x < 128)%nat) order;
  inv_head : ∃ h, order !! 0%nat = Some h ∧ c.(lru_head) = Z.of_nat h;
  inv_tail : ∃ t, order !! 127%nat = Some t ∧ c.(lru_tail) = Z.of_nat t;
  inv_links : ∀ k x y, order !! k = Some x → order !! S k = Some y →
    lru_chain <$> (c.(buckets) !! x) = Some (Z.of_nat y);
  inv_valid : ∀ x b, c.(buckets) !! x = Some b →
    b.(rs_valid) = negb (b.(rs_ip) =? 0) ∧ is_u64 b.(rs_ip);
  inv_chains : chains_but o c.(hash_table) c.(buckets)
}.

Abbreviation rs_inv := (rs_inv_but None).

(** The instruction pointers the cache knows, the one to be forgotten first in
    front; an unused bucket counts as 0. *)
Definition known_ips (c : dwarf_rs_cache) (order : list nat) : list Z :=
  map (λ x, match c.(buckets) !! x with Some b => b.(rs_ip) | None => 0 end) order.

Lemma upd_bucket_Ok (x : nat) f c :
  (x < length c.(buckets))%nat →
  upd_bucket (Z.of_nat x) f c = Ok (set_buckets (alter f x c.(buckets)) c).
Proof.
  intros Hx. unfold upd_bucket. destruct (lookup_lt_is_Some_2 _ _ Hx) as [b Hb].
  rewrite (aread_lookup _ _ _ Hb). mred. rewrite awrite_Ok by lia. do 2 f_equal.
  rewrite Nat2Z.id. apply list_eq. intros j. rewrite list_lookup_alter.
  destruct (decide (x = j)) as [->|].
  - by rewrite list_lookup_insert_eq, Hb.
  - by rewrite list_lookup_insert_ne.
Qed.

Lemma upd_hash_Ok h v c :
  0 ≤ h < Z.of_nat (length c.(hash_table)) →
  upd_hash h v c = Ok (set_hash_table (<[Z.to_nat h := v]> c.(hash_table)) c).
Proof. intros Hh. unfold upd_hash. by rewrite awrite_Ok. Qed.

Lemma aread_nat {A} (l : list A) i : (i < length l)%nat → ∃ x, aread l (Z.of_nat i) = Ok x ∧ l !! i = Some x.
Proof.
  intros Hi. destruct (lookup_lt_is_Some_2 _ _ Hi) as [x Hx]. exists x.
  split; [by apply aread_lookup|done].
Qed.

(** The bound on a chain's length. *)
Lemma chain_length bs i l :
  length bs = 128%nat → hchain bs i l → NoDup l → (length l ≤ 128)%nat.
Proof.
  intros Hb Hl Hnd. rewrite <- (length_seq 128 0). apply submseteq_length, NoDup_submseteq; [done|].
  intros x Hx. apply elem_of_seq. destruct (hchain_lookup _ _ _ Hl x Hx) as [b Hxb].
  apply lookup_lt_Some in Hxb. lia.
Qed.

(** ** Lookup *)

Lemma rs_lookup_loop_spec c ip l : ∀ fuel x,
  hchain c.(buckets) (Z.of_nat x) (x :: l) → Forall (λ y, (y < 128)%nat) l → (length l < fuel)%nat →
  ∃ r, rs_lookup_loop fuel c ip (Z.of_nat x) = Ok r ∧
    match r with
    | Some i => ∃ y b, i = Z.of_nat y ∧ y ∈ x :: l ∧ c.(buckets) !! y = Some b ∧ cache_match b ip = true
    | None => ∀ y b, y ∈ x :: l → c.(buckets) !! y = Some b → cache_match b ip = false
    end.
Proof.
  induction l as [|y l IH]; intros [|fuel] x Hc Hl Hf; simpl in Hf; try lia;
    destruct Hc as (_ & b & Hb & Hc); cbn [rs_lookup_loop]; rewrite (aread_lookup _ _ _ Hb); mred;
    (destruct (cache_match b ip) eqn:Hm; [eexists; split; [done|]; exists x, b; split_and!; [done|by left|done|done]|]).
  - simpl in Hc. rewrite Hc. eexists. split; [done|].
    intros z b' ->%list_elem_of_singleton Hb'. by simplify_eq.
  - cbn [hchain] in Hc. destruct Hc as (Hcc & Hc). apply Forall_cons_1 in Hl as [Hy Hl].
    rewrite Hcc. unfold DWARF_UNW_HASH_SIZE. rewrite (proj2 (Z.leb_gt _ _)) by lia.
    destruct (IH fuel y) as (r & -> & Hr); [by split|done|lia|]. exists r. split; [done|].
    destruct r as [i|].
    + destruct Hr as (z & b' & ? & ? & ?). exists z, b'. split_and!; [done|by right|tauto|tauto].
    + intros z b' [->|Hz]%elem_of_cons Hb'; [by simplify_eq|by eapply Hr].
Qed.

(** Changing a bucket outside the fields of the chains. *)
Lemma chains_alter o tbl bs x f :
  (∀ b, key (f b) = key b) → chains_but o tbl bs → chains_but o tbl (alter f x bs).
Proof.
  intros Hf. apply chains_but_ext. intros y. rewrite list_lookup_alter.
  case_decide as Hxy; [subst x|done]. destruct (bs !! y); [|done]. simpl. by rewrite Hf.
Qed.

Definition buckets_valid (bs : list dwarf_reg_state_t) : Prop :=
  ∀ x b, bs !! x = Some b → b.(rs_valid) = negb (b.(rs_ip) =? 0) ∧ is_u64 b.(rs_ip).

Lemma valid_alter bs x f :
  (∀ b, rs_valid (f b) = rs_valid b ∧ rs_ip (f b) = rs_ip b) →
  buckets_valid bs → buckets_valid (alter f x bs).
Proof.
  intros Hf Hv y b. rewrite list_lookup_alter. case_decide as Hxy; [subst x|apply Hv].
  destruct (bs !! y) as [b'|] eqn:E; [|done]. intros [= <-].
  destruct (Hf b') as [-> ->]. by apply (Hv y).
Qed.

Lemma links_alter (bs : list dwarf_reg_state_t) (x : nat) f (y : nat) z :
  (∀ b, lru_chain (f b) = lru_chain b) → lru_chain <$> (bs !! y) = Some z →
  lru_chain <$> (alter f x bs !! y) = Some z.
Proof.
  intros Hf <-. rewrite list_lookup_alter. case_decide as Hxy; [subst x|done].
  destruct (bs !! y); [|done]. simpl. by rewrite Hf.
Qed.

Lemma rs_inv_alter o c order x f :
  (∀ b, key (f b) = key b ∧ lru_chain (f b) = lru_chain b) → rs_inv_but o c order →
  rs_inv_but o (set_buckets (alter f x c.(buckets)) c) order.
Proof.
  intros Hf []. split; try done; cbn [set_buckets buckets hash_table].
  - by rewrite length_alter.
  - intros k y z Hy Hz. apply links_alter; [apply Hf|by eapply inv_links0].
  - apply valid_alter; [|done]. intros b. destruct (Hf b) as [Hk _]. unfold key in Hk.
    split; congruence.
  - apply chains_alter; [apply Hf|done].
Qed.

Lemma known_ips_alter c order x f :
  (∀ b, rs_ip (f b) = rs_ip b) →
  known_ips (set_buckets (alter f x c.(buckets)) c) order = known_ips c order.
Proof.
  intros Hf. unfold known_ips. apply map_ext. intros y. cbn [set_buckets buckets].
  rewrite list_lookup_alter. case_decide as Hxy; [subst x|done].
  destruct (c.(buckets) !! y); [|done]. simpl. by rewrite Hf.
Qed.

Lemma order_all o c order x : rs_inv_but o c order → (x < 128)%nat → x ∈ order.
Proof.
  intros [] Hx. assert (Hp : order ≡ₚ seq 0 128).
  { apply submseteq_length_Permutation; [|rewrite length_seq; lia].
    apply NoDup_submseteq; [done|]. intros y Hy. apply elem_of_seq.
    rewrite Forall_forall in inv_bound0. apply inv_bound0 in Hy. lia. }
  rewrite Hp. apply elem_of_seq. lia.
Qed.

Lemma elem_of_known_ips c order a :
  rs_inv c order → a ∈ known_ips c order ↔ ∃ x b, c.(buckets) !! x = Some b ∧ b.(rs_ip) = a.
Proof.
  intros Hinv. unfold known_ips. rewrite list_elem_of_In, in_map_iff. split.
  - intros (x & <- & Hx%list_elem_of_In). pose proof (inv_bound _ _ _ Hinv) as Hb.
    rewrite Forall_forall in Hb. apply Hb in Hx.
    destruct (lookup_lt_is_Some_2 c.(buckets) x) as [b Hxb].
    { rewrite (inv_buckets _ _ _ Hinv). lia. }
    exists x, b. by rewrite Hxb.
  - intros (x & b & Hx & <-). exists x. rewrite Hx. split; [done|].
    apply list_elem_of_In, (order_all None c); [done|]. apply lookup_lt_Some in Hx.
    rewrite (inv_buckets _ _ _ Hinv) in Hx. done.
Qed.

(** The rows of the cache are the same up to the hints. *)
Definition same_rows (c c' : dwarf_rs_cache) : Prop :=
  ∀ x : nat, set_rs_hint 0 <$> (c'.(buckets) !! x) = set_rs_hint 0 <$> (c.(buckets) !! x).

Lemma same_rows_refl c : same_rows c c.
Proof. done. Qed.

Lemma hint_update c order x v :
  rs_inv c order → 0 ≤ x < 128 →
  ∃ c', upd_bucket x (set_rs_hint v) c = Ok c' ∧ rs_inv c' order ∧
    known_ips c' order = known_ips c order ∧ same_rows c c'.
Proof.
  intros Hinv Hx. rewrite <- (Z2Nat.id x) by lia.
  rewrite upd_bucket_Ok by (rewrite (inv_buckets _ _ _ Hinv); lia).
  eexists. split_and!; [done|by apply rs_inv_alter|by apply known_ips_alter|].
  intros y. cbn [set_buckets buckets]. rewrite list_lookup_alter. case_decide as Hxy; [|done].
  rewrite Hxy. by destruct (c.(buckets) !! y).
Qed.

Lemma cache_match_spec b a : cache_match b a = true ↔ b.(rs_valid) = true ∧ b.(rs_ip) = a.
Proof.
  unfold cache_match. rewrite andb_true_iff, Z.eqb_eq. split; intros []; by split.
Qed.

Lemma rs_lookup_spec c order cur :
  rs_inv c order → 0 ≤ cur.(hint) < 128 → 0 ≤ cur.(prev_rs) < 128 →
  is_u64 cur.(ip) → cur.(ip) ≠ 0 →
  ∃ r c' cur', rs_lookup c cur = Ok (r, c', cur') ∧
    rs_inv c' order ∧ known_ips c' order = known_ips c order ∧ same_rows c c' ∧
    match r with
    | Some i => ∃ b, c.(buckets) !! Z.to_nat i = Some b ∧ 0 ≤ i < 128 ∧ b.(rs_ip) = cur.(ip) ∧
                     b.(rs_valid) = true ∧ cur' = set_hint i cur
    | None => cur.(ip) ∉ known_ips c order ∧ c' = c ∧ cur' = cur
    end.
Proof.
  intros Hinv Hh Hp Hu Hip. pose proof (inv_buckets _ _ _ Hinv) as Hbl.
  unfold rs_lookup.
  destruct (aread_Ok c.(buckets) cur.(hint)) as (b & -> & Hb); [lia|]. mred.
  destruct (cache_match b cur.(ip)) eqn:Hm.
  { apply cache_match_spec in Hm as [Hv Hi]. eexists _, _, _. split_and!; try done.
    exists b. split_and!; try done; try lia. by destruct cur. }
  pose proof (hash_range _ Hu) as Hr.
  destruct (inv_chains _ _ _ Hinv _ Hr) as (i & l & Hi & Hl & Hnd & Hmem).
  pose proof (aread_lookup _ _ _ Hi) as Hi'. rewrite Z2Nat.id in Hi' by lia. rewrite Hi'. mred.
  assert (Hnone : (∀ x b, x ∈ l → c.(buckets) !! x = Some b → cache_match b cur.(ip) = false) →
    cur.(ip) ∉ known_ips c order).
  { intros Hno. rewrite elem_of_known_ips by done. intros (x & b' & Hx & He).
    destruct (inv_valid _ _ _ Hinv x b' Hx) as [Hv _]. rewrite He in Hv.
    rewrite (proj2 (Z.eqb_neq _ _) Hip) in Hv.
    assert (Hxl : x ∈ l) by (apply Hmem; split; [exists b'; by rewrite He|done]).
    specialize (Hno x b' Hxl Hx). rewrite (proj2 (cache_match_spec _ _)) in Hno; done. }
  destruct l as [|x l].
  { simpl in Hl. subst i. change (DWARF_UNW_CACHE_SIZE <=? NO_INDEX) with true. cbn iota.
    eexists _, _, _. split_and!; try done. split; [|done].
    apply Hnone. intros x b' Hx. by apply elem_of_nil in Hx. }
  pose proof (chain_length _ _ _ Hbl Hl Hnd) as Hlen.
  assert (Hbound : Forall (λ y, (y < 128)%nat) (x :: l)).
  { apply Forall_forall. intros y Hy. destruct (hchain_lookup _ _ _ Hl y Hy) as [b' Hy'].
    apply lookup_lt_Some in Hy'. lia. }
  apply Forall_cons in Hbound as [Hx Hbound]. destruct Hl as (-> & Hl).
  unfold DWARF_UNW_CACHE_SIZE. rewrite (proj2 (Z.leb_gt _ _)) by lia.
  destruct (rs_lookup_loop_spec c cur.(ip) l chain_fuel x) as (r & -> & Hres);
    [by split|done|simpl in Hlen; unfold chain_fuel; lia|].
  destruct r as [y|]; [|eexists _, _, _; split_and!; try done; split; [|done]; apply Hnone, Hres].
  destruct Hres as (z & b' & -> & _ & Hz & [Hv Hzi]%cache_match_spec).
  assert (z < 128)%nat by (apply lookup_lt_Some in Hz; lia).
  destruct (hint_update c order cur.(prev_rs) (Z.of_nat z) Hinv Hp) as (c' & -> & ? & ? & ?).
  eexists _, _, _. split_and!; try done. exists b'. rewrite Nat2Z.id. split_and!; try done; lia.
Qed.

(** ** A new state *)

Lemma rs_recycle_spec c order :
  rs_inv c order →
  ∃ x rest c', order = x :: rest ∧ rs_recycle c = Ok (Z.of_nat x, c') ∧
    rs_inv c' (rest ++ [x]) ∧ c'.(hash_table) = c.(hash_table) ∧
    ∃ t, c'.(buckets) = alter (set_lru_chain (Z.of_nat x)) t c.(buckets).
Proof.
  intros Hinv. pose proof Hinv as Hinv0. destruct Hinv0 as [Hbl Hhl Hol Hnd Hbd (x & Hx & Eh) (t & Ht & Et) Hlk Hv Hc].
  destruct order as [|x' rest]; [done|]. injection Hx as ->. simpl in Hol.
  destruct rest as [|n rest]; [simpl in Hol; lia|].
  set (bs' := alter (set_lru_chain (Z.of_nat x)) t c.(buckets)).
  pose proof (Hlk 0%nat x n eq_refl eq_refl) as Hn.
  destruct (c.(buckets) !! x) as [b|] eqn:Hb; [|done]. injection Hn as Hn.
  assert (t < 128)%nat as Ht128.
  { rewrite Forall_forall in Hbd. apply Hbd. by eapply list_elem_of_lookup_2. }
  exists x, (n :: rest), (set_lru_tail (Z.of_nat x) (set_buckets bs' (set_lru_head (Z.of_nat n) c))).
  split; [done|]. split.
  { unfold rs_recycle. rewrite Eh, (aread_lookup _ _ _ Hb). mred. rewrite Hn.
    cbn [set_lru_head lru_tail]. rewrite Et, upd_bucket_Ok by (simpl; lia). done. }
  split_and!; [|done|by exists t].
  split; cbn [set_lru_tail set_buckets set_lru_head buckets hash_table lru_head lru_tail].
  - unfold bs'. by rewrite length_alter.
  - done.
  - rewrite length_app. simpl in *. lia.
  - apply NoDup_cons in Hnd as [? ?]. apply NoDup_app. split_and!; [done| |apply NoDup_singleton].
    intros y Hy ->%list_elem_of_singleton. done.
  - apply Forall_cons in Hbd as [? ?]. apply Forall_app. split; [done|by apply Forall_singleton].
  - by exists n.
  - exists x. split; [|done]. rewrite lookup_app_r by (simpl in *; lia).
    replace (127 - length (n :: rest))%nat with 0%nat by (simpl in *; lia). done.
  - intros k y z Hy Hz. assert (S k < 128)%nat.
    { apply lookup_lt_Some in Hz. rewrite length_app in Hz. simpl in *. lia. }
    rewrite lookup_app_l in Hy by (simpl in *; lia).
    destruct (decide (S k = 127%nat)) as [Ek|].
    + rewrite lookup_app_r in Hz by (simpl in *; lia).
      replace (S k - length (n :: rest))%nat with 0%nat in Hz by (simpl in *; lia).
      injection Hz as <-. assert (k = 126%nat) as -> by lia.
      assert (y = t) as -> by (change ((n :: rest) !! 126%nat = Some t) in Ht; congruence).
      unfold bs'. rewrite list_lookup_alter_eq.
      destruct (lookup_lt_is_Some_2 c.(buckets) t) as [bt Hbt]; [lia|]. by rewrite Hbt.
    + rewrite lookup_app_l in Hz by (simpl in *; lia).
      unfold bs'. rewrite list_lookup_alter_ne.
      * by apply (Hlk (S k)).
      * intros <-. assert (S k = 127)%nat; [|done].
        by apply (NoDup_lookup (x :: n :: rest) _ _ t).
  - by apply valid_alter.
  - by apply chains_alter.
Qed.

Lemma rs_unlink_walk c x b idx l2 l1 : ∀ fuel i prev,
  hchain c.(buckets) i (l1 ++ x :: l2) → NoDup (l1 ++ x :: l2) → c.(buckets) !! x = Some b →
  length c.(buckets) = 128%nat → (length l1 < fuel)%nat →
  rs_unlink fuel c (Z.of_nat x) idx i prev =
    match last l1 with
    | Some y => upd_bucket (Z.of_nat y) (set_coll_chain b.(coll_chain)) c
    | None => match prev with
              | Some p => upd_bucket p (set_coll_chain b.(coll_chain)) c
              | None => upd_hash idx b.(coll_chain) c
              end
    end.
Proof.
  induction l1 as [|y l1 IH]; intros [|fuel] i prev Hc Hnd Hx Hb Hf; simpl in Hf; try lia.
  - destruct Hc as (-> & _). cbn [rs_unlink]. rewrite (aread_lookup _ _ _ Hx). mred.
    by rewrite Z.eqb_refl.
  - change ((y :: l1) ++ x :: l2) with (y :: (l1 ++ x :: l2)) in *.
    cbn [hchain] in Hc. destruct Hc as (-> & b' & Hy & Hc). cbn [rs_unlink].
    rewrite (aread_lookup _ _ _ Hy). mred. apply NoDup_cons in Hnd as [Hny Hnd].
    rewrite (proj2 (Z.eqb_neq _ _)).
    2: { intros ->%Nat2Z.inj. apply Hny, elem_of_app. right. left. }
    assert (Hnext : b'.(coll_chain) < 128).
    { destruct l1 as [|z l1]; cbn [app hchain] in Hc; destruct Hc as (-> & b1 & H1 & _);
        apply lookup_lt_Some in H1; lia. }
    unfold DWARF_UNW_CACHE_SIZE. rewrite (proj2 (Z.leb_gt _ _)) by lia.
    rewrite (IH fuel _ _ Hc Hnd Hx Hb ltac:(lia)), last_cons. by destruct (last l1).
Qed.

Lemma rs_unlink_spec c order x b :
  rs_inv c order → c.(buckets) !! x = Some b → b.(rs_ip) ≠ 0 →
  ∃ i c', aread c.(hash_table) (hash b.(rs_ip)) = Ok i ∧
    rs_unlink chain_fuel c (Z.of_nat x) (hash b.(rs_ip)) i None = Ok c' ∧
    rs_inv_but (Some x) c' order ∧
    ∀ y : nat, set_coll_chain 0 <$> (c'.(buckets) !! y) = set_coll_chain 0 <$> (c.(buckets) !! y).
Proof.
  intros Hinv Hx Hip. pose proof Hinv as Hinv0. destruct Hinv0 as [Hbl Hhl Hol Hnd Hbd Hh Ht Hlk Hv Hc].
  destruct (Hv x b Hx) as [Hval Hu]. rewrite (proj2 (Z.eqb_neq _ _) Hip) in Hval.
  destruct (unlink_chains _ _ x b Hhl Hc Hx Hval Hu) as (i & l1 & l2 & Hi & Hl & Hndl & Hcase).
  pose proof (hash_range _ Hu) as Hr.
  pose proof (aread_lookup _ _ _ Hi) as Hi'. rewrite Z2Nat.id in Hi' by lia.
  pose proof (chain_length _ _ _ Hbl Hl Hndl) as Hlen. rewrite length_app in Hlen. simpl in Hlen.
  exists i. rewrite (rs_unlink_walk c x b _ l2 l1) by (done || unfold chain_fuel; lia).
  destruct (last l1) as [y|] eqn:Ey.
  - assert (Hy : y ∈ l1 ++ x :: l2).
    { apply last_Some in Ey as (l' & ->). rewrite !elem_of_app. left. right. left. }
    destruct (hchain_lookup _ _ _ Hl y Hy) as [by_ Hby]. apply lookup_lt_Some in Hby.
    rewrite upd_bucket_Ok by done. eexists. split_and!; [done|done| |].
    + split; try done; cbn [set_buckets buckets hash_table].
      * by rewrite length_alter.
      * intros k u v Hu' Hv'. apply links_alter; [done|by eapply Hlk].
      * by apply valid_alter.
    + intros z. cbn [set_buckets buckets]. rewrite list_lookup_alter.
      case_decide as Hyz; [subst y|done]. by destruct (c.(buckets) !! z).
  - rewrite upd_hash_Ok by lia. eexists. split_and!; [done|done| |done].
    split; try done. cbn [set_hash_table hash_table]. by rewrite length_insert.
Qed.

Lemma chains_but_invalid tbl bs x b :
  bs !! x = Some b → b.(rs_valid) = false → chains_but None tbl bs → chains_but (Some x) tbl bs.
Proof.
  intros Hx Hv Hc h Hh. destruct (Hc h Hh) as (i & l & ? & ? & ? & Hm). exists i, l.
  split_and!; try done. intros y. rewrite Hm. split; intros [Hy _]; (split; [done|]); [|done].
  intros [= ->]. destruct Hy as (b' & Hb' & Hv' & _). congruence.
Qed.

(** The fields of a state that describe a frame. *)
Definition frame_of (b : dwarf_reg_state_t) : list dwarf_save_loc_t * Z * Z * bool * bool :=
  (b.(rs_reg), b.(rs_ip), b.(rs_ret_addr_column), b.(rs_valid), b.(rs_signal_frame)).

Definition new_state (b : dwarf_reg_state_t) (t : Z) (cur : dwarf_cursor_t) : dwarf_reg_state_t :=
  RegState b.(rs_reg) cur.(ip) cur.(ret_addr_column) b.(lru_chain) t 0 true false.

Lemma rs_enter_spec c order x b cur :
  rs_inv_but (Some x) c order → c.(buckets) !! x = Some b → is_u64 cur.(ip) → cur.(ip) ≠ 0 →
  ∃ t, aread c.(hash_table) (hash cur.(ip)) = Ok t ∧
    rs_inv (set_hash_table (<[Z.to_nat (hash cur.(ip)) := Z.of_nat x]> c.(hash_table))
      (set_buckets (<[x := new_state b t cur]> c.(buckets)) c)) order.
Proof.
  intros [Hbl Hhl Hol Hnd Hbd Hh Ht Hlk Hv Hc] Hx Hu Hip.
  pose proof (hash_range _ Hu) as Hr.
  destruct (aread_Ok c.(hash_table) (hash cur.(ip))) as (t & Hread & Htb); [lia|].
  exists t. split; [done|].
  split; try done; cbn [set_hash_table set_buckets buckets hash_table].
  - by rewrite length_insert.
  - by rewrite length_insert.
  - intros k y z Hy Hz. pose proof (Hlk k y z Hy Hz) as Hl. destruct (decide (x = y)) as [->|].
    + rewrite list_lookup_insert_eq by (by eapply lookup_lt_Some). by rewrite Hx in Hl.
    + by rewrite list_lookup_insert_ne.
  - intros y b' Hb'. destruct (decide (x = y)) as [->|].
    + rewrite list_lookup_insert_eq in Hb' by (by eapply lookup_lt_Some). injection Hb' as <-.
      simpl. by rewrite (proj2 (Z.eqb_neq _ _) Hip).
    + rewrite list_lookup_insert_ne in Hb' by done. by apply (Hv y).
  - apply (insert_chains _ _ x (new_state b t cur) t); try done. by eapply lookup_lt_Some.
Qed.

Lemma rs_new_spec c order cur :
  rs_inv c order → is_u64 cur.(ip) → cur.(ip) ≠ 0 →
  ∃ x rest c' b', order = x :: rest ∧ rs_new c cur = Ok (Z.of_nat x, c') ∧
    rs_inv c' (rest ++ [x]) ∧
    c'.(buckets) !! x = Some b' ∧ b'.(rs_valid) = true ∧ b'.(rs_ip) = cur.(ip) ∧
    b'.(rs_ret_addr_column) = cur.(ret_addr_column) ∧ b'.(rs_signal_frame) = false ∧
    b'.(rs_hint) = 0 ∧
    (∀ y b, y ≠ x → c.(buckets) !! y = Some b →
       frame_of <$> (c'.(buckets) !! y) = Some (frame_of b)).
Proof.
  intros Hinv Hu Hip.
  destruct (rs_recycle_spec c order Hinv) as (x & rest & c1 & -> & Hrec & Hinv1 & Hh1 & t & Hb1).
  exists x, rest. unfold rs_new. rewrite Hrec. mred.
  assert (Hx128 : (x < 128)%nat).
  { pose proof (inv_bound _ _ _ Hinv) as Hb. by apply Forall_cons in Hb as [? _]. }
  destruct (aread_nat c1.(buckets) x) as (b & -> & Hb); [rewrite (inv_buckets _ _ _ Hinv1); lia|].
  assert (Hun : ∃ c2, (if negb (b.(rs_ip) =? 0) then
        match aread c1.(hash_table) (hash b.(rs_ip)) with
        | Ok tmp => rs_unlink chain_fuel c1 (Z.of_nat x) (hash b.(rs_ip)) tmp None
        | Err e => Err e | Stop s => Stop s end
      else Ok c1) = Ok c2 ∧ rs_inv_but (Some x) c2 (rest ++ [x]) ∧
      ∀ y : nat, set_coll_chain 0 <$> (c2.(buckets) !! y) = set_coll_chain 0 <$> (c1.(buckets) !! y)).
  { destruct (Z.eqb_spec b.(rs_ip) 0) as [Hz|Hz]; cbn [negb].
    - exists c1. split_and!; [done| |done]. destruct Hinv1 as []. split; try done.
      eapply chains_but_invalid; [done| |done]. destruct (inv_valid0 x b Hb) as [-> _]. by rewrite Hz.
    - destruct (rs_unlink_spec c1 _ x b Hinv1 Hb Hz) as (i & c2 & -> & E & ? & ?).
      exists c2. by split_and!. }
  destruct Hun as (c2 & -> & Hinv2 & Hsame). mred.
  pose proof (Hsame x) as Hx2. rewrite Hb in Hx2.
  destruct (c2.(buckets) !! x) as [b2|] eqn:Hb2; [|done].
  destruct (rs_enter_spec c2 _ x b2 cur Hinv2 Hb2 Hu Hip) as (tt_ & -> & Hinv3).
  pose proof (inv_buckets _ _ _ Hinv2) as Hl2. pose proof (hash_range _ Hu) as Hr.
  rewrite upd_bucket_Ok by lia. mred.
  rewrite upd_hash_Ok by (cbn [set_buckets hash_table]; rewrite (inv_hash _ _ _ Hinv2); lia). mred.
  rewrite upd_bucket_Ok by (cbn [set_hash_table set_buckets buckets]; rewrite length_alter; lia).
  mred. cbn [set_hash_table set_buckets buckets hash_table].
  match goal with |- context [alter ?f x (alter ?g x ?bs)] =>
    assert (Halter : alter f x (alter g x bs) = <[x := new_state b2 tt_ cur]> bs) end.
  { apply list_eq. intros y. rewrite list_lookup_alter. case_decide as Hxy; [subst y|].
    - rewrite list_lookup_alter_eq, list_lookup_insert_eq, Hb2 by lia. done.
    - by rewrite list_lookup_alter_ne, list_lookup_insert_ne. }
  rewrite Halter. eexists _, (new_state b2 tt_ cur). split; [reflexivity|].
  split; [reflexivity|]. split; [exact Hinv3|]. cbn [buckets set_buckets set_hash_table].
  split; [apply list_lookup_insert_eq; lia|]. do 5 (split; [reflexivity|]).
  intros y b0 Hy Hb0. rewrite list_lookup_insert_ne by done.
  specialize (Hsame y). apply (f_equal (fmap frame_of)) in Hsame.
  rewrite <- !option_fmap_compose in Hsame.
  change (frame_of ∘ set_coll_chain 0) with frame_of in Hsame. rewrite Hsame, Hb1, list_lookup_alter.
  case_decide as Hty; [subst t|by rewrite Hb0].
  rewrite <- option_fmap_compose. change (frame_of ∘ set_lru_chain (Z.of_nat x)) with frame_of.
  by rewrite Hb0.
Qed.

Lemma known_ips_new c c' x rest a :
  NoDup (x :: rest) → Forall (λ y, (y < 128)%nat) (x :: rest) → length c.(buckets) = 128%nat →
  rs_ip <$> (c'.(buckets) !! x) = Some a →
  (∀ y b, y ≠ x → c.(buckets) !! y = Some b →
     frame_of <$> (c'.(buckets) !! y) = Some (frame_of b)) →
  known_ips c' (rest ++ [x]) = tail (known_ips c (x :: rest)) ++ [a].
Proof.
  intros [Hx Hnd]%NoDup_cons [_ Hb]%Forall_cons Hl Ha Hs. unfold known_ips. rewrite map_app.
  cbn [map tail]. f_equal.
  - apply map_ext_in. intros y Hy%list_elem_of_In.
    rewrite Forall_forall in Hb. specialize (Hb y Hy).
    destruct (lookup_lt_is_Some_2 c.(buckets) y) as [b Hyb]; [lia|].
    rewrite Hyb. specialize (Hs y b ltac:(by intros ->) Hyb).
    destruct (c'.(buckets) !! y) as [b'|]; [|done]. injection Hs as _ Hip _ _ _. done.
  - destruct (c'.(buckets) !! x); [|done]. by injection Ha as ->.
Qed.

(** ** Flushing *)

Definition flushed_order : list nat := reverse (seq 0 128).

Lemma flushed_order_lookup k : (k < 128)%nat → flushed_order !! k = Some (127 - k)%nat.
Proof.
  intros Hk. unfold flushed_order. rewrite reverse_lookup by (rewrite length_seq; lia).
  rewrite length_seq. apply lookup_seq_lt. lia.
Qed.

Lemma flush_bucket_lookup c i : (flush_rs_cache c).(buckets) !! i = flush_bucket i <$> c.(buckets) !! i.
Proof. unfold flush_rs_cache. cbn [set_hash_table set_buckets buckets]. by rewrite list_lookup_imap. Qed.

Lemma flush_rs_cache_inv c :
  length c.(buckets) = 128%nat → rs_inv (flush_rs_cache c) flushed_order.
Proof.
  intros Hl. split.
  - unfold flush_rs_cache. simpl. by rewrite length_imap.
  - unfold flush_rs_cache. cbn [set_hash_table hash_table]. by rewrite length_replicate.
  - done.
  - unfold flushed_order. rewrite reverse_Permutation. apply NoDup_seq.
  - apply Forall_reverse, Forall_forall. intros x Hx%elem_of_seq. lia.
  - exists 127%nat. by rewrite flushed_order_lookup by lia.
  - exists 0%nat. by rewrite flushed_order_lookup by lia.
  - intros k x y Hx Hy.
    assert (Hk : (S k < 128)%nat) by (apply lookup_lt_Some in Hy; exact Hy).
    rewrite flushed_order_lookup in Hx, Hy by lia. injection Hx as <-. injection Hy as <-.
    rewrite flush_bucket_lookup.
    destruct (lookup_lt_is_Some_2 c.(buckets) (127 - k)) as [b Hb]; [lia|]. rewrite Hb.
    unfold flush_bucket. cbn [fmap option_fmap option_map].
    rewrite (proj2 (Z.ltb_lt _ _)) by lia. simpl. f_equal. lia.
  - intros x b Hb. rewrite flush_bucket_lookup in Hb.
    destruct (c.(buckets) !! x); [|done]. injection Hb as <-. done.
  - intros h Hh. exists NO_INDEX, []. split_and!; [|done|constructor|].
    + apply lookup_replicate_2. unfold DWARF_UNW_HASH_SIZE. lia.
    + intros x. split; [intros Hx; by apply elem_of_nil in Hx|].
      intros [(b & Hb & Hv & _) _]. rewrite flush_bucket_lookup in Hb.
      destruct (c.(buckets) !! x); [|done]. by injection Hb as <-.
Qed.

Lemma known_ips_flushed c a : a ∈ known_ips (flush_rs_cache c) flushed_order → a = 0.
Proof.
  unfold known_ips. rewrite list_elem_of_In, in_map_iff. intros (x & <- & _).
  rewrite flush_bucket_lookup. by destruct (c.(buckets) !! x).
Qed.

(** A flushed cache finds nothing. *)
Lemma flushed_finds_nothing c1 k :
  length c1.(buckets) = 128%nat →
  let c := set_generation k (flush_rs_cache c1) in
  rs_inv c flushed_order ∧
  ∀ cur, 0 ≤ cur.(hint) < 128 → 0 ≤ cur.(prev_rs) < 128 → is_u64 cur.(ip) → cur.(ip) ≠ 0 →
    rs_lookup c cur = Ok (None, c, cur).
Proof.
  intros Hl1 c. assert (Hinv : rs_inv c flushed_order) by by destruct (flush_rs_cache_inv c1 Hl1).
  split; [done|]. intros cur Hh Hp Hu Hip.
  destruct (rs_lookup_spec c flushed_order cur Hinv Hh Hp Hu Hip)
    as (r & c' & cur' & E & _ & _ & _ & Hm).
  destruct r as [i|].
  - destruct Hm as (b & Hb & _ & Hbi & _). exfalso. apply Hip. rewrite <- Hbi. symmetry.
    subst c. cbn [set_generation buckets] in Hb. rewrite flush_bucket_lookup in Hb.
    destruct (c1.(buckets) !! Z.to_nat i); [|done]. by injection Hb as <-.
  - destruct Hm as (_ & -> & ->). exact E.
Qed.

(** ** Examples *)

Definition blank_state : dwarf_reg_state_t := RegState [] 0 0 0 0 0 false false.

Definition example_cache : dwarf_rs_cache :=
  flush_rs_cache (RsCache 0 0 0 (replicate 256 0) 0 (replicate 128 blank_state)).

Definition example_dwarf (a : Z) : dwarf_cursor_t :=
  DwarfCursor 0 a 0 16 [] 0 [] false false false false zero_proc_info 0 0.

Definition example_space : unw_addr_space :=
  AddrSpace UNW_CACHE_GLOBAL 3 0 0 (RsCache 0 0 0 (replicate 256 0) 3 (replicate 128 blank_state)) [].

(** ** Properties *)

(** C19. A lookup finds a state exactly when the cache knows the instruction
    pointer, the state it finds is valid and for that pointer, and the order in
    which the states are to be reused is left as it was. *)
Theorem rs_lookup_refines (c : dwarf_rs_cache) (order : list nat) (cur : dwarf_cursor_t) :
  rs_inv c order → 0 ≤ cur.(hint) < 128 → 0 ≤ cur.(prev_rs) < 128 →
  is_u64 cur.(ip) → cur.(ip) ≠ 0 →
  ∃ r c' cur', rs_lookup c cur = Ok (r, c', cur') ∧
    rs_inv c' order ∧ known_ips c' order = known_ips c order ∧ same_rows c c' ∧
    (is_Some r ↔ cur.(ip) ∈ known_ips c order) ∧
    match r with
    | Some i => ∃ b, c.(buckets) !! Z.to_nat i = Some b ∧ b.(rs_ip) = cur.(ip) ∧ b.(rs_valid) = true ∧
                     cur' = set_hint i cur
    | None => cur' = cur
    end.
Proof.
  intros Hinv Hh Hp Hu Hip.
  destruct (rs_lookup_spec c order cur Hinv Hh Hp Hu Hip) as (r & c' & cur' & E & Hi & Hk & Hs & Hr).
  exists r, c', cur'. split_and!; try done.
  - destruct r as [i|].
    + destruct Hr as (b & Hb & _ & Hbi & _). split; [|by eexists].
      intros _. apply elem_of_known_ips; [done|]. by exists (Z.to_nat i), b.
    + split; [by intros [? ?]|]. destruct Hr as [Hr _]. by intros ?%Hr.
  - destruct r as [i|]; [|apply Hr]. destruct Hr as (b & ? & _ & ? & ? & ?). by exists b.
Qed.

Lemma rs_lookup_refines_witness :
  match rs_new example_cache (example_dwarf 0x4005) with
  | Ok (i, c) => match rs_lookup c (example_dwarf 0x4005) with
                 | Ok (Some j, _, _) => i = j
                 | _ => False
                 end
  | _ => False
  end.
Proof.
  assert (Hc : rs_inv example_cache flushed_order)
    by (apply flush_rs_cache_inv; vm_compute; reflexivity).
  destruct (rs_new_spec example_cache flushed_order (example_dwarf 0x4005) Hc)
    as (x & rest & c' & b' & Ho & E & Hinv & Hb & Hv & Hi & _); [decided|discriminate|].
  rewrite E.
  destruct (rs_lookup_refines c' (rest ++ [x]) (example_dwarf 0x4005) Hinv)
    as (r & c2 & cur' & E2 & _ & _ & _ & Hr & Hm); [simpl; lia|simpl; lia|decided|discriminate|].
  assert (Hin : 0x4005 ∈ known_ips c' (rest ++ [x]))
    by (apply elem_of_known_ips; [exact Hinv|exists x, b'; split; [exact Hb|exact Hi]]).
  apply Hr in Hin as [j ->]. rewrite E2. clear Hr.
  assert (E3 : rs_new example_cache (example_dwarf 0x4005) = Ok (Z.of_nat x, c')) by exact E.
  assert (Hj : match rs_new example_cache (example_dwarf 0x4005) with
    | Ok (i, c) => match rs_lookup c (example_dwarf 0x4005) with
                   | Ok (Some j, _, _) => i = j | _ => False end | _ => False end)
    by (vm_compute; reflexivity).
  rewrite E3, E2 in Hj. exact Hj.
Defined.

(** C20. A new state takes the bucket whose turn it is, the oldest of the cache:
    its instruction pointer leaves the known ones and the cursor's is added
    behind the others, whose states are untouched. *)
Theorem rs_new_refines (c : dwarf_rs_cache) (order : list nat) (cur : dwarf_cursor_t) :
  rs_inv c order → is_u64 cur.(ip) → cur.(ip) ≠ 0 →
  ∃ x rest c', order = x :: rest ∧ rs_new c cur = Ok (Z.of_nat x, c') ∧
    rs_inv c' (rest ++ [x]) ∧
    known_ips c' (rest ++ [x]) = tail (known_ips c order) ++ [cur.(ip)] ∧
    ∀ y b, y ≠ x → c.(buckets) !! y = Some b →
      frame_of <$> (c'.(buckets) !! y) = Some (frame_of b).
Proof.
  intros Hinv Hu Hip.
  destruct (rs_new_spec c order cur Hinv Hu Hip)
    as (x & rest & c' & b' & -> & E & Hinv' & Hb & Hv & Hi & _ & _ & _ & Hs).
  exists x, rest, c'. split_and!; try done.
  apply known_ips_new; [apply (inv_nodup _ _ _ Hinv)|apply (inv_bound _ _ _ Hinv)|
    apply (inv_buckets _ _ _ Hinv)|by rewrite Hb; simpl; rewrite Hi|done].
Qed.

Lemma rs_new_refines_witness :
  match rs_new example_cache (example_dwarf 0x4005) with
  | Ok (i, c) => i = 127 ∧ ∃ order, last (known_ips c order) = Some 0x4005
  | _ => False
  end.
Proof.
  destruct (rs_new_refines example_cache flushed_order (example_dwarf 0x4005))
    as (x & rest & c' & Ho & E & _ & Hk & _);
    [apply flush_rs_cache_inv; vm_compute; reflexivity|decided|discriminate|].
  rewrite E. injection Ho as <- Hrest. split; [reflexivity|].
  exists (rest ++ [127%nat]). rewrite Hk, last_snoc. reflexivity.
Defined.

(** The caches are flushed lazily: after [unw_flush_cache] the next
    acquisition of a cache that was up to date empties it, so that no lookup finds
    a state from before. *)
Lemma flush_forgets (as_ : unw_addr_space) (c : dwarf_rs_cache) (cur : dwarf_cursor_t) :
  length as_.(global_cache).(buckets) = 128%nat →
  as_.(global_cache).(generation) = as_.(cache_generation) →
  0 ≤ as_.(cache_generation) < 4294967296 →
  0 ≤ cur.(hint) < 128 → 0 ≤ cur.(prev_rs) < 128 → is_u64 cur.(ip) → cur.(ip) ≠ 0 →
  get_rs_cache (fst (unw_flush_cache as_)) = Some c →
  rs_inv c flushed_order ∧ rs_lookup c cur = Ok (None, c, cur).
Proof.
  intros Hl Hg Hr Hh Hp Hu Hip. unfold get_rs_cache, unw_flush_cache.
  cbn [fst caching_policy cache_generation global_cache].
  intros H. assert (Hc : ∃ c1, length c1.(buckets) = 128%nat ∧
    c = set_generation (u32 (cache_generation as_ + 1)) (flush_rs_cache c1)).
  { assert (Hne : u32 (cache_generation as_ + 1) =? generation (global_cache as_) = false).
    { apply Z.eqb_neq. rewrite Hg. unfold u32. dlia. }
    destruct (caching_policy as_); [done| |]; revert H; cbn [lock_acquire set_rc_lock generation];
      rewrite Hne; intros [= <-]; eexists; (split; [|reflexivity]); done. }
  destruct Hc as (c1 & Hl1 & Hc).
  subst c. destruct (flushed_finds_nothing c1 (u32 (cache_generation as_ + 1)) Hl1) as [Hinv Hn].
  split; [exact Hinv|by apply Hn].
Qed.

Lemma flush_forgets_witness :
  match get_rs_cache (fst (unw_flush_cache example_space)) with
  | Some c => rs_lookup c (example_dwarf 0x4005) = Ok (None, c, example_dwarf 0x4005)
  | None => False
  end.
Proof.
  destruct (get_rs_cache (fst (unw_flush_cache example_space))) as [c|] eqn:E; [|discriminate E].
  apply (flush_forgets example_space c (example_dwarf 0x4005));
    [reflexivity|reflexivity|simpl; lia|simpl; lia|simpl; lia|decided|discriminate|exact E].
Defined.
