(* ===== verification/DynInfo.v ===== *)
(** * Dynamically registered unwind information

    The doubly linked list of registered descriptors ([dyn-register.c],
    [dyn-cancel.c]), kept in a store of descriptors by address because the
    routines change the neighbours of the one they are given.  The second half
    proves that the pointers always represent a list. *)
From S2P Require Export Defs.

(** The union [u] is four words, read as the member the format names.
    [src/include/libunwind-dynamic.h:130-148], [unw_dyn_info] *)
Record unw_dyn_info_t := DynInfo {
  di_next : Z;
  di_prev : Z;
  di_start_ip : Z;
  di_end_ip : Z;
  di_gp : Z;
  di_format : Z;
  di_u0 : Z;
  di_u1 : Z;
  di_u2 : Z;
  di_u3 : Z
}.

(** [src/include/libunwind-dynamic.h:102-110], [unw_dyn_proc_info] *)
Definition u_handler (d : unw_dyn_info_t) : Z := d.(di_u1).
(** [src/include/libunwind-dynamic.h:106-106], [unw_dyn_proc_info] *)
Definition u_flags (d : unw_dyn_info_t) : Z := u32 d.(di_u2).
(** [src/include/libunwind-dynamic.h:112-119], [unw_dyn_table_info] *)
Definition u_segbase (d : unw_dyn_info_t) : Z := d.(di_u1).
(** [src/include/libunwind-dynamic.h:116-116], [unw_dyn_table_info] *)
Definition u_table_len (d : unw_dyn_info_t) : Z := d.(di_u2).
(** [src/include/libunwind-dynamic.h:117-117], [unw_dyn_table_info] *)
Definition u_table_data (d : unw_dyn_info_t) : Z := d.(di_u3).

Definition set_di_next (x : Z) (d : unw_dyn_info_t) : unw_dyn_info_t :=
  DynInfo x d.(di_prev) d.(di_start_ip) d.(di_end_ip) d.(di_gp) d.(di_format)
    d.(di_u0) d.(di_u1) d.(di_u2) d.(di_u3).
Definition set_di_prev (x : Z) (d : unw_dyn_info_t) : unw_dyn_info_t :=
  DynInfo d.(di_next) x d.(di_start_ip) d.(di_end_ip) d.(di_gp) d.(di_format)
    d.(di_u0) d.(di_u1) d.(di_u2) d.(di_u3).

(** [_U_dyn_info_list] and the descriptors in memory.
    [src/include/libunwind-dynamic.h:150-156], [unw_dyn_info_list] *)
Record dyn_state := DynState {
  dl_generation : Z;
  dl_first : Z;
  dl_store : gmap Z unw_dyn_info_t
}.

Definition set_dl_generation (x : Z) (s : dyn_state) : dyn_state :=
  DynState x s.(dl_first) s.(dl_store).
Definition set_dl_first (x : Z) (s : dyn_state) : dyn_state :=
  DynState s.(dl_generation) x s.(dl_store).
Definition set_dl_store (x : gmap Z unw_dyn_info_t) (s : dyn_state) : dyn_state :=
  DynState s.(dl_generation) s.(dl_first) x.

(** [*p] and the assignment to a field of [*p]. *)
Definition di_get (p : Z) : M dyn_state unw_dyn_info_t := λ s,
  match s.(dl_store) !! p with Some d => (Ok d, s) | None => (Stop (BadAddr p), s) end.
Definition di_upd (p : Z) (f : unw_dyn_info_t → unw_dyn_info_t) : M dyn_state () :=
  d ← di_get p; mod_st (λ s, set_dl_store (<[p := f d]> s.(dl_store)) s).

(** The lock is taken around the whole routine.
    [src/dyn-register.c:30-44], [_U_dyn_register] *)
Definition _U_dyn_register (di : Z) : M dyn_state () :=
  mod_st (λ s, set_dl_generation (u32 (s.(dl_generation) + 1)) s);;
  s ← get_st;
  di_upd di (set_di_next s.(dl_first));;
  di_upd di (set_di_prev 0);;
  d ← di_get di;
  (if negb (d.(di_next) =? 0) then di_upd d.(di_next) (set_di_prev di) else mret tt);;
  mod_st (set_dl_first di).

(** [src/dyn-cancel.c:28-46], [_U_dyn_cancel] *)
Definition _U_dyn_cancel (di : Z) : M dyn_state () :=
  mod_st (λ s, set_dl_generation (u32 (s.(dl_generation) + 1)) s);;
  d ← di_get di;
  (if negb (d.(di_prev) =? 0) then di_upd d.(di_prev) (set_di_next d.(di_next))
   else mod_st (set_dl_first d.(di_next)));;
  d ← di_get di;
  (if negb (d.(di_next) =? 0) then di_upd d.(di_next) (set_di_prev d.(di_prev)) else mret tt);;
  di_upd di (set_di_prev 0);;
  di_upd di (set_di_next 0).

(** ** The list the pointers represent *)

Ltac dyn_simpl :=
  cbn [set_dl_first set_dl_store set_dl_generation dl_store dl_first dl_generation].

(** From [p] on, the descriptors [l], the first having [prev] behind it. *)
Fixpoint dll (st : gmap Z unw_dyn_info_t) (prev p : Z) (l : list Z) : Prop :=
  match l with
  | [] => p = 0
  | x :: l' => p = x ∧ x ≠ 0 ∧
      ∃ d, st !! x = Some d ∧ d.(di_prev) = prev ∧ dll st x d.(di_next) l'
  end.

Definition dyn_list (s : dyn_state) (l : list Z) : Prop :=
  dll s.(dl_store) 0 s.(dl_first) l ∧ NoDup l.

(** What a descriptor says, without its links. *)
Definition payload (d : unw_dyn_info_t) : Z * Z * Z * Z * (Z * Z * Z * Z) :=
  (d.(di_start_ip), d.(di_end_ip), d.(di_gp), d.(di_format),
   (d.(di_u0), d.(di_u1), d.(di_u2), d.(di_u3))).

Definition same_payloads (st st' : gmap Z unw_dyn_info_t) : Prop :=
  ∀ x, payload <$> (st' !! x) = payload <$> (st !! x).

Lemma same_payloads_trans st1 st2 st3 :
  same_payloads st1 st2 → same_payloads st2 st3 → same_payloads st1 st3.
Proof. intros H1 H2 x. by rewrite H2, H1. Qed.

Lemma same_payloads_insert st x d d' :
  st !! x = Some d → payload d' = payload d → same_payloads st (<[x := d']> st).
Proof.
  intros Hx Hd y. destruct (decide (x = y)) as [->|].
  - rewrite lookup_insert_eq, Hx. simpl. by rewrite Hd.
  - by rewrite lookup_insert_ne.
Qed.

Lemma dll_ext st st' l : ∀ prev p,
  (∀ x, x ∈ l → st' !! x = st !! x) → dll st prev p l → dll st' prev p l.
Proof.
  induction l as [|x l IH]; intros prev p He; [done|]. cbn [dll].
  intros (-> & Hx & d & Hd & Hp & Hl). split_and!; [done|done|]. exists d.
  rewrite He by left. split_and!; [done|done|]. apply IH; [|done]. intros y Hy. apply He. by right.
Qed.

(** Changing what is behind the first descriptor. *)
Lemma dll_set_prev st prev prev' x d l :
  dll st prev x (x :: l) → NoDup (x :: l) → st !! x = Some d →
  dll (<[x := set_di_prev prev' d]> st) prev' x (x :: l).
Proof.
  intros (_ & Hx & d' & Hd & _ & Hl) [Hn _]%NoDup_cons E. rewrite E in Hd. injection Hd as <-.
  split_and!; [done|done|]. exists (set_di_prev prev' d). rewrite lookup_insert_eq.
  split_and!; [done|done|]. eapply dll_ext; [|exact Hl].
  intros y Hy. rewrite lookup_insert_ne; [done|]. by intros ->.
Qed.

Lemma dll_lookup st l : ∀ prev p x, dll st prev p l → x ∈ l → x ≠ 0 ∧ is_Some (st !! x).
Proof.
  induction l as [|y l IH]; intros prev p x; [intros _ Hx; by apply elem_of_nil in Hx|].
  intros (-> & Hy & d & Hd & _ & Hl) [->|Hx]%elem_of_cons; [split; [done|by eexists]|by eapply IH].
Qed.

Lemma di_get_eval p s d : s.(dl_store) !! p = Some d → di_get p s = (Ok d, s).
Proof. intros H. unfold di_get. by rewrite H. Qed.

Lemma di_upd_eval p f s d :
  s.(dl_store) !! p = Some d →
  di_upd p f s = (Ok tt, set_dl_store (<[p := f d]> s.(dl_store)) s).
Proof. intros H. unfold di_upd. mred. by rewrite (di_get_eval _ _ _ H). Qed.

Lemma register_spec s l di d :
  dyn_list s l → di ≠ 0 → di ∉ l → s.(dl_store) !! di = Some d →
  ∃ s', _U_dyn_register di s = (Ok tt, s') ∧ dyn_list s' (di :: l) ∧
    same_payloads s.(dl_store) s'.(dl_store).
Proof.
  intros [Hl Hnd] Hz Hn Hd. unfold _U_dyn_register. mred.
  rewrite (di_upd_eval _ _ _ d) by exact Hd. mred.
  erewrite di_upd_eval by apply lookup_insert_eq. mred.
  erewrite di_get_eval by apply lookup_insert_eq. mred.
  cbn [set_dl_generation set_dl_store dl_store dl_first]. rewrite insert_insert_eq.
  cbn [di_next set_di_next set_di_prev].
  set (d1 := set_di_prev 0 (set_di_next (dl_first s) d)).
  assert (Hpd : payload d1 = payload d) by done.
  destruct l as [|x l].
  - simpl in Hl. rewrite Hl. eexists. split; [done|]. dyn_simpl.
    split; [|by eapply same_payloads_insert]. split; [|apply NoDup_singleton]. dyn_simpl.
    split_and!; [done|done|]. exists d1. by rewrite lookup_insert_eq.
  - pose proof Hl as (Hf & Hx & dx & Hdx & _). rewrite Hf in *.
    rewrite (proj2 (Z.eqb_neq _ _) Hx). cbn [negb].
    assert (Hne : di ≠ x) by (intros ->; apply Hn; left).
    rewrite (di_upd_eval _ _ _ dx) by (dyn_simpl; by rewrite lookup_insert_ne).
    mred. eexists. split; [done|]. dyn_simpl. split; [split; dyn_simpl|].
    + split_and!; [done|done|]. exists d1. rewrite lookup_insert_ne, lookup_insert_eq by done.
      split_and!; [done|done|]. change (di_next d1) with (dl_first s). rewrite Hf.
      apply (dll_set_prev _ 0); [|done|by rewrite lookup_insert_ne].
      eapply dll_ext; [|exact Hl]. intros y Hy. rewrite lookup_insert_ne; [done|].
      intros ->. done.
    + by apply NoDup_cons.
    + eapply same_payloads_trans; [by eapply (same_payloads_insert _ di d d1)|].
      eapply same_payloads_insert; [by rewrite lookup_insert_ne|done].
Qed.

Lemma dll_at st x l2 l1 : ∀ prev p,
  dll st prev p (l1 ++ x :: l2) →
  ∃ d, st !! x = Some d ∧ d.(di_prev) = default prev (last l1) ∧ x ≠ 0 ∧ dll st x d.(di_next) l2 ∧
       (l1 = [] → p = x).
Proof.
  induction l1 as [|y l1 IH]; intros prev p.
  - intros (-> & Hx & d & ? & ? & ?). by exists d.
  - intros (-> & Hy & dy & Hdy & _ & Hl). destruct (IH _ _ Hl) as (d & ? & Hp & ? & ? & _).
    exists d. split_and!; try done. rewrite Hp, last_cons. by destruct (last l1).
Qed.

(** Taking [x] out: [st'] relinks its neighbours. *)
Lemma dll_relink st st' x d l2 l1 : ∀ prev p,
  dll st prev p (l1 ++ x :: l2) → NoDup (l1 ++ x :: l2) → st !! x = Some d →
  (∀ y dy, last l1 = Some y → st !! y = Some dy → st' !! y = Some (set_di_next d.(di_next) dy)) →
  (∀ z dz, head l2 = Some z → st !! z = Some dz → st' !! z = Some (set_di_prev d.(di_prev) dz)) →
  (∀ w, w ∈ l1 ++ l2 → last l1 ≠ Some w → head l2 ≠ Some w → st' !! w = st !! w) →
  dll st' prev (match l1 with [] => d.(di_next) | _ => p end) (l1 ++ l2).
Proof.
  induction l1 as [|y l1 IH]; intros prev p Hl Hnd Hx H1 H2 H3.
  - destruct Hl as (-> & _ & d' & Hd & Hp & Hl). rewrite Hx in Hd. injection Hd as <-.
    destruct l2 as [|z l2]; [done|]. destruct Hl as (Hz & Hz0 & dz & Hdz & _ & Hl).
    split_and!; [done|done|]. exists (set_di_prev d.(di_prev) dz).
    split_and!; [by apply H2|done|]. eapply dll_ext; [|exact Hl].
    intros w Hw. apply H3; [by right|done|]. intros [= ->].
    apply NoDup_cons in Hnd as [_ [? _]%NoDup_cons]. done.
  - change ((y :: l1) ++ x :: l2) with (y :: (l1 ++ x :: l2)) in *.
    destruct Hl as (-> & Hy & dy & Hdy & Hp & Hl). apply NoDup_cons in Hnd as [Hny Hnd].
    assert (IH' := IH y dy.(di_next) Hl Hnd Hx).
    assert (Hsub : dll st' y (match l1 with [] => d.(di_next) | _ => dy.(di_next) end) (l1 ++ l2)).
    { apply IH'; [|done|].
      - intros w dw Hw. apply H1. rewrite last_cons. by rewrite Hw.
      - intros w Hw Hw1. apply H3; [by right|]. rewrite last_cons.
        destruct (last l1) as [v|] eqn:E; [done|]. intros [= ->]. apply Hny.
        apply elem_of_app in Hw as [Hw|Hw]; apply elem_of_app; [by left|right; by right]. }
    split_and!; [done|done|]. destruct l1 as [|w l1].
    + exists (set_di_next d.(di_next) dy). split_and!; [by apply H1|done|done].
    + exists dy. split_and!; [|done|done]. rewrite <- Hdy. apply H3; [left| |].
      * rewrite last_cons. intros Hlast. destruct (last (w :: l1)) as [v|] eqn:E.
        -- injection Hlast as ->. apply Hny, elem_of_app. left. apply last_Some in E as (l' & ->).
           apply elem_of_app. right. left.
        -- by apply last_None in E.
      * intros Hh. apply Hny, elem_of_app. right. right. destruct l2 as [|v l2]; [done|].
        injection Hh as ->. left.
Qed.

Definition upd_opt (o : option Z) (f : unw_dyn_info_t → unw_dyn_info_t)
    (st : gmap Z unw_dyn_info_t) : gmap Z unw_dyn_info_t :=
  match o with Some y => alter f y st | None => st end.

Lemma upd_opt_ne o f st w : (∀ y, o = Some y → y ≠ w) → upd_opt o f st !! w = st !! w.
Proof. destruct o as [y|]; [|done]. intros H. simpl. by rewrite lookup_alter_ne by auto. Qed.

Lemma payload_alter f (st : gmap Z unw_dyn_info_t) (x w : Z) :
  (∀ d, payload (f d) = payload d) → payload <$> (alter f x st !! w) = payload <$> (st !! w).
Proof.
  intros Hf. destruct (decide (x = w)) as [->|]; [|by rewrite lookup_alter_ne].
  rewrite lookup_alter_eq. destruct (st !! w); [|done]. simpl. by rewrite Hf.
Qed.

Lemma payload_upd_opt f (st : gmap Z unw_dyn_info_t) o (w : Z) :
  (∀ d, payload (f d) = payload d) → payload <$> (upd_opt o f st !! w) = payload <$> (st !! w).
Proof. intros Hf. destruct o; [by apply payload_alter|done]. Qed.

Lemma di_upd_alter p f s :
  is_Some (s.(dl_store) !! p) → di_upd p f s = (Ok tt, set_dl_store (alter f p s.(dl_store)) s).
Proof.
  intros [d Hd]. rewrite (di_upd_eval _ _ _ d Hd). do 2 f_equal. apply map_eq. intros w.
  destruct (decide (p = w)) as [->|]; [by rewrite lookup_insert_eq, lookup_alter_eq, Hd|].
  by rewrite lookup_insert_ne, lookup_alter_ne.
Qed.

(** The assignments of [_U_dyn_cancel], the neighbours being [o] and [h]. *)
Lemma cancel_eval s di d first' st' (o h : option Z) :
  s.(dl_store) !! di = Some d → d.(di_prev) = default 0 o → d.(di_next) = default 0 h →
  first' = (match o with Some _ => s.(dl_first) | None => d.(di_next) end) →
  (∀ y, o = Some y → y ≠ 0 ∧ is_Some (s.(dl_store) !! y)) →
  (∀ z, h = Some z → z ≠ 0 ∧ is_Some (s.(dl_store) !! z)) →
  (∀ y, o = Some y → y ≠ di) → (∀ z, h = Some z → z ≠ di) →
  st' = upd_opt h (set_di_prev d.(di_prev)) (upd_opt o (set_di_next d.(di_next)) s.(dl_store)) →
  _U_dyn_cancel di s = (Ok tt, DynState (u32 (dl_generation s + 1)) first'
    (alter (set_di_next 0) di (alter (set_di_prev 0) di st'))).
Proof.
  intros Hd Hp Hn -> Ho Hh Hod Hhd ->. unfold _U_dyn_cancel. mred.
  erewrite di_get_eval by exact Hd. mred.
  match goal with |- context [(if ?b then ?x else ?y) ?s0] => assert (E1 : (if b then x else y) s0 =
    (Ok tt, DynState (u32 (dl_generation s + 1))
       (match o with Some _ => s.(dl_first) | None => d.(di_next) end)
       (upd_opt o (set_di_next d.(di_next)) s.(dl_store)))) end.
  { rewrite Hp. destruct o as [y|]; cbn [from_option id upd_opt].
    - destruct (Ho y eq_refl) as [Hy0 Hy]. rewrite (proj2 (Z.eqb_neq _ _) Hy0). cbn [negb].
      by rewrite di_upd_alter.
    - done. }
  rewrite E1. clear E1. mred.
  rewrite (di_get_eval di _ d) by (cbn [dl_store]; by rewrite upd_opt_ne). mred.
  match goal with |- context [(if ?b then ?x else ?y) ?s0] => assert (E2 : (if b then x else y) s0 =
    (Ok tt, set_dl_store (upd_opt h (set_di_prev d.(di_prev)) s0.(dl_store)) s0)) end.
  { rewrite Hn. destruct h as [z|]; cbn [from_option id upd_opt].
    - destruct (Hh z eq_refl) as [Hz0 Hz]. rewrite (proj2 (Z.eqb_neq _ _) Hz0). cbn [negb].
      rewrite di_upd_alter; [done|]. cbn [dl_store].
      destruct o as [y|]; [cbn [upd_opt]; by apply lookup_alter_is_Some|done].
    - by destruct s. }
  rewrite E2. clear E2. mred. rewrite di_upd_alter; [mred|].
  - rewrite di_upd_alter; [done|]. cbn [set_dl_store dl_store]. apply lookup_alter_is_Some.
    by rewrite !upd_opt_ne, Hd.
  - cbn [set_dl_store dl_store]. by rewrite !upd_opt_ne, Hd.
Qed.

Lemma cancel_spec s l1 di l2 :
  dyn_list s (l1 ++ di :: l2) →
  ∃ s', _U_dyn_cancel di s = (Ok tt, s') ∧ dyn_list s' (l1 ++ l2) ∧
    same_payloads s.(dl_store) s'.(dl_store).
Proof.
  intros [Hl Hnd]. destruct (dll_at _ _ _ _ _ _ Hl) as (d & Hd & Hprev & Hdi & Hl2 & Hfirst).
  pose proof Hnd as Hnd0. apply NoDup_app in Hnd0 as (Hnd1 & Hd12 & [Hn2 Hnd2]%NoDup_cons).
  assert (Hn1 : di ∉ l1) by (intros Hi; eapply Hd12; [exact Hi|left]).
  assert (Hnd' : NoDup (l1 ++ l2)).
  { apply NoDup_app. split_and!; [done| |done]. intros w Hw ?. eapply Hd12; [exact Hw|by right]. }
  assert (Hy : ∀ y, last l1 = Some y → y ∈ l1).
  { intros y (l' & ->)%last_Some. apply elem_of_app. right. left. }
  assert (Hz : ∀ z, head l2 = Some z → z ∈ l2) by (intros z Hh; destruct l2; [done|injection Hh as ->; left]).
  set (st1 := upd_opt (last l1) (set_di_next d.(di_next)) s.(dl_store)).
  set (st2 := upd_opt (head l2) (set_di_prev d.(di_prev)) st1).
  assert (Hst2 : ∀ w, w ≠ di → alter (set_di_next 0) di (alter (set_di_prev 0) di st2) !! w = st2 !! w)
    by (intros w Hw; by rewrite !lookup_alter_ne).
  exists (DynState (u32 (dl_generation s + 1)) (match l1 with [] => d.(di_next) | _ => s.(dl_first) end)
            (alter (set_di_next 0) di (alter (set_di_prev 0) di st2))).
  split_and!.
  - apply (cancel_eval s di d _ _ (last l1) (head l2)); try done.
    + destruct l2; [done|]. by destruct Hl2 as (-> & _).
    + destruct l1 as [|y l1]; [done|]. rewrite last_cons. by destruct (last l1).
    + intros y Hlast. apply (dll_lookup _ _ _ _ _ Hl), elem_of_app. left. by apply Hy.
    + intros z Hh. apply (dll_lookup _ _ _ _ _ Hl), elem_of_app. right. right. by apply Hz.
    + intros y Hlast ->. by apply Hn1, Hy.
    + intros z Hh ->. by apply Hn2, Hz.
  - split; [|done]. cbn [dl_first dl_store].
    apply (dll_relink s.(dl_store) _ di d); try done.
    + intros y dy Hlast Hdy. rewrite Hst2 by (intros ->; by apply Hn1, Hy).
      unfold st2, st1. rewrite Hlast. cbn [upd_opt].
      rewrite upd_opt_ne; [by rewrite lookup_alter_eq, Hdy|].
      intros z Hh Hzy. subst z. exact (Hd12 y (Hy _ Hlast) ltac:(right; by apply Hz)).
    + intros z dz Hh Hdz. rewrite Hst2 by (intros ->; by apply Hn2, Hz).
      unfold st2. rewrite Hh. cbn [upd_opt]. rewrite lookup_alter_eq. unfold st1.
      rewrite upd_opt_ne; [by rewrite Hdz|].
      intros y Hlast Hyz. subst y. exact (Hd12 z (Hy _ Hlast) ltac:(right; by apply Hz)).
    + intros w Hw Hw1 Hw2. rewrite Hst2.
      * unfold st2, st1. rewrite !upd_opt_ne; [done|by intros y Hy' ->..].
      * intros ->. apply elem_of_app in Hw as [?|?]; done.
  - intros w. cbn [dl_store]. unfold st2, st1. rewrite !payload_alter by done.
    by rewrite !payload_upd_opt.
Qed.

(** ** Sequences of registrations *)

Inductive dyn_op := Register (di : Z) | Cancel (di : Z).

(** The code's steps, and those of a list: registering puts a new descriptor in
    front, cancelling takes a registered one out. *)
Definition run_dyn_op (o : dyn_op) : M dyn_state () :=
  match o with Register di => _U_dyn_register di | Cancel di => _U_dyn_cancel di end.

Inductive dyn_step (st : gmap Z unw_dyn_info_t) : list Z → dyn_op → list Z → Prop :=
  | step_register l di :
      di ≠ 0 → di ∉ l → is_Some (st !! di) → dyn_step st l (Register di) (di :: l)
  | step_cancel l1 di l2 : dyn_step st (l1 ++ di :: l2) (Cancel di) (l1 ++ l2).

Inductive dyn_steps (st : gmap Z unw_dyn_info_t) : list Z → list dyn_op → list Z → Prop :=
  | steps_nil l : dyn_steps st l [] l
  | steps_cons l o l' os l'' : dyn_step st l o l' → dyn_steps st l' os l'' →
      dyn_steps st l (o :: os) l''.

Fixpoint run_dyn_ops (os : list dyn_op) : M dyn_state () :=
  match os with [] => mret tt | o :: os' => run_dyn_op o;; run_dyn_ops os' end.

Lemma same_payloads_is_Some st st' x : same_payloads st st' → is_Some (st !! x) → is_Some (st' !! x).
Proof.
  intros H Hx. specialize (H x). destruct (st !! x), (st' !! x); try done; by destruct Hx.
Qed.

Lemma dyn_step_refines st s l o l' :
  dyn_step st l o l' → same_payloads st s.(dl_store) → dyn_list s l →
  ∃ s', run_dyn_op o s = (Ok tt, s') ∧ dyn_list s' l' ∧ same_payloads st s'.(dl_store).
Proof.
  intros Hs Hst Hl. destruct Hs as [l di Hz Hn Hdi|l1 di l2].
  - destruct (same_payloads_is_Some _ _ di Hst Hdi) as [d Hd].
    destruct (register_spec s l di d Hl Hz Hn Hd) as (s' & ? & ? & ?).
    exists s'. split_and!; [done|done|by eapply same_payloads_trans].
  - destruct (cancel_spec s l1 di l2 Hl) as (s' & ? & ? & ?).
    exists s'. split_and!; [done|done|by eapply same_payloads_trans].
Qed.

(** ** Properties *)

(** C22. However registrations and cancellations follow one another, the pointers
    of the descriptors represent, forwards and backwards, the list that the same
    operations produce, newest first, and no descriptor's contents change. *)
Theorem dyn_list_refines (st : gmap Z unw_dyn_info_t) (l l' : list Z) (os : list dyn_op)
    (s : dyn_state) :
  dyn_steps st l os l' → same_payloads st s.(dl_store) → dyn_list s l →
  ∃ s', run_dyn_ops os s = (Ok tt, s') ∧ dyn_list s' l' ∧ same_payloads st s'.(dl_store).
Proof.
  intros Hs. revert s. induction Hs as [l|l o l1 os l' Ho _ IH]; intros s Hst Hl; [by exists s|].
  destruct (dyn_step_refines st s l o l1 Ho Hst Hl) as (s1 & E & Hl1 & Hst1).
  destruct (IH s1 Hst1 Hl1) as (s' & E' & ? & ?). exists s'. cbn [run_dyn_ops]. mred.
  by rewrite E.
Qed.

Definition example_di (a : Z) : unw_dyn_info_t := DynInfo 0 0 a (a + 0x100) 0 0 0 0 0 0.

Definition example_dyn : dyn_state :=
  DynState 0 0 (list_to_map [(0x10, example_di 0x4000); (0x20, example_di 0x5000);
                             (0x30, example_di 0x6000)]).

Lemma dyn_list_refines_witness :
  ∃ s', run_dyn_ops [Register 0x10; Register 0x20; Register 0x30; Cancel 0x20] example_dyn
        = (Ok tt, s') ∧ dyn_list s' [0x30; 0x10].
Proof.
  destruct (dyn_list_refines example_dyn.(dl_store) [] [0x30; 0x10]
    [Register 0x10; Register 0x20; Register 0x30; Cancel 0x20] example_dyn) as (s' & E & Hl & _).
  - eapply steps_cons; [apply step_register; [done|apply not_elem_of_nil|by eexists]|].
    eapply steps_cons; [apply step_register; [done| |by eexists]|].
    { intros H%list_elem_of_singleton. discriminate H. }
    eapply steps_cons; [apply step_register; [done| |by eexists]|].
    { intros [H|H%list_elem_of_singleton]%elem_of_cons; discriminate H. }
    eapply steps_cons; [apply (step_cancel _ [0x30] 0x20 [0x10])|]. apply steps_nil.
  - intros x. reflexivity.
  - split; [reflexivity|constructor].
  - exists s'. split; [exact E|exact Hl].
Defined.
