(* ===== verification/Region.v ===== *)
(** * Region descriptors

    The operations a generator of code lays out in memory to describe a region of a
    procedure, and the macros that build them ([include/libunwind-dynamic.h]).  The
    program only defines them: [Gdyn-extract.c] hands the regions of a procedure on
    unread.  What is proved is that the layout loses nothing that fits its fields. *)
From S2P Require Export Memory.

(** [src/include/libunwind-dynamic.h:60-72], [unw_dyn_operation_t] *)
Inductive unw_dyn_operation_t :=
  | UNW_DYN_STOP
  | UNW_DYN_SAVE_REG
  | UNW_DYN_SPILL_FP_REL
  | UNW_DYN_SPILL_SP_REL
  | UNW_DYN_ADD
  | UNW_DYN_POP_FRAMES
  | UNW_DYN_LABEL_STATE
  | UNW_DYN_COPY_STATE
  | UNW_DYN_ALIAS.

(** The values of the enumeration. *)
Definition operation_value (o : unw_dyn_operation_t) : Z :=
  match o with
  | UNW_DYN_STOP => 0
  | UNW_DYN_SAVE_REG => 1
  | UNW_DYN_SPILL_FP_REL => 2
  | UNW_DYN_SPILL_SP_REL => 3
  | UNW_DYN_ADD => 4
  | UNW_DYN_POP_FRAMES => 5
  | UNW_DYN_LABEL_STATE => 6
  | UNW_DYN_COPY_STATE => 7
  | UNW_DYN_ALIAS => 8
  end.

(** [src/include/libunwind-dynamic.h:83-91], [unw_dyn_op_t] *)
Record unw_dyn_op_t := DynOp {
  op_tag : Z;
  op_qp : Z;
  op_reg : Z;
  op_when : Z;
  op_val : Z
}.

(** Without the array that follows it.
    [src/include/libunwind-dynamic.h:93-100], [unw_dyn_region_info_t] *)
Record unw_dyn_region_info_t := RegionInfo {
  ri_next : Z;
  ri_insn_count : Z;
  ri_op_count : Z
}.

(** [src/include/libunwind-x86_64.h:41-41], [_U_TDEP_QP_TRUE] *)
Definition _U_TDEP_QP_TRUE : Z := 0.
(** [src/include/libunwind-dynamic.h:210-210], [_U_QP_TRUE] *)
Definition _U_QP_TRUE : Z := _U_TDEP_QP_TRUE.

(** The initialisers are converted to the types of the fields.
    [src/include/libunwind-dynamic.h:175-176], [_U_dyn_op] *)
Definition _U_dyn_op (tag : unw_dyn_operation_t) (qp when reg val : Z) : unw_dyn_op_t :=
  DynOp (s8 (operation_value tag)) (s8 qp) (s16 reg) (s32 when) (u64 val).

(** What the macros assign to [*op].
    [src/include/libunwind-dynamic.h:178-179], [_U_dyn_op_save_reg] *)
Definition _U_dyn_op_save_reg (qp when reg dst : Z) : unw_dyn_op_t := _U_dyn_op UNW_DYN_SAVE_REG qp when reg dst.
(** [src/include/libunwind-dynamic.h:181-183], [_U_dyn_op_spill_fp_rel] *)
Definition _U_dyn_op_spill_fp_rel (qp when reg offset : Z) : unw_dyn_op_t :=
  _U_dyn_op UNW_DYN_SPILL_FP_REL qp when reg offset.
(** [src/include/libunwind-dynamic.h:185-187], [_U_dyn_op_spill_sp_rel] *)
Definition _U_dyn_op_spill_sp_rel (qp when reg offset : Z) : unw_dyn_op_t :=
  _U_dyn_op UNW_DYN_SPILL_SP_REL qp when reg offset.
(** [src/include/libunwind-dynamic.h:189-190], [_U_dyn_op_add] *)
Definition _U_dyn_op_add (qp when reg value : Z) : unw_dyn_op_t := _U_dyn_op UNW_DYN_ADD qp when reg value.
(** [src/include/libunwind-dynamic.h:192-193], [_U_dyn_op_pop_frames] *)
Definition _U_dyn_op_pop_frames (qp when num_frames : Z) : unw_dyn_op_t :=
  _U_dyn_op UNW_DYN_POP_FRAMES qp when 0 num_frames.
(** [src/include/libunwind-dynamic.h:195-196], [_U_dyn_op_label_state] *)
Definition _U_dyn_op_label_state (label : Z) : unw_dyn_op_t :=
  _U_dyn_op UNW_DYN_LABEL_STATE _U_QP_TRUE (-1) 0 label.
(** [src/include/libunwind-dynamic.h:198-199], [_U_dyn_op_copy_state] *)
Definition _U_dyn_op_copy_state (label : Z) : unw_dyn_op_t :=
  _U_dyn_op UNW_DYN_COPY_STATE _U_QP_TRUE (-1) 0 label.
(** [src/include/libunwind-dynamic.h:201-202], [_U_dyn_op_alias] *)
Definition _U_dyn_op_alias (qp when addr : Z) : unw_dyn_op_t := _U_dyn_op UNW_DYN_ALIAS qp when 0 addr.
(** [src/include/libunwind-dynamic.h:204-205], [_U_dyn_op_stop] *)
Definition _U_dyn_op_stop : unw_dyn_op_t := _U_dyn_op UNW_DYN_STOP _U_QP_TRUE (-1) 0 0.

Definition sizeof_op : Z := 1 + 1 + 2 + 4 + 8.

(** A word and two [int]s are before the array.
    [src/include/libunwind-dynamic.h:160-162], [_U_dyn_region_info_size] *)
Definition _U_dyn_region_info_size (op_count : Z) : Z := 8 + 4 + 4 + op_count * sizeof_op.

(** ** The layout *)

Definition op_bytes (o : unw_dyn_op_t) : list Z :=
  le_bytes 1 o.(op_tag) ++ le_bytes 1 o.(op_qp) ++ le_bytes 2 o.(op_reg) ++ le_bytes 4 o.(op_when) ++
  le_bytes 8 o.(op_val).

Definition region_bytes (r : unw_dyn_region_info_t) (ops : list unw_dyn_op_t) : list Z :=
  le_bytes 8 r.(ri_next) ++ le_bytes 4 r.(ri_insn_count) ++ le_bytes 4 r.(ri_op_count) ++ (ops ≫= op_bytes).

(** [op[i]] and the fields of the region at [r], as C reads them. *)
Definition read_op (m : memory) (r : Z) (i : nat) : res unw_dyn_op_t :=
  let a := u64 (r + _U_dyn_region_info_size (Z.of_nat i)) in
  tag ← load 1 m a; qp ← load 1 m (u64 (a + 1)); reg ← load 2 m (u64 (a + 2));
  when ← load 4 m (u64 (a + 4)); val ← load 8 m (u64 (a + 8));
  Ok (DynOp (s8 tag) (s8 qp) (s16 reg) (s32 when) val).

Definition read_region (m : memory) (r : Z) : res unw_dyn_region_info_t :=
  next ← load 8 m r; count ← load 4 m (u64 (r + 8)); ops ← load 4 m (u64 (r + 12));
  Ok (RegionInfo next (s32 count) ops).

(** The values that fit the fields; those the macros build do. *)
Record op_fits (o : unw_dyn_op_t) : Prop := {
  of_tag : - 2 ^ 7 ≤ o.(op_tag) < 2 ^ 7;
  of_qp : - 2 ^ 7 ≤ o.(op_qp) < 2 ^ 7;
  of_reg : - 2 ^ 15 ≤ o.(op_reg) < 2 ^ 15;
  of_when : - 2 ^ 31 ≤ o.(op_when) < 2 ^ 31;
  of_val : is_u64 o.(op_val)
}.

Lemma dyn_op_fits tag qp when reg val : op_fits (_U_dyn_op tag qp when reg val).
Proof.
  split; cbn; [apply (sext_range 8)|apply (sext_range 8)|apply (sext_range 16)|apply (sext_range 32)|
    apply u64_range]; lia.
Qed.

Lemma length_op_bytes o : length (op_bytes o) = 16%nat.
Proof. unfold op_bytes. by rewrite !length_app, !length_le_bytes. Qed.

Lemma length_region_bytes r ops :
  Z.of_nat (length (region_bytes r ops)) = _U_dyn_region_info_size (Z.of_nat (length ops)).
Proof.
  unfold region_bytes, _U_dyn_region_info_size, sizeof_op. rewrite !length_app, !length_le_bytes.
  assert (E : length (ops ≫= op_bytes) = (16 * length ops)%nat); [|lia].
  induction ops as [|o ops IH]; [done|].
  change ((o :: ops) ≫= op_bytes) with (op_bytes o ++ (ops ≫= op_bytes)).
  rewrite length_app, length_op_bytes, IH. simpl. lia.
Qed.

(** Reading a field back. *)
Lemma load_le m a n v : bytes_at m a (le_bytes n v) → load n m a = Ok (v mod 256 ^ Z.of_nat n).
Proof.
  intros H. pose proof (load_bytes_at _ _ _ H) as E. by rewrite length_le_bytes, le_value_bytes in E.
Qed.

Lemma sext_le w v : 0 < w → - 2 ^ (w - 1) ≤ v < 2 ^ (w - 1) → sext w (v mod 2 ^ w) = v.
Proof. intros Hw Hv. unfold sext. rewrite Zplus_mod_idemp_l. by apply (sext_small w). Qed.

Lemma ops_at m a ops i o :
  is_u64 a → bytes_at m a (ops ≫= op_bytes) → ops !! i = Some o →
  bytes_at m (u64 (a + Z.of_nat i * sizeof_op)) (op_bytes o).
Proof.
  revert a i. induction ops as [|x ops IH]; intros a [|i] Ha Hm Ho; try done.
  - injection Ho as ->. cbn [mbind list_bind] in Hm. apply bytes_at_app in Hm as [Hm _]; [|done].
    by rewrite Z.mul_0_l, Z.add_0_r, u64_small.
  - cbn [mbind list_bind] in Hm. apply bytes_at_app in Hm as [_ Hm]; [|done].
    specialize (IH _ i (u64_range _) Hm Ho). revert IH. rewrite u64_add_l, length_op_bytes.
    unfold sizeof_op. replace (a + Z.of_nat 16 + Z.of_nat i * (1 + 1 + 2 + 4 + 8))
      with (a + Z.of_nat (S i) * (1 + 1 + 2 + 4 + 8)) by lia. done.
Qed.

(** The fields [j] and [j'] bytes after [a]. *)
Lemma bytes_at_fields m a j j' bs1 bs2 : bytes_at m (u64 (a + j)) (bs1 ++ bs2) →
  j' = j + Z.of_nat (length bs1) → bytes_at m (u64 (a + j)) bs1 ∧ bytes_at m (u64 (a + j')) bs2.
Proof.
  intros H ->. apply bytes_at_app in H; [|apply u64_range]. by rewrite u64_add_l, <- Z.add_assoc in H.
Qed.

Lemma read_op_at m a o : is_u64 a → bytes_at m a (op_bytes o) → op_fits o →
  (tag ← load 1 m a; qp ← load 1 m (u64 (a + 1)); reg ← load 2 m (u64 (a + 2));
   when ← load 4 m (u64 (a + 4)); val ← load 8 m (u64 (a + 8));
   Ok (DynOp (s8 tag) (s8 qp) (s16 reg) (s32 when) val)) = Ok o.
Proof.
  intros Ha Hm [H1 H2 H3 H4 H5]. unfold op_bytes in Hm.
  assert (E : u64 (a + 0) = a) by (rewrite Z.add_0_r; by apply u64_small). rewrite <- E in Hm at 1.
  apply (bytes_at_fields _ _ _ 1) in Hm as [M1 Hm]; [|done].
  apply (bytes_at_fields _ _ _ 2) in Hm as [M2 Hm]; [|done].
  apply (bytes_at_fields _ _ _ 4) in Hm as [M3 Hm]; [|done].
  apply (bytes_at_fields _ _ _ 8) in Hm as [M4 M5]; [|done]. rewrite E in M1.
  rewrite (load_le _ _ _ _ M1). mred. rewrite (load_le _ _ _ _ M2), (load_le _ _ _ _ M3),
    (load_le _ _ _ _ M4), (load_le _ _ _ _ M5).
  unfold s8, s16, s32. change (256 ^ Z.of_nat 1) with (2 ^ 8). change (256 ^ Z.of_nat 2) with (2 ^ 16).
  change (256 ^ Z.of_nat 4) with (2 ^ 32). rewrite !sext_le by done.
  change (256 ^ Z.of_nat 8) with 18446744073709551616. rewrite Z.mod_small by done. by destruct o.
Qed.

(** A region laid out in memory has the size [_U_dyn_region_info_size] gives, and its
    header and each of its operations read back as they were built. *)
Lemma region_reads_back (m : memory) (r : Z) (h : unw_dyn_region_info_t) (ops : list unw_dyn_op_t) :
  is_u64 r → bytes_at m r (region_bytes h ops) →
  is_u64 h.(ri_next) → - 2 ^ 31 ≤ h.(ri_insn_count) < 2 ^ 31 → 0 ≤ h.(ri_op_count) < 2 ^ 32 →
  Forall op_fits ops →
  Z.of_nat (length (region_bytes h ops)) = _U_dyn_region_info_size (Z.of_nat (length ops)) ∧
  read_region m r = Ok h ∧ ∀ i o, ops !! i = Some o → read_op m r i = Ok o.
Proof.
  intros Hr Hm H1 H2 H3 Hops. split; [apply length_region_bytes|]. unfold region_bytes in Hm.
  assert (E : u64 (r + 0) = r) by (rewrite Z.add_0_r; by apply u64_small). rewrite <- E in Hm at 1.
  apply (bytes_at_fields _ _ _ 8) in Hm as [M1 Hm]; [|done].
  apply (bytes_at_fields _ _ _ 12) in Hm as [M2 Hm]; [|done].
  apply (bytes_at_fields _ _ _ 16) in Hm as [M3 Hm]; [|done]. rewrite E in M1. split.
  - unfold read_region. rewrite (load_le _ _ _ _ M1). mred.
    rewrite (load_le _ _ _ _ M2), (load_le _ _ _ _ M3). unfold s32.
    change (256 ^ Z.of_nat 8) with 18446744073709551616. change (256 ^ Z.of_nat 4) with (2 ^ 32).
    rewrite sext_le, !Z.mod_small by done. by destruct h.
  - intros i o Ho. apply (ops_at _ _ _ i o) in Hm; [|apply u64_range|done].
    rewrite u64_add_l, <- Z.add_assoc in Hm. unfold read_op. cbv zeta.
    apply read_op_at; [apply u64_range|exact Hm|]. by eapply Forall_lookup_1.
Qed.

(** The prologue [push %rbp; mov %rsp, %rbp] and a label, in memory. *)
Definition example_ops : list unw_dyn_op_t :=
  [_U_dyn_op_add _U_QP_TRUE 1 7 (-8); _U_dyn_op_spill_sp_rel _U_QP_TRUE 1 6 0;
   _U_dyn_op_save_reg _U_QP_TRUE 4 7 6; _U_dyn_op_label_state 1; _U_dyn_op_stop].

Lemma region_reads_back_witness :
  let m := put_bytes ∅ 0x1000 (region_bytes (RegionInfo 0 20 5) example_ops) in
  read_region m 0x1000 = Ok (RegionInfo 0 20 5) ∧
  read_op m 0x1000 3 = Ok (DynOp 6 0 0 (-1) 1).
Proof.
  intros m. destruct (region_reads_back m 0x1000 (RegionInfo 0 20 5) example_ops) as (_ & H1 & H2).
  - done.
  - decided.
  - done.
  - simpl. lia.
  - simpl. lia.
  - repeat (constructor; [apply dyn_op_fits|]). constructor.
  - split; [exact H1|]. apply H2. reflexivity.
Defined.
