(* ===== verification/ProcInfo.v ===== *)
(** * Finding the description of a procedure

    The search of a module's [.eh_frame] section and of a sorted table
    ([Gfind_proc_info-lsb.c]), and of the dynamically registered descriptors
    ([Gfind_dynamic_proc_info.c], [Gdyn-extract.c],
    [Gput_dynamic_unwind_info.c]).  What the kernel's linker provides is the
    interface [LinkerOps], with what is relied on of it in [LinkerLaws]. *)
From stdpp Require Export sorting.
From S2P Require Export Fde DynInfo.

(** ** A sorted table *)

(** [sizeof (struct table_entry)]: two 32-bit offsets, of the procedure's start
    and of its FDE.  [src/Gfind_proc_info-lsb.c:53-57], [table_entry] *)
Definition sizeof_table_entry : Z := 8.

Definition load_s32 (m : memory) (a : Z) : res Z := v ← load 4 m a; Ok (s32 v).

(** [e->start_ip_offset] and [e->fde_offset]. *)
Definition start_ip_offset (m : memory) (e : Z) : res Z := load_s32 m e.
Definition fde_offset (m : memory) (e : Z) : res Z := load_s32 m (u64 (e + 4)).

(** The loop returns the final [hi].
    [src/Gfind_proc_info-lsb.c:337-346], [unw_lookup] *)
Fixpoint unw_lookup_loop (fuel : nat) (m : memory) (table rel_ip lo hi : Z) : res Z :=
  match fuel with
  | O => Stop NoFuel
  | S fuel' =>
      if lo <? hi then
        let mid := u64 (lo + hi) / 2 in
        let e := u64 (table + mid * sizeof_table_entry) in
        start ← start_ip_offset m e;
        if rel_ip <? start then unw_lookup_loop fuel' m table rel_ip lo mid
        else unw_lookup_loop fuel' m table rel_ip (mid + 1) hi
      else Ok hi
  end.

(** The interval halves in each turn and has fewer than [2^62] entries. *)
Definition lookup_fuel : nat := 64.

(** The result is the address of an entry, [None] being the null pointer.
    [src/Gfind_proc_info-lsb.c:329-351], [unw_lookup] *)
Definition unw_lookup (m : memory) (table table_size rel_ip : Z) : res (option Z) :=
  let table_len := table_size / sizeof_table_entry in
  hi ← unw_lookup_loop lookup_fuel m table rel_ip 0 table_len;
  if hi <=? 0 then Ok None
  else Ok (Some (u64 (table + (hi - 1) * sizeof_table_entry))).

(** The fields of a descriptor of debug frames in memory.
    [src/include/dwarf.h:333-346], [unw_debug_frame_list] *)
Definition fdesc_debug_frame (m : memory) (fdesc : Z) : res Z := load 8 m (u64 (fdesc + 16)).
(** [src/include/dwarf.h:342-342], [unw_debug_frame_list] *)
Definition fdesc_index (m : memory) (fdesc : Z) : res Z := load 8 m (u64 (fdesc + 32)).
(** [src/include/dwarf.h:343-343], [unw_debug_frame_list] *)
Definition fdesc_index_size (m : memory) (fdesc : Z) : res Z := load 8 m (u64 (fdesc + 40)).

Section search.
Context {P : Type} `{!PoolOps P}.

(** The table to search, its size in bytes and the base of its FDEs.
    [src/Gfind_proc_info-lsb.c:378-397], [dwarf_search_unwind_table] *)
Definition search_table (m : memory) (di : unw_dyn_info_t) : res (Z * Z * Z) :=
  if di.(di_format) =? UNW_INFO_FORMAT_REMOTE_TABLE then
    Ok (u_table_data di, u64 (u_table_len di * 8), 0)
  else
    let fdesc := u_table_data di in
    table ← fdesc_index m fdesc;
    index_size ← fdesc_index_size m fdesc;
    debug_frame ← fdesc_debug_frame m fdesc;
    Ok (table, u64 (index_size * sizeof_table_entry), debug_frame).

(** The address space is the local one.
    [src/Gfind_proc_info-lsb.c:354-456], [dwarf_search_unwind_table] *)
Definition dwarf_search_unwind_table (fuel : nat) (m : memory) (ip : Z) (di : unw_dyn_info_t)
    (need_unwind_info : bool) : M (fde_state P) () :=
  if negb ((di.(di_format) =? UNW_INFO_FORMAT_REMOTE_TABLE) ||
           (di.(di_format) =? UNW_INFO_FORMAT_TABLE)) then halt Panic
  else if negb ((di.(di_start_ip) <=? ip) && (ip <? di.(di_end_ip))) then halt Panic
  else
    '(table, table_len, debug_frame_base) ← lift (search_table m di);
    let segbase := u_segbase di in
    e ← lift (unw_lookup m table table_len (s32 (ip - segbase)));
    match e with
    | None => fail UNW_ENOINFO
    | Some e =>
        offset ← lift (fde_offset m e);
        let fde_addr := if negb (debug_frame_base =? 0) then u64 (offset + debug_frame_base)
                        else u64 (offset + segbase) in
        mod_st (set_fx_addrp fde_addr);;
        dwarf_extract_proc_info_from_fde fuel m need_unwind_info debug_frame_base;;
        (if di.(di_format) =? UNW_INFO_FORMAT_TABLE then
           mod_st (on_pi (λ pi, set_flags UNW_PI_FLAG_DEBUG_FRAME
             (set_end_ip (u64 (pi.(end_ip) + segbase))
               (set_start_ip (u64 (pi.(start_ip) + segbase)) pi))))
         else mret tt);;
        s ← get_st;
        if (ip <? s.(fx_pi).(start_ip)) || (s.(fx_pi).(end_ip) <=? ip) then fail UNW_ENOINFO
        else mret tt
    end.

(** ** Dynamically registered descriptors *)

(** [src/Gdyn-extract.c:28-62], [unwi_extract_dynamic_proc_info] *)
Definition unwi_extract_dynamic_proc_info (fuel : nat) (m : memory) (ip di : Z)
    (d : unw_dyn_info_t) (need_unwind_info : bool) : M (fde_state P) () :=
  mod_st (on_pi (λ pi, set_format d.(di_format) (set_gp d.(di_gp)
    (set_end_ip d.(di_end_ip) (set_start_ip d.(di_start_ip) pi)))));;
  if d.(di_format) =? UNW_INFO_FORMAT_DYNAMIC then
    mod_st (on_pi (λ pi,
      set_unwind_info (if need_unwind_info then UI_dyn di else UI_null)
        (set_unwind_info_size 0 (set_flags (u_flags d)
          (set_lsda 0 (set_pi_handler (u_handler d) pi))))))
  else if (d.(di_format) =? UNW_INFO_FORMAT_TABLE) ||
          (d.(di_format) =? UNW_INFO_FORMAT_REMOTE_TABLE) then
    dwarf_search_unwind_table fuel m ip d need_unwind_info
  else fail UNW_EINVAL.

(** The walk from the descriptor [di] on.
    [src/Gfind_dynamic_proc_info.c:42-46], [local_find_proc_info] *)
Fixpoint find_dynamic_loop (n fuel : nat) (m : memory) (st : gmap Z unw_dyn_info_t)
    (ip di : Z) (need_unwind_info : bool) : M (fde_state P) () :=
  match n with
  | O => halt NoFuel
  | S n' =>
      if di =? 0 then fail UNW_ENOINFO
      else match st !! di with
           | None => halt (BadAddr di)
           | Some d =>
               if (d.(di_start_ip) <=? ip) && (ip <? d.(di_end_ip)) then
                 unwi_extract_dynamic_proc_info fuel m ip di d need_unwind_info
               else find_dynamic_loop n' fuel m st ip d.(di_next) need_unwind_info
           end
  end.

(** A list without repetition has at most as many descriptors as the store.
    [src/Gfind_dynamic_proc_info.c:28-47], [local_find_proc_info] *)
Definition local_find_proc_info (fuel : nat) (m : memory) (ds : dyn_state) (ip : Z)
    (need_unwind_info : bool) : M (fde_state P) () :=
  find_dynamic_loop (S (size ds.(dl_store))) fuel m ds.(dl_store) ip ds.(dl_first)
    need_unwind_info.

(** [src/Gfind_dynamic_proc_info.c:49-55], [unwi_find_dynamic_proc_info] *)
Definition unwi_find_dynamic_proc_info (fuel : nat) (m : memory) (ds : dyn_state) (ip : Z)
    (need_unwind_info : bool) : M (fde_state P) () :=
  local_find_proc_info fuel m ds ip need_unwind_info.

(** [src/Gfind_proc_info-lsb.c:458-462], [dwarf_put_unwind_info] *)
Definition dwarf_put_unwind_info : M (fde_state P) () := mret tt.

(** [src/Gput_dynamic_unwind_info.c:28-55], [unwi_put_dynamic_unwind_info] *)
Definition unwi_put_dynamic_unwind_info : M (fde_state P) () :=
  s ← get_st;
  if s.(fx_pi).(format) =? UNW_INFO_FORMAT_DYNAMIC then mret tt
  else if (s.(fx_pi).(format) =? UNW_INFO_FORMAT_TABLE) ||
          (s.(fx_pi).(format) =? UNW_INFO_FORMAT_REMOTE_TABLE) then dwarf_put_unwind_info
  else mret tt.

(** ** The search of a section *)

(** [n] is what is left of [fde_count] and [*addrp] the local [addr].
    [src/Gfind_proc_info-lsb.c:127-147], [linear_search] *)
Fixpoint linear_search_loop (n fuel : nat) (m : memory) (ip eh_frame_end : Z)
    (need_unwind_info : bool) : M (fde_state P) Z :=
  match n with
  | O => fail UNW_ENOINFO
  | S n' =>
      s ← get_st;
      if eh_frame_end <=? s.(fx_addrp) then fail UNW_ENOINFO
      else
        let fde_addr := s.(fx_addrp) in
        ret ← try (dwarf_extract_proc_info_from_fde fuel m false 0);
        match ret with
        | inr _ => linear_search_loop n' fuel m ip eh_frame_end need_unwind_info
        | inl _ =>
            s ← get_st;
            if (s.(fx_pi).(start_ip) <=? ip) && (ip <? s.(fx_pi).(end_ip)) then
              if negb need_unwind_info then mret 1
              else
                mod_st (set_fx_addrp fde_addr);;
                dwarf_extract_proc_info_from_fde fuel m need_unwind_info 0;;
                mret 1
            else linear_search_loop n' fuel m ip eh_frame_end need_unwind_info
        end
  end.

(** [src/Gfind_proc_info-lsb.c:115-148], [linear_search] *)
Definition linear_search (fuel : nat) (m : memory) (ip eh_frame_start eh_frame_end fde_count : Z)
    (need_unwind_info : bool) : M (fde_state P) Z :=
  mod_st (set_fx_addrp eh_frame_start);;
  linear_search_loop (Z.to_nat fde_count) fuel m ip eh_frame_end need_unwind_info.
End search.

(** The loop of the comparison; [index] is an [unsigned int].
    [src/Gfind_proc_info-lsb.c:165-176], [strings_equal] *)
Fixpoint strings_equal_loop (fuel : nat) (m : memory) (str1 str2 index : Z) : res bool :=
  match fuel with
  | O => Stop NoFuel
  | S fuel' =>
      c1 ← load 1 m (u64 (str1 + index));
      c2 ← load 1 m (u64 (str2 + index));
      if c1 =? c2 then
        if c1 =? 0 then Ok true else strings_equal_loop fuel' m str1 str2 (u32 (index + 1))
      else Ok false
  end.

(** [src/Gfind_proc_info-lsb.c:151-179], [strings_equal] *)
Definition strings_equal (fuel : nat) (m : memory) (str1 str2 : Z) : res bool :=
  if str1 =? str2 then Ok true
  else if (str1 =? 0) || (str2 =? 0) then Ok false
  else strings_equal_loop fuel m str1 str2 0.

(** A section of a loaded module.
    [src/Gfind_proc_info-lsb.c:59-65], [Elf_progent] *)
Record Elf_progent := ElfProgent {
  pe_addr : Z;
  pe_size : Z;
  pe_name : Z
}.

(** The fields the search uses; [lf_address], [lf_size] and [lf_filename] are of
    the kernel's [struct linker_file].
    [src/Gfind_proc_info-lsb.c:79-110], [elf_file] *)
Record elf_file := ElfFile {
  lf_filename : Z;
  lf_address : Z;
  lf_size : Z;
  progtab : list Elf_progent;
  nprogtab : Z
}.

(** What [linker_ddb_symbol_values] returns. *)
Record linker_symval_t := LinkerSymval { sv_name : Z; sv_value : Z; sv_size : Z }.

(** [src/include/dwarf.h:348-358], [dwarf_callback_data] *)
Record dwarf_callback_data (P : Type) := CallbackData {
  cb_ip : Z;
  cb_need_unwind_info : bool;
  cb_single_fde : bool;
  cb_di : unw_dyn_info_t;
  cb_di_debug : unw_dyn_info_t;
  cb_fx : fde_state P
}.
Arguments CallbackData {P}.
Arguments cb_ip {P}.
Arguments cb_need_unwind_info {P}.
Arguments cb_single_fde {P}.
Arguments cb_di {P}.
Arguments cb_di_debug {P}.
Arguments cb_fx {P}.

(** Where the compiler put the string constants. *)
Class StringConstants := { str_kernel : Z; str_eh_frame : Z }.

(** The kernel's linker: the symbol that covers an address, the values of a
    symbol, and the call of a predicate on the loaded files. *)
Class LinkerOps (P : Type) := {
  linker_ddb_search_symbol : Z → option Z;
  linker_ddb_symbol_values : Z → option linker_symval_t;
  linker_file_foreach : (elf_file → M (dwarf_callback_data P) Z) → M (dwarf_callback_data P) Z
}.

(** Call the predicate on each file until it returns something other than 0. *)
Fixpoint foreach_file {S} (files : list elf_file) (f : elf_file → M S Z) : M S Z :=
  match files with
  | [] => mret 0
  | file :: files' => r ← f file; if r =? 0 then foreach_file files' f else mret r
  end.

Class LinkerLaws (P : Type) `{!LinkerOps P} := {
  linker_files : list elf_file;
  linker_file_foreach_spec : ∀ f s, linker_file_foreach f s = foreach_file linker_files f s
}.

Section find.
Context {P : Type} `{!PoolOps P, !LinkerOps P, !StringConstants}.

Definition set_cb_single_fde (x : bool) (s : dwarf_callback_data P) : dwarf_callback_data P :=
  CallbackData s.(cb_ip) s.(cb_need_unwind_info) x s.(cb_di) s.(cb_di_debug) s.(cb_fx).
Definition on_cb_di (f : unw_dyn_info_t → unw_dyn_info_t) (s : dwarf_callback_data P)
    : dwarf_callback_data P :=
  CallbackData s.(cb_ip) s.(cb_need_unwind_info) s.(cb_single_fde) (f s.(cb_di)) s.(cb_di_debug)
    s.(cb_fx).
Definition set_cb_fx (x : fde_state P) (s : dwarf_callback_data P) : dwarf_callback_data P :=
  CallbackData s.(cb_ip) s.(cb_need_unwind_info) s.(cb_single_fde) s.(cb_di) s.(cb_di_debug) x.

Definition on_cb_fx {A} (f : M (fde_state P) A) : M (dwarf_callback_data P) A := λ s,
  let '(r, fx) := f s.(cb_fx) in (r, set_cb_fx fx s).

Definition di_set_gp (x : Z) (d : unw_dyn_info_t) : unw_dyn_info_t :=
  DynInfo d.(di_next) d.(di_prev) d.(di_start_ip) d.(di_end_ip) x d.(di_format)
    d.(di_u0) d.(di_u1) d.(di_u2) d.(di_u3).

(** The section's table of the file, with the offset of the loop.
    [src/Gfind_proc_info-lsb.c:194-200], [find_eh_frame_section] *)
Fixpoint find_section_loop (n : nat) (fuel : nat) (m : memory) (file : elf_file) (i : Z)
    : res (option Elf_progent) :=
  match n with
  | O => Ok None
  | S n' =>
      progent ← aread file.(progtab) i;
      found ← strings_equal fuel m progent.(pe_name) str_eh_frame;
      if (found : bool) then Ok (Some progent) else find_section_loop n' fuel m file (i + 1)
  end.

(** [src/Gfind_proc_info-lsb.c:181-208], [find_eh_frame_section] *)
Definition find_eh_frame_section (fuel : nat) (m : memory) (file : elf_file)
    : res (option Elf_progent) :=
  kernel ← strings_equal fuel m str_kernel file.(lf_filename);
  if (kernel : bool) then Ok None
  else find_section_loop (Z.to_nat file.(nprogtab)) fuel m file 0.

(** The return code of the linear search: an error is only compared with 1.
    [src/Gfind_proc_info-lsb.c:214-283], [dwarf_callback] *)
Definition dwarf_callback (fuel : nat) (m : memory) (file : elf_file)
    : M (dwarf_callback_data P) Z :=
  cb ← get_st;
  let ip := cb.(cb_ip) in
  if (ip <? file.(lf_address)) || (u64 (file.(lf_address) + file.(lf_size)) <? ip) then mret 0
  else match linker_ddb_search_symbol ip with
  | None => mret 0
  | Some function_symbol =>
  match linker_ddb_symbol_values function_symbol with
  | None => mret 0
  | Some values =>
      mod_st (λ cb, set_cb_fx (on_pi (set_gp 0) cb.(cb_fx)) (on_cb_di (di_set_gp 0) cb));;
      section ← lift (find_eh_frame_section fuel m file);
      match section with
      | None => mret 0
      | Some section =>
          let eh_frame_start := section.(pe_addr) in
          let eh_frame_end := u64 (section.(pe_addr) + section.(pe_size)) in
          let fde_count := u64 (eh_frame_end - eh_frame_start) / sizeof_table_entry in
          mod_st (λ cb, set_cb_single_fde true
            (set_cb_fx (on_pi (set_format UNW_INFO_FORMAT_TABLE) cb.(cb_fx))
              (on_cb_di (λ d, DynInfo d.(di_next) d.(di_prev) values.(sv_value)
                 (u64 (values.(sv_value) + values.(sv_size))) d.(di_gp) UNW_INFO_FORMAT_TABLE
                 values.(sv_name) d.(di_u1) d.(di_u2) d.(di_u3)) cb)));;
          found ← on_cb_fx (try (linear_search fuel m ip eh_frame_start eh_frame_end fde_count
                                   cb.(cb_need_unwind_info)));
          match found with
          | inl found => if negb (found =? 1) then mret 0 else mret found
          | inr _ => mret 0
          end
      end
  end
  end.

Definition zero_dyn_info (format : Z) : unw_dyn_info_t := DynInfo 0 0 0 0 0 format 0 0 0 0.

(** [src/Gfind_proc_info-lsb.c:295-300], [dwarf_find_proc_info] *)
Definition callback_start (ip : Z) (need_unwind_info : bool) (fx : fde_state P)
    : dwarf_callback_data P :=
  CallbackData ip need_unwind_info false (zero_dyn_info (-1)) (zero_dyn_info (-1)) fx.

(** [src/Gfind_proc_info-lsb.c:285-327], [dwarf_find_proc_info] *)
Definition dwarf_find_proc_info (fuel : nat) (m : memory) (ip : Z) (need_unwind_info : bool)
    : M (fde_state P) () := λ fx,
  match linker_file_foreach (dwarf_callback fuel m) (callback_start ip need_unwind_info fx) with
  | (Ok ret, cb) =>
      (if 0 <? ret then fail UNW_ENOINFO
       else if cb.(cb_single_fde) then mret tt
       else
         ret ← (if negb (cb.(cb_di).(di_format) =? -1)
                then try (dwarf_search_unwind_table fuel m ip cb.(cb_di) need_unwind_info)
                else mret (inr UNW_ENOINFO));
         if bool_decide (ret = inr UNW_ENOINFO) && negb (cb.(cb_di_debug).(di_format) =? -1)
         then dwarf_search_unwind_table fuel m ip cb.(cb_di_debug) need_unwind_info
         else match ret with inl _ => mret tt | inr e => fail e end) cb.(cb_fx)
  | (Err e, cb) => (Err e, cb.(cb_fx))
  | (Stop t, cb) => (Stop t, cb.(cb_fx))
  end.
End find.

#[global] Arguments lookup_fuel : simpl never.

(** ** The binary search *)

Definition entry_bytes (e : Z * Z) : list Z := le_bytes 4 e.1 ++ le_bytes 4 e.2.

Definition entry_ok (e : Z * Z) : Prop :=
  - 2 ^ 31 ≤ e.1 < 2 ^ 31 ∧ - 2 ^ 31 ≤ e.2 < 2 ^ 31.

(** The entries [es] are stored at [table]. *)
Definition table_at (m : memory) (table : Z) (es : list (Z * Z)) : Prop :=
  bytes_at m table (es ≫= entry_bytes) ∧ Forall entry_ok es ∧ is_u64 table ∧
  8 * Z.of_nat (length es) < 18446744073709551616.

#[export] Instance table_at_dec m table es : Decision (table_at m table es).
Proof. unfold table_at, entry_ok. apply _. Defined.

Lemma load_s32_bytes m a v :
  - 2 ^ 31 ≤ v < 2 ^ 31 → bytes_at m a (le_bytes 4 v) → load_s32 m a = Ok v.
Proof.
  intros Hv Hm. unfold load_s32. pose proof (load_bytes_at _ _ _ Hm) as E.
  rewrite length_le_bytes, le_value_bytes in E. rewrite E. mred. f_equal.
  unfold s32, sext. change (256 ^ Z.of_nat 4) with (2 ^ 32).
  rewrite Zplus_mod_idemp_l. apply (sext_small 32); lia.
Qed.

Lemma bytes_at_entry m a es i e :
  is_u64 a → bytes_at m a (es ≫= entry_bytes) → es !! i = Some e →
  bytes_at m (u64 (a + Z.of_nat i * 8)) (entry_bytes e).
Proof.
  revert a i. induction es as [|x es IH]; intros a [|i] Ha Hm He; try done.
  - injection He as ->. cbn [mbind list_bind] in Hm. apply bytes_at_app in Hm as [Hm _]; [|done].
    by rewrite Z.mul_0_l, Z.add_0_r, u64_small.
  - cbn [mbind list_bind] in Hm. apply bytes_at_app in Hm as [_ Hm]; [|done].
    specialize (IH _ i (u64_range _) Hm He). revert IH. rewrite u64_add_l.
    unfold entry_bytes at 1. rewrite length_app, !length_le_bytes.
    replace (a + Z.of_nat (4 + 4) + Z.of_nat i * 8) with (a + Z.of_nat (S i) * 8) by lia. done.
Qed.

Lemma table_entry m table es i e :
  table_at m table es → es !! i = Some e →
  let a := u64 (table + Z.of_nat i * sizeof_table_entry) in
  start_ip_offset m a = Ok e.1 ∧ fde_offset m a = Ok e.2.
Proof.
  intros (Hm & Hok & Ht & _) He a. pose proof (bytes_at_entry _ _ _ _ _ Ht Hm He) as Hb.
  rewrite Forall_forall in Hok. destruct (Hok e) as [H1 H2]; [by eapply list_elem_of_lookup_2|].
  unfold entry_bytes in Hb. apply bytes_at_app in Hb as [Hb1 Hb2]; [|apply u64_range].
  rewrite length_le_bytes in Hb2. split; by apply load_s32_bytes.
Qed.

Lemma sorted_lookup {A} (R : A → A → Prop) (l : list A) i j x y :
  StronglySorted R l → l !! i = Some x → l !! j = Some y → (i < j)%nat → R x y.
Proof.
  intros Hs. revert i j. induction Hs as [|z l Hs IH Hz]; intros i j Hx Hy Hij; [done|].
  destruct j as [|j]; [lia|]. destruct i as [|i]; [|by eapply (IH i j); [..|lia]].
  injection Hx as ->. simpl in Hy. rewrite Forall_forall in Hz. apply Hz.
  by eapply list_elem_of_lookup_2.
Qed.

(** [k] separates the entries that start at or before [rel] from the others. *)
Definition splits (es : list (Z * Z)) (rel : Z) (lo hi : nat) : Prop :=
  (∀ i e, es !! i = Some e → (i < lo)%nat → e.1 ≤ rel) ∧
  (∀ i e, es !! i = Some e → (hi ≤ i)%nat → rel < e.1).

Lemma splits_step es rel lo hi mid e :
  StronglySorted (λ a b : Z * Z, a.1 ≤ b.1) es → splits es rel lo hi →
  es !! mid = Some e →
  if rel <? e.1 then splits es rel lo mid else splits es rel (S mid) hi.
Proof.
  intros Hs [Hlo Hhi] He.
  assert (Hle : ∀ i j ei ej, es !! i = Some ei → es !! j = Some ej → (i ≤ j)%nat → ei.1 ≤ ej.1).
  { intros i j ei ej Hi Hj Hij. destruct (decide (i = j)) as [->|]; [by simplify_eq|].
    eapply (sorted_lookup (λ a b : Z * Z, a.1 ≤ b.1) es i j); [done..|]. lia. }
  destruct (Z.ltb_spec rel e.1); (split; [|]); try done; intros i x Hx Hi.
  - pose proof (Hle _ _ _ _ He Hx Hi). lia.
  - assert (i ≤ mid)%nat by lia. pose proof (Hle _ _ _ _ Hx He). lia.
Qed.

Lemma lookup_loop_spec m table es rel : ∀ fuel lo hi,
  table_at m table es → StronglySorted (λ a b : Z * Z, a.1 ≤ b.1) es →
  (lo ≤ hi ≤ length es)%nat → Z.of_nat (hi - lo) < 2 ^ Z.of_nat fuel →
  splits es rel lo hi →
  ∃ k, (k ≤ length es)%nat ∧ splits es rel k k ∧
    unw_lookup_loop (S fuel) m table rel (Z.of_nat lo) (Z.of_nat hi) = Ok (Z.of_nat k).
Proof.
  induction fuel as [|fuel IH]; intros lo hi Ht Hs Hb Hf Hsp.
  - exists hi. assert (lo = hi) as -> by (simpl in Hf; lia).
    split_and!; [lia|done|]. cbn [unw_lookup_loop]. by rewrite Z.ltb_irrefl.
  - remember (S fuel) as f eqn:Ef. cbn [unw_lookup_loop].
    destruct (Z.ltb_spec (Z.of_nat lo) (Z.of_nat hi)) as [Hlt|Hge].
    2: { exists hi. assert (lo = hi) as -> by lia. by split_and!; [lia|..]. }
    assert (Hn : 8 * Z.of_nat (length es) < 18446744073709551616) by apply Ht.
    rewrite u64_small by (unfold is_u64; lia).
    set (mid := Nat.div2 (lo + hi)).
    assert (Hmid : (Z.of_nat lo + Z.of_nat hi) / 2 = Z.of_nat mid).
    { unfold mid. rewrite Nat.div2_div, Nat2Z.inj_div. f_equal. lia. }
    assert (Hm2 : (lo ≤ mid < hi)%nat) by (apply Nat2Z.inj_lt in Hlt || lia; dlia).
    rewrite Hmid. destruct (lookup_lt_is_Some_2 es mid) as [e He]; [lia|].
    destruct (table_entry _ _ _ _ _ Ht He) as [E _]. rewrite E. mred. cbn [fst].
    pose proof (splits_step es rel lo hi mid e Hs Hsp He) as Hst.
    assert (2 ^ Z.of_nat (S fuel) = 2 * 2 ^ Z.of_nat fuel) as Hp
      by (rewrite Nat2Z.inj_succ, Z.pow_succ_r; lia).
    subst f. destruct (rel <? e.1).
    + apply IH; try done; [lia|]. dlia.
    + replace (Z.of_nat mid + 1) with (Z.of_nat (S mid)) by lia. apply IH; try done; [lia|]. dlia.
Qed.

Lemma unw_lookup_spec m table table_size rel_ip (es : list (Z * Z)) :
  table_at m table es → StronglySorted (λ a b : Z * Z, a.1 ≤ b.1) es →
  table_size / sizeof_table_entry = Z.of_nat (length es) →
  ∃ k, (k ≤ length es)%nat ∧ Forall (λ e : Z * Z, e.1 ≤ rel_ip) (take k es) ∧
    Forall (λ e : Z * Z, rel_ip < e.1) (drop k es) ∧
    unw_lookup m table table_size rel_ip =
      Ok (match k with
          | O => None
          | S i => Some (u64 (table + Z.of_nat i * sizeof_table_entry))
          end).
Proof.
  intros Ht Hs Hn. unfold unw_lookup. rewrite Hn.
  destruct (lookup_loop_spec m table es rel_ip 63 0 (length es)) as (k & Hk & [H1 H2] & E); try done.
  - lia.
  - destruct Ht as (_ & _ & _ & Hlen). change (2 ^ Z.of_nat 63) with 9223372036854775808. lia.
  - split; intros i e He Hi; [lia|]. apply lookup_lt_Some in He. lia.
  - exists k. split_and!; [done| | |].
    + apply Forall_lookup. intros i e [He Hi]%lookup_take_Some. by eapply H1.
    + apply Forall_lookup. intros i e He. rewrite lookup_drop in He. eapply H2; [exact He|lia].
    + replace (unw_lookup_loop lookup_fuel m table rel_ip 0 (Z.of_nat (length es)))
        with (Ok (Z.of_nat k)) by (symmetry; exact E).
      mred. destruct k as [|k]; [done|].
      rewrite (proj2 (Z.leb_gt _ _)) by lia. do 3 f_equal. lia.
Qed.

(** The last entry at or before [x]. *)
Definition last_before (es : list (Z * Z)) (x : Z) : option (Z * Z) :=
  last (filter (λ e : Z * Z, e.1 ≤ x) es).

Lemma last_before_split es x k :
  Forall (λ e : Z * Z, e.1 ≤ x) (take k es) → Forall (λ e : Z * Z, x < e.1) (drop k es) →
  last_before es x = last (take k es).
Proof.
  intros H1 H2. unfold last_before. rewrite <- (take_drop k es) at 1. rewrite filter_app.
  assert (Hall : filter (λ e : Z * Z, e.1 ≤ x) (take k es) = take k es).
  { induction H1 as [|e l He _ IH]; [done|]. by rewrite filter_cons_True, IH. }
  assert (Hnone : filter (λ e : Z * Z, e.1 ≤ x) (drop k es) = []).
  { induction H2 as [|e l He _ IH]; [done|]. by rewrite filter_cons_False by lia. }
  by rewrite Hall, Hnone, app_nil_r.
Qed.

(** Following the entry found: the address it gives relative to [segbase]. *)
Lemma unw_lookup_entry m table table_size rel_ip (es : list (Z * Z)) e :
  table_at m table es → StronglySorted (λ a b : Z * Z, a.1 ≤ b.1) es →
  table_size / sizeof_table_entry = Z.of_nat (length es) →
  last_before es rel_ip = Some e →
  ∃ a, unw_lookup m table table_size rel_ip = Ok (Some a) ∧ fde_offset m a = Ok e.2.
Proof.
  intros Ht Hs Hn He. destruct (unw_lookup_spec m table table_size rel_ip es Ht Hs Hn)
    as (k & Hk & H1 & H2 & E).
  rewrite (last_before_split _ _ _ H1 H2) in He. destruct k as [|i]; [done|].
  rewrite last_lookup, length_take_le in He by done. cbn [pred] in He.
  rewrite lookup_take_lt in He by lia. eexists. split; [exact E|].
  by apply (table_entry m table es i e).
Qed.

(** ** A section of entries *)

(** An entry of [.eh_frame]: a CIE, which the search passes over, or an FDE with
    its CIE's data and the values of its two pointers. *)
Inductive eh_entry :=
  | EhCie (body : list Z)
  | EhFde (d : fde_desc) (dci : dwarf_cie_info_t) (start lsda_ : Z).

Definition eh_bytes (e : eh_entry) : list Z :=
  match e with
  | EhCie body => le_bytes 4 (4 + Z.of_nat (length body)) ++ le_bytes 4 0 ++ body
  | EhFde d _ _ _ => fde_bytes d
  end.

(** The entry at [a] is well formed; its pointers do not depend on what the
    caller's structure held before. *)
Definition eh_valid (m : memory) (fuel : nat) (a : Z) (e : eh_entry) : Prop :=
  match e with
  | EhCie body => 4 + Z.of_nat (length body) < 0xffffffff
  | EhFde d dci start lsda_ =>
      fde_encodable d ∧ d.(fd_cie_offset) ≠ 0 ∧ fde_matches d dci ∧
      (∀ pi, parse_cie fuel m (u64 (a + 4 - d.(fd_cie_offset))) pi zero_cie_info 0 = Ok dci) ∧
      (∀ pi, pe_value m d.(fd_format) d.(fd_app) d.(fd_ind) d.(fd_start) pi (u64 (a + 8)) = Ok start) ∧
      (∀ pi, pi.(start_ip) = start → pe_item_value m d.(fd_lsda) pi (fd_lsda_addr a d) = Ok lsda_)
  end.

Fixpoint eh_frame (m : memory) (fuel : nat) (a : Z) (es : list eh_entry) : Prop :=
  match es with
  | [] => True
  | e :: es' => bytes_at m a (eh_bytes e) ∧ eh_valid m fuel a e ∧
      eh_frame m fuel (u64 (a + Z.of_nat (length (eh_bytes e)))) es'
  end.

Definition eh_size (es : list eh_entry) : Z := Z.of_nat (length (es ≫= eh_bytes)).

(** The first FDE whose range has [ip], with its address. *)
Fixpoint find_fde (ip a : Z) (es : list eh_entry) : option (Z * fde_desc * dwarf_cie_info_t * Z * Z) :=
  match es with
  | [] => None
  | e :: es' =>
      let next := find_fde ip (u64 (a + Z.of_nat (length (eh_bytes e)))) es' in
      match e with
      | EhFde d dci start lsda_ =>
          if (start <=? ip) && (ip <? u64 (start + fd_length d))
          then Some (a, d, dci, start, lsda_) else next
      | EhCie _ => next
      end
  end.

(** The range recorded in [pi] has [ip]. *)
Definition in_range (ip : Z) (pi : unw_proc_info_t) : bool :=
  (pi.(start_ip) <=? ip) && (ip <? pi.(end_ip)).

(** The search from [a] to [end_]: the entries [es], then nothing or the zero
    length that ends a table. *)
Definition eh_section (m : memory) (fuel : nat) (a end_ : Z) (es : list eh_entry) : Prop :=
  eh_frame m fuel a es ∧ 0 ≤ a ∧ end_ < 18446744073709551616 ∧
  (end_ = a + eh_size es ∨
   end_ = a + eh_size es + 4 ∧ bytes_at m (a + eh_size es) (le_bytes 4 0)).

(** Two descriptions an extraction completes to the same. *)
Definition same_rest (p q : unw_proc_info_t) : Prop :=
  ∀ d start lsda_ hnd, fde_pi d start lsda_ hnd p = fde_pi d start lsda_ hnd q.

(** The fields of the unwind information are the same. *)
Definition same_info (p q : unw_proc_info_t) : Prop :=
  p.(unwind_info) = q.(unwind_info) ∧ p.(format) = q.(format).

Lemma same_rest_fde d start lsda_ hnd p q :
  same_rest p q → same_rest (fde_pi d start lsda_ hnd p) q.
Proof. intros H d' s' l' h'. by rewrite <- H. Qed.

Lemma eh_size_cons e es : eh_size (e :: es) = Z.of_nat (length (eh_bytes e)) + eh_size es.
Proof. unfold eh_size. cbn [mbind list_bind]. rewrite length_app. lia. Qed.

Lemma eh_entry_size e : (8 ≤ length (eh_bytes e))%nat.
Proof.
  destruct e as [body|d dci st ls]; cbn [eh_bytes].
  - rewrite !length_app, !length_le_bytes. lia.
  - unfold fde_bytes, fde_body. rewrite !length_app, !length_le_bytes. lia.
Qed.

Lemma eh_size_count es : 8 * Z.of_nat (length es) ≤ eh_size es.
Proof.
  induction es as [|e es IH]; [done|]. rewrite eh_size_cons. pose proof (eh_entry_size e).
  cbn [length]. lia.
Qed.

(** The rest of the section after its first entry. *)
Lemma eh_section_tail m fuel a end_ e es :
  eh_section m fuel a end_ (e :: es) →
  let b := a + Z.of_nat (length (eh_bytes e)) in
  u64 b = b ∧ is_u64 a ∧ a < end_ ∧ eh_section m fuel b end_ es.
Proof.
  intros ((Hb & Hv & He) & Ha & Hend & Hterm) b. rewrite eh_size_cons in Hterm.
  pose proof (eh_entry_size e). pose proof (eh_size_count es).
  assert (Hu : u64 b = b) by (apply u64_small; unfold is_u64; lia).
  split_and!; [done|unfold is_u64; lia|lia|].
  unfold b in Hu. rewrite Hu in He. split_and!; [done|lia|lia|]. unfold b.
  rewrite <- !Z.add_assoc in *. tauto.
Qed.

Section linear.
Context {P : Type} `{!PoolOps P}.

(** The entry is an FDE: what the extraction without unwind information does. *)
Lemma extract_entry m fuel d dci start lsda_ (s : fde_state P) :
  let a := s.(fx_addrp) in
  is_u64 a → bytes_at m a (fde_bytes d) → eh_valid m fuel a (EhFde d dci start lsda_) →
  dwarf_extract_proc_info_from_fde fuel m false 0 s =
    (Ok tt, FdeState (u64 (a + Z.of_nat (length (fde_bytes d))))
              (fde_pi d start lsda_ dci.(handler) s.(fx_pi)) s.(fx_pool)).
Proof.
  intros a Ha Hm (He & Ho & Hmt & Hc & Hs & Hl).
  destruct (extract_reduces m fuel d dci s start lsda_) as [_ E]; auto.
  rewrite (E false). cbn zeta. do 2 f_equal. unfold fde_bytes. rewrite length_app, length_le_bytes.
  fold a. u64_eq.
Qed.

Lemma linear_search_none m fuel ip end_ need : ∀ n (s : fde_state P),
  (end_ ≤ s.(fx_addrp) ∨ is_u64 s.(fx_addrp) ∧ bytes_at m s.(fx_addrp) (le_bytes 4 0)) →
  linear_search_loop n fuel m ip end_ need s = (Err UNW_ENOINFO, s).
Proof.
  induction n as [|n IH]; intros s Hs; [done|]. cbn [linear_search_loop]. mred.
  destruct (Z.leb_spec end_ s.(fx_addrp)); [done|].
  destruct Hs as [?|[Ha Hm]]; [lia|]. unfold try.
  assert (E : dwarf_extract_proc_info_from_fde fuel m false 0 s = (Err UNW_ENOINFO, s)).
  { unfold dwarf_extract_proc_info_from_fde, fde_header. mred.
    by rewrite (reads_u32 m _ 0 ltac:(lia) Ha Hm). }
  rewrite E. mred. apply IH. by right.
Qed.

(** The loop reaches the first FDE for [ip], the caller's structure changed only
    in the fields the FDE sets. *)
Lemma linear_search_loop_spec m fuel ip end_ need es : ∀ n a (s : fde_state P) pi0,
  s.(fx_addrp) = a → eh_section m fuel a end_ es → (length es ≤ n)%nat →
  in_range ip s.(fx_pi) = false → same_rest s.(fx_pi) pi0 →
  match find_fde ip a es with
  | None => ∃ s', linear_search_loop n fuel m ip end_ need s = (Err UNW_ENOINFO, s') ∧
      s'.(fx_pool) = s.(fx_pool) ∧ same_info s'.(fx_pi) s.(fx_pi)
  | Some (b, d, dci, start, lsda_) =>
      is_u64 b ∧ bytes_at m b (fde_bytes d) ∧ eh_valid m fuel b (EhFde d dci start lsda_) ∧
      ∃ pi1, same_rest pi1 pi0 ∧ linear_search_loop n fuel m ip end_ need s =
        let s' := FdeState (u64 (b + Z.of_nat (length (fde_bytes d))))
                    (fde_pi d start lsda_ dci.(handler) pi1) s.(fx_pool) in
        if negb need then (Ok 1, s')
        else (dwarf_extract_proc_info_from_fde fuel m true 0;; mret 1) (set_fx_addrp b s')
  end.
Proof.
  induction es as [|e es IH]; intros n a s pi0 <- Hsec Hn Hr Hpi.
  - exists s. split_and!; [|done|done]. apply linear_search_none.
    destruct Hsec as (_ & ? & ? & [->|[-> Hm]]); change (eh_size []) with 0 in *; [left; lia|].
    right. rewrite Z.add_0_r in Hm. unfold is_u64. split; [lia|done].
  - destruct n as [|n]; [simpl in Hn; lia|].
    pose proof (eh_section_tail _ _ _ _ _ _ Hsec) as (Hu & Ha & Hlt & Htl).
    destruct Hsec as ((Hb & Hv & _) & _).
    cbn [linear_search_loop find_fde]. mred. rewrite (proj2 (Z.leb_gt _ _) Hlt), Hu.
    unfold try. destruct e as [body|d dci st ls]; cbn [eh_bytes] in *.
    + rewrite (extract_at_cie P _ m fuel false (4 + Z.of_nat (length body)) s Ha).
      2: { simpl in Hv. lia. }
      2: { rewrite app_assoc in Hb. by apply bytes_at_app in Hb as [Hb _]. }
      rewrite (proj2 (Z.eqb_neq (4 + Z.of_nat (length body)) 0)) by lia. mred. cbn [set_fx_addrp fx_pi].
      unfold in_range in Hr. rewrite Hr.
      assert (Hb' : u64 (s.(fx_addrp) + 4 + (4 + Z.of_nat (length body))) =
        s.(fx_addrp) + Z.of_nat (length (le_bytes 4 (4 + Z.of_nat (length body)) ++ le_bytes 4 0 ++ body))).
      { rewrite <- Hu. rewrite !length_app, !length_le_bytes. f_equal. lia. }
      rewrite Hb'.
      apply (IH n _ (set_fx_addrp (s.(fx_addrp) + Z.of_nat (length (le_bytes 4
        (4 + Z.of_nat (length body)) ++ le_bytes 4 0 ++ body))) s) pi0 eq_refl Htl); try done.
      simpl in Hn; lia.
    + rewrite (extract_entry m fuel d dci st ls s Ha Hb Hv). mred. cbn [fx_pi fx_addrp fx_pool].
      change (start_ip (fde_pi d st ls (handler dci) (fx_pi s))) with st.
      change (end_ip (fde_pi d st ls (handler dci) (fx_pi s))) with (u64 (st + fd_length d)).
      destruct ((st <=? ip) && (ip <? u64 (st + fd_length d))) eqn:Ein.
      * split_and!; [done..|]. exists s.(fx_pi). split; [done|]. by destruct need.
      * rewrite Hu. specialize (IH n _ (FdeState (s.(fx_addrp) + Z.of_nat (length (fde_bytes d)))
          (fde_pi d st ls (handler dci) (fx_pi s)) (fx_pool s)) pi0 eq_refl Htl).
        apply IH; [simpl in Hn; lia|exact Ein|by apply same_rest_fde].
Qed.
End linear.

Section linear_spec.
Context {P : Type} `{!PoolOps P, !PoolLaws P}.

(** What a search that should find [found] returns from [s]: 1 and the
    description of the procedure, with a new object of the pool if that is
    needed, or the error. *)
Definition search_result (need : bool) (live : gset Z) (s : fde_state P)
    (found : option (Z * fde_desc * dwarf_cie_info_t * Z * Z)) (r : res Z) (s' : fde_state P) : Prop :=
  match found, r with
  | None, Err e => e = UNW_ENOINFO ∧ s'.(fx_pool) = s.(fx_pool) ∧ same_info s'.(fx_pi) s.(fx_pi)
  | Some (b, d, dci, start, lsda_), Ok v => v = 1 ∧
      let pi1 := fde_pi d start lsda_ dci.(handler) s.(fx_pi) in
      if need then ∃ obj, obj ∉ live ∧ pool_ok s'.(fx_pool) ({[obj]} ∪ live) ∧
                     s'.(fx_pi) = with_unwind_info obj (fde_cie b d dci) pi1
      else s'.(fx_pi) = pi1 ∧ s'.(fx_pool) = s.(fx_pool)
  | Some _, Stop t => need = true ∧ t = Panic
  | _, _ => False
  end.

Lemma extract_again m fuel b d dci start lsda_ pi1 live (s : fde_state P) :
  is_u64 b → bytes_at m b (fde_bytes d) → eh_valid m fuel b (EhFde d dci start lsda_) →
  pool_ok s.(fx_pool) live → same_rest s.(fx_pi) pi1 → s.(fx_addrp) = b →
  match dwarf_extract_proc_info_from_fde fuel m true 0 s with
  | (Ok _, s') => ∃ obj, obj ∉ live ∧ pool_ok s'.(fx_pool) ({[obj]} ∪ live) ∧
      s'.(fx_pi) = with_unwind_info obj (fde_cie b d dci) (fde_pi d start lsda_ dci.(handler) pi1)
  | (Err _, _) => False
  | (Stop t, _) => t = Panic
  end.
Proof.
  intros Hb Hm (He & Ho & Hmt & Hc & Hs & Hl) Hp Hpi <-.
  destruct (extract_reduces m fuel d dci s start lsda_) as [Haug E]; auto.
  rewrite (E true). clear E. cbn zeta.
  match goal with |- context [fde_unwind_info m dci ?a ?g ?e ?x] =>
    pose proof (pool_alloc_ok x.(fx_pool) live Hp) as Hal;
    destruct (pool_alloc x.(fx_pool)) as [[obj|e'|t] p] eqn:E; [|done|];
    [|subst t; by destruct (fde_unwind_info_stop m dci a g e x Panic p E) as [s1 ->]];
    destruct Hal as (Hobj & Hnew & Hp');
    rewrite (fde_unwind_info_spec m dci (fx_addrp s) d x obj p) by done
  end.
  exists obj. split_and!; [done|done|]. cbn [fx_pi]. by rewrite <- Hpi.
Qed.

Lemma linear_search_spec m fuel a end_ es ip need live (s : fde_state P) :
  eh_section m fuel a end_ es → in_range ip s.(fx_pi) = false → pool_ok s.(fx_pool) live →
  let '(r, s') := linear_search fuel m ip a end_ (u64 (end_ - a) / sizeof_table_entry) need s in
  search_result need live s (find_fde ip a es) r s'.
Proof.
  intros Hsec Hr Hp. unfold linear_search. mred.
  assert (Hcount : (length es ≤ Z.to_nat (u64 (end_ - a) / sizeof_table_entry))%nat).
  { destruct Hsec as (_ & Ha & Hend & Ht). pose proof (eh_size_count es) as Hc.
    rewrite u64_small by (unfold is_u64; lia). unfold sizeof_table_entry.
    assert (8 * Z.of_nat (length es) ≤ end_ - a) by lia. apply Nat2Z.inj_le. dlia. }
  pose proof (linear_search_loop_spec m fuel ip end_ need es _ a (set_fx_addrp a s) s.(fx_pi)
    eq_refl Hsec Hcount Hr ltac:(done)) as H.
  destruct (find_fde ip a es) as [[[[[b d] dci] start] lsda_]|].
  - destruct H as (Hb & Hm & Hv & pi1 & Hpi & ->). destruct need; cbn [negb].
    + mred. match goal with |- context [dwarf_extract_proc_info_from_fde fuel m true 0 ?x] =>
        pose proof (extract_again m fuel b d dci start lsda_ s.(fx_pi) live x Hb Hm Hv Hp) as Hx;
        destruct (dwarf_extract_proc_info_from_fde fuel m true 0 x) as [[[]|e|t] s'] end.
      * split; [done|]. apply Hx; [by apply same_rest_fde|done].
      * apply Hx; [by apply same_rest_fde|done].
      * split; [done|]. apply Hx; [by apply same_rest_fde|done].
    + split; [done|]. split; [|done]. cbn [fx_pi]. apply Hpi.
  - destruct H as (s' & -> & ? & ?). by split_and!.
Qed.
End linear_spec.

(** ** The files of the kernel *)

Section find_spec.
Context {P : Type} `{!PoolOps P, !PoolLaws P, !LinkerOps P, !LinkerLaws P, !StringConstants}.

(** The address is in the file (its end included, as the code has it). *)
Definition in_file (ip : Z) (file : elf_file) : bool :=
  (file.(lf_address) <=? ip) && (ip <=? u64 (file.(lf_address) + file.(lf_size))).

Lemma callback_other fuel m file (cb : dwarf_callback_data P) :
  in_file cb.(cb_ip) file = false → dwarf_callback fuel m file cb = (Ok 0, cb).
Proof.
  intros Hio. unfold dwarf_callback. mred.
  replace ((cb_ip cb <? lf_address file) || _) with true; [done|].
  unfold in_file in Hio. apply andb_false_iff in Hio as [Hio|Hio]; apply Z.leb_gt in Hio; symmetry;
    apply orb_true_iff; [left|right]; by apply Z.ltb_lt.
Qed.

Lemma foreach_other fuel m files (cb : dwarf_callback_data P) :
  Forall (λ f, in_file cb.(cb_ip) f = false) files →
  foreach_file files (dwarf_callback fuel m) cb = (Ok 0, cb).
Proof.
  induction 1 as [|f fs Hf _ IH]; [done|]. cbn [foreach_file]. mred.
  by rewrite callback_other.
Qed.

Lemma foreach_skip fuel m l1 l2 (cb : dwarf_callback_data P) :
  Forall (λ f, in_file cb.(cb_ip) f = false) l1 →
  foreach_file (l1 ++ l2) (dwarf_callback fuel m) cb = foreach_file l2 (dwarf_callback fuel m) cb.
Proof.
  induction 1 as [|f fs Hf _ IH]; [done|]. cbn [foreach_file app]. mred.
  by rewrite callback_other.
Qed.

(** The structure the search of a section starts from. *)
Definition search_start (s : fde_state P) : fde_state P :=
  on_pi (λ pi, set_format UNW_INFO_FORMAT_TABLE (set_gp 0 pi)) s.

Lemma callback_search fuel m file sym v sec ip need (s : fde_state P) :
  in_file ip file = true →
  linker_ddb_search_symbol ip = Some sym → linker_ddb_symbol_values sym = Some v →
  find_eh_frame_section fuel m file = Ok (Some sec) →
  let '(r, fx) := linear_search fuel m ip sec.(pe_addr) (u64 (sec.(pe_addr) + sec.(pe_size)))
      (u64 (u64 (sec.(pe_addr) + sec.(pe_size)) - sec.(pe_addr)) / sizeof_table_entry) need
      (search_start s) in
  ∃ cb, dwarf_callback fuel m file (callback_start ip need s) =
    (match r with Ok v => Ok (if v =? 1 then 1 else 0) | Err _ => Ok 0 | Stop t => Stop t end, cb) ∧
    cb.(cb_fx) = fx ∧ cb.(cb_single_fde) = true ∧ cb.(cb_ip) = ip.
Proof.
  intros Hf Hs Hv Hsec.
  destruct (linear_search fuel m ip _ _ _ need (search_start s)) as [r fx] eqn:E.
  unfold dwarf_callback. mred. cbn [cb_ip callback_start].
  replace ((ip <? lf_address file) || _) with false.
  2: { symmetry. unfold in_file in Hf. apply andb_true_iff in Hf as [H1 H2].
       apply Z.leb_le in H1, H2. apply orb_false_iff. by split; apply Z.ltb_ge. }
  rewrite Hs, Hv. mred. rewrite Hsec. mred. unfold on_cb_fx, try.
  cbn [cb_fx set_cb_single_fde set_cb_fx on_cb_di on_pi fx_pi fx_addrp fx_pool cb_need_unwind_info callback_start].
  change (search_start s) with (on_pi (set_format UNW_INFO_FORMAT_TABLE) (on_pi (set_gp 0) s)) in E.
  rewrite E.
  destruct r as [x|e|t]; [destruct (Z.eqb_spec x 1) as [->|Hx]; cbn [negb]| |];
    eexists; split; try reflexivity; by split_and!.
Qed.

(** A file of the kernel is searched for [ip]: it is the only one that has the
    address, the address has a symbol, and the section holds the entries [es]. *)
Record module_search (m : memory) (fuel : nat) (ip : Z) (file : elf_file) (sec : Elf_progent)
    (es : list eh_entry) : Prop := {
  ms_files : ∃ l1 l2, linker_files = l1 ++ file :: l2 ∧
    Forall (λ f, in_file ip f = false) (l1 ++ l2);
  ms_in_file : in_file ip file = true;
  ms_symbol : ∃ sym v, linker_ddb_search_symbol ip = Some sym ∧ linker_ddb_symbol_values sym = Some v;
  ms_section : find_eh_frame_section fuel m file = Ok (Some sec);
  ms_end : is_u64 (sec.(pe_addr) + sec.(pe_size));
  ms_entries : eh_section m fuel sec.(pe_addr) (sec.(pe_addr) + sec.(pe_size)) es
}.

(** What [dwarf_find_proc_info] returns from [s] when the search of the module
    gives [found]. *)
Definition inverted_result (need : bool) (live : gset Z) (s : fde_state P)
    (found : option (Z * fde_desc * dwarf_cie_info_t * Z * Z)) (r : res () * fde_state P) : Prop :=
  match r with
  | (Err e, s') => e = UNW_ENOINFO ∧ is_Some found ∧
      search_result need live (search_start s) found (Ok 1) s'
  | (Ok _, s') => found = None ∧ s'.(fx_pool) = s.(fx_pool) ∧
      s'.(fx_pi).(format) = UNW_INFO_FORMAT_TABLE ∧
      s'.(fx_pi).(unwind_info) = s.(fx_pi).(unwind_info)
  | (Stop t, _) => t = Panic ∧ is_Some found ∧ need = true
  end.

Lemma find_proc_info_spec live m fuel ip need (s : fde_state P) file sec es :
  module_search m fuel ip file sec es → in_range ip s.(fx_pi) = false → pool_ok s.(fx_pool) live →
  inverted_result need live s (find_fde ip sec.(pe_addr) es)
    (dwarf_find_proc_info fuel m ip need s).
Proof.
  intros [(l1 & l2 & Hl & [Hl1 Hl2]%Forall_app) Hf (sym & v & Hs & Hv) Hsec Hu Hes] Hr Hp.
  unfold dwarf_find_proc_info. rewrite linker_file_foreach_spec, Hl, foreach_skip by done.
  cbn [foreach_file]. mred.
  pose proof (callback_search fuel m file sym v sec ip need s Hf Hs Hv Hsec) as Hcb.
  rewrite (u64_small (pe_addr sec + pe_size sec)) in Hcb by done.
  pose proof (linear_search_spec m fuel _ _ es ip need live (search_start s) Hes Hr Hp) as Hls.
  unfold inverted_result. set (found := find_fde ip (pe_addr sec) es) in *.
  destruct (linear_search _ _ _ _ _ _ _ _) as [[r|e|t] fx]; destruct Hcb as (cb & -> & <- & Hsf & Hip).
  - unfold search_result in *. destruct found as [[[[[b d] dci] st] ls]|]; [|done].
    destruct Hls as [-> Hls]. cbn [Z.eqb Pos.eqb Z.ltb Z.compare]. by split_and!.
  - unfold search_result in *. destruct found as [[[[[b d] dci] st] ls]|]; [done|].
    cbn [Z.eqb]. rewrite foreach_other by (by rewrite Hip). cbn [Z.ltb Z.compare]. rewrite Hsf. mred.
    destruct Hls as (_ & Hp' & Hfm & Hui). by split_and!.
  - unfold search_result in *. destruct found as [[[[[b d] dci] st] ls]|]; [|done].
    destruct Hls as [-> ->]. by split_and!.
Qed.
End find_spec.

(** ** The dynamic descriptors *)

(** The first descriptor of the list that covers [ip]. *)
Fixpoint find_dynamic (st : gmap Z unw_dyn_info_t) (ip : Z) (l : list Z)
    : option (Z * unw_dyn_info_t) :=
  match l with
  | [] => None
  | x :: l' =>
      match st !! x with
      | Some d => if (d.(di_start_ip) <=? ip) && (ip <? d.(di_end_ip)) then Some (x, d)
                  else find_dynamic st ip l'
      | None => None
      end
  end.

Lemma find_dynamic_loop_spec {P} `{!PoolOps P} fuel m st ip need l : ∀ n prev p (s : fde_state P),
  dll st prev p l → (length l < n)%nat →
  find_dynamic_loop n fuel m st ip p need s =
    match find_dynamic st ip l with
    | Some (x, d) => unwi_extract_dynamic_proc_info fuel m ip x d need s
    | None => (Err UNW_ENOINFO, s)
    end.
Proof.
  induction l as [|x l IH]; intros n prev p s Hl Hn; (destruct n as [|n]; [simpl in Hn; lia|]).
  - cbn [dll] in Hl. by subst p.
  - destruct Hl as (-> & Hx & d & Hd & _ & Hl). cbn [find_dynamic_loop find_dynamic].
    rewrite (proj2 (Z.eqb_neq x 0) Hx), Hd. destruct (_ && _); [done|].
    eapply IH; [exact Hl|]. simpl in Hn. lia.
Qed.

Lemma dll_in_store st l : ∀ prev p, dll st prev p l → ∀ x, x ∈ l → x ∈ dom st.
Proof.
  intros prev p Hl x Hx. destruct (dll_lookup _ _ _ _ _ Hl Hx) as [_ ?]. by apply elem_of_dom.
Qed.

Lemma dyn_list_size ds l : dyn_list ds l → (length l ≤ size ds.(dl_store))%nat.
Proof.
  intros [Hl Hnd]. rewrite <- size_dom. rewrite <- (size_list_to_set (C := gset Z) l) by done.
  apply subseteq_size. intros x Hx. eapply dll_in_store; [exact Hl|]. by apply elem_of_list_to_set in Hx.
Qed.

Lemma find_dynamic_spec P `{!PoolOps P} fuel m ds l ip need (s : fde_state P) :
  dyn_list ds l →
  unwi_find_dynamic_proc_info fuel m ds ip need s =
    match find_dynamic ds.(dl_store) ip l with
    | Some (x, d) => unwi_extract_dynamic_proc_info fuel m ip x d need s
    | None => (Err UNW_ENOINFO, s)
    end.
Proof.
  intros Hl. pose proof (dyn_list_size _ _ Hl). destruct Hl as [Hl _].
  apply (find_dynamic_loop_spec fuel m _ ip need l _ 0); [exact Hl|lia].
Qed.

(** ** Properties *)

(** C23. On a sorted table the binary search ends, and returns the last entry
    that starts at or before the address looked for, the null pointer if there
    is none. *)
Theorem unw_lookup_last_before (m : memory) (table table_size rel_ip : Z) (es : list (Z * Z)) :
  table_at m table es → StronglySorted (λ a b : Z * Z, a.1 ≤ b.1) es →
  table_size / sizeof_table_entry = Z.of_nat (length es) →
  ∃ k, (k ≤ length es)%nat ∧ Forall (λ e : Z * Z, e.1 ≤ rel_ip) (take k es) ∧
    Forall (λ e : Z * Z, rel_ip < e.1) (drop k es) ∧
    unw_lookup m table table_size rel_ip =
      Ok (match k with
          | O => None
          | S i => Some (u64 (table + Z.of_nat i * sizeof_table_entry))
          end).
Proof. apply unw_lookup_spec. Qed.

Definition example_table : list (Z * Z) := [(-64, 0); (0, 32); (16, 64); (16, 96); (80, 128)].

Lemma unw_lookup_last_before_witness :
  unw_lookup (put_bytes ∅ 0x2000 (example_table ≫= entry_bytes)) 0x2000 40 20 = Ok (Some 0x2018).
Proof.
  destruct (unw_lookup_last_before (put_bytes ∅ 0x2000 (example_table ≫= entry_bytes)) 0x2000 40 20
    example_table) as (k & Hk & H1 & H2 & E).
  - decided.
  - repeat constructor; simpl; lia.
  - reflexivity.
  - assert (Hk4 : k = 4%nat); [|rewrite E, Hk4; reflexivity].
    clear E. unfold example_table in *.
    destruct k as [|[|[|[|[|[|k]]]]]]; cbn [take drop length] in Hk, H1, H2; try reflexivity; try lia;
      exfalso; repeat match goal with H : Forall _ (_ :: _) |- _ =>
        apply Forall_cons in H as [? H] end; cbn [fst] in *; lia.
Defined.

(** C24. The linear search of a section of CIEs and FDEs returns the first FDE
    whose range has the address, with its unwind information in a new object of
    the pool when that is asked for, and [-UNW_ENOINFO] when there is none; its
    bound on the number of entries never cuts it short. *)
Theorem linear_search_first (P : Type) `(PoolLaws P) (live : gset Z) (m : memory) (fuel : nat)
    (start end_ ip : Z) (es : list eh_entry) (need : bool) (s : fde_state P) :
  eh_section m fuel start end_ es → in_range ip s.(fx_pi) = false → pool_ok s.(fx_pool) live →
  let '(r, s') := linear_search fuel m ip start end_ (u64 (end_ - start) / sizeof_table_entry)
                    need s in
  search_result need live s (find_fde ip start es) r s'.
Proof. apply linear_search_spec. Qed.

(** The CIE and the FDE of [example_eh_frame], and the zero length after them. *)
Definition example_section : list eh_entry :=
  [EhCie (drop 8 (cie_bytes 0 example_cie));
   EhFde example_fde (CieInfo 0x1019 0x1020 0 0 1 (u64 (-8)) 16 0x7777 0 0 0x1b 0x1b true false false)
     0x1128 0x1231].

Definition example_section_mem : memory := put_bytes example_eh_frame 0x103c (le_bytes 4 0).

Lemma example_section_ok : eh_section example_section_mem 10 0x1000 0x1040 example_section.
Proof.
  split; [|split; [lia|split; [lia|right; split; [reflexivity|decided]]]].
  cbn [eh_frame example_section]. split; [decided|]. split; [vm_compute; reflexivity|].
  split; [decided|]. split; [|exact I]. cbn [eh_valid].
  split; [decided|]. split; [discriminate|]. split; [repeat split; vm_compute; reflexivity|].
  split; [intros pi; vm_compute; reflexivity|]. split; intros pi; [|intros _]; vm_compute; reflexivity.
Qed.

Lemma linear_search_first_witness :
  match linear_search 10 example_section_mem 0x1130 0x1000 0x1040 8 false
          (FdeState 0 zero_proc_info (Bump 0x9000)) with
  | (Ok r, s') => r = 1 ∧ s'.(fx_pi).(start_ip) = 0x1128 ∧ s'.(fx_pi).(end_ip) = 0x1168
  | _ => False
  end.
Proof.
  pose proof (linear_search_first bump bump_laws ∅ example_section_mem 10 0x1000 0x1040 0x1130
    example_section false (FdeState 0 zero_proc_info (Bump 0x9000)) example_section_ok eq_refl
    (bump_start 0x9000 ltac:(lia))) as Hs.
  change (u64 (0x1040 - 0x1000) / sizeof_table_entry) with 8 in Hs.
  destruct (linear_search _ _ _ _ _ _ _ _) as [[r|e|t] s']; unfold search_result in Hs;
    change (find_fde 0x1130 0x1000 example_section) with
      (Some (0x1020, example_fde, CieInfo 0x1019 0x1020 0 0 1 (u64 (-8)) 16 0x7777 0 0 0x1b 0x1b
         true false false, 0x1128, 0x1231)) in Hs; cbv beta iota in Hs.
  - destruct Hs as (-> & Hpi & _). split; [reflexivity|]. rewrite Hpi. split; reflexivity.
  - destruct Hs.
  - destruct Hs as [Hs _]. discriminate Hs.
Defined.

(** C25. [dwarf_find_proc_info] reports the opposite of what the search of a
    module found: when an FDE covers the address, the description is filled in
    and [-UNW_ENOINFO] is returned; when none does, the routine returns 0, and
    the description claims a table without having unwind information set. *)
Theorem find_proc_info_inverted (P : Type) `(HP : PoolLaws P) `(HL : LinkerLaws P) (HS : StringConstants)
    (live : gset Z) (m : memory) (fuel : nat) (ip : Z) (need : bool) (s : fde_state P)
    (file : elf_file) (sec : Elf_progent) (es : list eh_entry) :
  module_search m fuel ip file sec es → in_range ip s.(fx_pi) = false → pool_ok s.(fx_pool) live →
  inverted_result need live s (find_fde ip sec.(pe_addr) es)
    (dwarf_find_proc_info fuel m ip need s).
Proof. apply find_proc_info_spec. Qed.

Definition example_strings : StringConstants := {| str_kernel := 0x5000; str_eh_frame := 0x5010 |}.

Definition c_string (s : list Z) : list Z := s ++ [0].

(** The code of the procedure, no-operations, and two frames of a stack: the word
    at 0x8000 points to the frame at 0x8010. *)
Definition example_code_mem : memory :=
  foldr (λ '(a, s) m, put_bytes m a s) example_section_mem
    [(0x1120, replicate 64 0x90);
     (0x8000, [0x8010; 0; 0x8050; 0x1240] ≫= le_bytes 8)].

(** The names "kernel", ".eh_frame", "a.ko", ".text" and ".eh_frame". *)
Definition example_module_mem : memory :=
  foldr (λ '(a, s) m, put_bytes m a (c_string s)) example_code_mem
    [(0x5000, [107; 101; 114; 110; 101; 108]);
     (0x5010, [46; 101; 104; 95; 102; 114; 97; 109; 101]);
     (0x5020, [97; 46; 107; 111]); (0x5030, [46; 116; 101; 120; 116]);
     (0x5040, [46; 101; 104; 95; 102; 114; 97; 109; 101])].

Definition example_file : elf_file :=
  ElfFile 0x5020 0x1100 0x100
    [ElfProgent 0x1100 0x100 0x5030; ElfProgent 0x1000 0x40 0x5040] 2.

Definition example_files : list elf_file := [ElfFile 0x5000 0x100000 0x1000 [] 0; example_file].

Definition example_linker : LinkerOps bump := {|
  linker_ddb_search_symbol ip := if (0x1100 <=? ip) && (ip <? 0x1200) then Some 7 else None;
  linker_ddb_symbol_values sym := Some (LinkerSymval 0x5050 0x1100 0x100);
  linker_file_foreach f := foreach_file example_files f
|}.

Definition example_linker_laws : @LinkerLaws bump example_linker :=
  @Build_LinkerLaws bump example_linker example_files (λ f s, eq_refl).

Lemma example_section_frame : eh_section example_module_mem 10 0x1000 0x1040 example_section.
Proof.
  split; [|split; [lia|split; [lia|right; split; [reflexivity|decided]]]].
  cbn [eh_frame example_section]. split; [decided|]. split; [vm_compute; reflexivity|].
  split; [decided|]. split; [|exact I]. cbn [eh_valid].
  split; [decided|]. split; [discriminate|]. split; [repeat split; vm_compute; reflexivity|].
  split; [intros pi; vm_compute; reflexivity|]. split; intros pi; [|intros _]; vm_compute; reflexivity.
Qed.

Lemma example_module_search ip :
  0x1100 ≤ ip < 0x1200 →
  @module_search bump example_linker example_linker_laws example_strings example_module_mem 10 ip example_file
    (ElfProgent 0x1000 0x40 0x5040) example_section.
Proof.
  intros Hip. split.
  - exists [ElfFile 0x5000 0x100000 0x1000 [] 0], []. split; [reflexivity|].
    constructor; [|constructor]. apply andb_false_iff. left. apply Z.leb_gt. cbn [lf_address]. lia.
  - apply andb_true_iff. change (u64 (lf_address example_file + lf_size example_file)) with 0x1200.
    change (lf_address example_file) with 0x1100. split; apply Z.leb_le; lia.
  - exists 7, (LinkerSymval 0x5050 0x1100 0x100). split; [|reflexivity]. simpl.
    by rewrite (proj2 (Z.leb_le _ _)), (proj2 (Z.ltb_lt _ _)) by lia.
  - vm_compute. reflexivity.
  - decided.
  - exact example_section_frame.
Qed.

(** The procedure at 0x1128 is found, and the search says it is not. *)
Lemma find_proc_info_inverted_witness :
  match @dwarf_find_proc_info bump _ example_linker example_strings 10 example_module_mem 0x1130 false
          (FdeState 0 zero_proc_info (Bump 0x9000)) with
  | (Err e, s') => e = UNW_ENOINFO ∧ s'.(fx_pi).(start_ip) = 0x1128
  | _ => False
  end.
Proof.
  pose proof (find_proc_info_inverted bump bump_laws example_linker_laws example_strings ∅
    example_module_mem 10 0x1130 false (FdeState 0 zero_proc_info (Bump 0x9000))
    example_file (ElfProgent 0x1000 0x40 0x5040) example_section
    (example_module_search 0x1130 ltac:(lia)) eq_refl (bump_start 0x9000 ltac:(lia))) as Hs.
  destruct (dwarf_find_proc_info _ _ _ _ _) as [[r|e|t] s'].
  - destruct Hs as [Hs _]. vm_compute in Hs. discriminate Hs.
  - destruct Hs as (-> & _ & Hs). split; [reflexivity|].
    change (find_fde 0x1130 (pe_addr (ElfProgent 0x1000 0x40 0x5040)) example_section) with
      (Some (0x1020, example_fde, CieInfo 0x1019 0x1020 0 0 1 (u64 (-8)) 16 0x7777 0 0 0x1b 0x1b
         true false false, 0x1128, 0x1231)) in Hs.
    destruct Hs as (_ & Hpi & _). rewrite Hpi. reflexivity.
  - destruct Hs as (_ & _ & Hs). discriminate Hs.
Defined.

(** A lookup among the registered descriptors uses the first of the list
    that covers the address, the one registered last, and changes nothing when
    there is none. *)
Lemma find_dynamic_newest (P : Type) `(PoolOps P) (fuel : nat) (m : memory) (ds : dyn_state)
    (l : list Z) (ip : Z) (need : bool) (s : fde_state P) :
  dyn_list ds l →
  unwi_find_dynamic_proc_info fuel m ds ip need s =
    match find_dynamic ds.(dl_store) ip l with
    | Some (x, d) => unwi_extract_dynamic_proc_info fuel m ip x d need s
    | None => (Err UNW_ENOINFO, s)
    end.
Proof. apply find_dynamic_spec. Qed.

(** Two descriptors for overlapping ranges, the one at 0x20 registered last. *)
Definition example_overlap : dyn_state :=
  snd (run_dyn_ops [Register 0x10; Register 0x20]
    (DynState 0 0 (list_to_map [(0x10, DynInfo 0 0 0x4000 0x5000 0 0 0 0x77 0 0);
                                (0x20, DynInfo 0 0 0x4800 0x4900 0 0 0 0x88 0 0)]))).

Lemma find_dynamic_newest_witness :
  (fst (unwi_find_dynamic_proc_info 1 ∅ example_overlap 0x4880 true
    (FdeState 0 zero_proc_info (Bump 0x9000))),
   (snd (unwi_find_dynamic_proc_info 1 ∅ example_overlap 0x4880 true
    (FdeState 0 zero_proc_info (Bump 0x9000)))).(fx_pi).(pi_handler)) = (Ok tt, 0x88).
Proof.
  rewrite (find_dynamic_newest bump bump_ops 1 ∅ example_overlap [0x20; 0x10] 0x4880 true).
  - vm_compute. reflexivity.
  - split.
    + split; [reflexivity|]. split; [discriminate|]. eexists. split; [reflexivity|].
      split; [reflexivity|]. split; [reflexivity|]. split; [discriminate|]. eexists.
      split; [reflexivity|]. split; reflexivity.
    + decided.
Defined.
