(* ===== verification/Pools.v ===== *)
(** * The pools of the unwinder

    [global.c]: the two pools of objects, which live in one memory and fall back
    on one static array, and their set-up.  The second half proves that they do not
    disturb each other, whatever the order of their operations and whatever the
    users of the objects write into them. *)
From S2P Require Export Mempool.
From S2P Require Import RsCache Fde.

(** [sizeof (dwarf_reg_state_t)]: two words, nineteen save locations of two words,
    the instruction pointer and the return column, and four half-words. *)
Definition sizeof_dwarf_reg_state : Z := 8 + 19 * 16 + 8 + 8 + 4 * 2.

(** The memory, the position in the static array, and the pools.
    [src/global.c:28-29], [dwarf_reg_state_pool] *)
Record pools := Pools {
  ps_mem : memory;
  ps_freepos : Z;
  dwarf_reg_state_pool : mempool;
  dwarf_cie_info_pool : mempool
}.

(** One of the two pools, with the memory. *)
Inductive which_pool := RegStates | CieInfos.

#[export] Instance which_pool_eq_dec : EqDecision which_pool.
Proof. solve_decision. Defined.

Definition pool_of (w : which_pool) (p : pools) : pool_state :=
  PoolState p.(ps_mem) p.(ps_freepos)
    match w with RegStates => p.(dwarf_reg_state_pool) | CieInfos => p.(dwarf_cie_info_pool) end.

Definition put_pool (w : which_pool) (s : pool_state) (p : pools) : pools :=
  match w with
  | RegStates => Pools s.(pmem) s.(sos_memory_freepos) s.(pool) p.(dwarf_cie_info_pool)
  | CieInfos => Pools s.(pmem) s.(sos_memory_freepos) p.(dwarf_reg_state_pool) s.(pool)
  end.

(** Run a routine on one of the pools. *)
Definition on_one {A} (w : which_pool) (f : M pool_state A) : M pools A := λ p,
  let '(r, s) := f (pool_of w p) in (r, put_pool w s p).

Section pools.
Context (kmalloc : Z → memory → Z * memory) (sos_memory : Z).

(** [src/global.c:31-37], [dwarf_init] *)
Definition dwarf_init : M pools Z :=
  on_one RegStates (mempool_init kmalloc sos_memory sizeof_dwarf_reg_state 0);;
  on_one CieInfos (mempool_init kmalloc sos_memory sizeof_dwarf_cie_info 0);;
  mret 0.

(** ** What happens to the pools

    Objects are allocated from and given back to either pool, and the users of the
    objects write into them: [L w] are the objects of the pool [w] in use. *)
Definition in_use : Type := which_pool → gset Z.

Definition with_live {A} (w : which_pool) (x : A) (L : which_pool → A) : which_pool → A :=
  λ w', if decide (w' = w) then x else L w'.

(** The static array has not been touched yet. *)
Definition fresh_pools (p : pools) : Prop :=
  p.(ps_freepos) = 0 ∧ mapped p.(ps_mem) sos_memory SOS_MEMORY_SIZE ∧ sos_memory mod MAX_ALIGN = 0.

Definition size_of (w : which_pool) (p : pools) : Z := (pool_of w p).(pool).(obj_size).

Inductive pools_run : pools → in_use → Prop :=
  | run_init p p' :
      fresh_pools p → dwarf_init p = (Ok 0, p') → pools_run p' (λ _, ∅)
  | run_alloc w p L o p' :
      pools_run p L → on_one w (mempool_alloc kmalloc sos_memory) p = (Ok o, p') →
      pools_run p' (with_live w ({[o]} ∪ L w) L)
  | run_free w p L o p' :
      pools_run p L → o ∈ L w → on_one w (mempool_free o) p = (Ok tt, p') →
      pools_run p' (with_live w (L w ∖ {[o]}) L)
  | run_write p L m :
      pools_run p L → dom m = dom p.(ps_mem) →
      (∀ a, (∀ w o, o ∈ L w → ¬ o ≤ a < o + size_of w p) → m !! a = p.(ps_mem) !! a) →
      pools_run (Pools m p.(ps_freepos) p.(dwarf_reg_state_pool) p.(dwarf_cie_info_pool)) L.

(** ** The invariant *)

Definition other (w : which_pool) : which_pool :=
  match w with RegStates => CieInfos | CieInfos => RegStates end.

(** Both pools are well formed, with the free lists [F], and no object of one
    meets an object of the other. *)
Definition pools_inv (p : pools) (F : which_pool → list Z) (L : in_use) : Prop :=
  (∀ w, pool_inv sos_memory (pool_of w p) (F w) (L w)) ∧
  ∀ w o o', o ∈ list_to_set (F w) ∪ L w → o' ∈ list_to_set (F (other w)) ∪ L (other w) →
    apart o (size_of w p) o' (size_of (other w) p).

Lemma other_other w : other (other w) = w.
Proof. by destruct w. Qed.

Lemma other_ne w : other w ≠ w.
Proof. by destruct w. Qed.

Lemma which_cases w w' : w' = w ∨ w' = other w.
Proof. destruct w, w'; auto. Qed.

Lemma pool_of_put w s p : pool_of w (put_pool w s p) = s.
Proof. by destruct w, s. Qed.

Lemma pool_of_put_other w s p :
  pool_of (other w) (put_pool w s p)
  = PoolState s.(pmem) s.(sos_memory_freepos) (pool_of (other w) p).(pool).
Proof. by destruct w, s. Qed.

Lemma apart_sym a n b k : apart a n b k ↔ apart b k a n.
Proof. unfold apart. lia. Qed.

Lemma with_live_same {A} w (x : A) L : with_live w x L w = x.
Proof. unfold with_live. by rewrite decide_True. Qed.

Lemma with_live_other {A} w (x : A) L : with_live w x L (other w) = L (other w).
Proof. unfold with_live. rewrite decide_False; [done|apply other_ne]. Qed.

(** A pool is well formed in a memory that keeps its objects. *)
Lemma pool_inv_transfer s fl live m fp :
  pool_inv sos_memory s fl live →
  sos_ok sos_memory (PoolState m fp s.(pool)) (list_to_set fl ∪ live) →
  (∀ o, o ∈ list_to_set fl ∪ live → mapped m o s.(pool).(obj_size)) →
  (∀ o i, o ∈ (list_to_set fl : gset Z) → 0 ≤ i < s.(pool).(obj_size) → m !! (o + i) = s.(pmem) !! (o + i)) →
  pool_inv sos_memory (PoolState m fp s.(pool)) fl live.
Proof.
  intros (Hsh & Hc & Hnd & Hnf & Hdj & [Ho Hap] & _) Hs Hm He.
  pose proof (shape_size _ Hsh) as Hsz.
  unfold pool_inv. cbn [pool pmem]. split_and!; try done; try lia; [|split; [|done]; intros o Hin; split; [by apply Hm|by apply Ho]].
  simpl. assert (Hfl : ∀ o, o ∈ fl → is_u64 o ∧ load 8 m o = load 8 s.(pmem) o).
  { intros o Hin. assert (Hin' : o ∈ (list_to_set fl : gset Z)) by by apply elem_of_list_to_set.
    destruct (mapped_word s.(pmem) o s.(pool).(obj_size)) as [Hu Hw]; [|lia|].
    { by apply Ho, elem_of_union_l. }
    split; [done|]. apply load_agree; [done|]. intros i Hi. destruct (Hw i Hi) as [-> _]. apply He; [done|lia]. }
  revert Hc. generalize (free_list s.(pool)) as q. clear Hnd Hnf Hdj Hs.
  assert (Hall : Forall (λ o, is_u64 o ∧ load 8 m o = load 8 s.(pmem) o) fl) by by apply Forall_forall.
  clear - Hall. induction Hall as [|o fl [_ E] _ IH]; intros q; [done|].
  intros [-> (next & Hl & Hc)]. split; [done|]. exists next. rewrite E. split; [done|by apply IH].
Qed.

(** An operation on one pool that keeps it well formed and away from foreign
    blocks keeps both. *)
Lemma on_one_inv w p osw F (L : in_use) fl live s' :
  pool_inv sos_memory (pool_of (other w) p) (F (other w)) (L (other w)) →
  (∀ o o', o ∈ osw → o' ∈ list_to_set (F (other w)) ∪ L (other w) →
     apart o (size_of w p) o' (size_of (other w) p)) →
  pool_inv sos_memory s' fl live →
  spares sos_memory 0 0 (pool_of w p) osw s' (list_to_set fl ∪ live) →
  pools_inv (put_pool w s' p) (with_live w fl F) (with_live w live L).
Proof.
  intros Ho Ha Hinv Hsp. pose proof (shape_size _ (proj1 Ho)) as Hos.
  set (os := list_to_set (F (other w)) ∪ L (other w)).
  assert (Hfor : ∀ o, o ∈ os → foreign sos_memory s' (list_to_set fl ∪ live) o (size_of (other w) p) ∧
    ∀ i, 0 ≤ i < size_of (other w) p → s'.(pmem) !! (o + i) = p.(ps_mem) !! (o + i)).
  { intros o Hin. destruct (Hsp o (size_of (other w) p)) as [Hf E].
    - destruct Ho as (_ & _ & _ & _ & _ & [Hob _] & Hso).
      split_and!; [apply Hob, Hin|unfold size_of; lia|intros o' Hin'; by apply Ha|].
      destruct Hso as (_ & _ & _ & _ & Hs5). by apply Hs5.
    - destruct Ho as (_ & _ & _ & _ & _ & [Hob _] & _). destruct (Hob o Hin) as [(? & ? & _) _].
      unfold apart. lia.
    - split; [done|]. intros i Hir. by rewrite E. }
  assert (Hother : pool_inv sos_memory (pool_of (other w) (put_pool w s' p)) (F (other w)) (L (other w))).
  { rewrite pool_of_put_other. apply pool_inv_transfer; [done| |intros o Hin; by apply Hfor|].
    - destruct Hinv as (_ & _ & _ & _ & _ & _ & Hs1 & Hs2 & Hs3 & Hs4 & _).
      unfold sos_ok. cbn [pool pmem sos_memory_freepos]. split_and!; try done; [lia|lia|]. intros o Hin. apply (Hfor o Hin).
    - intros o i Hin Hir. apply Hfor; [by apply elem_of_union_l|done]. }
  split.
  - intros w'. destruct (which_cases w w') as [->| ->].
    + by rewrite pool_of_put, !with_live_same.
    + rewrite !with_live_other. exact Hother.
  - assert (H : ∀ o o', o ∈ list_to_set fl ∪ live → o' ∈ os →
      apart o s'.(pool).(obj_size) o' (size_of (other w) p)).
    { intros o o' Hin Hin'. destruct (Hfor o' Hin') as [(_ & _ & Hap & _) _]. by apply Hap. }
    assert (E1 : size_of w (put_pool w s' p) = s'.(pool).(obj_size)) by (unfold size_of; by rewrite pool_of_put).
    assert (E2 : size_of (other w) (put_pool w s' p) = size_of (other w) p)
      by (unfold size_of; by rewrite pool_of_put_other).
    intros w' o o'. destruct (which_cases w w') as [->| ->].
    + rewrite !with_live_same, !with_live_other.
      rewrite E1, E2. apply H.
    + rewrite other_other, !with_live_same, !with_live_other.
      rewrite E1, E2. intros ??. by apply apart_sym, H.
Qed.

Lemma on_one_run {A} w (f : M pool_state A) p r p' :
  on_one w f p = (r, p') → ∃ s', f (pool_of w p) = (r, s') ∧ p' = put_pool w s' p.
Proof. unfold on_one. destruct (f _) as [r' s']. intros [= <- <-]. by exists s'. Qed.

Lemma dwarf_init_inv p :
  kmalloc_spec kmalloc → fresh_pools p →
  (dwarf_init p).1 = Stop Panic ∨
  ∃ p' F, dwarf_init p = (Ok 0, p') ∧ pools_inv p' F (λ _, ∅) ∧
    size_of RegStates p' = 336 ∧ size_of CieInfos p' = 80.
Proof.
  intros Hk (Hf & Hm & Ha). unfold dwarf_init, on_one. mred.
  destruct (mempool_init_inv kmalloc sos_memory (pool_of RegStates p) sizeof_dwarf_reg_state 0 Hk)
    as [Hp|(s1 & fl1 & -> & Hi1 & Hz1 & _)]; try done; [simpl; rewrite Hf; done..| |].
  { left. destruct (mempool_init _ _ _ _ _) as [r s]. simpl in Hp. by subst r. }
  destruct Hi1 as (? & ? & ? & ? & ? & ? & Hs1 & Hs2 & Hs3 & Hs4 & Hs5) eqn:Ei. clear Ei.
  set (p1 := put_pool RegStates s1 p).
  destruct (mempool_init_inv kmalloc sos_memory (pool_of CieInfos p1) sizeof_dwarf_cie_info 0 Hk)
    as [Hp|(s2 & fl2 & -> & Hi2 & Hz2 & Hsp)]; try done.
  { left. destruct (mempool_init _ _ _ _ _) as [r s]. simpl in Hp. by subst r. }
  right. exists (put_pool CieInfos s2 p1), (with_live CieInfos fl2 (λ _, fl1)).
  split; [reflexivity|]. split.
  - pose proof (on_one_inv CieInfos p1 ∅ (λ _, fl1) (λ _, ∅) fl2 ∅ s2) as H'.
    cbn [other] in H'. destruct H' as [H1 H2]; [|set_solver|done|done|].
    + by destruct s1.
    + split; [intros w; specialize (H1 w)|intros w; specialize (H2 w)]; by destruct w.
  - unfold size_of. cbn. by rewrite Hz1, Hz2.
Qed.

(** What the users of the objects write does not reach the free lists. *)
Lemma write_inv p F (L : in_use) m :
  pools_inv p F L → dom m = dom p.(ps_mem) →
  (∀ a, (∀ w o, o ∈ L w → ¬ o ≤ a < o + size_of w p) → m !! a = p.(ps_mem) !! a) →
  pools_inv (Pools m p.(ps_freepos) p.(dwarf_reg_state_pool) p.(dwarf_cie_info_pool)) F L.
Proof.
  intros [Hi Ha] Hd Hm. set (p' := Pools _ _ _ _).
  assert (Hp : ∀ w, pool_of w p' = PoolState m p.(ps_freepos) (pool_of w p).(pool)) by by intros [].
  assert (Hs : ∀ w, size_of w p' = size_of w p) by by intros [].
  split; [|intros w o o'; rewrite !Hs; apply Ha].
  intros w. rewrite Hp. pose proof (Hi w) as Hw. pose proof (shape_size _ (proj1 Hw)) as Hsz.
  destruct (Hi w) as (_ & _ & _ & _ & Hdj & [Hob Hap] & Hs1 & Hs2 & Hs3 & Hs4 & Hs5).
  apply pool_inv_transfer; [done| | |].
  - split_and!; [apply Hs1..|done|by apply (mapped_dom p.(ps_mem))|done|done].
  - intros o Hin. apply (mapped_dom p.(ps_mem)); [done|]. by apply Hob.
  - intros o i Hin Hir. apply Hm. intros w' x Hx.
    assert (Hin' : o ∈ list_to_set (F w) ∪ L w) by by apply elem_of_union_l.
    assert (Hx' : x ∈ list_to_set (F w') ∪ L w') by by apply elem_of_union_r.
    destruct (which_cases w w') as [->| ->].
    + assert (o ≠ x) by (intros ->; by apply (Hdj x)). specialize (Hap o x Hin' Hx' ltac:(done)).
      unfold size_of, apart in *. lia.
    + specialize (Ha w o x Hin' Hx'). pose proof (shape_size _ (proj1 (Hi (other w)))).
      unfold size_of, apart in *. lia.
Qed.

Lemma pools_run_inv p L :
  kmalloc_spec kmalloc → pools_run p L →
  ∃ F, pools_inv p F L ∧ size_of RegStates p = 336 ∧ size_of CieInfos p = 80.
Proof.
  intros Hk. induction 1 as [p p' Hf E|w p L o p' _ (F & HI & S1 & S2) E
    |w p L o p' _ (F & HI & S1 & S2) Ho E|p L m _ (F & HI & S1 & S2) Hd Hm].
  - destruct (dwarf_init_inv p Hk Hf) as [Hp|(p1 & F & E1 & HI & HS)]; [by rewrite E in Hp|].
    rewrite E in E1. injection E1 as <-. by exists F.
  - apply on_one_run in E as (s' & E & ->). destruct HI as [Hi Ha].
    destruct (mempool_alloc_inv _ _ _ _ _ Hk (Hi w))
      as [Hp|(o' & s1 & fl & E' & Hi' & _ & _ & _ & _ & _ & (Hz & _) & Hsp)]; [by rewrite E in Hp|].
    rewrite E in E'. injection E' as <- <-. exists (with_live w fl F). split.
    + eapply on_one_inv; [apply Hi|apply Ha|exact Hi'|exact Hsp].
    + destruct w; unfold size_of in *; cbn in *; by rewrite Hz.
  - apply on_one_run in E as (s' & E & ->). destruct HI as [Hi Ha].
    destruct (mempool_free_inv kmalloc _ _ _ _ _ (Hi w) Ho) as (s1 & E' & Hi' & Hp & _ & Hsp).
    rewrite E in E'. injection E' as <-. exists (with_live w (o :: F w) F). split.
    + eapply on_one_inv; [apply Hi|apply Ha|exact Hi'|exact Hsp].
    + destruct w; unfold size_of; cbn; by rewrite Hp.
  - exists F. split; [by apply write_inv|done].
Qed.
End pools.

(** ** Properties *)

(** C11. However allocations, releases and the users' writes into their objects
    follow each other, the objects in use of the two pools are mapped, aligned and
    apart from each other; an allocation gives a new one or panics, and releasing
    one always succeeds. *)
Theorem pools_apart (kmalloc : Z → memory → Z * memory) (sos : Z) (p : pools) (L : in_use) :
  kmalloc_spec kmalloc → pools_run kmalloc sos p L →
  let size := λ w, match w with RegStates => 336 | CieInfos => 80 end in
  (∀ w o, o ∈ L w → mapped p.(ps_mem) o (size w) ∧ o mod MAX_ALIGN = 0) ∧
  (∀ w w' o o', o ∈ L w → o' ∈ L w' → w ≠ w' ∨ o ≠ o' → apart o (size w) o' (size w')) ∧
  (∀ w, (on_one w (mempool_alloc kmalloc sos) p).1 = Stop Panic ∨
     ∃ o p', on_one w (mempool_alloc kmalloc sos) p = (Ok o, p') ∧ o ≠ 0 ∧ o ∉ L w) ∧
  (∀ w o, o ∈ L w → ∃ p', on_one w (mempool_free o) p = (Ok tt, p')).
Proof.
  intros Hk Hr size. destruct (pools_run_inv kmalloc sos p L Hk Hr) as (F & [Hi Ha] & S1 & S2).
  assert (Hsz : ∀ w, size w = size_of w p) by by intros [].
  assert (Hob : ∀ w o, o ∈ L w → o ∈ list_to_set (F w) ∪ L w) by (intros; by apply elem_of_union_r).
  split_and!.
  - intros w o Ho. rewrite Hsz. by apply (Hi w), Hob.
  - intros w w' o o' Ho Ho' Hne. rewrite !Hsz. destruct (which_cases w w') as [->| ->].
    + destruct Hne as [|Hne]; [done|]. by apply (Hi w); [apply Hob..|].
    + apply Ha; by apply Hob.
  - intros w. unfold on_one.
    destruct (mempool_alloc_inv _ _ _ _ _ Hk (Hi w)) as [Hp|(o & s' & fl & -> & _ & ? & ? & _)].
    + left. destruct (mempool_alloc _ _ _). simpl in *. by subst.
    + right. by exists o, (put_pool w s' p).
  - intros w o Ho. unfold on_one.
    destruct (mempool_free_inv kmalloc _ _ _ _ _ (Hi w) Ho) as (s' & -> & _). by exists (put_pool w s' p).
Qed.

(** Without a kernel allocator every object comes from the static array. *)
Definition no_kmalloc (size : Z) (m : memory) : Z * memory := (0, m).

Lemma no_kmalloc_spec : kmalloc_spec no_kmalloc.
Proof. intros size m a m' _ [= <- <-]. by left. Qed.

Definition no_pool : mempool := Mempool 0 0 0 0 0.

Lemma sos_store m a v :
  mapped m 0x8000 SOS_MEMORY_SIZE → 0x8000 ≤ a → a + 8 ≤ 0x8000 + SOS_MEMORY_SIZE → is_u64 v →
  ∃ m', store 8 m a v = Ok m' ∧ mapped m' 0x8000 SOS_MEMORY_SIZE ∧ load 8 m' a = Ok v.
Proof.
  intros Hm Ha He Hv. unfold SOS_MEMORY_SIZE in *.
  destruct (mapped_word m a 8) as [Hu Hw]; [by eapply mapped_within|done|].
  destruct (store_mapped 8 m a v) as [m' E]; [apply Hw|done|]. exists m'. split; [done|]. split.
  - apply (mapped_dom m); [|done]. by apply (store_dom _ _ _ _ _ E).
  - rewrite (load_store_same _ _ _ _ E) by done. by rewrite u64_small.
Qed.

Lemma expand_sos m fp n cs r nf fl m' :
  0 < n → n mod 16 = 0 → 0 ≤ fp → fp mod 16 = 0 → fp + n ≤ SOS_MEMORY_SIZE →
  store 8 m (0x8000 + fp) fl = Ok m' →
  expand no_kmalloc 0x8000 (PoolState m fp (Mempool n cs r nf fl))
  = (Ok tt, PoolState m' (fp + n) (Mempool n cs r (u32 (nf + 1)) (0x8000 + fp))).
Proof.
  unfold SOS_MEMORY_SIZE. intros Hn Hna Hf Hfa Hle E.
  unfold expand, GET_MEMORY, no_kmalloc, sos_alloc, add_memory, assert_. mred. cbn [set_pmem pmem pool obj_size].
  change MAX_ALIGN with (2 ^ 4).
  rewrite UNW_ALIGN_id by (try done; unfold W; lia). change (Z.land 0x8000 (2 ^ 4 - 1) =? 0) with true.
  cbn [set_freepos sos_memory_freepos set_pmem pool pmem].
  change (0 =? 0) with true. cbv beta iota. cbn [set_freepos sos_memory_freepos set_pmem pool pmem].
  change (2 ^ 4 - 1) with (Z.ones 4). rewrite Z.land_ones by lia. change (2 ^ 4) with 16.
  rewrite !(u64_small (_ + _)) by (unfold is_u64; lia).
  replace ((0x8000 + fp) mod 16) with 0 by dlia. cbn [Z.eqb]. unfold SOS_MEMORY_SIZE.
  rewrite (proj2 (Z.leb_le _ _)) by lia.
  rewrite Z.div_same by lia. change (S (Z.to_nat 1)) with 2%nat. cbn [add_memory_loop].
  replace (0x8000 + fp + n - n) with (0x8000 + fp) by lia.
  rewrite !u64_small by (unfold is_u64; lia). rewrite Z.leb_refl.
  unfold free_object. mred. cbn [set_freepos sos_memory_freepos set_pmem pool pmem free_list].
  rewrite E. rewrite (proj2 (Z.leb_gt _ _)) by lia. reflexivity.
Qed.

(** After the set-up each pool has one object. *)
Definition example_pools_at (m : memory) : pools :=
  Pools m 0x1a0 (Mempool 336 4096 3 1 0x8000) (Mempool 80 4096 12 1 0x8150).

Lemma example_dwarf_init m : mapped m 0x8000 SOS_MEMORY_SIZE →
  ∃ m2, mapped m2 0x8000 SOS_MEMORY_SIZE ∧
    dwarf_init no_kmalloc 0x8000 (Pools m 0 no_pool no_pool) = (Ok 0, example_pools_at m2).
Proof.
  intros Hm0.
  destruct (sos_store m 0x8000 0 Hm0) as (m1 & E1 & Hm1 & _); [done..|].
  destruct (sos_store m1 0x8150 0 Hm1) as (m2 & E2 & Hm2 & _); [done..|].
  exists m2. split; [exact Hm2|].
  unfold dwarf_init, on_one. mred.
  change (mempool_init no_kmalloc 0x8000 sizeof_dwarf_reg_state 0 _)
    with (expand no_kmalloc 0x8000 (PoolState m 0 (Mempool 336 4096 3 0 0))).
  rewrite (expand_sos m 0 336 4096 3 0 0 m1 eq_refl eq_refl ltac:(done) eq_refl ltac:(done) E1).
  cbv beta iota.
  change (mempool_init no_kmalloc 0x8000 sizeof_dwarf_cie_info 0 _)
    with (expand no_kmalloc 0x8000 (PoolState m1 336 (Mempool 80 4096 12 0 0))).
  rewrite (expand_sos m1 336 80 4096 12 0 0 m2 eq_refl eq_refl ltac:(done) eq_refl ltac:(done) E2).
  reflexivity.
Qed.

Lemma example_pools m : mapped m 0x8000 SOS_MEMORY_SIZE →
  ∃ p L, pools_run no_kmalloc 0x8000 p L ∧ 0x81a0 ∈ L RegStates ∧ 0x82f0 ∈ L CieInfos.
Proof.
  intros Hm0. destruct (example_dwarf_init m Hm0) as (m2 & Hm2 & H0).
  destruct (sos_store m2 0x81a0 0x8000 Hm2) as (m3 & E3 & Hm3 & L3); [done..|].
  destruct (sos_store m3 0x82f0 0x8150 Hm3) as (m4 & E4 & Hm4 & L4); [done..|].
  assert (Hf : fresh_pools 0x8000 (Pools m 0 no_pool no_pool)) by by split_and!.
  pose proof (run_init no_kmalloc 0x8000 _ _ Hf H0) as R0.
  set (p1 := Pools m3 0x2f0 (Mempool 336 4096 3 1 0x8000) (Mempool 80 4096 12 1 0x8150)).
  assert (R1 : pools_run no_kmalloc 0x8000 p1 (with_live RegStates ({[0x81a0]} ∪ ∅) (λ _, ∅))).
  { apply (run_alloc _ _ RegStates _ _ _ _ R0). unfold example_pools_at, on_one, mempool_alloc, pool_of. mred.
    cbn [pool ps_mem ps_freepos dwarf_reg_state_pool num_free reserve]. change (1 <=? 3) with true. cbv beta iota.
    rewrite (expand_sos m2 416 336 4096 3 1 0x8000 m3 eq_refl eq_refl ltac:(done) eq_refl ltac:(done) E3).
    unfold assert_. mred. cbn. change (0x8000 + 416) with 0x81a0. rewrite L3. reflexivity. }
  exists (Pools m4 0x340 (Mempool 336 4096 3 1 0x8000) (Mempool 80 4096 12 1 0x8150)).
  eexists. split; [|split].
  - apply (run_alloc _ _ CieInfos _ _ 0x82f0 _ R1). unfold p1, on_one, mempool_alloc, pool_of. mred.
    cbn [pool ps_mem ps_freepos dwarf_cie_info_pool num_free reserve]. change (1 <=? 12) with true. cbv beta iota.
    rewrite (expand_sos m3 752 80 4096 12 1 0x8150 m4 eq_refl eq_refl ltac:(done) eq_refl ltac:(done) E4).
    unfold assert_. mred. cbn. change (0x8000 + 752) with 0x82f0. rewrite L4. reflexivity.
  - cbn. set_solver.
  - cbn. set_solver.
Qed.

Lemma pools_apart_witness : ∃ p L,
  pools_run no_kmalloc 0x8000 p L ∧ mapped p.(ps_mem) 0x81a0 336 ∧ apart 0x81a0 336 0x82f0 80.
Proof.
  destruct (example_pools example_pool_mem) as (p & L & Hr & H1 & H2); [apply example_mem_mapped|].
  exists p, L. split; [exact Hr|].
  destruct (pools_apart no_kmalloc 0x8000 p L no_kmalloc_spec Hr) as (Hm & Ha & _).
  split; [apply (Hm RegStates _ H1)|].
  apply (Ha RegStates CieInfos _ _ H1 H2). left. discriminate.
Defined.
