(* ===== verification/Global.v ===== *)
(** * Start-up

    The state of the library as a whole and its set-up, once, on first use:
    [Gglobal.c], [init.c], the address space and the accessors of [Ginit.c],
    [Gget_accessors.c], [Gcreate_addr_space.c], [Gdestroy_addr_space.c].  Here the
    routines run to completion; [Races] has [tdep_init] with its lock. *)
From S2P Require Export Pools RsCache Cursor.

(** ** Sizes *)

(** [sizeof (unw_proc_info_t)]: six words, two [int]s and a pointer; the
    target-dependent member is empty.  [src/include/libunwind-common.h:121-135], [unw_proc_info] *)
Definition sizeof_unw_proc_info : Z := 6 * 8 + 2 * 4 + 8.

(** [sizeof (dwarf_cursor_t)]: six words, the arguments, the mask, the locations,
    the flags, the procedure and the two hints, each group padded to a word.
    [src/include/dwarf.h:283-306], [dwarf_cursor_t] *)
Definition sizeof_dwarf_cursor : Z :=
  6 * 8 + 2 * 8 + 8 + DWARF_NUM_PRESERVED_REGS * 8 + 8 + sizeof_unw_proc_info + 8.

(** [sizeof (struct cursor)]: the frame's description takes two words; the
    enumeration and [validate] are padded to a word each.
    [src/include/tdep-x86_64/libunwind_i.h:73-92], [cursor] *)
Definition sizeof_cursor : Z := sizeof_dwarf_cursor + 2 * 8 + 8 + 8 + 8 + 8.

(** [src/include/libunwind-x86_64.h:48-48], [UNW_TDEP_CURSOR_LEN] *)
Definition UNW_TDEP_CURSOR_LEN : Z := 512.

(** [src/include/libunwind-common.h:91-95], [unw_cursor_t] *)
Definition sizeof_unw_cursor : Z := UNW_TDEP_CURSOR_LEN * 8.

(** ** The accessors *)

(** The routines a pointer of the table of accessors can point to. *)
Inductive routine :=
  | r_dwarf_find_proc_info
  | r_put_unwind_info
  | r_get_dyn_info_list_addr
  | r_access_mem
  | r_access_reg
  | r_access_fpreg
  | r_x86_64_local_resume
  | r_get_static_proc_name.

(** [None] is the null pointer.  [src/include/libunwind-common.h:140-180], [unw_accessors] *)
Record unw_accessors := Accessors {
  acc_find_proc_info : option routine;
  acc_put_unwind_info : option routine;
  acc_get_dyn_info_list_addr : option routine;
  acc_access_mem : option routine;
  acc_access_reg : option routine;
  acc_access_fpreg : option routine;
  acc_resume : option routine;
  acc_get_proc_name : option routine
}.

(** [put_unwind_info] leaves everything as it is.
    [src/Ginit.c:53-57], [put_unwind_info] *)
Definition put_unwind_info_noop {S} : M S () := mret tt.

(** The result is the address of [_U_dyn_info_list].
    [src/Ginit.c:47-51], [_U_dyn_info_list_addr] *)
Definition _U_dyn_info_list_addr (dyn_info_list : Z) : Z := u64 dyn_info_list.

(** [src/Ginit.c:59-65], [get_dyn_info_list_addr] *)
Definition get_dyn_info_list_addr {S} (dyn_info_list : Z) : M S Z := mret (u64 dyn_info_list).

(** ** The state *)

(** The validation routine [mem_validate_func] points to. *)
Inductive validator := v_msync_validate.

Record globals := Globals {
  tdep_init_done : Z;
  g_pools : pools;
  mem_validate_func : option validator;
  local_acc : unw_accessors;
  local_addr_space : unw_addr_space;
  g_last_good_addr : list Z;
  g_lga_victim : Z
}.

Definition set_init_done (x : Z) (g : globals) : globals :=
  Globals x g.(g_pools) g.(mem_validate_func) g.(local_acc) g.(local_addr_space)
    g.(g_last_good_addr) g.(g_lga_victim).
Definition set_g_pools (x : pools) (g : globals) : globals :=
  Globals g.(tdep_init_done) x g.(mem_validate_func) g.(local_acc) g.(local_addr_space)
    g.(g_last_good_addr) g.(g_lga_victim).
Definition set_mem_validate_func (x : option validator) (g : globals) : globals :=
  Globals g.(tdep_init_done) g.(g_pools) x g.(local_acc) g.(local_addr_space)
    g.(g_last_good_addr) g.(g_lga_victim).
Definition set_local_acc (x : unw_accessors) (g : globals) : globals :=
  Globals g.(tdep_init_done) g.(g_pools) g.(mem_validate_func) x g.(local_addr_space)
    g.(g_last_good_addr) g.(g_lga_victim).
Definition set_local_as (x : unw_addr_space) (g : globals) : globals :=
  Globals g.(tdep_init_done) g.(g_pools) g.(mem_validate_func) g.(local_acc) x
    g.(g_last_good_addr) g.(g_lga_victim).
Definition set_lga (x : list Z) (v : Z) (g : globals) : globals :=
  Globals g.(tdep_init_done) g.(g_pools) g.(mem_validate_func) g.(local_acc) g.(local_addr_space) x v.

Definition on_pools {A} (f : M pools A) : M globals A := λ g,
  let '(r, p) := f g.(g_pools) in (r, set_g_pools p g).

(** ** Set-up *)

(** The structures after [memset (..., 0, ...)]. *)
Definition zero_save_loc : dwarf_save_loc_t := SaveLoc DWARF_WHERE_UNDEF 0.
Definition zero_reg_state : dwarf_reg_state_t :=
  RegState (replicate (Z.to_nat (DWARF_NUM_PRESERVED_REGS + 2)) zero_save_loc) 0 0 0 0 0 false false.
Definition zero_rs_cache : dwarf_rs_cache :=
  RsCache 0 0 0 (replicate (Z.to_nat DWARF_UNW_HASH_SIZE) 0) 0
    (replicate (Z.to_nat DWARF_UNW_CACHE_SIZE) zero_reg_state).
Definition zero_addr_space : unw_addr_space := AddrSpace UNW_CACHE_NONE 0 0 0 zero_rs_cache [].
Definition zero_accessors : unw_accessors := Accessors None None None None None None None None.

Section globals.
Context (kmalloc : Z → memory → Z * memory) (sos_memory : Z).

(** [src/init.c:43-55], [mi_init] *)
Definition mi_init : M globals () :=
  if sizeof_cursor <=? sizeof_unw_cursor then mret tt else halt Panic.

(** [src/Ginit.c:87-103], [tdep_init_mem_validate] *)
Definition tdep_init_mem_validate : M globals () :=
  mod_st (set_mem_validate_func (Some v_msync_validate)).

(** [src/Ginit.c:245-264], [x86_64_local_addr_space_init] *)
Definition x86_64_local_addr_space_init : M globals () :=
  mod_st (λ g, set_local_acc zero_accessors (set_local_as zero_addr_space g));;
  mod_st (λ g, let a := g.(local_addr_space) in
    set_local_as (AddrSpace UNW_CACHE_GLOBAL a.(cache_generation) a.(dyn_generation)
                    a.(dyn_info_list_addr) a.(global_cache) a.(debug_frames)) g);;
  mod_st (set_local_acc (Accessors (Some r_dwarf_find_proc_info) (Some r_put_unwind_info)
    (Some r_get_dyn_info_list_addr) (Some r_access_mem) (Some r_access_reg) (Some r_access_fpreg)
    (Some r_x86_64_local_resume) (Some r_get_static_proc_name)));;
  mod_st (λ g, set_local_as (fst (unw_flush_cache g.(local_addr_space))) g);;
  mod_st (set_lga (replicate NLGA 0) 0).

(** [src/Gglobal.c:75-96], [tdep_init] *)
Definition tdep_init : M globals () :=
  g ← get_st;
  if negb (g.(tdep_init_done) =? 0) then mret tt
  else
    mi_init;;
    on_pools (dwarf_init kmalloc sos_memory);;
    tdep_init_mem_validate;;
    x86_64_local_addr_space_init;;
    mod_st (set_init_done 1).

(** The part of [unw_init_local] before the cursor is touched.
    [src/Ginit_local.c:39-42], [unw_init_local] *)
Definition init_on_first_cursor : M globals () :=
  g ← get_st;
  if g.(tdep_init_done) =? 0 then x86_64_local_addr_space_init;; tdep_init else mret tt.

(** [src/Gget_accessors.c:28-34], [unw_get_accessors] *)
Definition unw_get_accessors : M globals unw_accessors :=
  g ← get_st;
  (if g.(tdep_init_done) =? 0 then tdep_init else mret tt);;
  g ← get_st;
  mret g.(local_acc).
End globals.

(** The null pointer: only the local address space exists.
    [src/Gcreate_addr_space.c:35-59], [unw_create_addr_space] *)
Definition unw_create_addr_space (byte_order : Z) : Z := 0.

(** [src/Gdestroy_addr_space.c:28-37], [unw_destroy_addr_space] *)
Definition unw_destroy_addr_space (as_ : Z) : M globals () := mret tt.

(** ** Properties *)

Definition local_accessors : unw_accessors :=
  Accessors (Some r_dwarf_find_proc_info) (Some r_put_unwind_info) (Some r_get_dyn_info_list_addr)
    (Some r_access_mem) (Some r_access_reg) (Some r_access_fpreg) (Some r_x86_64_local_resume)
    (Some r_get_static_proc_name).

(** What x86_64_local_addr_space_init sets does not depend on what was there. *)
Lemma local_addr_space_init_eq g :
  x86_64_local_addr_space_init g
  = (Ok tt, Globals g.(tdep_init_done) g.(g_pools) g.(mem_validate_func) local_accessors
       (AddrSpace UNW_CACHE_GLOBAL 1 0 0 zero_rs_cache []) (replicate NLGA 0) 0).
Proof. reflexivity. Qed.

Lemma tdep_init_eq kmalloc sos g p :
  g.(tdep_init_done) = 0 → dwarf_init kmalloc sos g.(g_pools) = (Ok 0, p) →
  tdep_init kmalloc sos g
  = (Ok tt, Globals 1 p (Some v_msync_validate) local_accessors
       (AddrSpace UNW_CACHE_GLOBAL 1 0 0 zero_rs_cache []) (replicate NLGA 0) 0).
Proof.
  intros H0 E. unfold tdep_init, on_pools, mi_init. mred. rewrite H0. cbn [Z.eqb negb].
  change (sizeof_cursor <=? sizeof_unw_cursor) with true. cbv beta iota. mred. rewrite E. reflexivity.
Qed.

(** C12. The first use of the library sets it up, or panics for want of memory: both
    pools are ready, the accessors of the local address space are in place, no page
    counts as validated and the first cache taken is empty; later uses change nothing. *)
Theorem init_ready (kmalloc : Z → memory → Z * memory) (sos : Z) (g : globals) :
  kmalloc_spec kmalloc → fresh_pools sos g.(g_pools) → g.(tdep_init_done) = 0 →
  (tdep_init kmalloc sos g).1 = Stop Panic ∨
  ∃ g' c, tdep_init kmalloc sos g = (Ok tt, g') ∧
    init_on_first_cursor kmalloc sos g = (Ok tt, g') ∧
    unw_get_accessors kmalloc sos g = (Ok local_accessors, g') ∧
    pools_run kmalloc sos g'.(g_pools) (λ _, ∅) ∧
    lga_ok (Machine g'.(g_pools).(ps_mem) g'.(g_last_good_addr) g'.(g_lga_victim)) ∧
    Forall (λ a, a = 0) g'.(g_last_good_addr) ∧
    get_rs_cache g'.(local_addr_space) = Some c ∧ rs_inv c flushed_order ∧
    (∀ cur, 0 ≤ cur.(hint) < 128 → 0 ≤ cur.(prev_rs) < 128 → is_u64 cur.(ip) → cur.(ip) ≠ 0 →
       rs_lookup c cur = Ok (None, c, cur)) ∧
    tdep_init kmalloc sos g' = (Ok tt, g') ∧ init_on_first_cursor kmalloc sos g' = (Ok tt, g').
Proof.
  intros Hk Hf H0.
  destruct (dwarf_init_inv kmalloc sos g.(g_pools) Hk Hf) as [Hp|(p & F & E & _)].
  { left. unfold tdep_init, on_pools, mi_init. mred. rewrite H0. cbn [Z.eqb negb].
    change (sizeof_cursor <=? sizeof_unw_cursor) with true. cbv beta iota. mred.
    destruct (dwarf_init kmalloc sos g.(g_pools)) as [r p]. cbn [fst] in Hp. by rewrite Hp. }
  right. pose proof (tdep_init_eq kmalloc sos g p H0 E) as Ei.
  set (g' := Globals 1 p _ _ _ _ _) in Ei.
  set (c := set_generation 1 (flush_rs_cache (lock_acquire zero_rs_cache))).
  destruct (flushed_finds_nothing (lock_acquire zero_rs_cache) 1 ltac:(apply length_replicate)) as [Hinv Hn].
  exists g', c. split_and!; try done.
  - unfold init_on_first_cursor. mred. rewrite H0. cbn [Z.eqb].
    rewrite local_addr_space_init_eq. by apply tdep_init_eq.
  - unfold unw_get_accessors. mred. rewrite H0. cbn [Z.eqb]. by rewrite Ei.
  - by eapply run_init.
  - by apply Forall_replicate.
Qed.

Definition start_globals (m : memory) : globals :=
  Globals 0 (Pools m 0 no_pool no_pool) None zero_accessors zero_addr_space (replicate NLGA 0) 0.

Lemma init_ready_witness : ∃ g' c,
  tdep_init no_kmalloc 0x8000 (start_globals example_pool_mem) = (Ok tt, g') ∧
  pools_run no_kmalloc 0x8000 g'.(g_pools) (λ _, ∅) ∧
  get_rs_cache g'.(local_addr_space) = Some c ∧ rs_inv c flushed_order.
Proof.
  generalize example_pool_mem, (proj2 example_mem_mapped). intros m Hm.
  destruct (example_dwarf_init m Hm) as (m2 & _ & E).
  pose proof (tdep_init_eq no_kmalloc 0x8000 (start_globals m) _ eq_refl E) as Ei.
  destruct (init_ready no_kmalloc 0x8000 (start_globals m) no_kmalloc_spec)
    as [Hp|(g' & c & E' & _ & _ & Hr & _ & _ & Hc & Hi & _)].
  - split; [reflexivity|]. split; [exact Hm|reflexivity].
  - reflexivity.
  - rewrite Ei in Hp. discriminate.
  - exists g', c. split; [exact E'|]. split; [exact Hr|]. split; [exact Hc|exact Hi].
Defined.
