(* ===== verification/Concurrent.v ===== *)
(** * Routines that run interleaved

    The routines that take a lock, cut into atomic steps at their accesses to shared
    memory: the registration of descriptors ([dyn-register.c], [dyn-cancel.c]) with
    the search that runs beside it without the lock ([Gfind_dynamic_proc_info.c]), the
    pools ([mempool.c]), and the set-up on first use ([Gglobal.c]). *)
From S2P Require Export Threads Mempool Global DynInfo.

(** ** Registering and cancelling

    A step has at most one write that other threads can see; what it reads besides is
    written only under the lock. *)

(** [src/dyn-register.c:34-42], [_U_dyn_register] *)
Definition register_body (di : Z) : thread dyn_state () :=
  then_do (mod_st (λ s, set_dl_generation (u32 (s.(dl_generation) + 1)) s)) (λ _,
  then_do (s ← get_st; di_upd di (set_di_next s.(dl_first))) (λ _,
  then_do (di_upd di (set_di_prev 0)) (λ _,
  then_do (d ← di_get di;
           if negb (d.(di_next) =? 0) then di_upd d.(di_next) (set_di_prev di) else mret tt) (λ _,
  then_do (mod_st (set_dl_first di)) (λ _, Done tt))))).

(** [src/dyn-register.c:30-44], [_U_dyn_register] *)
Definition register_thread (di : Z) : thread dyn_state () := critical (register_body di) (λ _, Done tt).

(** [src/dyn-cancel.c:32-42], [_U_dyn_cancel] *)
Definition cancel_body (di : Z) : thread dyn_state () :=
  then_do (mod_st (λ s, set_dl_generation (u32 (s.(dl_generation) + 1)) s)) (λ _,
  then_do (d ← di_get di;
           if negb (d.(di_prev) =? 0) then di_upd d.(di_prev) (set_di_next d.(di_next))
           else mod_st (set_dl_first d.(di_next))) (λ _,
  then_do (d ← di_get di;
           if negb (d.(di_next) =? 0) then di_upd d.(di_next) (set_di_prev d.(di_prev)) else mret tt) (λ _,
  Done tt))).

(** After the lock has been released; [a] is what the thread returns.
    [src/dyn-cancel.c:45-45], [_U_dyn_cancel] *)
Definition cancel_tail {A} (a : A) (di : Z) : thread dyn_state A :=
  then_do (di_upd di (set_di_prev 0)) (λ _, then_do (di_upd di (set_di_next 0)) (λ _, Done a)).

(** [src/dyn-cancel.c:28-46], [_U_dyn_cancel] *)
Definition cancel_thread {A} (a : A) (di : Z) : thread dyn_state A :=
  critical (cancel_body di) (λ _, cancel_tail a di).

Definition op_body (o : dyn_op) : thread dyn_state () :=
  match o with Register di => register_body di | Cancel di => cancel_body di end.
Definition op_tail (o : dyn_op) : thread dyn_state () :=
  match o with Register _ => Done tt | Cancel di => cancel_tail tt di end.
Definition op_thread (o : dyn_op) : thread dyn_state () :=
  match o with Register di => register_thread di | Cancel di => cancel_thread tt di end.

(** The cuts into steps are those of the routines. *)
Ltac runs := repeat first [apply runs_critical|apply runs_then_do|apply runs_done|intros ?].

Lemma register_thread_run di : runs_as (register_thread di) (_U_dyn_register di).
Proof.
  intros s. unfold register_thread, register_body. etrans; [revert s; runs|].
  unfold _U_dyn_register. mred. destruct (di_upd di _ _) as [[[]|e|t] s1]; [|done..].
  destruct (di_upd di _ _) as [[[]|e|t] s2]; [|done..].
  destruct (di_get di s2) as [[d|e|t] s3]; [|done..].
  destruct (negb _); [|done]. by destruct (di_upd _ _ _) as [[[]|e|t] s4].
Qed.

Lemma cancel_thread_run di : runs_as (cancel_thread tt di) (_U_dyn_cancel di).
Proof.
  intros s. unfold cancel_thread, cancel_body, cancel_tail. etrans; [revert s; runs|].
  unfold _U_dyn_cancel. mred. destruct (di_get di _) as [[d|e|t] s1]; [|done..].
  match goal with |- context [(if ?b then ?x else ?y) ?z] =>
    destruct ((if b then x else y) z) as [[[]|e|t] s2] end; [|done..].
  destruct (di_get di s2) as [[d2|e|t] s3]; [|done..].
  match goal with |- context [(if ?b then ?x else ?y) ?z] =>
    destruct ((if b then x else y) z) as [[[]|e|t] s4] end; [|done..].
  destruct (di_upd di _ s4) as [[[]|e|t] s5]; [|done..]. by destruct (di_upd di _ s5) as [[[]|e|t] s6].
Qed.

Lemma op_thread_run o : runs_as (op_thread o) (run_dyn_op o).
Proof. destruct o; [apply register_thread_run|apply cancel_thread_run]. Qed.

(** ** The order the lock gives *)

#[export] Instance dyn_op_eq_dec : EqDecision dyn_op.
Proof. solve_decision. Defined.

Definition op_target (o : dyn_op) : Z := match o with Register di | Cancel di => di end.

Section dyn.
Context (ops : list dyn_op) (s0 : dyn_state) (l0 : list Z).

(** Each operation has a descriptor of its own: one in memory that is not registered,
    or one that is. *)
Record ops_apart : Prop := {
  oa_list : dyn_list s0 l0;
  oa_targets : NoDup (op_target <$> ops);
  oa_register x : Register x ∈ ops → x ≠ 0 ∧ x ∉ l0 ∧ is_Some (s0.(dl_store) !! x);
  oa_cancel x : Cancel x ∈ ops → x ∈ l0
}.
Hypothesis Hops : ops_apart.

Definition dyn_body (i : nat) : thread dyn_state () :=
  match ops !! i with Some o => op_body o | None => Done tt end.
Definition dyn_tail (i : nat) (_ : ()) : thread dyn_state () :=
  match ops !! i with Some o => op_tail o | None => Done tt end.
Definition dyn_steps_after (i : nat) : nat :=
  match ops !! i with Some (Cancel _) => 2 | _ => 0 end.

Implicit Types os : list (nat * ()).

Definition ops_of os : list dyn_op := omap (λ p, ops !! p.1) os.
Definition cancelled os (x : Z) : Prop := ∃ i, i ∈ os.*1 ∧ ops !! i = Some (Cancel x).
Definition registered os (x : Z) : Prop := ∃ i, i ∈ os.*1 ∧ ops !! i = Some (Register x).

(** A descriptor whose cancellation has released the lock is not in the list; its links
    are reset in [c] of two steps. *)
Record resetting (c : nat) (d dg : unw_dyn_info_t) : Prop := {
  re_payload : payload d = payload dg;
  re_ghost : dg.(di_next) = 0 ∧ dg.(di_prev) = 0;
  re_prev : c ≠ 0%nat → d.(di_prev) = 0;
  re_next : (1 < c)%nat → d.(di_next) = 0
}.

Record dyn_related os (pr : gmap nat nat) (g s : dyn_state) : Prop := {
  dr_generation : s.(dl_generation) = g.(dl_generation);
  dr_first : s.(dl_first) = g.(dl_first);
  dr_store x : ¬ cancelled os x → s.(dl_store) !! x = g.(dl_store) !! x;
  dr_cancelled i x : i ∈ os.*1 → ops !! i = Some (Cancel x) → ∃ c d dg,
    pr !! i = Some c ∧ s.(dl_store) !! x = Some d ∧ g.(dl_store) !! x = Some dg ∧ resetting c d dg
}.

Definition dyn_inv os (g : dyn_state) : Prop :=
  run_dyn_ops (ops_of os) s0 = (Ok tt, g) ∧
  ∃ l, dyn_steps s0.(dl_store) l0 (ops_of os) l ∧ dyn_list g l ∧
    same_payloads s0.(dl_store) g.(dl_store) ∧
    ∀ x, x ∈ l ↔ (x ∈ l0 ∧ ¬ cancelled os x) ∨ registered os x.

Lemma target_unique i j o o' :
  ops !! i = Some o → ops !! j = Some o' → op_target o = op_target o' → i = j.
Proof.
  intros Hi Hj E. eapply NoDup_lookup; [apply (oa_targets Hops)| |]; rewrite list_lookup_fmap.
  - by rewrite Hi.
  - by rewrite Hj, E.
Qed.

Lemma new_target os i o x : i ∉ os.*1 → ops !! i = Some o → op_target o = x →
  ¬ cancelled os x ∧ ¬ registered os x.
Proof.
  intros Hi Ho Hx. split; intros (j & Hj & E); apply Hi;
    by rewrite (target_unique i j o _ Ho E Hx).
Qed.

(** ** The steps of a body, beside the resetting of cancelled descriptors *)

Definition moves os (m : M dyn_state ()) (g g1 : dyn_state) : Prop :=
  m g = (Ok tt, g1) ∧
  ∀ pr s, dyn_related os pr g s → ∃ s1, m s = (Ok tt, s1) ∧ dyn_related os pr g1 s1.

Lemma moves_ret os g : moves os (mret tt) g g.
Proof. split; [done|]. intros pr s H. by exists s. Qed.

Lemma moves_mod os f g :
  (∀ g, dl_store (f g) = dl_store g) →
  (∀ s g, dl_generation s = dl_generation g → dl_generation (f s) = dl_generation (f g)) →
  (∀ s g, dl_first s = dl_first g → dl_first (f s) = dl_first (f g)) →
  moves os (mod_st f) g (f g).
Proof.
  intros Hf H1 H2. split; [done|]. intros pr s [? ? H3 H4]. exists (f s). split; [done|].
  split; rewrite ?Hf; auto.
Qed.

Lemma moves_upd os y f d g :
  g.(dl_store) !! y = Some d → ¬ cancelled os y →
  moves os (di_upd y f) g (set_dl_store (<[y := f d]> g.(dl_store)) g).
Proof.
  intros Hd Hy. split; [by apply di_upd_eval|]. intros pr s [H1 H2 H3 H4].
  rewrite (di_upd_eval y f s d) by by rewrite H3. eexists. split; [done|].
  split; cbn [set_dl_store dl_store dl_generation dl_first]; [done|done| |].
  - intros x Hx. destruct (decide (x = y)) as [->|]; [by rewrite !lookup_insert_eq|].
    rewrite !lookup_insert_ne by done. by apply H3.
  - intros i x Hi E. destruct (H4 i x Hi E) as (c & d' & dg & ?). exists c, d', dg.
    rewrite !lookup_insert_ne; [done|intros ->; apply Hy; by exists i..].
Qed.

Lemma moves_get os y h d g g1 :
  g.(dl_store) !! y = Some d → ¬ cancelled os y → moves os (h d) g g1 →
  moves os (d ← di_get y; h d) g g1.
Proof.
  intros Hd Hy [E H]. split; [mred; by rewrite (di_get_eval _ _ _ Hd)|].
  intros pr s HR. destruct (H pr s HR) as (s1 & ? & ?). exists s1. mred.
  rewrite (di_get_eval y s d); [done|]. by rewrite (dr_store _ _ _ _ HR y Hy).
Qed.

Lemma follows_moves os m (k : () → thread dyn_state ()) g g1 o g' :
  moves os m g g1 → follows (dyn_related os) (k tt) g1 o g' →
  follows (dyn_related os) (then_do m k) g o g'.
Proof. intros [E H]. by apply follows_then_do. Qed.

(** The neighbours of a descriptor of the list have not been cancelled. *)
Definition stays os (p : Z) : Prop := p = 0 ∨ ¬ cancelled os p.

Lemma register_follows os g l x d :
  dyn_list g l → x ∉ l → g.(dl_store) !! x = Some d → ¬ cancelled os x → stays os g.(dl_first) →
  ∃ g', follows (dyn_related os) (register_body x) g (Some tt) g'.
Proof.
  intros [Hl _] Hn Hd Hx Hf. unfold register_body.
  set (f1 := λ s, set_dl_generation (u32 (dl_generation s + 1)) s). set (g1 := f1 g).
  assert (M1 : moves os (mod_st f1) g g1)
    by (apply moves_mod; [done| |done]; intros s s' H; cbn; by rewrite H).
  set (d2 := set_di_next g1.(dl_first) d). set (g2 := set_dl_store (<[x := d2]> g1.(dl_store)) g1).
  assert (M2 : moves os (s ← get_st; di_upd x (set_di_next s.(dl_first))) g1 g2).
  { destruct (moves_upd os x (set_di_next g1.(dl_first)) d g1 Hd Hx) as [E H]. split; [exact E|].
    intros pr s HR. destruct (H pr s HR) as (s1 & E1 & ?). exists s1. mred.
    by rewrite (dr_first _ _ _ _ HR). }
  set (d3 := set_di_prev 0 d2). set (g3 := set_dl_store (<[x := d3]> g2.(dl_store)) g2).
  assert (M3 : moves os (di_upd x (set_di_prev 0)) g2 g3)
    by (apply moves_upd; [apply lookup_insert_eq|done]).
  assert (H3 : g3.(dl_store) !! x = Some d3) by apply lookup_insert_eq.
  assert (M4 : ∃ g4, moves os (d ← di_get x;
    if negb (d.(di_next) =? 0) then di_upd d.(di_next) (set_di_prev x) else mret tt) g3 g4).
  { change (dl_first g1) with (dl_first g) in d2. assert (Hnd : d3.(di_next) = g.(dl_first)) by done.
    destruct l as [|y l].
    - exists g3. eapply moves_get; [exact H3|done|]. simpl in Hl. rewrite Hnd, Hl. apply moves_ret.
    - destruct Hl as (Hy & Hy0 & dy & Hdy & _). eexists. eapply moves_get; [exact H3|done|].
      rewrite Hnd, Hy, (proj2 (Z.eqb_neq _ _) Hy0). apply (moves_upd os y _ dy).
      + cbn. rewrite !lookup_insert_ne; [done|intros ->; apply Hn; left..].
      + rewrite <- Hy. destruct Hf; [congruence|done]. }
  destruct M4 as [g4 M4]. eexists.
  eapply follows_moves; [exact M1|]. eapply follows_moves; [exact M2|].
  eapply follows_moves; [exact M3|]. eapply follows_moves; [exact M4|].
  eapply follows_moves; [by apply moves_mod|]. apply follows_done.
Qed.

(** The steps of [_U_dyn_cancel] under the lock leave the links of [x] as they are. *)
Lemma cancel_follows os g x d :
  g.(dl_store) !! x = Some d → ¬ cancelled os x →
  (d.(di_prev) ≠ 0 → ¬ cancelled os d.(di_prev) ∧ d.(di_prev) ≠ x ∧ is_Some (g.(dl_store) !! d.(di_prev))) →
  (d.(di_next) ≠ 0 → ¬ cancelled os d.(di_next) ∧ d.(di_next) ≠ x ∧ is_Some (g.(dl_store) !! d.(di_next))) →
  ∃ g', follows (dyn_related os) (cancel_body x) g (Some tt) g' ∧ g'.(dl_store) !! x = Some d.
Proof.
  intros Hd Hx Hp Hn. unfold cancel_body.
  set (f1 := λ s, set_dl_generation (u32 (dl_generation s + 1)) s). set (g1 := f1 g).
  assert (M1 : moves os (mod_st f1) g g1)
    by (apply moves_mod; [done| |done]; intros s s' H; cbn; by rewrite H).
  assert (M2 : ∃ g2, moves os (d ← di_get x;
      if negb (d.(di_prev) =? 0) then di_upd d.(di_prev) (set_di_next d.(di_next))
      else mod_st (set_dl_first d.(di_next))) g1 g2 ∧ g2.(dl_store) !! x = Some d ∧
      ∀ y, is_Some (g.(dl_store) !! y) → is_Some (g2.(dl_store) !! y)).
  { destruct (Z.eqb_spec d.(di_prev) 0) as [Hz|Hz].
    - eexists. split; [eapply moves_get; [exact Hd|done|]; rewrite Hz; by apply moves_mod|done].
    - destruct (Hp Hz) as (Hc & Hne & [dp Hdp]). eexists. split; [eapply moves_get; [exact Hd|done|];
        rewrite (proj2 (Z.eqb_neq _ _) Hz); by apply (moves_upd os _ _ dp)|].
      cbn. split; [by rewrite lookup_insert_ne|]. intros y Hy. by apply lookup_insert_is_Some'; right. }
  destruct M2 as (g2 & M2 & H2 & Hs2).
  assert (M3 : ∃ g3, moves os (d ← di_get x;
      if negb (d.(di_next) =? 0) then di_upd d.(di_next) (set_di_prev d.(di_prev)) else mret tt) g2 g3 ∧
      g3.(dl_store) !! x = Some d).
  { destruct (Z.eqb_spec d.(di_next) 0) as [Hz|Hz].
    - exists g2. split; [eapply moves_get; [exact H2|done|]; rewrite Hz; apply moves_ret|done].
    - destruct (Hn Hz) as (Hc & Hne & Hdn). destruct (Hs2 _ Hdn) as [dn Hdn2]. eexists.
      split; [eapply moves_get; [exact H2|done|]; rewrite (proj2 (Z.eqb_neq _ _) Hz);
        by apply (moves_upd os _ _ dn)|].
      cbn. by rewrite lookup_insert_ne. }
  destruct M3 as (g3 & M3 & H3). exists g3. split; [|done].
  eapply follows_moves; [exact M1|]. eapply follows_moves; [exact M2|].
  eapply follows_moves; [exact M3|]. apply follows_done.
Qed.

(** ** One more operation *)

Lemma ops_of_snoc os i o : ops !! i = Some o → ops_of (os ++ [(i, tt)]) = ops_of os ++ [o].
Proof. intros H. unfold ops_of. rewrite omap_app. simpl. by rewrite H. Qed.

Lemma cancelled_snoc os i x :
  cancelled (os ++ [(i, tt)]) x ↔ cancelled os x ∨ ops !! i = Some (Cancel x).
Proof.
  unfold cancelled. rewrite fmap_app. split.
  - intros (j & [Hj| ->%list_elem_of_singleton]%elem_of_app & E); [left; by exists j|by right].
  - intros [(j & Hj & E)|E]; [exists j|exists i]; (split; [apply elem_of_app|done]); [by left|right; left].
Qed.

Lemma registered_snoc os i x :
  registered (os ++ [(i, tt)]) x ↔ registered os x ∨ ops !! i = Some (Register x).
Proof.
  unfold registered. rewrite fmap_app. split.
  - intros (j & [Hj| ->%list_elem_of_singleton]%elem_of_app & E); [left; by exists j|by right].
  - intros [(j & Hj & E)|E]; [exists j|exists i]; (split; [apply elem_of_app|done]); [by left|right; left].
Qed.

Lemma run_dyn_ops_snoc o : ∀ s l g g',
  run_dyn_ops l s = (Ok tt, g) → run_dyn_op o g = (Ok tt, g') → run_dyn_ops (l ++ [o]) s = (Ok tt, g').
Proof.
  intros s l g g'. revert s. induction l as [|o1 l IH]; intros s; cbn [run_dyn_ops app]; mred.
  - by intros [= ->] ->.
  - destruct (run_dyn_op o1 s) as [[[]|e|t] s1]; [|done..]. apply IH.
Qed.

Lemma dyn_steps_snoc st l us l' o l'' :
  dyn_steps st l us l' → dyn_step st l' o l'' → dyn_steps st l (us ++ [o]) l''.
Proof.
  induction 1; intros Ho; [eapply steps_cons; [exact Ho|apply steps_nil]|].
  eapply steps_cons; [done|by eauto].
Qed.

Lemma listed_stays os (l : list Z) x :
  (∀ x, x ∈ l ↔ (x ∈ l0 ∧ ¬ cancelled os x) ∨ registered os x) → x ∈ l → ¬ cancelled os x.
Proof.
  intros Hl [[_ ?]|(j & Hj & E)]%Hl; [done|]. intros (k & Hk & E').
  assert (j = k) as -> by by eapply target_unique. by rewrite E in E'.
Qed.

Lemma related_snoc os i pr g s :
  i ∉ os.*1 → (∀ x, ops !! i ≠ Some (Cancel x)) → dyn_related os pr g s →
  dyn_related (os ++ [(i, tt)]) (<[i := 0%nat]> pr) g s.
Proof.
  intros Hi Ho [H1 H2 H3 H4]. split; [done|done| |].
  - intros x Hx. apply H3. intros Hc. by apply Hx, cancelled_snoc; left.
  - intros j x. rewrite fmap_app.
    intros [Hj| ->%list_elem_of_singleton]%elem_of_app E; [|by destruct (Ho x)].
    destruct (H4 j x Hj E) as (c & d & dg & ?). exists c, d, dg.
    rewrite lookup_insert_ne; [done|by intros ->].
Qed.

(** The list before and after the operation [i]. *)
Lemma inv_register os i x g l d :
  i ∉ os.*1 → ops !! i = Some (Register x) → dyn_list g l → g.(dl_store) !! x = Some d →
  (∀ x, x ∈ l ↔ (x ∈ l0 ∧ ¬ cancelled os x) ∨ registered os x) → x ∉ l →
  ∃ g1, follows (dyn_related os) (register_body x) g (Some tt) g1 ∧ run_dyn_op (Register x) g = (Ok tt, g1).
Proof.
  intros Hi Ho Hl Hd Hin Hx. destruct (new_target os i _ x Hi Ho eq_refl) as [Hc _].
  destruct (register_follows os g l x d Hl Hx Hd Hc) as [g1 Hf].
  { destruct l as [|y l]; [left; by destruct Hl|right]. pose proof Hl as [(-> & _) _].
    apply (listed_stays os (y :: l)); [done|left]. }
  exists g1. split; [exact Hf|]. simpl. rewrite <- (register_thread_run x g).
  unfold register_thread, critical. cbn [run].
  rewrite (runs_locked (λ _ : (), Done tt) (λ _, mret tt)) by done. mred.
  by rewrite (follows_run _ _ _ _ _ Hf).
Qed.

Lemma register_body_follows os i g x :
  i ∉ os.*1 → ops !! i = Some (Register x) → dyn_inv os g →
  ∃ g1, follows (dyn_related os) (register_body x) g (Some tt) g1 ∧ comes_to dyn_related dyn_inv os i tt g1.
Proof.
  intros Hi Ho (Hrun & l & Hst & Hl & Hpay & Hin).
  destruct (oa_register Hops x (list_elem_of_lookup_2 _ _ _ Ho)) as (Hx0 & Hxl0 & Hxs).
  destruct (new_target os i _ x Hi Ho eq_refl) as [Hc Hr].
  assert (Hxl : x ∉ l) by (intros [[? _]|?]%Hin; done).
  destruct (same_payloads_is_Some _ _ x Hpay Hxs) as [d Hd].
  destruct (inv_register os i x g l d Hi Ho Hl Hd Hin Hxl) as (g1 & Hf & Hg1).
  destruct (register_spec g l x d Hl Hx0 Hxl Hd) as (s' & E & Hl' & Hp'). simpl in Hg1.
  rewrite E in Hg1. injection Hg1 as ->.
  exists g1. split; [exact Hf|]. exists g1. split; [|intros pr s; apply related_snoc; [done|congruence]].
  split; [rewrite (ops_of_snoc _ _ _ Ho); by eapply run_dyn_ops_snoc|].
  exists (x :: l). rewrite (ops_of_snoc _ _ _ Ho). split_and!; [|done|by eapply same_payloads_trans|].
  - eapply dyn_steps_snoc; [exact Hst|]. by apply step_register.
  - intros y. rewrite elem_of_cons, cancelled_snoc, registered_snoc, Hin, Ho. split.
    + intros [->|[[? ?]|?]]; [by right; right|left; split; [done|by intros [?|[=]]]|by right; left].
    + intros [[? Hy]|[?|[= ->]]]; [right; left; split; [done|by eauto]|by right; right|by left].
Qed.

Definition reset_links (d : unw_dyn_info_t) : unw_dyn_info_t := set_di_next 0 (set_di_prev 0 d).
Definition put_di (x : Z) (d : unw_dyn_info_t) (g : dyn_state) : dyn_state :=
  set_dl_store (<[x := d]> g.(dl_store)) g.

Lemma cancel_tail_run {A} (a : A) x d g :
  g.(dl_store) !! x = Some d → run (cancel_tail a x) g = (Ok a, put_di x (reset_links d) g).
Proof.
  intros Hd. unfold cancel_tail, then_do. cbn [run]. mred. rewrite (di_upd_eval _ _ _ _ Hd).
  cbn [run]. mred. erewrite di_upd_eval by apply lookup_insert_eq. cbn [run]. mred.
  cbn [set_dl_store dl_store]. by rewrite insert_insert_eq.
Qed.

Lemma related_cancelled os i x pr d g s :
  i ∉ os.*1 → ops !! i = Some (Cancel x) → g.(dl_store) !! x = Some d → dyn_related os pr g s →
  dyn_related (os ++ [(i, tt)]) (<[i := 0%nat]> pr) (put_di x (reset_links d) g) s.
Proof.
  intros Hi Ho Hd [H1 H2 H3 H4]. destruct (new_target os i _ x Hi Ho eq_refl) as [Hc _].
  split; cbn [put_di set_dl_store dl_store dl_generation dl_first]; [done|done| |].
  - intros y Hy. rewrite cancelled_snoc in Hy. rewrite lookup_insert_ne by (intros ->; by apply Hy; right).
    apply H3. by eauto.
  - intros j y. rewrite fmap_app. intros [Hj| ->%list_elem_of_singleton]%elem_of_app E.
    + destruct (H4 j y Hj E) as (c & dy & dg & ?). exists c, dy, dg.
      rewrite lookup_insert_ne by (by intros ->).
      rewrite lookup_insert_ne; [done|]. intros ->. apply Hc. by exists j.
    + cbn [fst] in E. rewrite Ho in E. injection E as <-. exists 0%nat, d, (reset_links d).
      rewrite !lookup_insert_eq, H3 by done. split_and!; [done|done|done|]. split; [done..|lia].
Qed.

Lemma neighbours os g l1 x l2 :
  dyn_list g (l1 ++ x :: l2) →
  (∀ y, y ∈ l1 ++ x :: l2 → ¬ cancelled os y) →
  let ok p := p ≠ 0 → ¬ cancelled os p ∧ p ≠ x ∧ is_Some (g.(dl_store) !! p) in
  ∃ d, g.(dl_store) !! x = Some d ∧ ok d.(di_prev) ∧ ok d.(di_next).
Proof.
  intros [Hl Hnd] Hc ok. destruct (dll_at _ _ _ _ _ _ Hl) as (d & Hd & Hp & _ & Hl2 & _).
  apply NoDup_app in Hnd as (_ & Hd12 & [Hn2 _]%NoDup_cons).
  assert (Hok : ∀ y, y ∈ l1 ++ x :: l2 → y ≠ x → ok y).
  { intros y Hy Hyx _. split_and!; [by apply Hc|done|]. by eapply (dll_lookup _ _ _ _ _ Hl). }
  exists d. split_and!; [done| |].
  - rewrite Hp. destruct (last l1) as [y|] eqn:E; [|by intros []]. apply last_Some in E as [l' ->].
    assert (Hy : y ∈ l' ++ [y]) by (apply elem_of_app; right; left).
    apply (Hok y); [by apply elem_of_app; left|]. intros ->. eapply Hd12; [exact Hy|left].
  - destruct l2 as [|z l2]; [intros Hz; by destruct Hz|]. destruct Hl2 as (-> & _).
    apply Hok; [apply elem_of_app; right; right; left|]. intros ->. apply Hn2. left.
Qed.

(** The two parts of [_U_dyn_cancel]. *)
Lemma cancel_parts os g l1 x l2 :
  dyn_list g (l1 ++ x :: l2) → (∀ y, y ∈ l1 ++ x :: l2 → ¬ cancelled os y) →
  ∃ g1 d, follows (dyn_related os) (cancel_body x) g (Some tt) g1 ∧ g1.(dl_store) !! x = Some d ∧
    _U_dyn_cancel x g = (Ok tt, put_di x (reset_links d) g1).
Proof.
  intros Hl Hc. destruct (neighbours os g l1 x l2 Hl Hc) as (d & Hd & Hp & Hn).
  destruct (cancel_follows os g x d Hd) as (g1 & Hf & Hd1); [|done|done|].
  { apply Hc, elem_of_app. right; left. }
  exists g1, d. split_and!; [done|done|].
  rewrite <- (cancel_thread_run x g). unfold cancel_thread, critical. cbn [run].
  rewrite (runs_locked (λ _ : (), cancel_tail tt x) (λ _, run (cancel_tail tt x))) by done. mred.
  rewrite (follows_run _ _ _ _ _ Hf). by apply cancel_tail_run.
Qed.

Lemma cancel_body_follows os i g x :
  i ∉ os.*1 → ops !! i = Some (Cancel x) → dyn_inv os g →
  ∃ g1, follows (dyn_related os) (cancel_body x) g (Some tt) g1 ∧ comes_to dyn_related dyn_inv os i tt g1.
Proof.
  intros Hi Ho (Hrun & l & Hst & Hl & Hpay & Hin).
  destruct (new_target os i _ x Hi Ho eq_refl) as [Hc Hr].
  assert (Hxl : x ∈ l) by (apply Hin; left; split; [apply (oa_cancel Hops); by eapply list_elem_of_lookup_2|done]).
  apply list_elem_of_split in Hxl as (l1 & l2 & ->).
  destruct (cancel_parts os g l1 x l2 Hl (λ y, listed_stays os _ y Hin)) as (g1 & d & Hf & Hd1 & E').
  destruct (cancel_spec g l1 x l2 Hl) as (g' & E & Hl' & Hp'). rewrite E in E'. injection E' as ->.
  exists g1. split; [exact Hf|]. eexists. split; [|intros pr s; by apply related_cancelled].
  split; [rewrite (ops_of_snoc _ _ _ Ho); by eapply run_dyn_ops_snoc|].
  exists (l1 ++ l2). rewrite (ops_of_snoc _ _ _ Ho).
  split_and!; [eapply dyn_steps_snoc; [exact Hst|apply step_cancel]|done|by eapply same_payloads_trans|].
  destruct Hl as [_ Hnd]. intros y. rewrite cancelled_snoc, registered_snoc, Ho.
  assert (Hy : y ∈ l1 ++ l2 ↔ y ∈ l1 ++ x :: l2 ∧ y ≠ x).
  { apply NoDup_app in Hnd as (_ & Hd12 & [Hn2 _]%NoDup_cons). rewrite !elem_of_app, elem_of_cons. split.
    - intros [H|H]; (split; [tauto|]); intros ->; [by eapply Hd12; [exact H|left]|done].
    - tauto. }
  rewrite Hy, Hin. split.
  - intros [[[? ?]|?] ?]; [left; split; [done|by intros [?|[= ->]]]|by right; left].
  - intros [[? H]|[?|[=]]]; split.
    + left. split; [done|]. intros Hy'. apply H. by left.
    + intros ->. apply H. by right.
    + by right.
    + by intros ->.
Qed.

Lemma dyn_body_follows os i g : (i < length ops)%nat → i ∉ os.*1 → dyn_inv os g →
  ∃ o g1, follows (dyn_related os) (dyn_body i) g o g1 ∧ (o = None → false = true) ∧
    ∀ a, o = Some a → comes_to dyn_related dyn_inv os i a g1.
Proof.
  intros [o Ho]%lookup_lt_is_Some Hi Hinv. unfold dyn_body. rewrite Ho.
  assert (H : ∃ g1, follows (dyn_related os) (op_body o) g (Some tt) g1 ∧ comes_to dyn_related dyn_inv os i tt g1)
    by (destruct o; [by apply register_body_follows|by apply cancel_body_follows]).
  destruct H as (g1 & Hf & Hc). exists (Some tt), g1. split_and!; [done|done|]. by intros [] _.
Qed.

(** ** The steps after the lock has been released *)

Lemma tail_step os i x c f pr g s :
  ops !! i = Some (Cancel x) → i ∈ os.*1 → pr !! i = Some c → dyn_related os pr g s →
  (∀ d dg, resetting c d dg → resetting (S c) (f d) dg) →
  ∃ s', di_upd x f s = (Ok tt, s') ∧ dyn_related os (<[i := S c]> pr) g s'.
Proof.
  intros Ho Hi Hp [H1 H2 H3 H4] Hf. destruct (H4 i x Hi Ho) as (c' & d & dg & Hc & Hd & Hg & Hr).
  rewrite Hp in Hc. injection Hc as <-. rewrite (di_upd_eval _ _ _ _ Hd). eexists. split; [done|].
  split; cbn [set_dl_store dl_store dl_generation dl_first]; [done|done| |].
  - intros y Hy. rewrite lookup_insert_ne; [by apply H3|]. intros ->. apply Hy. by exists i.
  - intros j y Hj E. destruct (decide (j = i)) as [->|Hji].
    + rewrite Ho in E. injection E as <-. exists (S c), (f d), dg. rewrite !lookup_insert_eq.
      split_and!; [done|done|done|by apply Hf].
    + destruct (H4 j y Hj E) as (cj & dj & dgj & ?). exists cj, dj, dgj.
      rewrite !lookup_insert_ne; [done| |done]. intros ->. apply Hji. by eapply target_unique.
Qed.

Lemma dyn_tail_quiet i : quiet dyn_related dyn_steps_after i tt 0 (dyn_tail i tt).
Proof.
  unfold dyn_tail. assert (Hs := eq_refl (dyn_steps_after i)). unfold dyn_steps_after in Hs at 2.
  destruct (ops !! i) as [[x|x]|] eqn:Ho; [rewrite <- Hs; constructor| |rewrite <- Hs; constructor].
  cbn [op_tail]. unfold cancel_tail, then_do. constructor. intros os pr g s Hi Hp HR.
  destruct (tail_step os i x 0 (set_di_prev 0) pr g s Ho Hi Hp HR) as (s1 & E1 & HR1).
  { intros d dg []. by split; [..|lia]. }
  eexists _, s1. split; [mred; by rewrite E1|]. split; [done|]. clear -Ho Hs Hops. constructor.
  intros os pr g s Hi Hp HR.
  destruct (tail_step os i x 1 (set_di_next 0) pr g s Ho Hi Hp HR) as (s1 & E1 & HR1).
  { intros d dg []. split; [done|done|auto|done]. }
  eexists _, s1. split; [mred; by rewrite E1|]. split; [done|]. rewrite <- Hs. constructor.
Qed.

Lemma resetting_done d dg : resetting 2 d dg → d = dg.
Proof.
  intros [Hp [Hn Hv] H1 H2]. specialize (H1 ltac:(done)). specialize (H2 ltac:(lia)).
  destruct d, dg. unfold payload in Hp. simpl in *. congruence.
Qed.

Lemma related_final os pr g s :
  (∀ i a, (i, a) ∈ os → pr !! i = Some (dyn_steps_after i)) → dyn_related os pr g s → s = g.
Proof.
  intros Hp [H1 H2 H3 H4]. assert (Hst : s.(dl_store) = g.(dl_store)).
  { apply map_eq. intros x. destruct (decide (Exists (λ i, ops !! i = Some (Cancel x)) os.*1)) as [H|H].
    - apply Exists_exists in H as (i & Hi & Ho). destruct (H4 i x Hi Ho) as (c & d & dg & Hc & Hd & Hg & Hr).
      apply list_elem_of_fmap in Hi as ([i' a] & -> & Hi). cbn [fst] in *. rewrite (Hp _ _ Hi) in Hc.
      unfold dyn_steps_after in Hc. rewrite Ho in Hc. injection Hc as <-.
      by rewrite Hd, Hg, (resetting_done _ _ Hr).
    - apply H3. intros (i & Hi & Ho). apply H, Exists_exists. by exists i. }
  destruct s, g. simpl in *. congruence.
Qed.

Lemma omap_seq {T} (l pre : list T) : omap ((pre ++ l) !!.) (seq (length pre) (length l)) = l.
Proof.
  revert pre. induction l as [|o l IH]; intros pre; [done|]. simpl. rewrite list_lookup_middle by done.
  f_equal. specialize (IH (pre ++ [o])). rewrite <- app_assoc, length_app, Nat.add_1_r in IH. exact IH.
Qed.

Lemma ops_of_perm os : os.*1 ≡ₚ seq 0 (length ops) → ops_of os ≡ₚ ops.
Proof.
  intros Hp. assert (E : ops_of os = omap (ops !!.) os.*1).
  { unfold ops_of. clear. induction os as [|[i a] os IH]; [done|]. cbn. destruct (ops !! i); [|exact IH].
    by rewrite IH. }
  rewrite E, Hp. pose proof (omap_seq ops []) as H. simpl in H. by rewrite H.
Qed.

(** The threads of the operations, from a state in which nobody has the lock. *)
Context {L : Type} `{!SxOps L, !SxLaws L}.

Lemma op_threads s (l : L) :
  start (length ops) dyn_body dyn_tail s l = World s l (op_thread <$> ops).
Proof.
  unfold start. f_equal. apply list_eq. intros i. rewrite !list_lookup_fmap.
  destruct (lt_dec i (length ops)) as [Hi|Hi].
  - rewrite lookup_seq_lt by done. simpl. unfold section_of, dyn_body, dyn_tail.
    apply lookup_lt_is_Some in Hi as [o Ho]. rewrite Ho. by destruct o.
  - rewrite lookup_seq_ge, lookup_ge_None_2 by lia. done.
Qed.

Lemma ops_serialised (l : L) w :
  sx_owner l = None → rtc tstep (World s0 l (op_thread <$> ops)) w →
  serialised (length ops) dyn_body dyn_tail (λ _ _, tt) dyn_related dyn_inv dyn_steps_after false w.
Proof.
  intros Hl Hw. eapply serialised_steps; [| | |exact Hw].
  - apply dyn_body_follows.
  - intros i [] _. apply dyn_tail_quiet.
  - rewrite <- op_threads. apply (serialised_start _ _ _ _ _ _ _ _ _ _ s0).
    + exact Hl.
    + split; [done|]. exists l0. split_and!; [apply steps_nil|apply Hops|done|]. intros x. split.
      * intros Hx. left. split; [done|]. by intros (i & Hi%elem_of_nil & _).
      * intros [[? _]|(i & Hi%elem_of_nil & _)]; done.
    + split; [done..|]. intros i x Hi%elem_of_nil. done.
Qed.

Lemma ops_end (l : L) w :
  sx_owner l = None → rtc tstep (World s0 l (op_thread <$> ops)) w →
  (all_done w ∨ ∃ w', tstep w w') ∧
  (∀ i m, w.(w_threads) !! i = Some (Do m) → ∃ k s', m w.(w_state) = (Ok k, s')) ∧
  (all_done w → ∃ os, ops_of os ≡ₚ ops ∧ dyn_inv os w.(w_state)).
Proof.
  intros Hl Hw. pose proof (ops_serialised l w Hl Hw) as Hs. apply sections_serialise in Hs as [Hp Hd].
  - destruct (Hp eq_refl) as [Hgo Hok]. split_and!; [done|done|].
    intros (os & pr & g & Hos & Hinv & HR & Hall)%Hd. exists os. split; [by apply ops_of_perm|].
    assert (w_state w = g) as ->; [|done].
    eapply related_final; [|exact HR]. intros i a Hi. by apply Hall in Hi as [? _].
  - apply dyn_body_follows.
Qed.
End dyn.

(** ** Properties *)

(** C3. Threads that register and cancel descriptors, each one of its own, and that
    interleave step by step, the links of a cancelled descriptor being reset after the
    lock is released: every schedule ends, none deadlocks or faults, and when all are
    done the state is the one that the operations give one after the other, in some
    order, and represents the list they give. *)
Theorem registrations_linearise (L : Type) `(HL : SxLaws L) (ops : list dyn_op) (s0 : dyn_state)
    (l0 : list Z) (l : L) (w : world dyn_state () L) :
  ops_apart ops s0 l0 → sx_owner l = None → rtc tstep (World s0 l (op_thread <$> ops)) w →
  sn tstep w ∧ (all_done w ∨ ∃ w', tstep w w') ∧
  (∀ i m, w.(w_threads) !! i = Some (Do m) → ∃ k s', m w.(w_state) = (Ok k, s')) ∧
  (all_done w → ∃ os l', os ≡ₚ ops ∧ run_dyn_ops os s0 = (Ok tt, w.(w_state)) ∧
    dyn_steps s0.(dl_store) l0 os l' ∧ dyn_list w.(w_state) l').
Proof.
  intros Ho Hl Hw. split; [apply tstep_wf|].
  destruct (ops_end ops s0 l0 Ho l w Hl Hw) as (Hgo & Hok & Hd). split_and!; [done|done|].
  intros (os & Hos & Hrun & l' & Hst & Hl' & _)%Hd. by exists (ops_of ops os), l'.
Qed.

(** 0x30 is registered while 0x20 is cancelled. *)
Definition example_two : dyn_state := snd (run_dyn_ops [Register 0x10; Register 0x20] example_dyn).

Lemma example_two_apart : ops_apart [Register 0x30; Cancel 0x20] example_two [0x20; 0x10].
Proof.
  split.
  - split; [|decided]. split; [reflexivity|]. split; [discriminate|]. eexists. split; [reflexivity|].
    split; [reflexivity|]. split; [reflexivity|]. split; [discriminate|]. eexists.
    split; [reflexivity|]. by split.
  - decided.
  - intros x [[= ->]|[[=]|Hx%elem_of_nil]%elem_of_cons]%elem_of_cons; [|done].
    split; [done|]. split; [decided|]. by eexists.
  - intros x [[=]|[[= ->]|Hx%elem_of_nil]%elem_of_cons]%elem_of_cons; [left|done].
Qed.

Lemma registrations_linearise_witness : ∃ (w : world dyn_state () example_lock) os l',
  rtc tstep (World example_two None (op_thread <$> [Register 0x30; Cancel 0x20])) w ∧ all_done w ∧
  os ≡ₚ [Register 0x30; Cancel 0x20] ∧ run_dyn_ops os example_two = (Ok tt, w.(w_state)) ∧
  dyn_list w.(w_state) l'.
Proof.
  set (w0 := World _ _ _).
  pose proof (λ w, registrations_linearise example_lock example_sx_laws _ _ _ None w example_two_apart eq_refl) as H.
  destruct (tstep_ends (rtc tstep w0) w0) as (w & Hw & Hd & _).
  - reflexivity.
  - intros w1 w2 H1 H2. by eapply rtc_r.
  - intros w1 H1. by destruct (H w1 H1) as (_ & ? & _).
  - destruct (H w Hw) as (_ & _ & _ & Hend). destruct (Hend Hd) as (os & l' & Hos & Hrun & _ & Hl).
    by exists w, os, l'.
Defined.
