(* ===== verification/SharedPool.v ===== *)
(** * A pool shared by threads

    [mempool_alloc] and [mempool_free] take the lock of the pool around all they do
    ([mempool.c]).  Whatever the cut of what is in between into atomic steps, no two
    threads get the same object. *)
From S2P Require Export Threads Mempool.

(** What a thread asks of the pool. *)
Inductive pool_request := Allocate | Give (object : Z).

#[export] Instance pool_request_eq_dec : EqDecision pool_request.
Proof. solve_decision. Defined.

Section shared.
Context {P : Type} `{!PoolOps P, !PoolLaws P}.

(** Under the lock; the result of giving an object back is not used. *)
Definition pool_request_run (r : pool_request) : M P Z :=
  match r with Allocate => pool_alloc | Give o => pool_free o;; mret 0 end.

(** [t] is one of the ways to cut the routine into steps. *)
Definition pool_cut (t : thread P Z) (r : pool_request) : Prop :=
  lock_free t ∧ runs_as t (pool_request_run r).

Context (ts : list (thread P Z)) (rs : list pool_request) (p0 : P) (live0 : gset Z).
Hypothesis Hts : Forall2 pool_cut ts rs.
Hypothesis Hp0 : pool_ok p0 live0.

(** Each object that is given back was allocated, and is given back once. *)
Hypothesis Hgive : ∀ i j o, rs !! i = Some (Give o) → rs !! j = Some (Give o) → i = j.
Hypothesis Hlive : ∀ i o, rs !! i = Some (Give o) → o ∈ live0.

Implicit Types os : list (nat * Z).

Definition got (p : nat * Z) : option Z :=
  match rs !! p.1 with Some Allocate => Some p.2 | _ => None end.
Definition given (p : nat * Z) : option Z :=
  match rs !! p.1 with Some (Give o) => Some o | _ => None end.

Definition pool_related os (_ : gmap nat nat) (g s : P) : Prop := g = s.

(** What has been allocated so far, no object twice. *)
Definition held_back os : gset Z := live0 ∖ list_to_set (omap given os).
Definition pool_conc_inv os (g : P) : Prop :=
  NoDup (omap got os) ∧ list_to_set (omap got os) ## held_back os ∧
  pool_ok g (held_back os ∪ list_to_set (omap got os)).

Definition pool_body (i : nat) : thread P Z := default (Done 0) (ts !! i).

Lemma inv_allocate os i g a g1 :
  rs !! i = Some Allocate → pool_conc_inv os g → pool_alloc g = (Ok a, g1) →
  pool_conc_inv (os ++ [(i, a)]) g1.
Proof.
  intros Hr (Hnd & Hdj & Hok) Ha. pose proof (pool_alloc_ok g _ Hok) as Hal. rewrite Ha in Hal.
  destruct Hal as (_ & Hn & Hok').
  assert (E1 : omap got (os ++ [(i, a)]) = omap got os ++ [a])
    by (rewrite omap_app; cbn; unfold got at 2; cbn; by rewrite Hr).
  assert (E2 : held_back (os ++ [(i, a)]) = held_back os)
    by (unfold held_back; rewrite omap_app; cbn; unfold given at 2; cbn; by rewrite Hr, app_nil_r).
  unfold pool_conc_inv. rewrite E1, E2. split_and!.
  - apply NoDup_app. split_and!; [done| |apply NoDup_singleton].
    intros y Hy ->%list_elem_of_singleton. set_solver.
  - set_solver.
  - replace (held_back os ∪ _) with ({[a]} ∪ (held_back os ∪ list_to_set (omap got os))); [done|].
    set_solver.
Qed.

Lemma inv_give os i g o g1 :
  i ∉ os.*1 → rs !! i = Some (Give o) → pool_conc_inv os g → pool_free o g = (Ok tt, g1) →
  pool_conc_inv (os ++ [(i, 0)]) g1.
Proof.
  intros Hi Hr (Hnd & Hdj & Hok) Ha.
  assert (Ho : o ∈ held_back os).
  { apply elem_of_difference. split; [by eapply Hlive|].
    intros ([j x] & Hj & Hg)%elem_of_list_to_set%list_elem_of_omap. unfold given in Hg. cbn in Hg.
    destruct (rs !! j) as [[|o']|] eqn:E; simplify_eq. apply Hi. rewrite (Hgive i j o Hr E).
    apply list_elem_of_fmap. by exists (j, x). }
  destruct (pool_free_ok g _ o Hok ltac:(by apply elem_of_union; left)) as (g' & E & Hok').
  rewrite E in Ha. injection Ha as ->.
  assert (E1 : omap got (os ++ [(i, 0)]) = omap got os)
    by (rewrite omap_app; cbn; unfold got at 2; cbn; by rewrite Hr, app_nil_r).
  assert (E2 : held_back (os ++ [(i, 0)]) = held_back os ∖ {[o]}).
  { unfold held_back. rewrite omap_app. cbn. unfold given at 2. cbn. rewrite Hr. set_solver. }
  unfold pool_conc_inv. rewrite E1, E2. split_and!; [done|set_solver|].
  replace (held_back os ∖ {[o]} ∪ _) with ((held_back os ∪ list_to_set (omap got os)) ∖ {[o]}); [done|].
  set_solver.
Qed.

Lemma pool_body_follows os i g : (i < length ts)%nat → i ∉ os.*1 → pool_conc_inv os g →
  ∃ o g1, follows (pool_related os) (pool_body i) g o g1 ∧ (o = None → true = true) ∧
    ∀ a, o = Some a → comes_to pool_related pool_conc_inv os i a g1.
Proof.
  intros [t Ht]%lookup_lt_is_Some Hi Hinv. unfold pool_body. rewrite Ht. simpl.
  destruct (Forall2_lookup_l _ _ _ _ _ Hts Ht) as (r & Hr & Hlf & Hrun).
  destruct (run_follows (gmap nat nat) t g Hlf) as (o & g1 & Hf & Ho & _).
  exists o, g1. split_and!; [exact Hf|done|]. intros a Ha. apply Ho in Ha. rewrite Hrun in Ha.
  exists g1. split; [|by intros pr s ->]. destruct r as [|x]; cbn [pool_request_run] in Ha.
  - by eapply inv_allocate.
  - revert Ha. mred. destruct (pool_free x g) as [[[]|e|k] g2] eqn:Hfree; [intros [= <- <-]|done..].
    by eapply inv_give.
Qed.

(** The threads, each of which takes the lock, does its part and releases the lock. *)
Definition pool_threads : list (thread P Z) := (λ t, critical t Done) <$> ts.

Context {L : Type} `{!SxOps L, !SxLaws L}.

Lemma pool_start s (l : L) :
  start (length ts) pool_body (λ _, Done) s l = World s l pool_threads.
Proof.
  unfold start, pool_threads. f_equal. apply list_eq. intros i. rewrite !list_lookup_fmap.
  destruct (lt_dec i (length ts)) as [Hi|Hi].
  - rewrite lookup_seq_lt by done. simpl. unfold section_of, pool_body.
    apply lookup_lt_is_Some in Hi as [t Ht]. by rewrite Ht.
  - rewrite lookup_seq_ge, lookup_ge_None_2 by lia. done.
Qed.

Lemma shared_pool (l : L) w :
  sx_owner l = None → rtc tstep (World p0 l pool_threads) w → all_done w →
  ∃ os, os.*1 ≡ₚ seq 0 (length ts) ∧ pool_conc_inv os w.(w_state) ∧
    ∀ i a, (i, a) ∈ os → w.(w_threads) !! i = Some (Done a).
Proof.
  intros Hl Hw Hd. assert (Hq : ∀ i (a : Z), quiet pool_related (λ _, 0%nat) i a 0 (Done a))
    by (intros i a; apply (quiet_done pool_related (λ _, 0%nat))).
  assert (Hs : serialised (length ts) pool_body (λ _, Done) (λ _ a, a) pool_related pool_conc_inv
      (λ _, 0%nat) true w).
  { eapply serialised_steps; [| | |exact Hw]; [apply pool_body_follows|done|]. rewrite <- pool_start.
    apply (serialised_start _ _ _ _ _ _ _ _ _ _ p0); [exact Hl| |done].
    split_and!; [constructor|done|]. unfold held_back. cbn.
    by replace (live0 ∖ ∅ ∪ ∅) with live0 by set_solver. }
  destruct (serialised_done _ _ _ _ _ _ _ _ w Hs Hd) as (os & pr & g & Hos & Hinv & <- & Hall).
  exists os. split_and!; [done|done|]. intros i a Hi. by apply Hall in Hi as [_ ?].
Qed.

Lemma omap_unique {T U} (f : T → option U) (l : list T) x y p q u :
  NoDup (omap f l) → l !! x = Some p → l !! y = Some q → f p = Some u → f q = Some u → x = y.
Proof.
  intros Hnd. revert x y. induction l as [|z l IH]; intros x y; [done|]. cbn in Hnd.
  assert (Hin : ∀ i w, l !! i = Some w → f w = Some u → u ∈ omap f l)
    by (intros i w Hi Hw; apply list_elem_of_omap; exists w; split; [by eapply list_elem_of_lookup_2|done]).
  destruct x as [|x], y as [|y]; cbn; intros Hx Hy Hp Hq; simplify_eq; [done|..].
  - rewrite Hp in Hnd. apply NoDup_cons in Hnd as [Hn _]. by destruct Hn; eapply Hin.
  - rewrite Hq in Hnd. apply NoDup_cons in Hnd as [Hn _]. by destruct Hn; eapply Hin.
  - f_equal. apply IH; try done. destruct (f z); [by apply NoDup_cons in Hnd as [_ ?]|done].
Qed.

(** What the threads have got in the end: different objects, which are the ones
    allocated, with those allocated before and not given back. *)
Definition pool_outcome (w : world P Z L) : Prop :=
  (∀ i, rs !! i = Some Allocate → ∃ a, w.(w_threads) !! i = Some (Done a)) ∧
  (∀ i j a, rs !! i = Some Allocate → rs !! j = Some Allocate →
     w.(w_threads) !! i = Some (Done a) → w.(w_threads) !! j = Some (Done a) → i = j) ∧
  ∃ live, pool_ok w.(w_state) live ∧ ∀ o, o ∈ live ↔
    (o ∈ live0 ∧ Give o ∉ rs) ∨ ∃ i, rs !! i = Some Allocate ∧ w.(w_threads) !! i = Some (Done o).

Lemma shared_pool_outcome (l : L) w :
  sx_owner l = None → rtc tstep (World p0 l pool_threads) w → all_done w → pool_outcome w.
Proof.
  intros Hl Hw Hd. destruct (shared_pool l w Hl Hw Hd) as (os & Hos & (Hnd & Hdj & Hok) & Hres).
  assert (Hlen : length rs = length ts) by (symmetry; by eapply Forall2_length).
  assert (Hin : ∀ i r, rs !! i = Some r → ∃ a, (i, a) ∈ os).
  { intros i r Hr. assert (Hi : i ∈ os.*1)
      by (rewrite Hos; apply elem_of_seq; apply lookup_lt_Some in Hr; lia).
    apply list_elem_of_fmap in Hi as ([i' a] & -> & Hi). by exists a. }
  assert (Hgot : ∀ i a, rs !! i = Some Allocate → w_threads w !! i = Some (Done a) → (i, a) ∈ os).
  { intros i a Hr Ha. destruct (Hin i _ Hr) as [b Hb]. rewrite (Hres i b Hb) in Ha. by injection Ha as ->. }
  split_and!.
  - intros i Hr. destruct (Hin i _ Hr) as [a Ha]. exists a. by apply Hres.
  - intros i j a Hi Hj Hti Htj.
    destruct (list_elem_of_lookup_1 _ _ (Hgot i a Hi Hti)) as [x Hx].
    destruct (list_elem_of_lookup_1 _ _ (Hgot j a Hj Htj)) as [y Hy].
    assert (x = y) as ->; [|by simplify_eq].
    eapply (omap_unique got os); [exact Hnd|exact Hx|exact Hy|..]; unfold got; cbn; [by rewrite Hi|by rewrite Hj].
  - eexists. split; [exact Hok|]. intros o. unfold held_back.
    rewrite elem_of_union, elem_of_difference, !elem_of_list_to_set, !list_elem_of_omap. split.
    + intros [[Ho Hn]|([i a] & Hi & Hg)].
      * left. split; [done|]. intros [i Hi]%list_elem_of_lookup. destruct (Hin i _ Hi) as [a Ha].
        apply Hn. exists (i, a). split; [done|]. unfold given. cbn. by rewrite Hi.
      * right. exists i. unfold got in Hg. cbn in Hg. destruct (rs !! i) as [[]|] eqn:Hr; simplify_eq.
        split; [done|by apply Hres].
    + intros [[Ho Hn]|(i & Hr & Ht)].
      * left. split; [done|]. intros ([i a] & Hi & Hg). apply Hn. unfold given in Hg. cbn in Hg.
        destruct (rs !! i) as [[]|] eqn:Hr; simplify_eq. by eapply list_elem_of_lookup_2.
      * right. exists (i, o). split; [by apply Hgot|]. unfold got. cbn. by rewrite Hr.
Qed.
End shared.

(** ** The pools of [mempool.c] *)

Section mempool.
Context (kmalloc : Z → memory → Z * memory) (sos_memory : Z).

(** Cut at its statements.  [src/mempool.c:151-169], [mempool_alloc] *)
Definition mempool_alloc_steps : thread pool_state Z :=
  then_do (s ← get_st;
           if s.(pool).(num_free) <=? s.(pool).(reserve) then expand kmalloc sos_memory else mret tt) (λ _,
  then_do (s ← get_st; assert_ (0 <? s.(pool).(num_free))) (λ _,
  then_do (s ← get_st; mret s.(pool).(free_list)) (λ obj,
  then_do (s ← get_st; next ← lift (load 8 s.(pmem) obj);
           mod_st (set_free (s.(pool).(num_free) - 1) next)) (λ _, Done obj)))).

(** [src/mempool.c:171-179], [mempool_free] *)
Definition mempool_free_steps (object : Z) : thread pool_state Z :=
  then_do (mempool_free object) (λ _, Done 0).

#[local] Instance mempool_ops' : PoolOps pool_state := mempool_ops kmalloc sos_memory.

Ltac frees := repeat first [apply lock_free_then_do; intros ?|apply lf_done].

Lemma mempool_alloc_cut : pool_cut mempool_alloc_steps Allocate.
Proof.
  split; [unfold mempool_alloc_steps; frees|]. intros s. unfold mempool_alloc_steps.
  etrans; [revert s; repeat first [apply runs_then_do|apply runs_done|intros ?]|].
  cbn [pool_request_run pool_alloc mempool_ops' mempool_ops]. unfold mempool_alloc. mred.
  destruct (_ <=? _).
  - destruct (expand kmalloc sos_memory s) as [[[]|e|t] s1]; [|done..]. unfold assert_. mred.
    destruct (0 <? _); [|done]. unfold lift. by destruct (load _ _ _).
  - unfold assert_. mred. destruct (0 <? _); [|done]. unfold lift. by destruct (load _ _ _).
Qed.

Lemma mempool_free_cut o : pool_cut (mempool_free_steps o) (Give o).
Proof.
  split; [unfold mempool_free_steps; frees|]. intros s. unfold mempool_free_steps.
  etrans; [revert s; repeat first [apply runs_then_do|apply runs_done|intros ?]|]. done.
Qed.
End mempool.

(** ** Properties *)

(** C4. Threads that allocate from one pool and give back objects allocated before,
    interleaved in any way, however the routines are cut into atomic steps between the
    acquisition and the release of the pool's lock: when all are done, no two have got
    the same object, and what the pool has lent is what was lent before, without what
    was given back, and what they have got. *)
Theorem allocations_distinct (kmalloc : Z → memory → Z * memory) (Hk : kmalloc_spec kmalloc)
    (sos : Z) (L : Type) `(HL : SxLaws L) (ts : list (thread pool_state Z)) (rs : list pool_request)
    (p : pool_state) (live : gset Z) (l : L) (w : world pool_state Z L) :
  let laws := mempool_laws kmalloc sos Hk in
  Forall2 (@pool_cut pool_state (mempool_ops kmalloc sos)) ts rs → mempool_ok sos p live →
  (∀ i j o, rs !! i = Some (Give o) → rs !! j = Some (Give o) → i = j) →
  (∀ i o, rs !! i = Some (Give o) → o ∈ live) →
  sx_owner l = None → rtc tstep (World p l (pool_threads ts)) w → all_done w →
  @pool_outcome pool_state (mempool_ops kmalloc sos) laws rs live L w.
Proof. intros laws Hts Hp Hg Hlv. by eapply (@shared_pool_outcome pool_state _ laws ts rs p live). Qed.

(** One thread allocates while the other gives 0x100020 back, on a pool that has lent
    0x100020 and has 0x100000 left. *)
Lemma example_shared (s : pool_state) (ts : list (thread pool_state Z)) :
  pool_inv 0x8000 s [0x100000] {[0x100020]} → s.(pool).(num_free) = 1 → s.(pool).(reserve) = 0 →
  ts = [mempool_alloc_steps example_kmalloc 0x8000; mempool_free_steps 0x100020] →
  ∃ (w : world pool_state Z example_lock),
    rtc tstep (World s None (pool_threads ts)) w ∧ w.(w_threads) = [Done 0x100000; Done 0].
Proof.
  intros Hinv Hn Hr ->.
  destruct (alloc_head example_kmalloc 0x8000 s _ _ _ Hinv) as (next & E & Hinv' & _);
    [rewrite Hn; lia|rewrite Hn, Hr; lia|].
  set (s1 := set_free _ next s) in *.
  destruct (mempool_free_inv example_kmalloc 0x8000 s1 _ _ 0x100020 Hinv') as (s2 & E2 & _); [set_solver|].
  set (t0 := critical (mempool_alloc_steps example_kmalloc 0x8000) Done).
  set (t1 := critical (mempool_free_steps 0x100020) Done).
  destruct (mempool_alloc_cut example_kmalloc 0x8000) as [Hf0 Hr0].
  destruct (mempool_free_cut example_kmalloc 0x8000 0x100020) as [Hf1 Hr1].
  destruct (solo_critical (L := example_lock) (mempool_alloc_steps example_kmalloc 0x8000) Done [t0; t1] None 0
    s s1 0x100000) as (l1 & Hl1 & H1); [done|done|by rewrite Hr0|done|].
  destruct (solo_critical (L := example_lock) (mempool_free_steps 0x100020) Done [Done 0x100000; t1] l1 1
    s1 s2 0) as (l2 & _ & H2); [done|done| |done|].
  - rewrite Hr1. cbn [pool_request_run pool_free mempool_ops' mempool_ops]. mred. by rewrite E2.
  - exists (World s2 l2 [Done 0x100000; Done 0]). split; [|done]. by etrans; [exact H1|].
Qed.

Lemma allocations_distinct_witness : ∃ (w : world pool_state Z example_lock) live,
  w.(w_threads) = [Done 0x100000; Done 0] ∧ mempool_ok 0x8000 w.(w_state) live ∧
  0x100000 ∈ live ∧ 0x100020 ∉ live.
Proof.
  generalize example_pool, example_pool_ok. intros s (Hinv & Hn & Hr).
  destruct (alloc_head example_kmalloc 0x8000 s _ _ _ Hinv) as (next & E & Hinv1 & _);
    [rewrite Hn; lia|rewrite Hn, Hr; lia|].
  assert (Hinv2 : pool_inv 0x8000 (set_free (num_free (pool s) - 1) next s) [0x100000] {[0x100020]})
    by (by rewrite union_empty_r_L in Hinv1).
  destruct (example_shared _ _ Hinv2 ltac:(cbn; lia) Hr eq_refl) as (w & Hw & Ht).
  pose proof (allocations_distinct example_kmalloc example_kmalloc_spec 0x8000 example_lock example_sx_laws
    [mempool_alloc_steps example_kmalloc 0x8000; mempool_free_steps 0x100020] [Allocate; Give 0x100020]
    (set_free (s.(pool).(num_free) - 1) next s) {[0x100020]} None w) as Hd. cbv zeta in Hd.
  destruct Hd as (_ & _ & live & Hok & Hlive).
  - constructor; [apply mempool_alloc_cut|]. constructor; [apply mempool_free_cut|constructor].
  - by exists [0x100000].
  - intros [|[|i]] [|[|j]] o Hi Hj; try discriminate; done.
  - intros [|[|i]] o Hi; try discriminate. injection Hi as <-. by apply elem_of_singleton.
  - reflexivity.
  - exact Hw.
  - intros t. rewrite Ht. intros [->|[->|Hx%elem_of_nil]%elem_of_cons]%elem_of_cons; [by eexists..|done].
  - exists w, live. split; [exact Ht|]. split; [exact Hok|]. split.
    + apply Hlive. right. exists 0%nat. by rewrite Ht.
    + intros [[_ Hg]|([|[|i]] & Hr' & Ht')]%Hlive; [apply Hg; right; left|..]; try discriminate Hr'.
      rewrite Ht in Ht'. discriminate Ht'.
Defined.
