(* ===== verification/Races.v ===== *)
(** * Where the locking does not hold

    The search among the registered descriptors takes no lock
    ([Gfind_dynamic_proc_info.c]), and the set-up on first use initialises the lock it
    is about to take ([Gglobal.c]).  For the first, an interleaving that goes wrong;
    for the second, that the lock would do if it were initialised before, and an
    interleaving in which a thread initialises it while another holds it. *)
From S2P Require Export Concurrent ProcInfo.

(** ** The search beside a cancellation *)

Definition covers (ip : Z) (d : unw_dyn_info_t) : bool := (d.(di_start_ip) <=? ip) && (ip <? d.(di_end_ip)).

(** The walk from the descriptor [di] on, the result being the one found.  What is
    found is read later, and the range of a descriptor does not change.
    [src/Gfind_dynamic_proc_info.c:42-46], [local_find_proc_info] *)
Fixpoint find_walk (n : nat) (ip di : Z) : thread dyn_state (option Z) :=
  match n with
  | O => Do (halt NoFuel)
  | S n' =>
      if di =? 0 then Done None
      else then_do (di_get di) (λ d,
           if covers ip d then Done (Some di)
           else then_do (d ← di_get di; mret d.(di_next)) (λ next, find_walk n' ip next))
  end.

(** [src/Gfind_dynamic_proc_info.c:28-47], [local_find_proc_info] *)
Definition find_thread (n : nat) (ip : Z) : thread dyn_state (option Z) :=
  then_do (s ← get_st; mret s.(dl_first)) (λ first, find_walk n ip first).

Lemma find_walk_alone st ip l : ∀ n prev p s, s.(dl_store) = st → dll st prev p l → (length l < n)%nat →
  run (find_walk n ip p) s = (Ok (fst <$> find_dynamic st ip l), s).
Proof.
  induction l as [|x l IH]; intros [|n] prev p s Hs Hl Hn; try (simpl in Hn; lia).
  - simpl in Hl. by subst p.
  - destruct Hl as (-> & Hx & d & Hd & _ & Hl). cbn [find_walk find_dynamic].
    rewrite (proj2 (Z.eqb_neq _ _) Hx), Hd. unfold then_do. cbn [run]. mred.
    rewrite (di_get_eval x s d) by by rewrite Hs. fold (covers ip d).
    destruct (covers ip d); [done|]. cbn [run]. mred. rewrite (di_get_eval x s d) by by rewrite Hs.
    eapply IH; [done|exact Hl|simpl in Hn; lia].
Qed.

(** Alone, it finds what the search of [ProcInfo] finds. *)
Lemma find_alone s l n ip : dyn_list s l → (length l < n)%nat →
  run (find_thread n ip) s = (Ok (fst <$> find_dynamic s.(dl_store) ip l), s).
Proof. intros [Hl _] Hn. unfold find_thread, then_do. cbn [run]. mred. by eapply find_walk_alone. Qed.

(** The descriptors of [l] do not cover [ip]. *)
Definition passes (st : gmap Z unw_dyn_info_t) (ip : Z) (l : list Z) : Prop :=
  ∀ z, z ∈ l → ∃ d, st !! z = Some d ∧ covers ip d = false.

Lemma find_dynamic_skip st ip l1 l2 :
  passes st ip l1 → find_dynamic st ip (l1 ++ l2) = find_dynamic st ip l2.
Proof.
  intros H. induction l1 as [|z l1 IH]; [done|]. cbn.
  destruct (H z ltac:(left)) as (d & -> & E). unfold covers in E. rewrite E. apply IH.
  intros y Hy. apply H. by right.
Qed.

Lemma same_payloads_covers st st' ip z d :
  same_payloads st st' → st !! z = Some d → ∃ d', st' !! z = Some d' ∧ covers ip d' = covers ip d.
Proof.
  intros H Hd. specialize (H z). rewrite Hd in H. destruct (st' !! z) as [d'|]; [|done].
  exists d'. split; [done|]. injection H as H1 H2 _ _ _ _ _ _. unfold covers. by rewrite H1, H2.
Qed.

Lemma find_dynamic_payloads st st' ip l :
  same_payloads st st' → (∀ z, z ∈ l → is_Some (st !! z)) →
  fst <$> find_dynamic st' ip l = fst <$> find_dynamic st ip l.
Proof.
  intros H. induction l as [|z l IH]; intros Hin; [done|]. cbn.
  destruct (Hin z ltac:(left)) as [d Hd]. destruct (same_payloads_covers st st' ip z d H Hd) as (d' & Hd' & E).
  rewrite Hd, Hd'. unfold covers in E. rewrite E. clear E. destruct (_ && _); [done|]. apply IH.
  intros y Hy. apply Hin. by right.
Qed.

Section race.
Context {L : Type} `{!SxOps L, !SxLaws L}.

(** The search has come to [x]. *)
Lemma walk_reaches (t0 : thread dyn_state (option Z)) s l ip x l2 l1 : ∀ n prev p,
  dll s.(dl_store) prev p (l1 ++ x :: l2) → passes s.(dl_store) ip l1 →
  rtc tstep (World (L := L) s l [t0; find_walk (length l1 + n) ip p]) (World s l [t0; find_walk n ip x]).
Proof.
  induction l1 as [|z l1 IH]; intros n prev p Hl Hp.
  - destruct Hl as (-> & _). apply rtc_refl.
  - destruct Hl as (-> & Hz & d & Hd & _ & Hl). destruct (Hp z ltac:(left)) as (d' & Hd' & E).
    rewrite Hd in Hd'. injection Hd' as <-. cbn [length Nat.add find_walk]. rewrite (proj2 (Z.eqb_neq _ _) Hz).
    eapply rtc_l; [eapply (step_do _ _ _ 1); [done|]; mred; by rewrite (di_get_eval _ _ _ Hd)|].
    cbn [list_insert insert]. rewrite E.
    eapply rtc_l; [eapply (step_do _ _ _ 1); [done|]; mred; by rewrite (di_get_eval _ _ _ Hd)|].
    cbn [list_insert insert]. apply (IH n z); [exact Hl|]. intros y Hy. apply Hp. by right.
Qed.

Lemma cancel_body_free x : lock_free (cancel_body x).
Proof. repeat first [apply lock_free_then_do; intros ?|apply lf_done]. Qed.

(** A cancellation that is not interrupted. *)
Lemma cancel_solo (t1 : thread dyn_state (option Z)) s l l1 x l2 :
  dyn_list s (l1 ++ x :: l2) → sx_owner l = None →
  ∃ s' l' d, rtc tstep (World (L := L) s l [cancel_thread None x; t1]) (World s' l' [Done None; t1]) ∧
    dyn_list s' (l1 ++ l2) ∧ same_payloads s.(dl_store) s'.(dl_store) ∧
    s'.(dl_store) !! x = Some d ∧ d.(di_next) = 0.
Proof.
  intros Hl Ho. destruct (cancel_parts [] [] s l1 x l2 Hl) as (g1 & d & Hf & Hd & E).
  { intros y _ (i & Hi%elem_of_nil & _). done. }
  destruct (cancel_spec s l1 x l2 Hl) as (s' & E' & Hl' & Hp). rewrite E in E'. injection E' as <-.
  destruct (solo_critical (cancel_body x) (λ _, cancel_tail None x) [cancel_thread None x; t1] l 0 s g1 ())
    as (l' & _ & H1); [apply cancel_body_free|done|by eapply follows_run|done|].
  eexists _, l', (reset_links d). split; [|split_and!; [exact Hl'|exact Hp|apply lookup_insert_eq|done]].
  etrans; [exact H1|]. apply (solo_run (cancel_tail None x) [cancel_thread None x; t1] l' 0); [|by apply cancel_tail_run|simpl; lia].
  repeat first [apply lock_free_then_do; intros ?|apply lf_done].
Qed.
End race.

(** ** The set-up on first use, by many threads *)

Section init.
Context (kmalloc : Z → memory → Z * memory) (sos_memory : Z).

(** What a thread does that has found [tdep_init_done] zero.
    [src/Gglobal.c:87-92], [tdep_init] *)
Definition set_up : thread globals () :=
  then_do mi_init (λ _,
  then_do (on_pools (dwarf_init kmalloc sos_memory)) (λ _,
  then_do tdep_init_mem_validate (λ _,
  then_do x86_64_local_addr_space_init (λ _,
  then_do (mod_st (set_init_done 1)) (λ _, Done tt))))).

(** [src/Gglobal.c:81-93], [tdep_init] *)
Definition init_body : thread globals () :=
  then_do (g ← get_st; mret g.(tdep_init_done)) (λ done, if negb (done =? 0) then Done tt else set_up).

(** [src/Gglobal.c:75-96], [tdep_init] *)
Definition init_thread : thread globals () := Init (critical init_body (λ _, Done tt)).

Lemma init_body_run : runs_as init_body (tdep_init kmalloc sos_memory).
Proof.
  intros g. unfold init_body. etrans.
  { revert g. apply (runs_then_do _ _ (λ done, if negb (done =? 0) then mret tt else
      mi_init;; on_pools (dwarf_init kmalloc sos_memory);; tdep_init_mem_validate;;
      x86_64_local_addr_space_init;; mod_st (set_init_done 1);; mret tt)).
    intros done. destruct (negb _); [apply runs_done|]. unfold set_up. runs. }
  unfold tdep_init. mred. destruct (negb _); [done|].
  destruct (mi_init g) as [[[]|e|t] g1]; [|done..].
  destruct (on_pools _ g1) as [[a|e|t] g2]; [|done..].
  destruct (tdep_init_mem_validate g2) as [[[]|e|t] g3]; [|done..].
  by destruct (x86_64_local_addr_space_init g3) as [[[]|e|t] g4].
Qed.

Lemma init_thread_run : runs_as init_thread (tdep_init kmalloc sos_memory).
Proof.
  intros g. unfold init_thread. cbn [run]. etrans.
  { revert g. apply runs_critical; [apply init_body_run|]. intros ?. apply runs_done. }
  mred. by destruct (tdep_init _ _ g) as [[[]|e|t] g'].
Qed.

Lemma init_body_free : lock_free init_body.
Proof.
  unfold init_body. apply lock_free_then_do. intros done. destruct (negb _); [apply lf_done|].
  unfold set_up. repeat first [apply lock_free_then_do; intros ?|apply lf_done].
Qed.

(** Who succeeds leaves [tdep_init_done] set, and is the last to change anything. *)
Lemma tdep_init_again g g' :
  tdep_init kmalloc sos_memory g = (Ok tt, g') → tdep_init kmalloc sos_memory g' = (Ok tt, g').
Proof.
  intros H. assert (Hd : g'.(tdep_init_done) ≠ 0).
  { revert H. unfold tdep_init. mred. destruct (_ =? 0) eqn:E; [|intros [= <-]; by apply Z.eqb_neq].
    cbn [negb]. destruct (mi_init g) as [[[]|e|t] g1]; [|done..].
    destruct (on_pools _ g1) as [[a|e|t] g2]; [|done..].
    destruct (tdep_init_mem_validate g2) as [[[]|e|t] g3]; [|done..].
    destruct (x86_64_local_addr_space_init g3) as [[[]|e|t] g4]; [|done..]. by intros [= <-]. }
  unfold tdep_init. mred. by rewrite (proj2 (Z.eqb_neq _ _) Hd).
Qed.

(** The sections of [os] have run: the first has set the library up. *)
Definition set_up_inv (g0 g1 : globals) (os : list (nat * ())) (g : globals) : Prop :=
  g = match os with [] => g0 | _ => g1 end.
Definition set_up_related (_ : list (nat * ())) (_ : gmap nat nat) (g s : globals) : Prop := g = s.

Lemma init_body_follows g0 g1 os i g :
  tdep_init kmalloc sos_memory g0 = (Ok tt, g1) → set_up_inv g0 g1 os g →
  ∃ o g', follows (set_up_related os) init_body g o g' ∧ (o = None → false = true) ∧
    ∀ a, o = Some a → comes_to set_up_related (set_up_inv g0 g1) os i a g'.
Proof.
  intros H Hi. assert (E : run init_body g = (Ok tt, g1)).
  { rewrite init_body_run. rewrite Hi. destruct os; [exact H|]. by eapply tdep_init_again. }
  destruct (run_follows (gmap nat nat) init_body g init_body_free) as (o & g' & Hf & _ & Hn).
  destruct o as [[]|]; [|by destruct (Hn eq_refl tt g1)]. apply follows_run in Hf as Hr. rewrite E in Hr. injection Hr as <-.
  exists (Some tt), g1. split_and!; [exact Hf|done|]. intros [] _. exists g1. split.
  - unfold set_up_inv. by destruct os.
  - by intros pr s ->.
Qed.

(** [n] threads that have found the lock initialised. *)
Definition init_sections (n : nat) : list (thread globals ()) :=
  replicate n (critical init_body (λ _, Done tt)).

Context {L : Type} `{!SxOps L, !SxLaws L}.

Lemma init_start n g (l : L) :
  start n (λ _, init_body) (λ _ _, Done tt) g l = World g l (init_sections n).
Proof.
  unfold start, init_sections. f_equal. apply list_eq. intros i. rewrite list_lookup_fmap.
  destruct (lt_dec i n) as [Hi|Hi].
  - by rewrite lookup_seq_lt, lookup_replicate_2 by done.
  - rewrite lookup_seq_ge, lookup_ge_None_2 by (rewrite ?length_replicate; lia). done.
Qed.

Lemma set_up_serialised n g g' (l : L) w :
  tdep_init kmalloc sos_memory g = (Ok tt, g') → sx_owner l = None →
  rtc tstep (World g l (init_sections n)) w →
  serialised n (λ _, init_body) (λ _ _, Done tt) (λ _ _, tt) set_up_related (set_up_inv g g')
    (λ _, 0%nat) false w.
Proof.
  intros H Hl Hw.
  assert (Hq : ∀ i, quiet set_up_related (λ _, 0%nat) i () 0 (Done ()))
    by (intros i; apply (quiet_done set_up_related (λ _, 0%nat))).
  eapply serialised_steps; [| | |exact Hw].
  - intros os i g1 _ _ Hi. by apply init_body_follows.
  - intros i [] _. apply Hq.
  - rewrite <- init_start. by apply (serialised_start _ _ _ _ _ _ _ _ _ _ g).
Qed.
End init.

(** ** Properties *)

(** C31. The search takes no lock: while it stands on a registered descriptor [x],
    another thread can cancel [x] and reset its links, and the search ends there.  It
    finds nothing for an address that a descriptor [y] after [x] covers, although [y]
    is registered all the time, and the same search alone finds it before and after. *)
Theorem search_misses_registered (L : Type) `(HL : SxLaws L) (s : dyn_state) (l : L)
    (l1 l2 : list Z) (x ip y : Z) (dy : unw_dyn_info_t) (n : nat) :
  dyn_list s (l1 ++ x :: l2) → passes s.(dl_store) ip (l1 ++ [x]) →
  find_dynamic s.(dl_store) ip l2 = Some (y, dy) → (length (l1 ++ x :: l2) < n)%nat →
  sx_owner l = None →
  run (find_thread n ip) s = (Ok (Some y), s) ∧
  ∃ w, rtc tstep (World s l [cancel_thread None x; find_thread n ip]) w ∧
    w.(w_threads) = [Done None; Done None] ∧ dyn_list w.(w_state) (l1 ++ l2) ∧
    run (find_thread n ip) w.(w_state) = (Ok (Some y), w.(w_state)).
Proof.
  intros Hl Hp Hf Hn Ho. rewrite length_app in Hn. simpl in Hn.
  assert (E : l1 ++ x :: l2 = (l1 ++ [x]) ++ l2) by by rewrite <- app_assoc.
  split. { rewrite (find_alone s _ n ip Hl) by (rewrite length_app; simpl; lia).
    by rewrite E, find_dynamic_skip, Hf. }
  destruct (Hp x) as (dx & Hdx & Hcx); [apply elem_of_app; right; left|].
  replace n with (length l1 + S (S (n - length l1 - 2)))%nat by lia. set (k := (n - length l1 - 2)%nat).
  destruct (cancel_solo (then_do (d ← di_get x; mret d.(di_next)) (λ next, find_walk (S k) ip next))
    s l l1 x l2 Hl Ho) as (s' & l' & d & Hsteps & Hl' & Hpay & Hd & Hnext).
  assert (Hx0 : x ≠ 0) by (destruct Hl as [Hl _]; eapply (dll_lookup _ _ _ _ x Hl), elem_of_app; right; left).
  exists (World s' l' [Done None; Done None]). split_and!; [|done|exact Hl'|].
  - unfold find_thread. eapply rtc_l; [by eapply (step_do _ _ _ 1)|]. cbn [list_insert insert].
    etrans; [eapply (walk_reaches _ s l ip x l2 l1 _ 0); [apply Hl|]|].
    { intros z Hz. apply Hp, elem_of_app. by left. }
    cbn [find_walk]. rewrite (proj2 (Z.eqb_neq _ _) Hx0).
    eapply rtc_l; [eapply (step_do _ _ _ 1); [done|]; mred; by rewrite (di_get_eval _ _ _ Hdx)|].
    cbn [list_insert insert]. rewrite Hcx. etrans; [exact Hsteps|].
    eapply rtc_l; [eapply (step_do _ _ _ 1); [done|]; mred; by rewrite (di_get_eval _ _ _ Hd)|].
    cbn [list_insert insert]. rewrite Hnext. apply rtc_refl.
  - cbn [w_state]. rewrite (find_alone s' _ _ ip Hl') by (rewrite length_app; simpl; lia).
    rewrite (find_dynamic_payloads s.(dl_store)); [|exact Hpay|].
    + rewrite find_dynamic_skip, Hf; [done|]. intros z Hz. apply Hp, elem_of_app. by left.
    + intros z Hz. destruct Hl as [Hl _]. eapply (dll_lookup _ _ _ _ z Hl), elem_of_app.
      apply elem_of_app in Hz as [?|?]; [by left|right; by right].
Qed.

(** 0x20 is cancelled while the search for 0x4010, which 0x10 covers, stands on it. *)
Lemma search_misses_registered_witness :
  run (find_thread 3 0x4010) example_two = (Ok (Some 0x10), example_two) ∧
  ∃ w : world dyn_state (option Z) example_lock,
    rtc tstep (World example_two None [cancel_thread None 0x20; find_thread 3 0x4010]) w ∧
    w.(w_threads) = [Done None; Done None] ∧ dyn_list w.(w_state) [0x10].
Proof.
  assert (Hp : passes example_two.(dl_store) 0x4010 ([] ++ [0x20])).
  { intros z [->|Hz%elem_of_nil]%elem_of_cons; [|done]. eexists. by split. }
  assert (Hf : ∃ d, find_dynamic example_two.(dl_store) 0x4010 [0x10] = Some (0x10, d))
    by (eexists; reflexivity).
  destruct Hf as [d Hf].
  destruct (search_misses_registered example_lock example_sx_laws example_two None [] [0x10] 0x20 0x4010
    0x10 d 3 (oa_list _ _ _ example_two_apart) Hp Hf ltac:(simpl; lia) eq_refl) as (Ha & w & Hw & Ht & Hl & _).
  split; [exact Ha|]. by exists w.
Defined.

(** C32. Threads that use the library for the first time set it up once, if its lock
    is initialised before: however the sections of [tdep_init] are interleaved, none
    faults, one of the threads can always go on, and in the end the state is that of a
    single run.  But [tdep_init] initialises the lock itself: a thread can come to do
    so while another holds the lock, half-way through the set-up. *)
Theorem set_up_once (L : Type) `(HL : SxLaws L) (kmalloc : Z → memory → Z * memory) (sos : Z)
    (g g' : globals) (l : L) :
  tdep_init kmalloc sos g = (Ok tt, g') → g.(tdep_init_done) = 0 → sx_owner l = None →
  (∀ n w, rtc tstep (World g l (init_sections kmalloc sos n)) w →
     (all_done w ∨ ∃ w', tstep w w') ∧
     (∀ i m, w.(w_threads) !! i = Some (Do m) → ∃ t s, m w.(w_state) = (Ok t, s)) ∧
     (all_done w → (0 < n)%nat → w.(w_state) = g')) ∧
  ∃ l', sx_owner l' = Some (0%nat, 1%nat) ∧
    let section := locked (set_up kmalloc sos) (λ _, Done tt) in
    rtc tstep (World g l [init_thread kmalloc sos; init_thread kmalloc sos])
      (World g l' [section; init_thread kmalloc sos]) ∧
    tstep (World g l' [section; init_thread kmalloc sos])
      (World g (sx_init l') (section :: init_sections kmalloc sos 1)).
Proof.
  intros H H0 Hl. split.
  - intros n w Hw. pose proof (set_up_serialised kmalloc sos n g g' l w H Hl Hw) as Hs.
    destruct (sections_serialise _ _ _ _ _ _ _ _ (λ os i g1 _ _ Hi, init_body_follows kmalloc sos g g' os i g1 H Hi) w Hs) as [Hgo Hend]. destruct (Hgo eq_refl) as [Hp Hno].
    split_and!; [exact Hp|exact Hno|]. intros Hd Hn.
    destruct (Hend Hd) as (os & pr & g1 & Hos & -> & <- & _). destruct os as [|o os]; [|done].
    apply Permutation_length in Hos. rewrite length_seq in Hos. simpl in Hos. lia.
  - destruct (sx_xlock_free 0%nat (sx_init l) (sx_init_free l Hl)) as (l1 & E1 & Ho).
    exists l1. split; [exact Ho|]. intros section. split; [|exact (step_init _ _ [section; init_thread kmalloc sos] 1 (critical (init_body kmalloc sos) (λ _, Done tt)) eq_refl)].
    eapply rtc_l; [by eapply (step_init _ _ _ 0)|]. eapply rtc_l; [by eapply (step_acquire _ _ _ 0)|].
    eapply rtc_l; [|apply rtc_refl]. cbn [list_insert insert].
    refine (step_do _ _ [locked (init_body kmalloc sos) (λ _, Done tt); init_thread kmalloc sos]
      0 _ section _ eq_refl _).
    cbv beta. mred. by rewrite H0.
Qed.

(** Three threads, on a pool memory that is enough: there is an end, set up once. *)
Lemma set_up_once_witness : ∃ (w : world globals () example_lock) g',
  tdep_init no_kmalloc 0x8000 (start_globals example_pool_mem) = (Ok tt, g') ∧
  rtc tstep (World (start_globals example_pool_mem) None (init_sections no_kmalloc 0x8000 3)) w ∧
  all_done w ∧ w.(w_state) = g' ∧ g'.(tdep_init_done) = 1.
Proof.
  generalize example_pool_mem, (proj2 example_mem_mapped). intros m Hm.
  destruct (example_dwarf_init m Hm) as (m2 & _ & E).
  pose proof (tdep_init_eq no_kmalloc 0x8000 (start_globals m) _ eq_refl E) as Ei.
  destruct (set_up_once example_lock example_sx_laws no_kmalloc 0x8000 (start_globals m) _ None Ei eq_refl eq_refl)
    as [Hall _].
  destruct (tstep_ends (rtc tstep (World (start_globals m) None (init_sections no_kmalloc 0x8000 3)))
    (World (start_globals m) None (init_sections no_kmalloc 0x8000 3))) as (w & _ & Hd & Hw).
  - apply rtc_refl.
  - intros w1 w2 H1 H2. by eapply rtc_r.
  - intros w1 H1. by destruct (Hall 3%nat w1 H1).
  - eexists w, _. split; [exact Ei|]. split; [exact Hw|]. split; [exact Hd|]. split; [|reflexivity].
    apply (Hall 3%nat w Hw); [exact Hd|lia].
Defined.
