(* ===== verification/Elf.v ===== *)
(** * Images of ELF files

    [elfxx.c] and [elfxx.h]: the symbol of an image that is closest to an
    address; [Gfind_unwind_table.c]: the unwind table of an image.  The layout of
    the headers is that of the system's [sys/elf.h], a class with the offsets and
    constants the code uses.  The routines of the C library are those of the
    language. *)
From S2P Require Export ProcInfo.

(** ** The system's definitions *)

(** Field offsets of [Elf64_Ehdr], [Elf64_Shdr], [Elf64_Sym], [Elf64_Phdr] and
    [Elf64_Dyn], with their sizes where the code indexes arrays of them, and the
    constants.  The widths of the fields are those of the 64-bit format. *)
Class ElfHeaders := {
  e_phoff : Z; e_shoff : Z; e_phnum : Z; e_shentsize : Z; e_shnum : Z;
  sh_type : Z; sh_offset : Z; sh_size : Z; sh_link : Z; sh_entsize : Z;
  st_name : Z; st_info : Z; st_shndx : Z; st_value : Z;
  p_type : Z; p_offset : Z; p_vaddr : Z; p_filesz : Z; p_memsz : Z; sizeof_Phdr : Z;
  d_tag : Z; d_ptr : Z; sizeof_Dyn : Z;
  ELFMAG : list Z; EI_CLASS : Z; EI_VERSION : Z; ELFCLASS64 : Z; EV_NONE : Z; EV_CURRENT : Z;
  SHT_SYMTAB : Z; SHT_DYNSYM : Z; STT_FUNC : Z; SHN_UNDEF : Z; SHN_ABS : Z;
  PT_LOAD : Z; PT_DYNAMIC : Z; PT_GNU_EH_FRAME : Z; DT_NULL : Z; DT_PLTGOT : Z;
  ELF64_ST_TYPE : Z → Z
}.

(** ** The C library *)

(** Whether [memcmp] finds the bytes [bs] at [a]. *)
Fixpoint memcmp_eq (m : memory) (a : Z) (bs : list Z) : res bool :=
  match bs with
  | [] => Ok true
  | b :: bs' => c ← load 1 m a; if c =? b then memcmp_eq m (u64 (a + 1)) bs' else Ok false
  end.

Fixpoint strlen_loop (fuel : nat) (m : memory) (a : Z) : res Z :=
  match fuel with
  | O => Stop NoFuel
  | S fuel' =>
      c ← load 1 m a;
      if c =? 0 then Ok 0 else n ← strlen_loop fuel' m (u64 (a + 1)); Ok (1 + n)
  end.

(** A string has at most as many bytes as there are in the memory. *)
Definition strlen (m : memory) (a : Z) : res Z := strlen_loop (S (size m)) m a.

Fixpoint bzero (n : nat) (m : memory) (a : Z) : res memory :=
  match n with
  | O => Ok m
  | S n' => m ← store 1 m a 0; bzero n' m (u64 (a + 1))
  end.

(** Copy up to [n] bytes of a string; a shorter one is filled up with zeros. *)
Fixpoint strncpy (n : nat) (m : memory) (dst src : Z) : res memory :=
  match n with
  | O => Ok m
  | S n' =>
      c ← load 1 m src;
      m ← store 1 m dst c;
      if c =? 0 then bzero n' m (u64 (dst + 1)) else strncpy n' m (u64 (dst + 1)) (u64 (src + 1))
  end.

(** A product of two [int]s. *)
Definition int_mul (a b : Z) : res Z :=
  if (-2147483648 <=? a * b) && (a * b <=? 2147483647) then Ok (a * b) else Stop Undef.

(** ** Images *)

(** [src/include/libunwind_i.h:193-197], [elf_image] *)
Record elf_image := ElfImage { ei_image : Z; ei_size : Z }.

Section elf.
Context `{!ElfHeaders}.

(** The class of the build is that of [elf64.h].
    [src/elfxx.h:63-73], [valid_object] *)
Definition valid_object (m : memory) (ei : elf_image) : res bool :=
  if ei.(ei_size) <=? EI_VERSION then Ok false
  else
    magic ← memcmp_eq m ei.(ei_image) ELFMAG;
    if negb magic then Ok false
    else
      class ← load 1 m (u64 (ei.(ei_image) + EI_CLASS));
      if negb (class =? ELFCLASS64) then Ok false
      else
        version ← load 1 m (u64 (ei.(ei_image) + EI_VERSION));
        Ok (negb (version =? EV_NONE) && (version <=? EV_CURRENT)).

(** [src/elfxx.h:75-79], [elf_map_image] *)
Definition elf_map_image (path : Z) : res elf_image := Err UNW_EUNSPEC.

(** The result is an address, 0 for a table that is refused.
    [src/elfxx.c:31-47], [section_table] *)
Definition section_table (m : memory) (ei : elf_image) : res Z :=
  soff ← load 8 m (u64 (ei.(ei_image) + e_shoff));
  shnum ← load 2 m (u64 (ei.(ei_image) + e_shnum));
  shentsize ← load 2 m (u64 (ei.(ei_image) + e_shentsize));
  len ← int_mul shnum shentsize;
  if ei.(ei_size) <? u64 (soff + len) then Ok 0 else Ok (u64 (ei.(ei_image) + soff)).

(** [src/elfxx.c:49-79], [string_table] *)
Definition string_table (m : memory) (ei : elf_image) (section : Z) : res Z :=
  soff ← load 8 m (u64 (ei.(ei_image) + e_shoff));
  shentsize ← load 2 m (u64 (ei.(ei_image) + e_shentsize));
  len ← int_mul section shentsize;
  let str_soff := u64 (soff + len) in
  if ei.(ei_size) <? u64 (str_soff + shentsize) then Ok 0
  else
    let str_shdr := u64 (ei.(ei_image) + str_soff) in
    offset ← load 8 m (u64 (str_shdr + sh_offset));
    size ← load 8 m (u64 (str_shdr + sh_size));
    if ei.(ei_size) <? u64 (offset + size) then Ok 0 else Ok (u64 (ei.(ei_image) + offset)).

(** ** The closest symbol *)

(** The memory, where the caller's buffer is, and the distance of the closest
    symbol so far. *)
Record name_state := NameState { ns_mem : memory; min_dist : Z }.

Definition rd_mem {A} (f : memory → res A) : M name_state A := λ s, (f s.(ns_mem), s).
Definition wr_mem (f : memory → res memory) : M name_state () := λ s,
  match f s.(ns_mem) with
  | Ok m => (Ok tt, NameState m s.(min_dist))
  | Err e => (Err e, s)
  | Stop t => (Stop t, s)
  end.

(** One symbol; [ret] is the value to return so far, [None] for 0.
    [src/elfxx.c:123-141], [lookup_symbol] *)
Definition lookup_sym (ip load_offset buf buf_len strtab sym : Z) (ret : option unw_error)
    : M name_state (option unw_error) :=
  info ← rd_mem (λ m, load 1 m (u64 (sym + st_info)));
  if negb (ELF64_ST_TYPE info =? STT_FUNC) then mret ret
  else
    shndx ← rd_mem (λ m, load 2 m (u64 (sym + st_shndx)));
    if shndx =? SHN_UNDEF then mret ret
    else
      value ← rd_mem (λ m, load 8 m (u64 (sym + st_value)));
      let val := if negb (shndx =? SHN_ABS) then u64 (value + load_offset) else value in
      s ← get_st;
      if u64 (ip - val) <? s.(min_dist) then
        mod_st (λ s, NameState s.(ns_mem) (u64 (ip - val)));;
        name ← rd_mem (λ m, load 4 m (u64 (sym + st_name)));
        wr_mem (λ m, strncpy (Z.to_nat buf_len) m buf (u64 (strtab + name)));;
        wr_mem (λ m, store 1 m (u64 (buf + (buf_len - 1))) 0);;
        name ← rd_mem (λ m, load 4 m (u64 (sym + st_name)));
        len ← rd_mem (λ m, strlen m (u64 (strtab + name)));
        mret (if buf_len <=? len then Some UNW_ENOMEM else None)
      else mret ret.

(** [src/elfxx.c:119-142], [lookup_symbol] *)
Fixpoint lookup_syms (fuel : nat) (ip load_offset buf buf_len strtab symtab_end syment_size sym : Z)
    (ret : option unw_error) : M name_state (option unw_error) :=
  match fuel with
  | O => halt NoFuel
  | S fuel' =>
      if sym <? symtab_end then
        ret ← lookup_sym ip load_offset buf buf_len strtab sym ret;
        lookup_syms fuel' ip load_offset buf buf_len strtab symtab_end syment_size
          (u64 (sym + syment_size)) ret
      else mret ret
  end.

(** One section header.  [src/elfxx.c:104-147], [lookup_symbol] *)
Definition lookup_section (fuel : nat) (ip : Z) (ei : elf_image) (load_offset buf buf_len shdr : Z)
    (ret : option unw_error) : M name_state (option unw_error) :=
  type ← rd_mem (λ m, load 4 m (u64 (shdr + sh_type)));
  if (type =? SHT_SYMTAB) || (type =? SHT_DYNSYM) then
    offset ← rd_mem (λ m, load 8 m (u64 (shdr + sh_offset)));
    let symtab := u64 (ei.(ei_image) + offset) in
    size ← rd_mem (λ m, load 8 m (u64 (shdr + sh_size)));
    let symtab_end := u64 (symtab + size) in
    syment_size ← rd_mem (λ m, load 8 m (u64 (shdr + sh_entsize)));
    link ← rd_mem (λ m, load 4 m (u64 (shdr + sh_link)));
    strtab ← rd_mem (λ m, string_table m ei (s32 link));
    if strtab =? 0 then mret ret
    else lookup_syms fuel ip load_offset buf buf_len strtab symtab_end syment_size symtab ret
  else mret ret.

(** [src/elfxx.c:102-149], [lookup_symbol] *)
Fixpoint lookup_sections (n fuel : nat) (ip : Z) (ei : elf_image)
    (load_offset buf buf_len i shdr : Z) (ret : option unw_error) : M name_state (option unw_error) :=
  match n with
  | O => halt NoFuel
  | S n' =>
      shnum ← rd_mem (λ m, load 2 m (u64 (ei.(ei_image) + e_shnum)));
      if i <? shnum then
        ret ← lookup_section fuel ip ei load_offset buf buf_len shdr ret;
        shentsize ← rd_mem (λ m, load 2 m (u64 (ei.(ei_image) + e_shentsize)));
        lookup_sections n' fuel ip ei load_offset buf buf_len (i + 1) (u64 (shdr + shentsize)) ret
      else mret ret
  end.

(** The number of sections is a 16-bit integer.
    [src/elfxx.c:81-151], [lookup_symbol] *)
Definition lookup_symbol (fuel : nat) (ip : Z) (ei : elf_image) (load_offset buf buf_len : Z)
    : M name_state (option unw_error) :=
  valid ← rd_mem (λ m, valid_object m ei);
  if negb valid then mret (Some UNW_ENOINFO)
  else
    shdr ← rd_mem (λ m, section_table m ei);
    if shdr =? 0 then mret (Some UNW_ENOINFO)
    else
      lookup_sections (Z.to_nat 65537) fuel ip ei load_offset buf buf_len 0 shdr (Some UNW_ENOINFO).

(** [src/elfxx.c:165-170], [get_load_offset] *)
Fixpoint load_offset_loop (n : nat) (m : memory) (phdr segbase mapoff : Z) : res Z :=
  match n with
  | O => Ok 0
  | S n' =>
      type ← load 4 m (u64 (phdr + p_type));
      offset ← (if type =? PT_LOAD then load 8 m (u64 (phdr + p_offset)) else Ok 0);
      if (type =? PT_LOAD) && (offset =? mapoff) then
        vaddr ← load 8 m (u64 (phdr + p_vaddr)); Ok (u64 (segbase - vaddr))
      else load_offset_loop n' m (u64 (phdr + sizeof_Phdr)) segbase mapoff
  end.

(** [src/elfxx.c:153-173], [get_load_offset] *)
Definition get_load_offset (m : memory) (ei : elf_image) (segbase mapoff : Z) : res Z :=
  phoff ← load 8 m (u64 (ei.(ei_image) + e_phoff));
  phnum ← load 2 m (u64 (ei.(ei_image) + e_phnum));
  load_offset_loop (Z.to_nat phnum) m (u64 (ei.(ei_image) + phoff)) segbase mapoff.

(** Without the decompressor.  [src/elfxx.c:285-289], [extract_minidebuginfo] *)
Definition extract_minidebuginfo (ei : elf_image) : option elf_image := None.

(** The result is the value to return and, when there is one, [*offp].
    [src/elfxx.c:297-336], [get_proc_name_in_image] *)
Definition get_proc_name_in_image (fuel : nat) (ei : elf_image) (segbase mapoff ip buf buf_len : Z)
    : M memory (option unw_error * option Z) := λ m,
  let run : M name_state (option unw_error * option Z) :=
    load_offset ← rd_mem (λ m, get_load_offset m ei segbase mapoff);
    ret ← lookup_symbol fuel ip ei load_offset buf buf_len;
    ret ← match extract_minidebuginfo ei with
          | None => mret ret
          | Some mdi =>
              load_offset ← rd_mem (λ m, get_load_offset m mdi segbase mapoff);
              ret_mdi ← lookup_symbol fuel ip mdi load_offset buf buf_len;
              mret (if bool_decide (ret_mdi = None ∨ ret_mdi = Some UNW_ENOMEM) then ret_mdi else ret)
          end;
    s ← get_st;
    if ei.(ei_size) <=? s.(min_dist) then mret (Some UNW_ENOINFO, None)
    else mret (ret, Some s.(min_dist)) in
  let '(r, s) := run (NameState m (u64 (-1))) in (r, s.(ns_mem)).

(** ** The unwind table of an image *)

(** What the loop over the program headers finds; a header is 0 when there is
    none. *)
Record phdr_scan := PhdrScan {
  sc_start_ip : Z;
  sc_end_ip : Z;
  sc_max_load_addr : Z;
  ptxt : Z;
  peh_hdr : Z;
  pdyn : Z
}.

(** [src/Gfind_unwind_table.c:65-76], [dwarf_find_unwind_table] *)
Definition scan_load (m : memory) (image phdr0 phdr mapoff : Z) (sc : phdr_scan) : res phdr_scan :=
  vaddr ← load 8 m (u64 (phdr + p_vaddr));
  memsz ← load 8 m (u64 (phdr + p_memsz));
  offset ← load 8 m (u64 (phdr + p_offset));
  filesz ← load 8 m (u64 (phdr0 + p_filesz));
  Ok (PhdrScan
    (if vaddr <? sc.(sc_start_ip) then vaddr else sc.(sc_start_ip))
    (if sc.(sc_end_ip) <? u64 (vaddr + memsz) then u64 (vaddr + memsz) else sc.(sc_end_ip))
    (if sc.(sc_max_load_addr) <? u64 (image + filesz) then u64 (image + filesz) else sc.(sc_max_load_addr))
    (if offset =? mapoff then phdr else sc.(ptxt))
    sc.(peh_hdr) sc.(pdyn)).

(** [src/Gfind_unwind_table.c:61-89], [dwarf_find_unwind_table] *)
Fixpoint scan_phdrs (n : nat) (m : memory) (image phdr0 phdr mapoff : Z) (sc : phdr_scan)
    : res phdr_scan :=
  match n with
  | O => Ok sc
  | S n' =>
      type ← load 4 m (u64 (phdr + p_type));
      sc ← (if type =? PT_LOAD then scan_load m image phdr0 phdr mapoff sc
            else if type =? PT_GNU_EH_FRAME then
              Ok (PhdrScan sc.(sc_start_ip) sc.(sc_end_ip) sc.(sc_max_load_addr) sc.(ptxt) phdr sc.(pdyn))
            else if type =? PT_DYNAMIC then
              Ok (PhdrScan sc.(sc_start_ip) sc.(sc_end_ip) sc.(sc_max_load_addr) sc.(ptxt) sc.(peh_hdr) phdr)
            else Ok sc);
      scan_phdrs n' m image phdr0 (u64 (phdr + sizeof_Phdr)) mapoff sc
  end.

(** The entry for the global pointer, if there is one.
    [src/Gfind_unwind_table.c:107-114], [dwarf_find_unwind_table] *)
Fixpoint find_pltgot (fuel : nat) (m : memory) (dyn : Z) : res (option Z) :=
  match fuel with
  | O => Stop NoFuel
  | S fuel' =>
      tag ← load 8 m (u64 (dyn + d_tag));
      if tag =? DT_NULL then Ok None
      else if tag =? DT_PLTGOT then v ← load 8 m (u64 (dyn + d_ptr)); Ok (Some v)
      else find_pltgot fuel' m (u64 (dyn + sizeof_Dyn))
  end.

(** The descriptor's global pointer.
    [src/Gfind_unwind_table.c:100-120], [dwarf_find_unwind_table] *)
Definition table_gp (fuel : nat) (m : memory) (image pdyn : Z) (di : unw_dyn_info_t)
    : res unw_dyn_info_t :=
  if negb (pdyn =? 0) then
    offset ← load 8 m (u64 (pdyn + p_offset));
    gp ← find_pltgot fuel m (u64 (offset + image));
    match gp with Some gp => Ok (di_set_gp gp di) | None => Ok di end
  else Ok (di_set_gp 0 di).

(** [src/include/dwarf-eh.h:107-107], [DW_EH_VERSION] *)
Definition DW_EH_VERSION : Z := 1.

(** The size of the header's fixed part.
    [src/include/dwarf-eh.h:109-126], [dwarf_eh_frame_hdr] *)
Definition sizeof_eh_frame_hdr : Z := 4.

(** The optional members of the header: where the table starts, and its length.
    [src/Gfind_unwind_table.c:141-151], [dwarf_find_unwind_table] *)
Definition eh_hdr_members (m : memory) (hdr gp : Z) : res (Z * Z) :=
  let pi := set_gp gp zero_proc_info in
  enc ← load 1 m (u64 (hdr + 1));
  let '(r, addr) := try (dwarf_read_encoded_pointer m enc pi) (u64 (hdr + sizeof_eh_frame_hdr)) in
  r ← r;
  match r with
  | inr _ => Err UNW_ENOINFO
  | inl eh_frame_start =>
      enc ← load 1 m (u64 (hdr + 2));
      let '(r, addr) := try (dwarf_read_encoded_pointer m enc pi) addr in
      r ← r;
      match r with inr _ => Err UNW_ENOINFO | inl fde_count => Ok (addr, fde_count) end
  end.

(** The descriptor of the table.
    [src/Gfind_unwind_table.c:181-195], [dwarf_find_unwind_table] *)
Definition table_descriptor (start_ip end_ip image load_base vaddr offset hdr addr fde_count : Z)
    (di : unw_dyn_info_t) : unw_dyn_info_t :=
  DynInfo di.(di_next) di.(di_prev) start_ip end_ip di.(di_gp) UNW_INFO_FORMAT_REMOTE_TABLE
    0 (u64 (u64 (load_base + vaddr) + (hdr - image - offset))) (u64 (fde_count * 8) / 8)
    (u64 (u64 (load_base + vaddr) + (addr - image - offset))).

(** [edi->di_cache] is the state, what is found in 0 or 1.
    [src/Gfind_unwind_table.c:37-207], [dwarf_find_unwind_table] *)
Definition dwarf_find_unwind_table (fuel : nat) (m : memory) (ei : elf_image)
    (segbase mapoff : Z) : M unw_dyn_info_t Z :=
  valid ← lift (valid_object m ei);
  if negb valid then fail UNW_ENOINFO
  else
    let image := ei.(ei_image) in
    phoff ← lift (load 8 m (u64 (image + e_phoff)));
    phnum ← lift (load 2 m (u64 (image + e_phnum)));
    let phdr := u64 (image + phoff) in
    sc ← lift (scan_phdrs (Z.to_nat phnum) m image phdr phdr mapoff (PhdrScan (u64 (-1)) 0 0 0 0 0));
    if sc.(ptxt) =? 0 then mret 0
    else
      vaddr ← lift (load 8 m (u64 (sc.(ptxt) + p_vaddr)));
      let load_base := u64 (segbase - vaddr) in
      if sc.(peh_hdr) =? 0 then mret 0
      else
        di ← get_st;
        di ← lift (table_gp fuel m image sc.(pdyn) di);
        mod_st (λ _, di);;
        offset ← lift (load 8 m (u64 (sc.(peh_hdr) + p_offset)));
        let hdr := u64 (offset + image) in
        version ← lift (load 1 m hdr);
        if negb (version =? DW_EH_VERSION) then fail UNW_ENOINFO
        else
          '(addr, fde_count) ← lift (eh_hdr_members m hdr di.(di_gp));
          table_enc ← lift (load 1 m (u64 (hdr + 3)));
          if negb (table_enc =? pe_code DW_EH_PE_sdata4 DW_EH_PE_datarel false) then halt Panic
          else
            vaddr ← lift (load 8 m (u64 (sc.(peh_hdr) + p_vaddr)));
            mod_st (table_descriptor (u64 (sc.(sc_start_ip) + load_base)) (u64 (sc.(sc_end_ip) + load_base))
              image load_base vaddr offset hdr addr fde_count);;
            mret 1.
End elf.
