(* ===== verification/ElfSpec.v ===== *)
(** * What the symbols of an image are

    The image as a list of bytes and what its headers say, read without a
    memory; the proof that the search for the closest symbol finds it. *)
From S2P Require Export Elf.

(** ** Reading an image *)

(** A string up to the zero that ends it. *)
Fixpoint zstr (bs : list Z) : option (list Z) :=
  match bs with
  | [] => None
  | b :: bs' => if b =? 0 then Some [] else (b ::.) <$> zstr bs'
  end.

(** The results of [f] at [off], [off + step], ... *)
Fixpoint img_list {A} (f : Z → option A) (n : nat) (off step : Z) : option (list A) :=
  match n with
  | O => Some []
  | S n' => x ← f off; xs ← img_list f n' (off + step) step; Some (x :: xs)
  end.

Definition fits (x : Z) : option Z :=
  if (0 <=? x) && (x <? 18446744073709551616) then Some x else None.

(** A function of the image, at its address in the running program. *)
Record fsym := Fsym { fs_name : list Z; fs_addr : Z }.

(** Case analysis on the readings of a result that is there. *)
Ltac readings H :=
  repeat match type of H with
  | (?o ≫= _) = Some _ =>
      let E := fresh "E" in destruct o eqn:E; [cbn [mbind option_bind] in H|done]
  end.

Lemma fits_Some x y : fits x = Some y → y = x ∧ is_u64 x.
Proof.
  unfold fits, is_u64. destruct (_ && _) eqn:E; [|done]. intros [= <-].
  apply andb_true_iff in E as [?%Z.leb_le ?%Z.ltb_lt]. lia.
Qed.

Section image.
Context {EH : ElfHeaders} (img : list Z).

Definition word (n : nat) (off : Z) : option Z :=
  if (0 <=? off) && (off + Z.of_nat n <=? Z.of_nat (length img)) then
    Some (le_value (take n (drop (Z.to_nat off) img)))
  else None.

Definition name_at (off : Z) : option (list Z) :=
  if 0 <=? off then zstr (drop (Z.to_nat off) img) else None.

Definition img_valid : option bool :=
  if Z.of_nat (length img) <=? EI_VERSION then Some false
  else if (length img <? length ELFMAG)%nat then None
  else if negb (bool_decide (take (length ELFMAG) img = ELFMAG)) then Some false
  else
    class ← word 1 EI_CLASS;
    version ← word 1 EI_VERSION;
    Some ((class =? ELFCLASS64) && negb (version =? EV_NONE) && (version <=? EV_CURRENT)).

(** The string table of a section: where it starts, unless its header or its
    contents are not in the image. *)
Definition img_strtab (section : Z) : option (option Z) :=
  soff ← word 8 e_shoff;
  shentsize ← word 2 e_shentsize;
  if negb ((-2147483648 <=? section * shentsize) && (section * shentsize <=? 2147483647)) then None
  else
    off ← fits (soff + section * shentsize);
    stop ← fits (off + shentsize);
    if Z.of_nat (length img) <? stop then Some None
    else
      offset ← word 8 (off + sh_offset);
      size ← word 8 (off + sh_size);
      stop ← fits (offset + size);
      Some (if Z.of_nat (length img) <? stop then None else Some offset).

(** A defined function of a symbol table. *)
Definition img_sym (load_offset stroff off : Z) : option (option fsym) :=
  info ← word 1 (off + st_info);
  if negb (ELF64_ST_TYPE info =? STT_FUNC) then Some None
  else
    shndx ← word 2 (off + st_shndx);
    if shndx =? SHN_UNDEF then Some None
    else
      value ← word 8 (off + st_value);
      name ← word 4 (off + st_name);
      str ← name_at (stroff + name);
      Some (Some (Fsym str (if shndx =? SHN_ABS then value else u64 (value + load_offset)))).

(** The functions of a section, a whole number of entries when it is a table of
    symbols. *)
Definition img_section (load_offset off : Z) : option (list fsym) :=
  type ← word 4 (off + sh_type);
  if negb ((type =? SHT_SYMTAB) || (type =? SHT_DYNSYM)) then Some []
  else
    offset ← word 8 (off + sh_offset);
    size ← word 8 (off + sh_size);
    entsize ← word 8 (off + sh_entsize);
    link ← word 4 (off + sh_link);
    strtab ← img_strtab (s32 link);
    match strtab with
    | None => Some []
    | Some stroff =>
        if (0 <? entsize) && (size mod entsize =? 0) && (offset + size <=? Z.of_nat (length img)) then
          syms ← img_list (img_sym load_offset stroff) (Z.to_nat (size / entsize)) offset entsize;
          Some (omap (M := list) id syms)
        else None
    end.

Definition img_phdr (off : Z) : option (Z * Z * Z) :=
  type ← word 4 (off + p_type);
  offset ← word 8 (off + p_offset);
  vaddr ← word 8 (off + p_vaddr);
  Some (type, offset, vaddr).

(** Where the segment that is buffer_at at [segbase] was linked to be. *)
Definition img_load_offset (segbase mapoff : Z) : option Z :=
  phoff ← word 8 e_phoff;
  phnum ← word 2 e_phnum;
  phdrs ← img_list img_phdr (Z.to_nat phnum) phoff sizeof_Phdr;
  Some (match find (λ '(type, offset, _), (type =? PT_LOAD) && (offset =? mapoff)) phdrs with
        | Some (_, _, vaddr) => u64 (segbase - vaddr)
        | None => 0
        end).

(** The functions of the image when it is buffer_at at [segbase] from [mapoff] on. *)
Definition img_symbols (segbase mapoff : Z) : option (list fsym) :=
  load_offset ← img_load_offset segbase mapoff;
  valid ← img_valid;
  if negb valid then Some []
  else
    soff ← word 8 e_shoff;
    shnum ← word 2 e_shnum;
    shentsize ← word 2 e_shentsize;
    stop ← fits (soff + shnum * shentsize);
    if negb (shnum * shentsize <=? 2147483647) then None
    else if Z.of_nat (length img) <? stop then Some []
    else
      syms ← img_list (img_section load_offset) (Z.to_nat shnum) soff shentsize;
      Some (concat syms).
End image.

(** ** The closest function *)

(** How far an address is from the start of a function, going up. *)
Definition dist (ip : Z) (s : fsym) : Z := u64 (ip - s.(fs_addr)).

Definition closer (ip : Z) (best : option fsym) (s : fsym) : option fsym :=
  if dist ip s <? (match best with Some b => dist ip b | None => 18446744073709551615 end) then Some s
  else best.

Definition reach (ip : Z) (best : option fsym) : Z :=
  match best with Some b => dist ip b | None => 18446744073709551615 end.

Lemma closer_reach ip b s : reach ip (closer ip b s) ≤ reach ip b ∧ reach ip (closer ip b s) ≤ dist ip s.
Proof.
  unfold closer. change (match b with Some b0 => _ | None => _ end) with (reach ip b).
  destruct (Z.ltb_spec (dist ip s) (reach ip b)); simpl; lia.
Qed.

Lemma closest_min ip syms : ∀ b,
  let r := foldl (closer ip) b syms in
  reach ip r ≤ reach ip b ∧ Forall (λ s, reach ip r ≤ dist ip s) syms ∧
  (r = b ∨ ∃ s, s ∈ syms ∧ r = Some s).
Proof.
  induction syms as [|s syms IH]; intros b; simpl; [split_and!; [lia|done|by left]|].
  destruct (IH (closer ip b s)) as (H1 & H2 & H3). pose proof (closer_reach ip b s).
  split_and!; [lia|constructor; [lia|done]|].
  destruct H3 as [->|(s' & Hs & ->)]; [|right; exists s'; by rewrite elem_of_cons; auto].
  unfold closer. destruct (_ <? _); [right; exists s; rewrite elem_of_cons; auto|by left].
Qed.

(** ** Reading the image in memory *)

Lemma load_1 m a : load 1 m a = match m !! a with Some b => Ok (u8 b) | None => Stop (BadAddr a) end.
Proof. rewrite load_S. destruct (m !! a); [|done]. mred. unfold load. f_equal. lia. Qed.

Lemma store_1 m a v :
  store 1 m a v = match m !! a with Some _ => Ok (<[a := u8 v]> m) | None => Stop (BadAddr a) end.
Proof. rewrite store_S. by destruct (m !! a). Qed.

Lemma bytes_at_take m a bs n : bytes_at m a bs → bytes_at m a (take n bs).
Proof.
  revert a n. induction bs as [|b bs IH]; intros a [|n]; simpl; try done.
  intros (? & ? & ?). by auto.
Qed.

Lemma bytes_at_drop m a bs n :
  is_u64 a → bytes_at m a bs → bytes_at m (u64 (a + Z.of_nat n)) (drop n bs).
Proof.
  intros Ha H. destruct (decide (n < length bs)%nat).
  - rewrite <- (take_drop n bs) in H. apply bytes_at_app in H as [_ H]; [|done].
    rewrite length_take in H. by replace (n `min` length bs)%nat with n in H by lia.
  - by rewrite drop_ge by lia.
Qed.

Lemma bytes_at_lookup m : ∀ bs a i b,
  is_u64 a → bytes_at m a bs → bs !! i = Some b → m !! u64 (a + Z.of_nat i) = Some b ∧ is_byte b.
Proof.
  induction bs as [|b0 bs IH]; intros a [|i] b Ha H Hb; simpl in Hb; try done;
    destruct H as (H1 & H2 & H3).
  - injection Hb as ->. by rewrite u64_add_0.
  - destruct (IH _ _ _ (u64_range _) H3 Hb) as [H4 H5]. split; [|done].
    rewrite u64_add_l in H4. by replace (a + Z.of_nat (S i)) with (a + 1 + Z.of_nat i) by lia.
Qed.

Lemma bytes_at_intro m : ∀ bs a,
  is_u64 a → (∀ i b, bs !! i = Some b → m !! u64 (a + Z.of_nat i) = Some b ∧ is_byte b) → bytes_at m a bs.
Proof.
  induction bs as [|b bs IH]; intros a Ha H; simpl; [done|].
  destruct (H 0%nat b eq_refl) as [H1 H2]. rewrite u64_add_0 in H1 by done.
  split_and!; [done|done|]. apply IH; [apply u64_range|]. intros i c Hc.
  rewrite u64_add_l. replace (a + 1 + Z.of_nat i) with (a + Z.of_nat (S i)) by lia. by apply (H (S i)).
Qed.

Lemma memcmp_eq_bytes m : ∀ bs a l,
  is_u64 a → bytes_at m a l → (length bs ≤ length l)%nat →
  memcmp_eq m a bs = Ok (bool_decide (take (length bs) l = bs)).
Proof.
  induction bs as [|b bs IH]; intros a [|c l] Ha Hl Hlen; simpl in *; try done; try lia.
  destruct Hl as (Hc & Hb & Hl). rewrite load_1, Hc. mred. rewrite u8_small by done.
  destruct (Z.eqb_spec c b) as [->|Hne].
  - rewrite (IH _ l) by (done || apply u64_range || lia). f_equal. apply bool_decide_ext. split; [by intros ->|by intros [=]].
  - rewrite bool_decide_false; [done|]. by intros [=].
Qed.

Lemma bytes_at_mono m m' : ∀ bs a,
  0 ≤ a → a + Z.of_nat (length bs) ≤ 18446744073709551616 →
  (∀ x, a ≤ x < a + Z.of_nat (length bs) → m' !! x = m !! x) → bytes_at m a bs → bytes_at m' a bs.
Proof.
  induction bs as [|b bs IH]; intros a Ha He Hx; cbn [bytes_at length] in *; [done|].
  intros (H1 & H2 & H3). rewrite Hx by lia. split_and!; [done|done|].
  destruct bs as [|b' bs']; [done|]. cbn [length] in *. rewrite u64_small in * by (unfold is_u64; lia).
  apply IH; [lia|lia| |done]. intros x Hr. apply Hx. lia.
Qed.

Lemma bytes_at_size m a bs :
  0 ≤ a → a + Z.of_nat (length bs) ≤ 18446744073709551616 → bytes_at m a bs → (length bs ≤ size m)%nat.
Proof.
  intros Ha He Hb.
  set (l := (λ i, a + Z.of_nat i) <$> seq 0 (length bs)).
  assert (Hl : NoDup l) by (apply NoDup_fmap_2; [intros i j; lia|apply NoDup_seq]).
  replace (length bs) with (size (list_to_set l : gset Z))
    by (rewrite size_list_to_set by done; unfold l; by rewrite length_fmap, length_seq).
  rewrite <- size_dom. apply subseteq_size. intros x (i & -> & Hi%elem_of_seq)%elem_of_list_to_set%list_elem_of_fmap.
  destruct (lookup_lt_is_Some_2 bs i) as [b Hlk]; [lia|].
  destruct (bytes_at_lookup m bs a i b) as [Hm _]; [unfold is_u64; lia|done|done|].
  rewrite u64_small in Hm by (unfold is_u64; lia). by apply elem_of_dom_2 in Hm.
Qed.

(** The memory [m'] is [m] with [f] in the [n] bytes from [a] on. *)
Definition written (m m' : memory) (a : Z) (n : nat) (f : Z → Z) : Prop :=
  ∀ x, m' !! x = if decide (a ≤ x < a + Z.of_nat n) then Some (f (x - a)) else m !! x.

Definition buffer_at (m : memory) (a : Z) (n : nat) : Prop :=
  0 ≤ a ∧ a + Z.of_nat n ≤ 18446744073709551616 ∧ ∀ x, a ≤ x < a + Z.of_nat n → is_Some (m !! x).

Lemma mapped_store m a n v :
  buffer_at m a (S n) → ∃ m1, store 1 m a v = Ok m1 ∧ m1 = <[a := u8 v]> m ∧ (n = 0%nat ∨ u64 (a + 1) = a + 1 ∧ buffer_at m1 (a + 1) n).
Proof.
  intros (H0 & H1 & H2). destruct (H2 a ltac:(lia)) as [b Hb]. rewrite store_1, Hb.
  eexists. split_and!; [done|done|]. destruct n as [|n]; [by left|right].
  unfold buffer_at. split_and!; [apply u64_small; unfold is_u64; lia|lia|lia|]. intros x Hx.
  rewrite lookup_insert_ne by lia. apply H2. lia.
Qed.

Lemma written_step m m' a n (f : Z → Z) v :
  v = f 0 → written (<[a := v]> m) m' (a + 1) n (λ i, f (i + 1)) → written m m' a (S n) f.
Proof.
  intros -> H x. rewrite H. destruct (decide (a = x)) as [->|Hne].
  - rewrite decide_False, lookup_insert_eq, decide_True by lia. do 2 f_equal. lia.
  - rewrite lookup_insert_ne by done.
    destruct (decide (a + 1 ≤ x < _)); [rewrite decide_True by lia; do 2 f_equal; lia|].
    by rewrite decide_False by lia.
Qed.

Lemma written_0 m a f : written m m a 0 f.
Proof. intros x. by rewrite decide_False by lia. Qed.

Lemma bzero_spec : ∀ n m a, buffer_at m a n → ∃ m', bzero n m a = Ok m' ∧ written m m' a n (λ _, 0).
Proof.
  induction n as [|n IH]; intros m a Hm; [exists m; split; [done|apply written_0]|].
  destruct (mapped_store m a n 0 Hm) as (m1 & E & Em & Hn). cbn [bzero]. rewrite E. mred.
  destruct Hn as [->|[-> Hn]].
  - exists m1. split; [done|]. apply written_step with (v := 0); [done|]. rewrite Em. apply written_0.
  - destruct (IH _ _ Hn) as (m' & -> & Hw). exists m'. split; [done|].
    apply written_step with (v := 0); [done|]. by rewrite Em in Hw.
Qed.
Lemma written_ext m m' a n f g :
  (∀ i, 0 ≤ i < Z.of_nat n → f i = g i) → written m m' a n f → written m m' a n g.
Proof.
  intros E H x. rewrite H. destruct (decide _); [|done]. f_equal. apply E. lia.
Qed.

Lemma strncpy_spec : ∀ n m dst src l str,
  zstr l = Some str → bytes_at m src l → 0 ≤ src →
  src + Z.of_nat (length l) ≤ 18446744073709551616 → buffer_at m dst n →
  dst + Z.of_nat n ≤ src ∨ src + Z.of_nat (length l) ≤ dst →
  ∃ m', strncpy n m dst src = Ok m' ∧ written m m' dst n (λ i, default 0 (str !! Z.to_nat i)).
Proof.
  induction n as [|n IH]; intros m dst src l str Hz Hl H0 He Hm Hap;
    [exists m; split; [done|apply written_0]|].
  destruct l as [|b l]; [done|]. cbn [zstr length] in *. pose proof Hl as (Hb & Hbb & Hl').
  cbn [strncpy]. rewrite load_1, Hb, u8_small by done. mred.
  destruct (mapped_store m dst n b Hm) as (m1 & E & Em & Hn). rewrite E. rewrite u8_small in Em by done.
  destruct (b =? 0) eqn:Eb; [apply Z.eqb_eq in Eb; subst b; injection Hz as <-|].
  - destruct Hn as [->|[-> Hn]].
    + exists m1. split; [done|]. apply written_step with (v := 0); [done|]. subst m1. apply written_0.
    + destruct (bzero_spec _ _ _ Hn) as (m' & -> & Hw). exists m'. split; [done|].
      apply written_step with (v := 0); [done|]. subst m1. by eapply written_ext; [|exact Hw].
  - destruct (zstr l) as [str'|] eqn:Hz'; [|done]. injection Hz as <-.
    destruct Hn as [->|[-> Hn]].
    + exists m1. split; [done|]. apply written_step with (v := b); [done|]. subst m1. apply written_0.
    + assert (Hlen : (length l ≠ 0)%nat) by (by destruct l).
      rewrite u64_small in * by (unfold is_u64; lia).
      destruct (IH m1 (dst + 1) (src + 1) l str' Hz') as (m' & -> & Hw); [|lia|lia|done|lia|].
      { apply (bytes_at_mono m); [lia|lia| |done]. intros x Hx. subst m1. rewrite lookup_insert_ne by lia. done. }
      exists m'. split; [done|]. apply written_step with (v := b); [done|]. subst m1.
      eapply written_ext; [|exact Hw]. intros i Hi. cbn beta.
      by replace (Z.to_nat (i + 1)) with (S (Z.to_nat i)) by lia.
Qed.

Lemma zstr_length : ∀ l str, zstr l = Some str → (length str < length l)%nat.
Proof.
  induction l as [|b l IH]; intros str; cbn [zstr]; [done|]. destruct (b =? 0); [intros [= <-]; simpl; lia|].
  destruct (zstr l) as [s|] eqn:E; [|done]. intros [= <-]. specialize (IH _ eq_refl). simpl. lia.
Qed.

Lemma strlen_loop_spec m : ∀ fuel a l str,
  zstr l = Some str → bytes_at m a l → (length str < fuel)%nat →
  strlen_loop fuel m a = Ok (Z.of_nat (length str)).
Proof.
  induction fuel as [|fuel IH]; intros a [|b l] str Hz Hl Hf; try done; try lia.
  cbn [zstr] in Hz. destruct Hl as (Hb & Hbb & Hl). cbn [strlen_loop]. rewrite load_1, Hb, u8_small by done. mred.
  destruct (b =? 0); [by injection Hz as <-|]. destruct (zstr l) as [s|] eqn:E; [|done]. injection Hz as <-.
  simpl in Hf. rewrite (IH _ l s) by (done || lia). f_equal. simpl. lia.
Qed.
Section reading.
Context {EH : ElfHeaders} (img : list Z) (image : Z).

(** The image is in the memory and does not reach its end. *)
Definition image_at (m : memory) : Prop := bytes_at m image img.
Context (Himg : 0 < image) (Hend : image + Z.of_nat (length img) < 18446744073709551616).

Let ei := ElfImage image (Z.of_nat (length img)).

Lemma img_addr off n : 0 ≤ off → 0 < n → off + n ≤ Z.of_nat (length img) → u64 (image + off) = image + off.
Proof. intros. apply u64_small. unfold is_u64. lia. Qed.

Lemma load_word m n off v :
  image_at m → (0 < n)%nat → word img n off = Some v → load n m (u64 (image + off)) = Ok v.
Proof.
  unfold word. intros Hm Hn H.
  destruct (_ && _) eqn:E; [|done]. injection H as <-.
  apply andb_true_iff in E as [E1%Z.leb_le E2%Z.leb_le].
  assert (Hi : is_u64 image) by (unfold is_u64; lia).
  pose proof (bytes_at_take _ _ _ n (bytes_at_drop _ _ _ (Z.to_nat off) Hi Hm)) as H.
  rewrite Z2Nat.id in H by lia. apply load_bytes_at in H.
  rewrite length_take, length_drop in H. by replace (n `min` (length img - Z.to_nat off))%nat with n in H by lia.
Qed.

(** A field of a header at [off]. *)
Lemma load_field m n off f v :
  image_at m → (0 < n)%nat → word img n (off + f) = Some v →
  load n m (u64 (u64 (image + off) + f)) = Ok v.
Proof. intros. rewrite u64_add_l, <- Z.add_assoc. by apply load_word. Qed.

Lemma word_range m n off v :
  image_at m → (0 < n)%nat → word img n off = Some v → 0 ≤ v < 256 ^ Z.of_nat n.
Proof. intros Hm Hn H. eapply load_range. by apply (load_word m). Qed.

Lemma valid_object_img m b : image_at m → img_valid img = Some b → valid_object m ei = Ok b.
Proof.
  unfold img_valid, valid_object, ei. cbn [ei_size ei_image]. intros Hm H.
  destruct (_ <=? EI_VERSION); [by injection H as <-|].
  destruct (Nat.ltb_spec (length img) (length ELFMAG)); [done|].
  rewrite (memcmp_eq_bytes m _ _ img) by (done || unfold is_u64; lia). mred.
  case_bool_decide; cbn [negb] in H |- *; [|by injection H as <-].
  destruct (word img 1 EI_CLASS) as [class|] eqn:E1; [|done]. cbn [mbind option_bind] in H.
  destruct (word img 1 EI_VERSION) as [version|] eqn:E2; [|done]. cbn [mbind option_bind] in H.
  injection H as <-. rewrite (load_word m 1 EI_CLASS class) by (done || lia). mred.
  destruct (class =? ELFCLASS64); cbn [negb andb]; [|done].
  rewrite (load_word m 1 EI_VERSION version) by (done || lia). done.
Qed.
Lemma section_table_img m soff shnum shentsize stop :
  image_at m → word img 8 e_shoff = Some soff → word img 2 e_shnum = Some shnum →
  word img 2 e_shentsize = Some shentsize → fits (soff + shnum * shentsize) = Some stop →
  shnum * shentsize ≤ 2147483647 →
  section_table m ei = Ok (if Z.of_nat (length img) <? stop then 0 else u64 (image + soff)).
Proof.
  intros Hm H1 H2 H3 [-> Hs]%fits_Some Hp. unfold section_table, ei. cbn [ei_size ei_image].
  rewrite (load_word m 8 _ _ Hm ltac:(lia) H1), (load_word m 2 _ _ Hm ltac:(lia) H2),
    (load_word m 2 _ _ Hm ltac:(lia) H3).
  pose proof (word_range m 2 _ _ Hm ltac:(lia) H2). pose proof (word_range m 2 _ _ Hm ltac:(lia) H3).
  mred. unfold int_mul. rewrite (proj2 (Z.leb_le _ _)) by nia. rewrite (proj2 (Z.leb_le _ _)) by lia.
  cbn [andb]. rewrite u64_small by done. by destruct (_ <? _).
Qed.

Lemma string_table_img m section o :
  image_at m → img_strtab img section = Some o →
  string_table m ei section = Ok (match o with Some off => u64 (image + off) | None => 0 end) ∧
  (∀ off, o = Some off → 0 ≤ off ≤ Z.of_nat (length img)).
Proof.
  intros Hm. unfold img_strtab, string_table, ei. cbn [ei_size ei_image]. intros H.
  readings H. rewrite (load_word m 8 _ _ Hm ltac:(lia) E), (load_word m 2 _ _ Hm ltac:(lia) E0). mred.
  unfold int_mul. destruct (_ && _); [cbn [negb] in H|done]. readings H.
  apply fits_Some in E1 as [-> Hoff], E2 as [-> Hstop]. rewrite (u64_small _ Hoff), (u64_small _ Hstop).
  destruct (_ <? _); [by injection H as <-|]. readings H.
  rewrite (load_field m 8 _ _ _ Hm ltac:(lia) E1), (load_field m 8 _ _ _ Hm ltac:(lia) E2).
  apply fits_Some in E3 as [-> Hs]. mred. rewrite (u64_small _ Hs). injection H as <-.
  pose proof (word_range m 8 _ _ Hm ltac:(lia) E1). pose proof (word_range m 8 _ _ Hm ltac:(lia) E2).
  destruct (Z.ltb_spec (Z.of_nat (length img)) (z1 + z2)); split; try done. intros off [= <-]. lia.
Qed.

(** ** The search *)

Context (m0 : memory) (ip buf buf_len : Z).
Context (Hm0 : image_at m0) (Hlen : 0 < buf_len) (Hbuf : buffer_at m0 buf (Z.to_nat buf_len)).
Context (Hapart : buf + buf_len ≤ image ∨ image + Z.of_nat (length img) ≤ buf).

(** The buffer's byte [i] when it holds a name. *)
Definition buf_byte (name : list Z) (i : Z) : Z :=
  if i =? buf_len - 1 then 0 else default 0 (name !! Z.to_nat i).

(** The search has found [best]: only the buffer has changed, and it has the name. *)
Record found (best : option fsym) (s : name_state) : Prop := {
  fo_frame : ∀ x, ¬ buf ≤ x < buf + buf_len → s.(ns_mem) !! x = m0 !! x;
  fo_mapped : buffer_at s.(ns_mem) buf (Z.to_nat buf_len);
  fo_dist : s.(min_dist) = reach ip best;
  fo_name : ∀ f i, best = Some f → 0 ≤ i < buf_len → s.(ns_mem) !! (buf + i) = Some (buf_byte f.(fs_name) i)
}.

Definition ret_of (best : option fsym) : option unw_error :=
  match best with
  | Some f => if buf_len <=? Z.of_nat (length f.(fs_name)) then Some UNW_ENOMEM else None
  | None => Some UNW_ENOINFO
  end.

Lemma found_image best s : found best s → image_at s.(ns_mem).
Proof.
  intros Hf. apply (bytes_at_mono m0); [lia|lia| |exact Hm0]. intros x Hx. apply (fo_frame _ _ Hf). lia.
Qed.

(** Writing the name of a symbol. *)
Lemma put_name best s str l a d :
  found best s → zstr l = Some str → bytes_at s.(ns_mem) a l → image ≤ a →
  a + Z.of_nat (length l) ≤ image + Z.of_nat (length img) →
  ∃ m1 m2, strncpy (Z.to_nat buf_len) s.(ns_mem) buf a = Ok m1 ∧
    store 1 m1 (u64 (buf + (buf_len - 1))) 0 = Ok m2 ∧
    ∀ addr, d = dist ip (Fsym str addr) → found (Some (Fsym str addr)) (NameState m2 d).
Proof.
  intros Hf Hz Hl Ha He. pose proof (fo_mapped _ _ Hf) as Hmp. pose proof Hmp as (Hb0 & Hb1 & Hbm).
  rewrite Z2Nat.id in Hb1, Hbm by lia.
  destruct (strncpy_spec (Z.to_nat buf_len) s.(ns_mem) buf a l str Hz Hl) as (m1 & E & Hw);
    [lia|lia|done|rewrite Z2Nat.id by lia; lia|].
  rewrite u64_small by (unfold is_u64; lia).
  assert (Hlast : is_Some (m1 !! (buf + (buf_len - 1)))) by (rewrite Hw, decide_True by lia; done).
  exists m1, (<[buf + (buf_len - 1) := 0]> m1). destruct Hlast as [c Hc].
  split_and!; [done|by rewrite store_1, Hc|]. intros addr ->.
  assert (Hin : ∀ i, 0 ≤ i < buf_len →
    <[buf + (buf_len - 1) := 0]> m1 !! (buf + i) = Some (buf_byte str i)).
  { intros i Hi. unfold buf_byte. destruct (Z.eqb_spec i (buf_len - 1)) as [->|]; [by rewrite lookup_insert_eq|].
    rewrite lookup_insert_ne, Hw, decide_True by lia. by replace (buf + i - buf) with i by lia. }
  split; cbn [ns_mem min_dist reach fs_name].
  - intros x Hx. rewrite lookup_insert_ne, Hw, decide_False by lia. by apply (fo_frame _ _ Hf).
  - split_and!; [done|lia|]. intros x Hx. rewrite Z2Nat.id in Hx by lia.
    replace x with (buf + (x - buf)) by lia. rewrite Hin by lia. done.
  - done.
  - intros f i [= <-] Hi. by apply Hin.
Qed.

Lemma name_in_image m off str :
  image_at m → name_at img off = Some str →
  ∃ l, zstr l = Some str ∧ bytes_at m (u64 (image + off)) l ∧ u64 (image + off) = image + off ∧ 0 ≤ off ∧
    off + Z.of_nat (length l) ≤ Z.of_nat (length img).
Proof.
  unfold name_at. intros Hm H. destruct (Z.leb_spec 0 off); [|done].
  exists (drop (Z.to_nat off) img). pose proof (zstr_length _ _ H) as Hl. rewrite length_drop in *.
  split_and!; [done| |apply u64_small; unfold is_u64; lia|done|lia].
  rewrite <- (Z2Nat.id off) at 1 by done. apply bytes_at_drop; [unfold is_u64; lia|done].
Qed.

Definition closer' (best : option fsym) (o : option fsym) : option fsym :=
  match o with Some f => closer ip best f | None => best end.

Lemma lookup_sym_spec load_offset stroff off o best s :
  img_sym img load_offset stroff off = Some o → found best s →
  ∃ s', lookup_sym ip load_offset buf buf_len (u64 (image + stroff)) (u64 (image + off)) (ret_of best) s =
          (Ok (ret_of (closer' best o)), s') ∧ found (closer' best o) s'.
Proof.
  intros H Hf. pose proof (found_image _ _ Hf) as Hm. unfold img_sym in H. unfold lookup_sym, rd_mem. readings H.
  mred. rewrite (load_field _ 1 _ _ _ Hm ltac:(lia) E). destruct (negb _); [injection H as <-; by exists s|].
  readings H. rewrite (load_field _ 2 _ _ _ Hm ltac:(lia) E0).
  destruct (_ =? SHN_UNDEF); [injection H as <-; by exists s|]. readings H.
  rewrite (load_field _ 8 _ _ _ Hm ltac:(lia) E1).
  set (val := if negb (z0 =? SHN_ABS) then u64 (z1 + load_offset) else z1).
  assert (Hv : o = Some (Fsym l val)) by (injection H as <-; unfold val; by destruct (z0 =? SHN_ABS)).
  subst o. cbn [closer']. unfold closer.
  change (match best with Some b => _ | None => _ end) with (reach ip best).
  rewrite (fo_dist _ _ Hf). change (dist ip (Fsym l val)) with (u64 (ip - val)).
  destruct (_ <? reach ip best); [|by exists s]. unfold wr_mem. mred. cbn [ns_mem min_dist].
  rewrite (load_field _ 4 _ _ _ Hm ltac:(lia) E2).
  rewrite u64_add_l, <- Z.add_assoc.
  destruct (name_in_image _ _ _ Hm E3) as (bs & Hz & Hb & Hu & Ho & Hl).
  rewrite Hu in *.
  destruct (put_name best s l bs _ (u64 (ip - val)) Hf Hz Hb ltac:(lia) ltac:(lia)) as (m1 & m2 & -> & E5 & Hfound).
  cbn [ns_mem min_dist]. rewrite E5. specialize (Hfound val eq_refl). pose proof (found_image _ _ Hfound) as Hm2. cbn [ns_mem] in Hm2 |- *.
  rewrite (load_field _ 4 _ _ _ Hm2 ltac:(lia) E2), u64_add_l, <- Z.add_assoc, Hu.
  destruct (name_in_image _ _ _ Hm2 E3) as (bs' & Hz' & Hb' & _ & _ & Hl'). rewrite Hu in Hb'.
  unfold strlen. rewrite (strlen_loop_spec _ _ _ bs' l); [eexists; split; [reflexivity|exact Hfound]|done|done|].
  pose proof (zstr_length _ _ Hz').
  pose proof (bytes_at_size m2 image img ltac:(lia) ltac:(lia) Hm2). lia.
Qed.

(** The entries of a table. *)
Lemma lookup_syms_spec load_offset stroff entsize stop : ∀ n fuel off os best s,
  img_list (img_sym img load_offset stroff) n off entsize = Some os → found best s →
  0 ≤ off → 0 < entsize → off + Z.of_nat n * entsize = stop → stop ≤ Z.of_nat (length img) → (n < fuel)%nat →
  ∃ s', lookup_syms fuel ip load_offset buf buf_len (u64 (image + stroff)) (u64 (image + stop)) entsize
          (u64 (image + off)) (ret_of best) s =
          (Ok (ret_of (foldl closer' best os)), s') ∧ found (foldl closer' best os) s'.
Proof.
  induction n as [|n IH]; intros [|fuel] off os best s H Hf Ho Hs Hstop Hend' Hfuel; try lia;
    cbn [img_list lookup_syms] in *;
    replace (u64 (image + off) <? u64 (image + stop)) with (off <? stop)
      by (rewrite !u64_small by (unfold is_u64; nia); destruct (Z.ltb_spec off stop), (Z.ltb_spec (image + off) (image + stop)); lia).
  - injection H as <-. rewrite (proj2 (Z.ltb_ge _ _)) by lia. by exists s.
  - readings H. injection H as <-. rewrite (proj2 (Z.ltb_lt _ _)) by nia.
    destruct (lookup_sym_spec load_offset stroff off o best s E Hf) as (s1 & E1 & Hf1).
    mred. rewrite E1, u64_add_l, <- Z.add_assoc.
    apply (IH fuel (off + entsize) l (closer' best o) s1 E0 Hf1); lia.
Qed.

Lemma closest_omap os : ∀ best, foldl closer' best os = foldl (closer ip) best (omap (M := list) id os).
Proof. induction os as [|[f|] os IH]; intros best; simpl; auto. Qed.

Context (fuel : nat) (Hfuel : (length img < fuel)%nat).

Lemma lookup_section_spec load_offset off fs best s :
  img_section img load_offset off = Some fs → found best s →
  ∃ s', lookup_section fuel ip ei load_offset buf buf_len (u64 (image + off)) (ret_of best) s =
          (Ok (ret_of (foldl (closer ip) best fs)), s') ∧ found (foldl (closer ip) best fs) s'.
Proof.
  intros H Hf. pose proof (found_image _ _ Hf) as Hm. unfold img_section in H. unfold lookup_section, rd_mem.
  readings H. mred. rewrite (load_field _ 4 _ _ _ Hm ltac:(lia) E).
  destruct (_ || _); cbn [negb] in H; [|injection H as <-; by exists s]. readings H.
  rewrite (load_field _ 8 _ _ _ Hm ltac:(lia) E0), (load_field _ 8 _ _ _ Hm ltac:(lia) E1),
    (load_field _ 8 _ _ _ Hm ltac:(lia) E2), (load_field _ 4 _ _ _ Hm ltac:(lia) E3).
  destruct (string_table_img _ _ _ Hm E4) as [-> Hstr].
  destruct o as [stroff|]; [|injection H as <-; by exists s]. destruct (Hstr _ eq_refl) as [Hs0 Hs1].
  rewrite (proj2 (Z.eqb_neq (u64 _) _)) by (rewrite u64_small by (unfold is_u64; lia); lia).
  destruct (_ && _) eqn:Ec; [|done]. readings H. injection H as <-.
  apply andb_true_iff in Ec as [[?%Z.ltb_lt Ed%Z.eqb_eq]%andb_true_iff ?%Z.leb_le].
  pose proof (word_range _ 8 _ _ Hm ltac:(lia) E0). pose proof (word_range _ 8 _ _ Hm ltac:(lia) E1).
  rewrite u64_add_l, <- Z.add_assoc, <- closest_omap.
  apply (Z_div_exact_full_2 _ z2) in Ed; [|lia].
  assert (0 ≤ z1 / z2) by (apply Z.div_pos; lia).
  eapply lookup_syms_spec; [exact E5|exact Hf|lia|lia|rewrite Z2Nat.id by lia; lia|lia|nia].
Qed.

Lemma lookup_sections_spec load_offset shnum shentsize : ∀ k n i off fss best s,
  word img 2 e_shnum = Some shnum → word img 2 e_shentsize = Some shentsize →
  img_list (img_section img load_offset) k off shentsize = Some fss → found best s →
  0 ≤ i → i + Z.of_nat k = shnum → (k < n)%nat →
  ∃ s', lookup_sections n fuel ip ei load_offset buf buf_len i (u64 (image + off)) (ret_of best) s =
          (Ok (ret_of (foldl (closer ip) best (concat fss))), s') ∧ found (foldl (closer ip) best (concat fss)) s'.
Proof.
  induction k as [|k IH]; intros [|n] i off fss best s H1 H2 H Hf Hi Hk Hn; try lia;
    pose proof (found_image _ _ Hf) as Hm; cbn [img_list lookup_sections] in *; unfold rd_mem; mred;
    unfold ei; cbn [ei_image]; rewrite (load_word _ 2 _ _ Hm ltac:(lia) H1).
  - injection H as <-. rewrite (proj2 (Z.ltb_ge _ _)) by lia. by exists s.
  - readings H. injection H as <-. rewrite (proj2 (Z.ltb_lt _ _)) by lia.
    destruct (lookup_section_spec load_offset off l best s E Hf) as (s1 & E1 & Hf1).
    fold ei. rewrite E1. pose proof (found_image _ _ Hf1) as Hm1.
    rewrite (load_word _ 2 _ _ Hm1 ltac:(lia) H2), u64_add_l, <- Z.add_assoc.
    cbn [concat]. rewrite foldl_app. apply (IH n (i + 1) _ l0 _ s1 H1 H2 E0 Hf1); lia.
Qed.

Lemma lookup_symbol_spec load_offset soff shnum shentsize stop fss s :
  found None s → img_valid img = Some true →
  word img 8 e_shoff = Some soff → word img 2 e_shnum = Some shnum → word img 2 e_shentsize = Some shentsize →
  fits (soff + shnum * shentsize) = Some stop → shnum * shentsize ≤ 2147483647 →
  stop ≤ Z.of_nat (length img) →
  img_list (img_section img load_offset) (Z.to_nat shnum) soff shentsize = Some fss →
  ∃ s', lookup_symbol fuel ip ei load_offset buf buf_len s =
          (Ok (ret_of (foldl (closer ip) None (concat fss))), s') ∧ found (foldl (closer ip) None (concat fss)) s'.
Proof.
  intros Hf Hv H1 H2 H3 H4 H5 H6 H. pose proof (found_image _ _ Hf) as Hm. unfold lookup_symbol, rd_mem. mred.
  rewrite (valid_object_img _ _ Hm Hv). cbn [negb].
  rewrite (section_table_img _ _ _ _ _ Hm H1 H2 H3 H4 H5). rewrite (proj2 (Z.ltb_ge _ _)) by lia. apply fits_Some in H4 as [-> Hs].
  pose proof (word_range _ 8 _ _ Hm ltac:(lia) H1). pose proof (word_range _ 2 _ _ Hm ltac:(lia) H2) as Hn.
  pose proof (word_range _ 2 _ _ Hm ltac:(lia) H3). change (256 ^ Z.of_nat 2) with 65536 in *.
  rewrite (proj2 (Z.eqb_neq _ _)) by (rewrite u64_small by (unfold is_u64; nia); lia).
  apply (lookup_sections_spec load_offset shnum shentsize (Z.to_nat shnum) _ 0 soff fss None s H2 H3 H Hf); lia.
Qed.

Lemma load_offset_loop_img m segbase mapoff : ∀ n off phs,
  image_at m → img_list (img_phdr img) n off sizeof_Phdr = Some phs →
  load_offset_loop n m (u64 (image + off)) segbase mapoff =
    Ok (match find (λ '(type, offset, _), (type =? PT_LOAD) && (offset =? mapoff)) phs with
        | Some (_, _, vaddr) => u64 (segbase - vaddr)
        | None => 0
        end).
Proof.
  induction n as [|n IH]; intros off phs Hm H; cbn [img_list load_offset_loop] in *; [by injection H as <-|].
  readings H. injection H as <-. unfold img_phdr in E. readings E. injection E as <-.
  rewrite (load_field _ 4 _ _ _ Hm ltac:(lia) E1). mred. cbn [find].
  destruct (z =? PT_LOAD); cbn [andb].
  - rewrite (load_field _ 8 _ _ _ Hm ltac:(lia) E2).
    destruct (z0 =? mapoff); [by rewrite (load_field _ 8 _ _ _ Hm ltac:(lia) E3)|].
    rewrite u64_add_l, <- Z.add_assoc. by apply IH.
  - rewrite u64_add_l, <- Z.add_assoc. by apply IH.
Qed.

Lemma get_load_offset_img m segbase mapoff lo :
  image_at m → img_load_offset img segbase mapoff = Some lo → get_load_offset m ei segbase mapoff = Ok lo.
Proof.
  unfold img_load_offset, get_load_offset, ei. cbn [ei_image]. intros Hm H. readings H. injection H as <-.
  rewrite (load_word _ 8 _ _ Hm ltac:(lia) E), (load_word _ 2 _ _ Hm ltac:(lia) E0). mred.
  by apply load_offset_loop_img.
Qed.

(** With an image that is refused the search ends at once. *)
Lemma lookup_symbol_refused load_offset s soff shnum shentsize stop :
  found None s →
  img_valid img = Some false ∨
  img_valid img = Some true ∧ word img 8 e_shoff = Some soff ∧ word img 2 e_shnum = Some shnum ∧
    word img 2 e_shentsize = Some shentsize ∧ fits (soff + shnum * shentsize) = Some stop ∧
    shnum * shentsize ≤ 2147483647 ∧ Z.of_nat (length img) < stop →
  lookup_symbol fuel ip ei load_offset buf buf_len s = (Ok (Some UNW_ENOINFO), s).
Proof.
  intros Hf H. pose proof (found_image _ _ Hf) as Hm. unfold lookup_symbol, rd_mem. mred.
  destruct H as [Hv|(Hv & H1 & H2 & H3 & H4 & H5 & H6)]; rewrite (valid_object_img _ _ Hm Hv); [done|]. cbn [negb].
  rewrite (section_table_img _ _ _ _ _ Hm H1 H2 H3 H4 H5), (proj2 (Z.ltb_lt _ _) H6). done.
Qed.

Lemma lookup_symbol_img segbase mapoff syms s :
  img_symbols img segbase mapoff = Some syms → found None s →
  ∃ lo s', get_load_offset s.(ns_mem) ei segbase mapoff = Ok lo ∧
    lookup_symbol fuel ip ei lo buf buf_len s = (Ok (ret_of (foldl (closer ip) None syms)), s') ∧
    found (foldl (closer ip) None syms) s'.
Proof.
  unfold img_symbols. intros H Hf. pose proof (found_image _ _ Hf) as Hm. readings H.
  exists z. rewrite (get_load_offset_img _ _ _ _ Hm E). destruct b; cbn [negb] in H.
  - readings H. destruct (Z.leb_spec (z1 * z2) 2147483647); [cbn [negb] in H|done].
    destruct (Z.ltb_spec (Z.of_nat (length img)) z3).
    + injection H as <-. exists s. split_and!; [done| |done].
      eapply lookup_symbol_refused; [done|right; by split_and!].
    + readings H. injection H as <-.
      destruct (lookup_symbol_spec z z0 z1 z2 z3 l s) as (s' & Er & Hs'); try done. by exists s'.
  - injection H as <-. exists s. split_and!; [done| |done].
    by apply (lookup_symbol_refused _ _ 0 0 0 0); [|left].
Qed.

Lemma proc_name_img segbase mapoff syms :
  img_symbols img segbase mapoff = Some syms →
  ∃ r s, get_proc_name_in_image fuel ei segbase mapoff ip buf buf_len m0 = (Ok r, s.(ns_mem)) ∧
    found (foldl (closer ip) None syms) s ∧
    r = (let best := foldl (closer ip) None syms in
         if Z.of_nat (length img) <=? reach ip best then (Some UNW_ENOINFO, None)
         else (ret_of best, Some (reach ip best))).
Proof.
  intros H. set (s0 := NameState m0 (u64 (-1))).
  assert (Hf : found None s0) by (split; [done|exact Hbuf|reflexivity|done]).
  destruct (lookup_symbol_img _ _ _ _ H Hf) as (lo & s & E1 & E2 & Hs).
  unfold get_proc_name_in_image. cbv zeta. fold s0. unfold rd_mem. mred. rewrite E1, E2.
  cbn [extract_minidebuginfo]. rewrite (fo_dist _ _ Hs). cbn [ei_size ei].
  eexists _, s. split; [|split; [exact Hs|reflexivity]]. cbv zeta. by destruct (_ <=? _).
Qed.

(** Entries of size zero. *)
Lemma lookup_syms_stuck load_offset stroff off o stop : ∀ n best s,
  img_sym img load_offset stroff off = Some o → found best s → u64 (image + off) < stop →
  (lookup_syms n ip load_offset buf buf_len (u64 (image + stroff)) stop 0 (u64 (image + off)) (ret_of best) s).1
    = Stop NoFuel.
Proof.
  induction n as [|n IH]; intros best s H Hf Ho; cbn [lookup_syms]; [done|].
  rewrite (proj2 (Z.ltb_lt _ _)) by done.
  destruct (lookup_sym_spec load_offset stroff off o best s H Hf) as (s1 & E1 & Hf1).
  mred. rewrite E1, u64_add_l, <- Z.add_assoc, (Z.add_0_r off). by apply IH.
Qed.
End reading.

(** ** Properties *)

(** C26. The name found for an address in an image is that of the function of its
    symbol tables that starts closest below it, cut to the buffer, when it starts
    within the image's size of the address; only the buffer is written. *)
Theorem proc_name_closest {EH : ElfHeaders} (m : memory) (img : list Z)
    (image segbase mapoff ip buf buf_len : Z) (fuel : nat) (syms : list fsym) :
  bytes_at m image img → 0 < image → image + Z.of_nat (length img) < 18446744073709551616 →
  0 < buf_len → buffer_at m buf (Z.to_nat buf_len) →
  buf + buf_len ≤ image ∨ image + Z.of_nat (length img) ≤ buf → (length img < fuel)%nat →
  img_symbols img segbase mapoff = Some syms →
  let size := Z.of_nat (length img) in
  ∃ r m', get_proc_name_in_image fuel (ElfImage image size) segbase mapoff ip buf buf_len m = (Ok r, m') ∧
    (∀ x, ¬ buf ≤ x < buf + buf_len → m' !! x = m !! x) ∧
    (Forall (λ s, size ≤ dist ip s) syms ∧ r = (Some UNW_ENOINFO, None) ∨
     ∃ s, s ∈ syms ∧ Forall (λ s', dist ip s ≤ dist ip s') syms ∧ dist ip s < size ∧
       r = (if buf_len <=? Z.of_nat (length s.(fs_name)) then Some UNW_ENOMEM else None, Some (dist ip s)) ∧
       ∀ i, 0 ≤ i < buf_len → m' !! (buf + i) = Some (buf_byte buf_len s.(fs_name) i)).
Proof.
  intros Hm Hi He Hl Hb Ha Hf Hs size.
  destruct (proc_name_img img image Hi He m ip buf buf_len Hm Hl Hb Ha fuel Hf segbase mapoff syms Hs)
    as (r & s & E & Hfo & ->).
  destruct (closest_min ip syms None) as (_ & H1 & H2).
  eexists _, _. split; [exact E|]. split; [apply Hfo|]. cbv zeta.
  destruct (Z.leb_spec size (reach ip (foldl (closer ip) None syms))).
  - left. split; [|by destruct (_ <=? _) eqn:?; [|lia]]. eapply Forall_impl; [exact H1|]. simpl. lia.
  - right. destruct H2 as [H2|(f & Hin & H2)]; rewrite H2 in *; [simpl in *; lia|].
    exists f. split_and!; [done|exact H1|done| |intros i Hir; by apply (fo_name _ _ _ _ _ _ Hfo)].
    rewrite (proj2 (Z.leb_gt _ _)) by done. done.
Qed.

(** A symbol table whose entries have size zero keeps the search at its first
    entry for ever. *)
Lemma empty_entries_loop {EH : ElfHeaders} (m : memory) (img : list Z)
    (image ip load_offset buf buf_len off type offset size link stroff : Z) (o : option fsym) (fuel : nat) :
  bytes_at m image img → 0 < image → image + Z.of_nat (length img) < 18446744073709551616 →
  0 < buf_len → buffer_at m buf (Z.to_nat buf_len) →
  buf + buf_len ≤ image ∨ image + Z.of_nat (length img) ≤ buf →
  word img 4 (off + sh_type) = Some type → type = SHT_SYMTAB ∨ type = SHT_DYNSYM →
  word img 8 (off + sh_offset) = Some offset → word img 8 (off + sh_size) = Some size →
  word img 8 (off + sh_entsize) = Some 0 → word img 4 (off + sh_link) = Some link →
  img_strtab img (s32 link) = Some (Some stroff) → img_sym img load_offset stroff offset = Some o →
  0 < size → offset + size ≤ Z.of_nat (length img) →
  (lookup_section fuel ip (ElfImage image (Z.of_nat (length img))) load_offset buf buf_len
     (u64 (image + off)) (Some UNW_ENOINFO) (NameState m (u64 (-1)))).1 = Stop NoFuel.
Proof.
  intros Hm Hi He Hl Hb Ha Et Hty Eo Es Ee El Est Esy Hs Hle.
  unfold lookup_section, rd_mem. mred. cbn [ns_mem].
  rewrite (load_field img image Hi He _ 4 _ _ _ Hm ltac:(lia) Et).
  replace ((type =? SHT_SYMTAB) || (type =? SHT_DYNSYM)) with true
    by (symmetry; apply orb_true_iff; rewrite !Z.eqb_eq; done).
  cbv beta iota. cbn [ns_mem].
  rewrite (load_field img image Hi He _ 8 _ _ _ Hm ltac:(lia) Eo),
    (load_field img image Hi He _ 8 _ _ _ Hm ltac:(lia) Es),
    (load_field img image Hi He _ 8 _ _ _ Hm ltac:(lia) Ee),
    (load_field img image Hi He _ 4 _ _ _ Hm ltac:(lia) El).
  destruct (string_table_img img image Hi He _ _ _ Hm Est) as [-> Hstr]. destruct (Hstr _ eq_refl).
  pose proof (word_range img image Hi He _ 8 _ _ Hm ltac:(lia) Eo).
  rewrite (proj2 (Z.eqb_neq _ _)) by (rewrite u64_small by (unfold is_u64; lia); lia).
  apply (lookup_syms_stuck img image Hi He m ip buf buf_len Hm Hl Ha _ _ _ o _ _ None);
    [done|by split|].
  cbn [ei_image]. rewrite u64_add_l, !u64_small by (unfold is_u64; lia). lia.
Qed.

(** The check of a string table's bounds can be passed by a table that is not
    in the image: the end of the table is computed modulo [2^64]. *)
Lemma string_table_wraps {EH : ElfHeaders} (m : memory) (img : list Z)
    (image section soff shentsize offset size : Z) :
  let len := Z.of_nat (length img) in
  bytes_at m image img → 0 < image → image + len < 18446744073709551616 →
  word img 8 e_shoff = Some soff → word img 2 e_shentsize = Some shentsize →
  0 ≤ section → section * shentsize ≤ 2147483647 → soff + section * shentsize + shentsize ≤ len →
  word img 8 (soff + section * shentsize + sh_offset) = Some offset →
  word img 8 (soff + section * shentsize + sh_size) = Some size →
  len < offset → offset + size - 18446744073709551616 ≤ len →
  18446744073709551616 ≤ offset + size →
  ∃ a, string_table m (ElfImage image len) section = Ok a ∧ ¬ image ≤ a ≤ image + len.
Proof.
  intros len Hm Hi He E1 E2 Hs0 Hs1 Hs2 E3 E4 H1 H2 H3.
  pose proof (word_range img image Hi He _ 8 _ _ Hm ltac:(lia) E1).
  pose proof (word_range img image Hi He _ 2 _ _ Hm ltac:(lia) E2).
  pose proof (word_range img image Hi He _ 8 _ _ Hm ltac:(lia) E3) as R3.
  pose proof (word_range img image Hi He _ 8 _ _ Hm ltac:(lia) E4) as R4.
  change (256 ^ Z.of_nat 8) with 18446744073709551616 in *.
  exists (u64 (image + offset)). split.
  - unfold string_table. cbn [ei_image ei_size].
    rewrite (load_word img image Hi He _ 8 _ _ Hm ltac:(lia) E1), (load_word img image Hi He _ 2 _ _ Hm ltac:(lia) E2).
    mred. unfold int_mul. rewrite (proj2 (Z.leb_le (-2147483648) _)) by nia. rewrite (proj2 (Z.leb_le _ _)) by done.
    cbn [andb]. rewrite (u64_small (soff + _)), (u64_small (soff + _ + _)) by (unfold is_u64; nia).
    rewrite (proj2 (Z.ltb_ge _ _)) by done.
    rewrite (load_field img image Hi He _ 8 _ _ _ Hm ltac:(lia) E3), (load_field img image Hi He _ 8 _ _ _ Hm ltac:(lia) E4).
    replace (u64 (offset + size)) with (offset + size - 18446744073709551616)
      by (unfold u64; symmetry; rewrite <- (Z_mod_plus_full _ (-1)); apply Z.mod_small; lia).
    by rewrite (proj2 (Z.ltb_ge _ _)) by done.
  - destruct (Z.lt_ge_cases (image + offset) 18446744073709551616).
    + rewrite u64_small by (unfold is_u64; lia). lia.
    + replace (u64 (image + offset)) with (image + offset - 18446744073709551616)
        by (unfold u64; symmetry; rewrite <- (Z_mod_plus_full _ (-1)); apply Z.mod_small; lia). lia.
Qed.

(** ** Examples *)

(** The layout of the 64-bit format. *)
Definition gabi64 : ElfHeaders := {|
  e_phoff := 32; e_shoff := 40; e_phnum := 56; e_shentsize := 58; e_shnum := 60;
  sh_type := 4; sh_offset := 24; sh_size := 32; sh_link := 40; sh_entsize := 56;
  st_name := 0; st_info := 4; st_shndx := 6; st_value := 8;
  p_type := 0; p_offset := 8; p_vaddr := 16; p_filesz := 32; p_memsz := 40; sizeof_Phdr := 56;
  d_tag := 0; d_ptr := 8; sizeof_Dyn := 16;
  ELFMAG := [127; 69; 76; 70]; EI_CLASS := 4; EI_VERSION := 6; ELFCLASS64 := 2; EV_NONE := 0;
  EV_CURRENT := 1; SHT_SYMTAB := 2; SHT_DYNSYM := 11; STT_FUNC := 2; SHN_UNDEF := 0; SHN_ABS := 0xfff1;
  PT_LOAD := 1; PT_DYNAMIC := 2; PT_GNU_EH_FRAME := 0x6474e550; DT_NULL := 0; DT_PLTGOT := 3;
  ELF64_ST_TYPE info := Z.land info 15
|}.

(** Fields of the given widths. *)
Definition fields (l : list (Z * Z)) : list Z := l ≫= λ '(n, v), le_bytes (Z.to_nat n) v.

Definition ehdr (phoff phnum shoff shnum : Z) : list Z :=
  [127; 69; 76; 70; 2; 1; 1; 0; 0; 0; 0; 0; 0; 0; 0; 0] ++
  fields [(2, 3); (2, 62); (4, 1); (8, 0); (8, phoff); (8, shoff); (4, 0); (2, 64); (2, 56); (2, phnum);
          (2, 64); (2, shnum); (2, 0)].
Definition phdr_bytes (type offset vaddr filesz memsz : Z) : list Z :=
  fields [(4, type); (4, 5); (8, offset); (8, vaddr); (8, vaddr); (8, filesz); (8, memsz); (8, 4096)].
Definition shdr_bytes (type offset size link entsize : Z) : list Z :=
  fields [(4, 0); (4, type); (8, 0); (8, 0); (8, offset); (8, size); (4, link); (4, 0); (8, 8); (8, entsize)].
Definition sym_bytes (name info shndx value : Z) : list Z :=
  fields [(4, name); (1, info); (1, 0); (2, shndx); (8, value); (8, 0)].

(** A segment at 0, the functions "foo" at 0x20 and "barbaz" at 0x50 and an object
    at 0x58. *)
Definition example_img (entsize stroff strsize : Z) : list Z :=
  ehdr 64 1 120 2 ++ phdr_bytes 1 0 0 0x1000 0x1000 ++
  shdr_bytes 2 248 72 1 entsize ++ shdr_bytes 3 stroff strsize 0 0 ++
  sym_bytes 1 2 1 0x20 ++ sym_bytes 5 2 1 0x50 ++ sym_bytes 1 1 1 0x58 ++
  [0; 102; 111; 111; 0; 98; 97; 114; 98; 97; 122; 0].

(** The image at 0x1000, a buffer of four bytes at 0x8000. *)
Definition example_elf_mem (img : list Z) : memory :=
  put_bytes (put_bytes ∅ 0x1000 img) 0x8000 [255; 255; 255; 255].

Lemma bytes_at_buffer m a bs :
  0 ≤ a → a + Z.of_nat (length bs) ≤ 18446744073709551616 → bytes_at m a bs → buffer_at m a (length bs).
Proof.
  intros Ha He Hb. split_and!; [done|done|]. intros x Hx.
  destruct (lookup_lt_is_Some_2 bs (Z.to_nat (x - a))) as [b Hlk]; [lia|].
  destruct (bytes_at_lookup m bs a _ b ltac:(unfold is_u64; lia) Hb Hlk) as [Hm _].
  rewrite u64_small in Hm by (unfold is_u64; lia).
  exists b. rewrite <- Hm. f_equal. lia.
Qed.

Lemma example_elf_buffer img :
  bytes_at (example_elf_mem img) 0x8000 [255; 255; 255; 255] → buffer_at (example_elf_mem img) 0x8000 (Z.to_nat 4).
Proof. intros H. by apply (bytes_at_buffer _ _ [255; 255; 255; 255]). Qed.

Lemma proc_name_closest_witness :
  ∃ m', @get_proc_name_in_image gabi64 1000 (ElfImage 0x1000 332) 0x400000 0 0x400058 0x8000 4
          (example_elf_mem (example_img 24 320 12)) = (Ok (Some UNW_ENOMEM, Some 8), m') ∧
    m' !! 0x8002 = Some 114 ∧ m' !! 0x8003 = Some 0.
Proof.
  set (img := example_img 24 320 12).
  destruct (@proc_name_closest gabi64 (example_elf_mem img) img 0x1000 0x400000 0 0x400058 0x8000 4 1000
    [Fsym [102; 111; 111] 0x400020; Fsym [98; 97; 114; 98; 97; 122] 0x400050])
    as (r & m' & E & _ & [[Hf _]|(s & Hs & Hmin & Hd & Hr & Hb)]).
  - decided.
  - lia.
  - decided.
  - lia.
  - apply example_elf_buffer. decided.
  - right. decided.
  - apply (bool_decide_unpack _). vm_compute. exact I.
  - vm_compute. reflexivity.
  - exfalso. inversion_clear Hf as [|? ? _ Hf']. inversion_clear Hf' as [|? ? Hd _]. vm_compute in Hd. exact (Hd eq_refl).
  - assert (s = Fsym [98; 97; 114; 98; 97; 122] 0x400050) as ->.
    { apply list_elem_of_In in Hs as [<-|[<-|[]]]; [|reflexivity].
      inversion_clear Hmin as [|? ? _ Hmin']. inversion_clear Hmin' as [|? ? Hd' _]. vm_compute in Hd'. destruct (Hd' eq_refl). }
    exists m'. subst r. split; [exact E|].
    split; [apply (Hb 2); lia|apply (Hb 3); lia].
Defined.

Lemma empty_entries_loop_witness :
  (@lookup_section gabi64 1000 0x400058 (ElfImage 0x1000 332) 0x400000 0x8000 4 (u64 (0x1000 + 120))
     (Some UNW_ENOINFO) (NameState (example_elf_mem (example_img 0 320 12)) (u64 (-1)))).1 = Stop NoFuel.
Proof.
  set (img := example_img 0 320 12).
  apply (@empty_entries_loop gabi64 (example_elf_mem img) img 0x1000 0x400058 0x400000 0x8000 4 120
    2 248 72 1 320 (Some (Fsym [102; 111; 111] 0x400020))).
  - decided.
  - lia.
  - decided.
  - lia.
  - apply example_elf_buffer. decided.
  - right. decided.
  - vm_compute. reflexivity.
  - left. reflexivity.
  - vm_compute. reflexivity.
  - vm_compute. reflexivity.
  - vm_compute. reflexivity.
  - vm_compute. reflexivity.
  - vm_compute. reflexivity.
  - vm_compute. reflexivity.
  - lia.
  - decided.
Defined.

Lemma string_table_wraps_witness :
  ∃ a, @string_table gabi64 (example_elf_mem (example_img 24 (u64 (-8)) 16)) (ElfImage 0x1000 332) 1 = Ok a ∧
    ¬ 0x1000 ≤ a ≤ 0x1000 + 332.
Proof.
  set (img := example_img 24 (u64 (-8)) 16).
  apply (@string_table_wraps gabi64 (example_elf_mem img) img 0x1000 1 120 64 (u64 (-8)) 16).
  - decided.
  - lia.
  - decided.
  - vm_compute. reflexivity.
  - vm_compute. reflexivity.
  - lia.
  - lia.
  - decided.
  - vm_compute. reflexivity.
  - vm_compute. reflexivity.
  - decided.
  - decided.
  - decided.
Defined.
