(* ===== verification/ElfTable.v ===== *)
(** * What the unwind table of an image is

    The proof that [dwarf_find_unwind_table] describes the table an image has in
    its [.eh_frame_hdr] at the place where the image is loaded. *)
From S2P Require Export ElfSpec.

(** A program header. *)
Record ph := Ph { ph_type : Z; ph_offset : Z; ph_vaddr : Z; ph_filesz : Z; ph_memsz : Z }.

(** The last of a list with a property. *)
Definition last_such {A} (f : A → bool) (l : list A) : option A :=
  foldl (λ o x, if f x then Some x else o) None l.

Lemma u64_congr x y k : x = y + k * 18446744073709551616 → u64 x = u64 y.
Proof. intros ->. unfold u64. apply Z_mod_plus_full. Qed.

(** An address of the image, at its place in the running program. *)
Lemma u64_relocate base image off k : u64 (u64 base + (u64 (image + off + k) - image - off)) = u64 (base + k).
Proof.
  rewrite u64_add_l. unfold u64 at 2. rewrite (Z.mod_eq (image + off + k)) by done.
  apply (u64_congr _ _ (- ((image + off + k) / 18446744073709551616))). lia.
Qed.

(** ** The header of the table *)

Lemma eh_hdr_members_img m hdr gp f1 a1 x1 f2 x2 :
  is_u64 hdr → pe_range f1 x1 → pe_range f2 x2 → is_u64 x2 →
  bytes_at m hdr ([DW_EH_VERSION; pe_code f1 a1 false; pe_code f2 DW_EH_PE_absptr false;
                   pe_code DW_EH_PE_sdata4 DW_EH_PE_datarel false] ++ pe_bytes f1 x1 ++ pe_bytes f2 x2) →
  load 1 m hdr = Ok DW_EH_VERSION ∧
  load 1 m (u64 (hdr + 3)) = Ok (pe_code DW_EH_PE_sdata4 DW_EH_PE_datarel false) ∧
  eh_hdr_members m hdr gp =
    Ok (u64 (hdr + (4 + Z.of_nat (length (pe_bytes f1 x1) + length (pe_bytes f2 x2)))), x2).
Proof.
  intros Hh R1 R2 Hx H. apply bytes_at_app in H as [H H']; [|done].
  apply bytes_at_app in H' as [H1 H2]; [|apply u64_range]. rewrite u64_add_l, <- Z.add_assoc in H2.
  cbn [length] in H1, H2. change (Z.of_nat 4) with 4 in *.
  pose proof (bytes_at_lookup m _ hdr 0 _ Hh H eq_refl) as [B0 _].
  pose proof (bytes_at_lookup m _ hdr 1 _ Hh H eq_refl) as [B1 _].
  pose proof (bytes_at_lookup m _ hdr 2 _ Hh H eq_refl) as [B2 _].
  pose proof (bytes_at_lookup m _ hdr 3 _ Hh H eq_refl) as [B3 _].
  change (Z.of_nat 1) with 1 in B1. change (Z.of_nat 2) with 2 in B2. change (Z.of_nat 3) with 3 in B3.
  rewrite u64_add_0 in B0 by done.
  assert (Hb : ∀ f a, u8 (pe_code f a false) = pe_code f a false) by (intros [] []; reflexivity).
  split_and!; [by rewrite load_1, B0|by rewrite load_1, B3, Hb|].
  unfold eh_hdr_members, try. rewrite (load_1 m (u64 (hdr + 1))), B1, Hb. mred. change sizeof_eh_frame_hdr with 4.
  rewrite (encoded_pointer_spec m f1 a1 false x1) by (done || apply u64_range).
  rewrite u64_add_l, <- Z.add_assoc.
  assert (Ec : load 1 m (u64 (hdr + 2)) = Ok (pe_code f2 DW_EH_PE_absptr false)) by (by rewrite load_1, B2, Hb).
  assert (E2 : dwarf_read_encoded_pointer m (pe_code f2 DW_EH_PE_absptr false) (set_gp gp zero_proc_info)
      (u64 (hdr + (4 + Z.of_nat (length (pe_bytes f1 x1))))) =
    (Ok x2, u64 (hdr + (4 + Z.of_nat (length (pe_bytes f1 x1))) + Z.of_nat (length (pe_bytes f2 x2))))).
  { rewrite (encoded_pointer_spec m f2 DW_EH_PE_absptr false x2) by (done || apply u64_range).
    rewrite u64_add_l. f_equal. rewrite pe_read_nonneg by (unfold is_u64 in *; lia). rewrite (u64_small x2) by done. simpl. rewrite Z.add_0_r, (u64_small x2) by done.
    destruct (decide (x2 = 0)); congruence. }
  destruct (decide (u64 (pe_read f1 x1) = 0)); cbn [fst snd]; rewrite Ec, E2; do 3 f_equal; lia.
Qed.
(** ** The program headers *)

Section table.
Context {EH : ElfHeaders} (img : list Z) (image : Z).

Definition img_ph (off : Z) : option ph :=
  type ← word img 4 (off + p_type);
  offset ← word img 8 (off + p_offset);
  vaddr ← word img 8 (off + p_vaddr);
  filesz ← word img 8 (off + p_filesz);
  memsz ← word img 8 (off + p_memsz);
  Some (Ph type offset vaddr filesz memsz).

Definition is_load (p : ph) : bool := p.(ph_type) =? PT_LOAD.
Definition is_text (mapoff : Z) (p : ph) : bool := is_load p && (p.(ph_offset) =? mapoff).
Definition is_eh_frame (p : ph) : bool := p.(ph_type) =? PT_GNU_EH_FRAME.
Definition is_dynamic (p : ph) : bool := p.(ph_type) =? PT_DYNAMIC.

(** The entries of the dynamic section at [off], to the one that ends it. *)
Fixpoint img_dynamic (n : nat) (off : Z) : option (list (Z * Z)) :=
  match n with
  | O => None
  | S n' =>
      tag ← word img 8 (off + d_tag);
      if tag =? DT_NULL then Some []
      else
        ptr ← word img 8 (off + d_ptr);
        rest ← img_dynamic n' (off + sizeof_Dyn);
        Some ((tag, ptr) :: rest)
  end.

(** What data-relative addresses are relative to: zero in an image without a dynamic
    section, the first [DT_PLTGOT] of one that has it, and what it was for a dynamic
    section without such an entry.  [n] bounds the entries. *)
Definition image_gp (n : nat) (phs : list ph) (old : Z) : option Z :=
  match last_such is_dynamic phs with
  | None => Some 0
  | Some p =>
      entries ← img_dynamic n p.(ph_offset);
      Some (default old (snd <$> find (λ e, e.1 =? DT_PLTGOT) entries))
  end.

(** Where the segments start and end as linked. *)
Definition segments_start (phs : list ph) : Z :=
  foldl (λ a p, if is_load p then Z.min a p.(ph_vaddr) else a) 18446744073709551615 phs.
Definition segments_end (phs : list ph) : Z :=
  foldl (λ a p, if is_load p then Z.max a (u64 (p.(ph_vaddr) + p.(ph_memsz))) else a) 0 phs.

Context (Himg : 0 < image) (Hend : image + Z.of_nat (length img) < 18446744073709551616).
Context (m : memory) (Hm : image_at img image m).

(** The pointer is to the header, null if there is none. *)
Definition points (a : Z) (o : option ph) : Prop :=
  match o with
  | None => a = 0
  | Some p => a ≠ 0 ∧ load 8 m (u64 (a + p_vaddr)) = Ok p.(ph_vaddr) ∧
      load 8 m (u64 (a + p_offset)) = Ok p.(ph_offset)
  end.

Lemma img_ph_read off p :
  img_ph off = Some p →
  load 4 m (u64 (u64 (image + off) + p_type)) = Ok p.(ph_type) ∧
  load 8 m (u64 (u64 (image + off) + p_filesz)) = Ok p.(ph_filesz) ∧
  load 8 m (u64 (u64 (image + off) + p_memsz)) = Ok p.(ph_memsz) ∧
  load 8 m (u64 (u64 (image + off) + p_vaddr)) = Ok p.(ph_vaddr) ∧
  load 8 m (u64 (u64 (image + off) + p_offset)) = Ok p.(ph_offset).
Proof.
  unfold img_ph. intros H. readings H. injection H as <-.
  split_and!; (apply (load_field img image Himg Hend); [exact Hm|lia|done]).
Qed.

Context (mapoff phdr0 filesz0 : Z) (Hfilesz : load 8 m (u64 (phdr0 + p_filesz)) = Ok filesz0).
Context (Hne : NoDup [PT_LOAD; PT_GNU_EH_FRAME; PT_DYNAMIC]) (Hsz : 0 ≤ sizeof_Phdr).

Definition lower (a : Z) (p : ph) : Z := if is_load p then Z.min a p.(ph_vaddr) else a.
Definition upper (a : Z) (p : ph) : Z :=
  if is_load p then Z.max a (u64 (p.(ph_vaddr) + p.(ph_memsz))) else a.
Definition keep_if (f : ph → bool) (o : option ph) (p : ph) : option ph := if f p then Some p else o.

(** What the loop has found in the headers [phs] from [sc] on. *)
Definition scanned (phs : list ph) (sc sc' : phdr_scan) (ot oe od : option ph) : Prop :=
  sc'.(sc_start_ip) = foldl lower sc.(sc_start_ip) phs ∧
  sc'.(sc_end_ip) = foldl upper sc.(sc_end_ip) phs ∧
  points sc'.(ptxt) (foldl (keep_if (is_text mapoff)) ot phs) ∧
  points sc'.(peh_hdr) (foldl (keep_if is_eh_frame) oe phs) ∧
  points sc'.(pdyn) (foldl (keep_if is_dynamic) od phs).

Lemma types_differ :
  PT_LOAD ≠ PT_GNU_EH_FRAME ∧ PT_LOAD ≠ PT_DYNAMIC ∧ PT_GNU_EH_FRAME ≠ PT_DYNAMIC.
Proof.
  apply NoDup_cons in Hne as [H1 [H2 _]%NoDup_cons]. rewrite !elem_of_cons in H1. rewrite elem_of_cons in H2. tauto.
Qed.

Lemma scan_phdr_img off p sc ot oe od :
  img_ph off = Some p → 0 ≤ off ≤ Z.of_nat (length img) →
  points sc.(ptxt) ot → points sc.(peh_hdr) oe → points sc.(pdyn) od →
  ∃ sc', (if p.(ph_type) =? PT_LOAD then scan_load m image phdr0 (u64 (image + off)) mapoff sc
          else if p.(ph_type) =? PT_GNU_EH_FRAME then
            Ok (PhdrScan sc.(sc_start_ip) sc.(sc_end_ip) sc.(sc_max_load_addr) sc.(ptxt) (u64 (image + off)) sc.(pdyn))
          else if p.(ph_type) =? PT_DYNAMIC then
            Ok (PhdrScan sc.(sc_start_ip) sc.(sc_end_ip) sc.(sc_max_load_addr) sc.(ptxt) sc.(peh_hdr) (u64 (image + off)))
          else Ok sc) = Ok sc' ∧ scanned [p] sc sc' ot oe od.
Proof.
  intros Hp Ho Ht He Hd. destruct (img_ph_read _ _ Hp) as (_ & _ & Ems & Ev & Eo).
  destruct types_differ as (Nle & Nld & Ned).
  assert (Hpt : points (u64 (image + off)) (Some p))
    by (split_and!; [rewrite u64_small by (unfold is_u64; lia); lia|done|done]).
  unfold scanned. cbn [foldl]. unfold lower, upper, keep_if, is_text, is_eh_frame, is_dynamic, is_load.
  destruct (Z.eqb_spec p.(ph_type) PT_LOAD) as [Hl|Hl].
  - unfold scan_load. rewrite Ev, Ems, Eo, Hfilesz. eexists. split; [reflexivity|].
    rewrite Hl, (proj2 (Z.eqb_neq _ _) Nle), (proj2 (Z.eqb_neq _ _) Nld).
    cbn [sc_start_ip sc_end_ip ptxt peh_hdr pdyn andb].
    split_and!; [|destruct (Z.ltb_spec sc.(sc_end_ip) (u64 (p.(ph_vaddr) + p.(ph_memsz)))); lia| |done|done].
    + destruct (Z.ltb_spec p.(ph_vaddr) sc.(sc_start_ip)); lia.
    + by destruct (p.(ph_offset) =? mapoff).
  - cbn [andb]. destruct (Z.eqb_spec p.(ph_type) PT_GNU_EH_FRAME) as [Hg|Hg].
    + rewrite Hg, (proj2 (Z.eqb_neq _ _) Ned). eexists; (split; [reflexivity|]); by split_and!.
    + destruct (p.(ph_type) =? PT_DYNAMIC); eexists; (split; [reflexivity|]); by split_and!.
Qed.

Lemma scan_phdrs_img : ∀ n off phs sc ot oe od,
  img_list img_ph n off sizeof_Phdr = Some phs →
  0 ≤ off → off + Z.of_nat n * sizeof_Phdr ≤ Z.of_nat (length img) →
  points sc.(ptxt) ot → points sc.(peh_hdr) oe → points sc.(pdyn) od →
  ∃ sc', scan_phdrs n m image phdr0 (u64 (image + off)) mapoff sc = Ok sc' ∧ scanned phs sc sc' ot oe od.
Proof.
  induction n as [|n IH]; intros off phs sc ot oe od H H0 H1 Ht He Hd; cbn [img_list scan_phdrs] in *.
  { injection H as <-. by exists sc. }
  readings H. injection H as <-.
  destruct (img_ph_read _ _ E) as (-> & _). mred.
  destruct (scan_phdr_img off p sc ot oe od E ltac:(nia) Ht He Hd) as (sc1 & -> & S1 & S2 & S3 & S4 & S5).
  destruct (IH (off + sizeof_Phdr) l sc1 _ _ _ E0 ltac:(lia) ltac:(lia) S3 S4 S5) as (sc2 & E2 & T1 & T2 & T3 & T4 & T5).
  rewrite u64_add_l, <- Z.add_assoc. exists sc2. split; [exact E2|].
  unfold scanned. cbn [foldl] in *. rewrite <- S1, <- S2. by split_and!.
Qed.

(** ** The dynamic section *)

Lemma find_pltgot_img : ∀ n off entries,
  img_dynamic n off = Some entries →
  find_pltgot n m (u64 (image + off)) = Ok (snd <$> find (λ e, e.1 =? DT_PLTGOT) entries).
Proof.
  induction n as [|n IH]; intros off entries; cbn [img_dynamic find_pltgot]; [done|]. intros H.
  destruct (word img 8 (off + d_tag)) as [tag|] eqn:Et; [cbn [mbind option_bind] in H|done].
  rewrite (load_field img image Himg Hend m 8 off d_tag tag Hm ltac:(lia) Et). mred.
  destruct (tag =? DT_NULL); [by injection H as <-|]. readings H. injection H as <-. cbn [find fst].
  destruct (tag =? DT_PLTGOT).
  - by rewrite (load_field img image Himg Hend m 8 off d_ptr z Hm ltac:(lia) E).
  - rewrite u64_add_l, <- Z.add_assoc. by apply IH.
Qed.

Lemma table_gp_img n phs g di pd :
  points pd (last_such is_dynamic phs) → image_gp n phs di.(di_gp) = Some g →
  table_gp n m image pd di = Ok (di_set_gp g di).
Proof.
  unfold image_gp, table_gp. destruct (last_such is_dynamic phs) as [p|].
  - intros (H0 & _ & Ho) H. readings H. injection H as <-. rewrite (proj2 (Z.eqb_neq _ _) H0). cbn [negb].
    rewrite Ho. mred. replace (p.(ph_offset) + image) with (image + p.(ph_offset)) by lia.
    rewrite (find_pltgot_img _ _ _ E). mred. destruct (find _ l) as [[tag ptr]|]; [done|].
    by destruct di.
  - intros -> [= <-]. done.
Qed.

End table.

(** ** Properties *)

(** C27. For an image with a table of unwind information, [dwarf_find_unwind_table]
    gives a descriptor of where its segments are in the running program, of its global
    pointer, and of the table: its address, its entries and the base they are relative
    to. *)
Theorem unwind_table_found {EH : ElfHeaders} (m : memory) (img : list Z)
    (image segbase mapoff : Z) (fuel : nat) (di : unw_dyn_info_t) (phoff phnum : Z) (phs : list ph)
    (gp : Z) (text eh : ph) (f1 : pe_format) (a1 : pe_application) (x1 : Z) (f2 : pe_format) (n : Z) :
  bytes_at m image img → 0 < image → image + Z.of_nat (length img) < 18446744073709551616 →
  img_valid img = Some true → word img 8 e_phoff = Some phoff → word img 2 e_phnum = Some phnum →
  img_list (img_ph img) (Z.to_nat phnum) phoff sizeof_Phdr = Some phs →
  0 ≤ sizeof_Phdr → phoff + phnum * sizeof_Phdr ≤ Z.of_nat (length img) →
  NoDup [PT_LOAD; PT_GNU_EH_FRAME; PT_DYNAMIC] →
  image_gp img fuel phs di.(di_gp) = Some gp →
  last_such (is_text mapoff) phs = Some text → last_such is_eh_frame phs = Some eh →
  pe_range f1 x1 → pe_range f2 n → 0 ≤ n → 8 * n < 18446744073709551616 →
  bytes_at m (u64 (image + eh.(ph_offset)))
    ([DW_EH_VERSION; pe_code f1 a1 false; pe_code f2 DW_EH_PE_absptr false;
      pe_code DW_EH_PE_sdata4 DW_EH_PE_datarel false] ++ pe_bytes f1 x1 ++ pe_bytes f2 n) →
  let load_base := u64 (segbase - text.(ph_vaddr)) in
  let hdr_len := 4 + Z.of_nat (length (pe_bytes f1 x1) + length (pe_bytes f2 n)) in
  ∃ di', dwarf_find_unwind_table fuel m (ElfImage image (Z.of_nat (length img))) segbase mapoff di = (Ok 1, di') ∧
    di'.(di_start_ip) = u64 (segments_start phs + load_base) ∧
    di'.(di_end_ip) = u64 (segments_end phs + load_base) ∧ di'.(di_gp) = gp ∧
    u_segbase di' = u64 (load_base + eh.(ph_vaddr)) ∧
    ∀ m', search_table m' di' = Ok (u64 (load_base + eh.(ph_vaddr) + hdr_len), 8 * n, 0).
Proof.
  intros Hm Hi He Hv E1 E2 Hphs Hsz Hin Hne Hgp Ht Heh R1 R2 Hn0 Hn Hh load_base hdr_len.
  pose proof (word_range img image Hi He m 8 _ _ Hm ltac:(lia) E1).
  pose proof (word_range img image Hi He m 2 _ _ Hm ltac:(lia) E2).
  destruct phs as [|p0 phs']; [done|].
  assert (Ep0 : img_ph img phoff = Some p0).
  { destruct (Z.to_nat phnum); [done|]. cbn [img_list] in Hphs. destruct (img_ph img phoff); [|done].
    cbn [mbind option_bind] in Hphs. destruct (img_list _ _ _ _); [|done]. by injection Hphs as <- <-. }
  destruct (img_ph_read img image Hi He m Hm _ _ Ep0) as (_ & Hf & _).
  destruct (scan_phdrs_img img image Hi He m Hm mapoff (u64 (image + phoff)) _ Hf Hne Hsz (Z.to_nat phnum) phoff
    (p0 :: phs') (PhdrScan (u64 (-1)) 0 0 0 0 0) None None None Hphs) as (sc & Es & S1 & S2 & S3 & S4 & S5);
    [lia|lia|done|done|done|].
  change (foldl (keep_if (is_text mapoff)) None (p0 :: phs')) with (last_such (is_text mapoff) (p0 :: phs')) in S3.
  change (foldl (keep_if is_eh_frame) None (p0 :: phs')) with (last_such is_eh_frame (p0 :: phs')) in S4.
  rewrite Ht in S3. rewrite Heh in S4. destruct S3 as (T0 & T1 & _), S4 as (Hp0 & Hpv & Hpo).
  set (hdr := u64 (image + eh.(ph_offset))) in Hh.
  destruct (eh_hdr_members_img m hdr gp f1 a1 x1 f2 n (u64_range _) R1 R2 ltac:(unfold is_u64; lia) Hh) as (B0 & B3 & Em).
  assert (Ehdr : u64 (eh.(ph_offset) + image) = hdr) by (unfold hdr; f_equal; lia).
  eexists. split.
  { unfold dwarf_find_unwind_table. mred. cbv zeta. cbn [ei_image].
    rewrite (valid_object_img img image Hi He m true Hm Hv). cbn [negb].
    rewrite (load_word img image Hi He m 8 _ _ Hm ltac:(lia) E1), (load_word img image Hi He m 2 _ _ Hm ltac:(lia) E2).
    rewrite Es, (proj2 (Z.eqb_neq _ _) T0), T1, (proj2 (Z.eqb_neq _ _) Hp0).
    rewrite (table_gp_img img image Hi He m Hm fuel (p0 :: phs') gp di _ S5 Hgp).
    rewrite Hpo, Ehdr, B0. change (negb (DW_EH_VERSION =? DW_EH_VERSION)) with false. cbv beta iota.
    cbn [di_gp di_set_gp]. rewrite Em, B3, Z.eqb_refl. cbn [negb]. rewrite Hpv. reflexivity. }
  fold load_base. fold hdr_len. unfold table_descriptor.
  cbn [di_start_ip di_end_ip di_gp]. rewrite S1, S2. split_and!; try done.
  - unfold u_segbase. cbn [di_u1]. unfold hdr.
    pose proof (u64_relocate (load_base + eh.(ph_vaddr)) image eh.(ph_offset) 0) as E.
    by rewrite !Z.add_0_r in E.
  - intros m'. unfold search_table, u_table_data, u_table_len. cbn [di_format di_u2 di_u3].
    change (UNW_INFO_FORMAT_REMOTE_TABLE =? UNW_INFO_FORMAT_REMOTE_TABLE) with true. cbv beta iota.
    unfold hdr. rewrite (u64_add_l (image + eh.(ph_offset))), u64_relocate, (u64_small (n * 8)), Z.div_mul, (u64_small (n * 8))
      by (unfold is_u64; lia). by rewrite Z.mul_comm.
Qed.

(** A segment, a dynamic section with a global pointer and a table with one entry, in
    memory at 0x1000; the program runs at 0x400000. *)
Definition example_table_img : list Z :=
  ehdr 64 3 0 0 ++ phdr_bytes 1 0 0x200 0x1000 0x2000 ++ phdr_bytes 0x6474e550 280 0x318 20 20 ++
  phdr_bytes 2 232 0x2e8 48 48 ++
  ([(5, 0x300); (3, 0x403000); (0, 0)] ≫= λ '(tag, ptr), le_bytes 8 tag ++ le_bytes 8 ptr) ++
  [DW_EH_VERSION; 0x1b; 0x03; 0x3b] ++ le_bytes 4 0x40 ++ le_bytes 4 1 ++ le_bytes 4 0x10 ++ le_bytes 4 0x20.

Lemma unwind_table_found_witness :
  ∃ di', @dwarf_find_unwind_table gabi64 3 (put_bytes ∅ 0x1000 example_table_img) (ElfImage 0x1000 300)
           0x400200 0 (DynInfo 0 0 0 0 0 0 0 0 0 0) = (Ok 1, di') ∧
    di'.(di_start_ip) = 0x400200 ∧ di'.(di_end_ip) = 0x402200 ∧ di'.(di_gp) = 0x403000 ∧
    search_table ∅ di' = Ok (0x400324, 8, 0).
Proof.
  destruct (@unwind_table_found gabi64 (put_bytes ∅ 0x1000 example_table_img) example_table_img 0x1000
    0x400200 0 3 (DynInfo 0 0 0 0 0 0 0 0 0 0) 64 3
    [Ph 1 0 0x200 0x1000 0x2000; Ph 0x6474e550 280 0x318 20 20; Ph 2 232 0x2e8 48 48] 0x403000
    (Ph 1 0 0x200 0x1000 0x2000) (Ph 0x6474e550 280 0x318 20 20)
    DW_EH_PE_sdata4 DW_EH_PE_pcrel 0x40 DW_EH_PE_udata4 1) as (di' & E & H1 & H2 & H3 & _ & H4).
  - decided.
  - lia.
  - decided.
  - vm_compute. reflexivity.
  - vm_compute. reflexivity.
  - vm_compute. reflexivity.
  - vm_compute. reflexivity.
  - decided.
  - decided.
  - decided.
  - vm_compute. reflexivity.
  - reflexivity.
  - reflexivity.
  - simpl. lia.
  - simpl. lia.
  - lia.
  - lia.
  - decided.
  - exists di'. split; [exact E|]. split; [exact H1|]. split; [exact H2|]. split; [exact H3|exact (H4 ∅)].
Defined.
