(* ===== verification/Image.v ===== *)
(** * Finding the image of an address

    [os-freebsd-kern.c] and the end of [elfxx.c]: the mapping that contains an
    address, among those the system reports, and the name of a procedure found
    through it.  What [sysctl] and [mmap] answer is a class. *)
From S2P Require Export Elf.

(** An entry of the list of mappings (sys/user.h); [kve_path] is the address of the
    string. *)
Record kinfo_vmentry := VmEntry {
  kve_start : Z;
  kve_end : Z;
  kve_type : Z;
  kve_offset : Z;
  kve_path : Z
}.

(** An entry of the list of processes: the thread and its process. *)
Record kinfo_proc := KinfoProc { ki_tid : Z; ki_pid : Z }.

(** The answers of the system: the size of a list or an error ([true] for [ESRCH]),
    the list for a buffer of some length, and memory for a buffer. *)
Class Sysctl := {
  proc_all_size : option Z;
  proc_all : Z → option (list kinfo_proc);
  vmmap_size : Z → Z + bool;
  vmmap : Z → Z → option (list kinfo_vmentry);
  mmap_anon : Z → bool;
  KVME_TYPE_VNODE : Z
}.

Section image.
Context `{!ElfHeaders, !Sysctl}.

(** Whether there is memory.  [src/os-freebsd-kern.c:37-46], [get_mem] *)
Definition get_mem (sz : Z) : bool := mmap_anon sz.

(** The size of the buffer for a list of [len] bytes. *)
Definition with_slack (len : Z) : Z := u64 (len * 4) / 3.

(** [src/os-freebsd-kern.c:54-91], [get_pid_by_tid] *)
Definition get_pid_by_tid (tid : Z) : Z :=
  match proc_all_size with
  | None => -1
  | Some len =>
      if negb (get_mem (with_slack len)) then -1
      else match proc_all (with_slack len) with
           | None => -1
           | Some kvs => match List.find (λ kv, kv.(ki_tid) =? tid) kvs with
                         | Some kv => kv.(ki_pid)
                         | None => -1
                         end
           end
  end.

(** The process asked about and the size of its list; a thread stands for its
    process.  [src/os-freebsd-kern.c:102-118], [tdep_get_elf_image] *)
Definition vmmap_of (pid : Z) : option (Z * Z) :=
  match vmmap_size pid with
  | inl len => Some (pid, len)
  | inr false => None
  | inr true =>
      let pid := get_pid_by_tid pid in
      if pid =? -1 then None
      else match vmmap_size pid with inl len => Some (pid, len) | inr _ => None end
  end.

(** The first mapping of a file that contains the address.
    [src/os-freebsd-kern.c:130-135], [tdep_get_elf_image] *)
Definition mapping_of (ip : Z) (kvs : list kinfo_vmentry) : option kinfo_vmentry :=
  List.find (λ kv, (kv.(kve_start) <=? ip) && (ip <? kv.(kve_end)) && (kv.(kve_type) =? KVME_TYPE_VNODE)) kvs.

(** The results are the image, and [*segbase] and [*mapoff] when they are set; [path]
    may be null.  [src/os-freebsd-kern.c:93-147], [tdep_get_elf_image] *)
Definition tdep_get_elf_image (pid ip path pathlen : Z) : M memory (res elf_image * option (Z * Z)) :=
  match vmmap_of pid with
  | None => mret (Err UNW_EUNSPEC, None)
  | Some (pid, len) =>
      if negb (get_mem (with_slack len)) then mret (Err UNW_EUNSPEC, None)
      else match vmmap pid (with_slack len) with
           | None => mret (Err UNW_EUNSPEC, None)
           | Some kvs =>
               match mapping_of ip kvs with
               | None => mret (Err UNW_EUNSPEC, None)
               | Some kv =>
                   m ← get_st;
                   m ← lift (if negb (path =? 0) then strncpy (Z.to_nat pathlen) m path kv.(kve_path) else Ok m);
                   mod_st (λ _, m);;
                   mret (elf_map_image kv.(kve_path), Some (kv.(kve_start), kv.(kve_offset)))
               end
           end
  end.

(** [src/elfxx.c:338-356], [elf_w (get_proc_name)] *)
Definition elf_get_proc_name (fuel : nat) (pid ip buf buf_len : Z)
    : M memory (option unw_error * option Z) :=
  '(ei, bases) ← tdep_get_elf_image pid ip 0 0;
  match ei, bases with
  | Ok ei, Some (segbase, mapoff) => get_proc_name_in_image fuel ei segbase mapoff ip buf buf_len
  | Ok _, None => halt Undef
  | Err e, _ => mret (Some e, None)
  | Stop t, _ => halt t
  end.

(** Mapping a file is not implemented: no image is ever found, and no name. *)
Lemma no_image (fuel : nat) (pid ip buf buf_len : Z) (m : memory) :
  elf_get_proc_name fuel pid ip buf buf_len m = (Ok (Some UNW_EUNSPEC, None), m).
Proof.
  unfold elf_get_proc_name, tdep_get_elf_image. mred.
  destruct (vmmap_of pid) as [[p len]|]; [|done].
  destruct (get_mem (with_slack len)); [|done]. cbn [negb].
  destruct (vmmap p _) as [kvs|]; [|done]. by destruct (mapping_of ip kvs).
Qed.
End image.
