(* ===== verification/Step.v ===== *)
(** * One step of the unwinder

    [Gparser.c] from the description of the procedure to the new cursor
    ([fetch_proc_info], [create_state_record_for], [apply_reg_state]),
    [dwarf_Gstep.c], and [Gstep.c] with its fall-backs for signal frames
    ([Gos-freebsd.c]), PLT entries and frames found through RBP.  The state is
    the machine and the cursor with the pool of [dwarf_cie_info] objects; the
    registered descriptors [ds] are only read. *)
From S2P Require Export Cfi Cursor Expr ProcInfo.

Record step_state (P : Type) := StepState { st_u : ustate; st_pool : P }.
Arguments StepState {P}.
Arguments st_u {P}.
Arguments st_pool {P}.

(** The cursor a routine on [ustate] changes. *)
Definition get_dwarf : M ustate dwarf_cursor_t := s ← get_st; mret s.(cur).(dwarf).
Definition upd_dwarf (f : dwarf_cursor_t → dwarf_cursor_t) : M ustate () := mod_st (on_dwarf f).
Definition upd_cur (f : cursor → cursor) : M ustate () := mod_st (λ s, set_cur (f s.(cur)) s).

(** ** The location of a register *)

(** The result is [*locp].  [src/Gparser.c:677-699], [eval_location_expr] *)
Definition eval_location_expr (fuel : nat) (addr : Z) : M ustate Z := λ u,
  match dwarf_read_uleb128 u.(mach).(mem) addr with
  | (Ok len, addr) =>
      let '(r, s) := dwarf_eval_expr fuel addr len u in
      (('(val, is_register) ← r;
        if (is_register : bool) then
          regnum ← dwarf_to_unw_regnum val; Ok (DWARF_REG_LOC s.(es_u).(cur) regnum)
        else Ok val), s.(es_u))
  | (Err e, _) => (Err e, u)
  | (Stop t, _) => (Stop t, u)
  end.

(** The frame address a row gives.  [UNW_TDEP_SP] is below the size of the row.
    [src/Gparser.c:722-754], [apply_reg_state] *)
Definition eval_cfa (fuel : nat) (rs : dwarf_reg_state_t) : M ustate Z :=
  cfa_reg ← lift (aread rs.(rs_reg) DWARF_CFA_REG_COLUMN);
  match cfa_reg.(where_) with
  | DWARF_WHERE_REG =>
      sp ← lift (aread rs.(rs_reg) UNW_REG_SP);
      cfa ← (if (cfa_reg.(sl_val) =? UNW_REG_SP) && bool_decide (sp.(where_) = DWARF_WHERE_SAME)
             then d ← get_dwarf; mret d.(cfa)
             else regnum ← lift (dwarf_to_unw_regnum cfa_reg.(sl_val)); unw_get_reg regnum);
      cfa_off ← lift (aread rs.(rs_reg) DWARF_CFA_OFF_COLUMN);
      mret (u64 (cfa + cfa_off.(sl_val)))
  | DWARF_WHERE_EXPR =>
      l ← eval_location_expr fuel cfa_reg.(sl_val);
      if DWARF_IS_REG_LOC l then fail UNW_EBADFRAME else mret l
  | _ => halt Panic
  end.

(** [src/Gparser.c:758-780], [apply_reg_state] *)
Definition apply_rule (fuel : nat) (cfa i : Z) (r : dwarf_save_loc_t) : M ustate () :=
  match r.(where_) with
  | DWARF_WHERE_UNDEF => put_loc i 0
  | DWARF_WHERE_SAME => mret tt
  | DWARF_WHERE_CFAREL => put_loc i (u64 (cfa + r.(sl_val)))
  | DWARF_WHERE_REG =>
      regnum ← lift (dwarf_to_unw_regnum r.(sl_val));
      s ← get_st; put_loc i (DWARF_REG_LOC s.(cur) regnum)
  | DWARF_WHERE_EXPR => l ← eval_location_expr fuel r.(sl_val); put_loc i l
  end.

(** The loop, from the column [i] on.  [src/Gparser.c:756-781], [apply_reg_state] *)
Fixpoint apply_rules (n : nat) (fuel : nat) (rs : dwarf_reg_state_t) (cfa i : Z) : M ustate () :=
  match n with
  | O => mret tt
  | S n' =>
      r ← lift (aread rs.(rs_reg) i);
      apply_rule fuel cfa i r;;
      apply_rules n' fuel rs cfa (i + 1)
  end.

(** ** Frame information *)

(** [labs] of a word read as a [long]. *)
Definition labs (v : Z) : res Z :=
  if s64 v =? - 2 ^ 63 then Stop Undef else Ok (Z.abs (s64 v)).

Definition andm (b : bool) (r : res bool) : res bool := if b then r else Ok false.
Definition orm (b : bool) (r : res bool) : res bool := if b then Ok true else r.

(** [src/Gstash_frame.c:58-67], [tdep_stash_frame] *)
Definition stash_reg_ok (r : dwarf_save_loc_t) : res bool :=
  orm (bool_decide (r.(where_) = DWARF_WHERE_UNDEF))
    (orm (bool_decide (r.(where_) = DWARF_WHERE_SAME))
      (andm (bool_decide (r.(where_) = DWARF_WHERE_CFAREL))
        (a ← labs r.(sl_val);
         Ok ((a <? Z.shiftl 1 14) && negb (u64 (r.(sl_val) + 1) =? 0))))).

(** [src/Gstash_frame.c:52-67], [tdep_stash_frame] *)
Definition is_standard_frame (c : cursor) (rs : dwarf_reg_state_t) : res bool :=
  cfa_reg ← aread rs.(rs_reg) DWARF_CFA_REG_COLUMN;
  andm (c.(frame_info).(frame_type) =? UNW_X86_64_FRAME_OTHER)
    (andm (bool_decide (cfa_reg.(where_) = DWARF_WHERE_REG))
      (andm ((cfa_reg.(sl_val) =? RBP) || (cfa_reg.(sl_val) =? RSP))
        (cfa_off ← aread rs.(rs_reg) DWARF_CFA_OFF_COLUMN;
         a ← labs cfa_off.(sl_val);
         andm (a <? Z.shiftl 1 29)
           (ra ← aread c.(dwarf).(loc) c.(dwarf).(ret_addr_column);
            andm (ra =? u64 (c.(dwarf).(cfa) - 8))
              (rbp ← aread rs.(rs_reg) RBP;
               rbp_ok ← stash_reg_ok rbp;
               andm rbp_ok (rsp ← aread rs.(rs_reg) RSP; stash_reg_ok rsp)))))).

(** [cfa_reg_rsp] is a signed one-bit field: 1 is stored as -1.
    [src/Gstash_frame.c:70-76], [tdep_stash_frame] *)
Definition standard_frame (f : unw_tdep_frame_t) (cfa_reg cfa_off rbp rsp : dwarf_save_loc_t)
    : unw_tdep_frame_t :=
  TdepFrame f.(virtual_address) UNW_X86_64_FRAME_STANDARD f.(last_frame)
    (if cfa_reg.(sl_val) =? RSP then -1 else 0) (s64 cfa_off.(sl_val))
    (if decide (rbp.(where_) = DWARF_WHERE_CFAREL) then s64 rbp.(sl_val) else f.(rbp_cfa_offset))
    (if decide (rsp.(where_) = DWARF_WHERE_CFAREL) then s64 rsp.(sl_val) else f.(rsp_cfa_offset)).

(** [src/Gstash_frame.c:31-101], [tdep_stash_frame] *)
Definition tdep_stash_frame (rs : dwarf_reg_state_t) : M ustate () :=
  s ← get_st;
  let c := s.(cur) in
  std ← lift (is_standard_frame c rs);
  if (std : bool) then
    cfa_reg ← lift (aread rs.(rs_reg) DWARF_CFA_REG_COLUMN);
    cfa_off ← lift (aread rs.(rs_reg) DWARF_CFA_OFF_COLUMN);
    rbp ← lift (aread rs.(rs_reg) RBP);
    rsp ← lift (aread rs.(rs_reg) RSP);
    upd_cur (λ c, set_frame_info (standard_frame c.(frame_info) cfa_reg cfa_off rbp rsp) c)
  else if c.(frame_info).(frame_type) =? UNW_X86_64_FRAME_SIGRETURN then
    let uc := c.(sigcontext_addr) in
    rip ← get_loc RIP; rbp ← get_loc RBP; rsp ← get_loc RSP;
    if (u64 (rip - uc) =? UC_MCONTEXT_GREGS_RIP) && (u64 (rbp - uc) =? UC_MCONTEXT_GREGS_RBP) &&
       (u64 (rsp - uc) =? UC_MCONTEXT_GREGS_RSP) then mret tt else halt Panic
  else mret tt.

(** [src/Gparser.c:701-807], [apply_reg_state] *)
Definition apply_reg_state (fuel : nat) (rs : dwarf_reg_state_t) : M ustate () :=
  d ← get_dwarf;
  let prev_ip := d.(ip) in
  let prev_cfa := d.(cfa) in
  new_cfa ← eval_cfa fuel rs;
  apply_rules (Z.to_nat DWARF_NUM_PRESERVED_REGS) fuel rs new_cfa 0;;
  upd_dwarf (set_cfa new_cfa);;
  d ← get_dwarf;
  ra ← lift (aread d.(loc) d.(ret_addr_column));
  (if DWARF_IS_NULL_LOC ra then upd_dwarf (set_ip 0)
   else new_ip ← dwarf_get ra; upd_dwarf (set_ip new_ip));;
  d ← get_dwarf;
  if (d.(ip) =? prev_ip) && (d.(cfa) =? prev_cfa) then fail UNW_EBADFRAME
  else if d.(stash_frames) then tdep_stash_frame rs
  else mret tt.

(** ** The description of the procedure *)

Section step.
Context {P : Type} `{!PoolOps P, !LinkerOps P, !StringConstants}.

Definition on_u {A} (f : M ustate A) : M (step_state P) A := λ s,
  let '(r, u) := f s.(st_u) in (r, StepState u s.(st_pool)).

(** Run a routine that fills in the description [c->pi]. *)
Definition on_fx {A} (f : M (fde_state P) A) : M (step_state P) A := λ s,
  let '(r, fx) := f (FdeState 0 s.(st_u).(cur).(dwarf).(pi) s.(st_pool)) in
  (r, StepState (on_dwarf (set_pi fx.(fx_pi)) s.(st_u)) fx.(fx_pool)).

Definition on_st_pool {A} (f : M P A) : M (step_state P) A := λ s,
  let '(r, p) := f s.(st_pool) in (r, StepState s.(st_u) p).

Definition dwarf_of (s : step_state P) : dwarf_cursor_t := s.(st_u).(cur).(dwarf).
Definition upd_dw (f : dwarf_cursor_t → dwarf_cursor_t) : M (step_state P) () := on_u (upd_dwarf f).

(** [dci->signal_frame]: the pointer is used as one to [dwarf_cie_info] whatever
    it points to; in a [unw_dyn_info_t] the bit is the third of the byte at
    offset 70, in the word [u2].  [src/Gparser.c:441-446], [fetch_proc_info] *)
Definition ui_signal_frame (ds : dyn_state) (ui : unwind_info_t) : res bool :=
  match ui with
  | UI_null => Stop (BadAddr 70)
  | UI_cie _ dci => Ok dci.(signal_frame)
  | UI_dyn di =>
      match ds.(dl_store) !! di with
      | Some d => Ok (Z.testbit d.(di_u2) 50)
      | None => Stop (BadAddr di)
      end
  end.

(** [src/Gparser.c:389-449], [fetch_proc_info] *)
Definition fetch_proc_info (fuel : nat) (ds : dyn_state) (ip : Z) (need_unwind_info : bool)
    : M (step_state P) () :=
  s ← get_st;
  let d := dwarf_of s in
  let ip := if d.(use_prev_instr) then u64 (ip - 1) else ip in
  if d.(pi_valid) && negb need_unwind_info then mret tt
  else
    upd_dw (set_pi zero_proc_info);;
    let m := s.(st_u).(mach).(mem) in
    ret ← on_fx (try (unwi_find_dynamic_proc_info fuel m ds ip need_unwind_info));
    let dynamic := negb (bool_decide (ret = inr UNW_ENOINFO)) in
    ret ← (if dynamic then mret ret
           else on_fx (dwarf_find_proc_info fuel m ip need_unwind_info);; mret (inl tt));
    s ← get_st;
    let pi := (dwarf_of s).(pi) in
    if negb (pi.(format) =? UNW_INFO_FORMAT_DYNAMIC) && negb (pi.(format) =? UNW_INFO_FORMAT_TABLE) &&
       negb (pi.(format) =? UNW_INFO_FORMAT_REMOTE_TABLE) then fail UNW_ENOINFO
    else
      upd_dw (λ d, set_pi_is_dynamic dynamic (set_pi_valid true d));;
      (if need_unwind_info && negb (match pi.(unwind_info) with UI_null => true | _ => false end) then
         signal_frame ← lift (ui_signal_frame ds pi.(unwind_info));
         upd_dw (set_use_prev_instr (negb signal_frame))
       else mret tt);;
      match ret with inl _ => mret tt | inr e => fail e end.

(** An object that is not of the pool is never freed: [unwind_info] is one only
    if the description is not dynamic.  [src/Gparser.c:452-465], [put_unwind_info] *)
Definition put_unwind_info : M (step_state P) () :=
  s ← get_st;
  let d := dwarf_of s in
  if negb d.(pi_valid) then mret tt
  else if d.(pi_is_dynamic) then on_fx unwi_put_dynamic_unwind_info
  else match d.(pi).(unwind_info) with
  | UI_null => mret tt
  | UI_cie obj _ => on_st_pool (pool_free obj);; upd_dw (λ d, set_pi (set_unwind_info UI_null d.(pi)) d)
  | UI_dyn _ => halt Undef
  end.

(** The state of [parse_fde] before it runs the instructions: a null
    [unwind_info] is dereferenced at the offset of [ret_addr_column].  A dynamic
    descriptor does not get here, its format is not a table's.
    [src/Gparser.c:467-489], [parse_fde] *)
Definition parse_fde_of_cursor (fuel : nat) (ip : Z) (sr : dwarf_state_record_t)
    : M (step_state P) dwarf_state_record_t :=
  s ← get_st;
  let pi := (dwarf_of s).(pi) in
  match pi.(unwind_info) with
  | UI_null => halt (BadAddr 48)
  | UI_dyn _ => halt Undef
  | UI_cie _ dci =>
      upd_dw (set_ret_addr_column dci.(cie_ret_addr_column));;
      on_st_pool (parse_fde fuel s.(st_u).(mach).(mem) pi dci ip sr)
  end.

(** The record after [memset] and the loop.
    [src/Gparser.c:658-660], [create_state_record_for] *)
Definition initial_reg_state (w : dwarf_where_t) : dwarf_reg_state_t :=
  RegState (replicate (Z.to_nat (DWARF_NUM_PRESERVED_REGS + 2)) (SaveLoc w 0)) 0 0 0 0 0 false false.

(** [src/Gparser.c:650-675], [create_state_record_for] *)
Definition create_state_record_for (fuel : nat) (ip : Z) : M (step_state P) dwarf_state_record_t :=
  s ← get_st;
  let d := dwarf_of s in
  if negb d.(pi_valid) then halt Panic
  else
    let sr := StateRecord 0 0 (initial_reg_state DWARF_WHERE_UNDEF)
                (initial_reg_state DWARF_WHERE_SAME) in
    if (d.(pi).(format) =? UNW_INFO_FORMAT_TABLE) || (d.(pi).(format) =? UNW_INFO_FORMAT_REMOTE_TABLE)
    then parse_fde_of_cursor fuel ip sr
    else fail UNW_EINVAL.

(** [src/Gparser.c:809-832], [uncached_dwarf_find_save_locs] *)
Definition uncached_dwarf_find_save_locs (fuel : nat) (ds : dyn_state) : M (step_state P) () :=
  s ← get_st;
  fetch_proc_info fuel ds (dwarf_of s).(ip) true;;
  s ← get_st;
  sr ← create_state_record_for fuel (dwarf_of s).(ip);
  on_u (apply_reg_state fuel sr.(rs_current));;
  put_unwind_info.

(** What follows the first [return] is never reached.
    [src/Gparser.c:836-840], [dwarf_find_save_locs] *)
Definition dwarf_find_save_locs (fuel : nat) (ds : dyn_state) : M (step_state P) () :=
  uncached_dwarf_find_save_locs fuel ds.

(** [src/Gparser.c:891-895], [dwarf_create_state_record] *)
Definition dwarf_create_state_record (fuel : nat) : M (step_state P) dwarf_state_record_t :=
  s ← get_st; create_state_record_for fuel (dwarf_of s).(ip).

(** [src/Gparser.c:897-907], [dwarf_make_proc_info] *)
Definition dwarf_make_proc_info (fuel : nat) (ds : dyn_state) : M (step_state P) () :=
  s ← get_st; fetch_proc_info fuel ds (dwarf_of s).(ip) false.

(** [src/dwarf_Gstep.c:29-41], [dwarf_step] *)
Definition dwarf_step (fuel : nat) (ds : dyn_state) : M (step_state P) Z :=
  dwarf_find_save_locs fuel ds;;
  upd_dw (set_pi_valid false);;
  mret 1.

(** The description is written to the caller's structure, the result.
    [src/Gget_proc_info.c:30-48], [unw_get_proc_info] *)
Definition unw_get_proc_info (fuel : nat) (ds : dyn_state) : M (step_state P) unw_proc_info_t :=
  r ← try (dwarf_make_proc_info fuel ds);
  s ← get_st;
  let d := dwarf_of s in
  match r with
  | inr _ => mret (set_end_ip (u64 (d.(ip) + 1)) (set_start_ip d.(ip) zero_proc_info))
  | inl _ => mret d.(pi)
  end.

(** [src/Gget_proc_info_by_ip.c:28-39], [unw_get_proc_info_by_ip] *)
Definition unw_get_proc_info_by_ip (fuel : nat) (m : memory) (ds : dyn_state) (ip : Z)
    : M (fde_state P) () :=
  ret ← try (unwi_find_dynamic_proc_info fuel m ds ip false);
  match ret with
  | inl _ => mret tt
  | inr e => if bool_decide (e = UNW_ENOINFO) then dwarf_find_proc_info fuel m ip false else fail e
  end.
End step.

(** ** Frames without a description *)

(** [src/Gstep.c:34-56], [is_plt_entry] *)
Definition is_plt_entry : M ustate bool :=
  d ← get_dwarf;
  w ← try (w0 ← access_mem d.(ip) None; w1 ← access_mem (u64 (d.(ip) + 8)) None; mret (w0, w1));
  match w with
  | inr _ => mret false
  | inl (w0, w1) =>
      mret ((Z.land w0 0xffff =? 0x25ff) && (Z.land (Z.shiftr w0 48) 0xff =? 0x68) &&
            (Z.land (Z.shiftr w1 24) 0xff =? 0xe9))
  end.

(** The result is the enumerator's value, 0 when the frame is no signal frame.
    [src/Gos-freebsd.c:36-88], [unw_is_signal_frame] *)
Definition unw_is_signal_frame : M ustate Z :=
  d ← get_dwarf;
  let ip := d.(ip) in
  upd_cur (set_sigcontext_format X86_64_SCF_NONE);;
  w ← try (w0 ← access_mem ip None; w1 ← access_mem (u64 (ip + 8)) None;
           w2 ← access_mem (u64 (ip + 16)) None; mret (w0, w1, w2));
  match w with
  | inr _ => mret 0
  | inl (w0, w1, w2) =>
      let w2 := Z.land w2 0xffffff in
      if (w0 =? 0x48006a10247c8d48) && (w1 =? 0x050f000001a1c0c7) && (w2 =? 0x0000000000fdebf4) then
        upd_cur (set_sigcontext_format X86_64_SCF_FREEBSD_SIGFRAME);;
        mret (scf_value X86_64_SCF_FREEBSD_SIGFRAME)
      else
        b0 ← try (access_mem (u64 (ip - 5)) None);
        match b0 with
        | inr _ => mret 0
        | inl b0 =>
            if (Z.land b0 0xffffffffffffff =? 0x050fca89490000) ||
               (Z.land b0 0xffffffffff =? 0x050fca8949) then
              upd_cur (set_sigcontext_format X86_64_SCF_FREEBSD_SYSCALL);;
              mret (scf_value X86_64_SCF_FREEBSD_SYSCALL)
            else mret (scf_value X86_64_SCF_NONE)
        end
  end.

(** [offsetof (struct sigframe, sf_uc)] of amd64, [SIGF_UC] in the comment of
    [unw_is_signal_frame]. *)
Definition sf_uc : Z := 16.

(** The seventeen assignments of [c->dwarf.loc] are those of a fresh cursor on
    the context.  [src/Gos-freebsd.c:90-152], [unw_handle_signal_frame] *)
Definition unw_handle_signal_frame : M ustate Z :=
  s ← get_st;
  let c := s.(cur) in
  match c.(sigcontext_format) with
  | X86_64_SCF_FREEBSD_SIGFRAME =>
      let ucontext := u64 (c.(dwarf).(cfa) + sf_uc) in
      upd_cur (set_sigcontext_addr c.(dwarf).(cfa));;
      sp ← dwarf_get (u64 (ucontext + UC_MCONTEXT_GREGS_RSP));
      upd_dwarf (set_cfa sp);;
      upd_dwarf (set_loc (init_locs ucontext));;
      mret 0
  | X86_64_SCF_FREEBSD_SYSCALL =>
      r10 ← get_loc R10;
      put_loc RCX r10;;
      put_loc RIP c.(dwarf).(cfa);;
      new_ip ← dwarf_get c.(dwarf).(cfa);
      upd_dwarf (set_ip new_ip);;
      upd_dwarf (λ d, set_cfa (u64 (d.(cfa) + 8)) d);;
      mret 1
  | _ => fail UNW_EBADFRAME
  end.

(** The fields of [frame_info] set for a PLT entry and for a guessed frame.
    [src/Gstep.c:132-134], [unw_step] *)
Definition plt_frame (f : unw_tdep_frame_t) : unw_tdep_frame_t :=
  TdepFrame f.(virtual_address) UNW_X86_64_FRAME_STANDARD f.(last_frame) (-1) 8
    f.(rbp_cfa_offset) f.(rsp_cfa_offset).
(** [src/Gstep.c:186-189], [unw_step] *)
Definition guessed_frame (f : unw_tdep_frame_t) : unw_tdep_frame_t :=
  TdepFrame f.(virtual_address) UNW_X86_64_FRAME_GUESSED f.(last_frame) 0 8 0 f.(rsp_cfa_offset).

Definition all_unsaved : list Z := replicate (Z.to_nat DWARF_NUM_PRESERVED_REGS) 0.

(** The frame a non-zero RBP points to: its words are the caller's RBP and the
    return address.  The results are [ret], [rbp_loc] and [rip_loc]; the message
    printed at the end is left out.  [src/Gstep.c:162-204], [unw_step] *)
Definition rbp_frame (rbp : Z) : M ustate ((Z + unw_error) * Z * Z) :=
  rbp1 ← try (dwarf_get rbp);
  d ← get_dwarf;
  let bad := match rbp1 with inr _ => true | inl _ => false end ||
             (rbp <=? d.(cfa)) || (0x4000 <? u64 (rbp - d.(cfa))) in
  upd_cur (λ c, set_frame_info (guessed_frame c.(frame_info)) c);;
  prev_rbp ← try (unw_get_reg RBP);
  prev_rbp ← match prev_rbp with inl v => mret v | inr _ => halt Undef end;
  next ← load_word prev_rbp;
  upd_dwarf (λ d, set_cfa (u64 (d.(cfa) + u64 (next - prev_rbp))) d);;
  let ret := match rbp1 with inl _ => inl 0 | inr e => inr e end in
  mret (ret, if bad then 0 else rbp, if bad then 0 else u64 (rbp + 8)).

(** [src/Gstep.c:143-213], [unw_step] *)
Definition frame_chain : M ustate (Z + unw_error) :=
  l ← get_loc RBP;
  rbp ← dwarf_get l;
  '(ret, rbp_loc, rip_loc) ← (if rbp =? 0 then mret (inl 0, 0, 0) else rbp_frame rbp);
  upd_dwarf (set_loc all_unsaved);;
  put_loc RBP rbp_loc;; put_loc RSP 0;; put_loc RIP rip_loc;;
  mret ret.

(** What [unw_step] does when the DWARF step fails with [-UNW_ENOINFO].  The
    first result is [None] when the routine returns 0 at once, otherwise the
    [ret] it goes on with.  [src/Gstep.c:113-213], [unw_step] *)
Definition fall_back : M ustate (option (Z + unw_error)) :=
  upd_cur (set_validate true);;
  signal ← unw_is_signal_frame;
  if negb (signal =? 0) then
    ret ← try unw_handle_signal_frame;
    match ret with inr _ => mret None | inl v => mret (Some (inl v)) end
  else
    plt ← is_plt_entry;
    if (plt : bool) then
      upd_cur (λ c, set_frame_info (plt_frame c.(frame_info)) c);;
      d ← get_dwarf;
      put_loc RIP d.(cfa);;
      upd_dwarf (λ d, set_cfa (u64 (d.(cfa) + 8)) d);;
      mret (Some (inr UNW_ENOINFO))
    else
      l ← get_loc RBP;
      if DWARF_IS_NULL_LOC l then
        upd_dwarf (set_loc all_unsaved);;
        mret (Some (inr UNW_ENOINFO))
      else ret ← frame_chain; mret (Some ret).

(** [src/Gstep.c:215-240], [unw_step] *)
Definition finish_fall_back (prev_ip prev_cfa : Z) (ret : Z + unw_error) : M ustate Z :=
  upd_dwarf (set_ret_addr_column RIP);;
  rbp_loc ← get_loc RBP;
  if DWARF_IS_NULL_LOC rbp_loc then mret 0
  else
    rip_loc ← get_loc RIP;
    ret ← (if negb (DWARF_IS_NULL_LOC rip_loc) then
             new_ip ← dwarf_get rip_loc; upd_dwarf (set_ip new_ip);; mret (inl 1)
           else upd_dwarf (set_ip 0);; mret ret);
    d ← get_dwarf;
    if (d.(ip) =? prev_ip) && (d.(cfa) =? prev_cfa) then fail UNW_EBADFRAME
    else match ret with inl v => mret v | inr e => fail e end.

(** [src/Gstep.c:58-244], [unw_step] *)
Definition unw_step {P} `{!PoolOps P, !LinkerOps P, !StringConstants} (fuel : nat) (ds : dyn_state)
    : M (step_state P) Z :=
  s ← get_st;
  let val := s.(st_u).(cur).(validate) in
  on_u (upd_cur (set_validate true));;
  on_u (upd_cur (set_sigcontext_format X86_64_SCF_NONE));;
  ret ← try (dwarf_step fuel ds);
  on_u (upd_cur (set_validate val));;
  match ret with
  | inl ret =>
      rbp_loc ← on_u (get_loc RBP);
      if DWARF_IS_NULL_LOC rbp_loc then upd_dw (set_ip 0);; mret 0 else mret ret
  | inr e =>
      if negb (bool_decide (e = UNW_ENOINFO)) then fail e
      else
        d ← on_u get_dwarf;
        ret ← on_u fall_back;
        match ret with
        | None => mret 0
        | Some ret => on_u (finish_fall_back d.(ip) d.(cfa) ret)
        end
  end.
