(* ===== verification/StepSpec.v ===== *)
(** * What one step does

    The theorems about [Step.v]: a step that does not end the walk moves the
    cursor, what the register rules do to it, and what happens when a module has
    a description of the procedure and when it has none. *)
From S2P Require Export Step.

(** ** The cursor behind the accessors *)

(** The routines that only read leave the cursor and the memory alone; the cache
    of validated addresses may change. *)
Definition same_cursor (s s' : ustate) : Prop :=
  s'.(cur) = s.(cur) ∧ s'.(mach).(mem) = s.(mach).(mem).

#[export] Instance same_cursor_preorder : PreOrder same_cursor.
Proof. split; [by split|]. intros s1 s2 s3 [H1 H2] [H3 H4]. split; congruence. Qed.

Lemma keeps_validate_mem addr :
  keeps (λ mc mc', mc'.(mem) = mc.(mem)) (validate_mem addr).
Proof.
  intros mc. unfold validate_mem. mred. destruct (PAGE_START addr =? 0); [done|].
  destruct (existsb _ _); [done|]. destruct (msync_validate _ _ =? -1); [done|].
  destruct (lga_free_slot _ _ _ _) as [[[lga|] v]|e|t]; [done| |done..].
  by destruct (awrite _ _ _).
Qed.

Lemma keeps_access_mem addr : keeps same_cursor (access_mem addr None).
Proof.
  unfold access_mem, load_word. keep.
  intros s. unfold on_mach. pose proof (keeps_validate_mem addr s.(mach)) as H.
  destruct (validate_mem addr (mach s)) as [r mc]. by split.
Qed.
#[export] Hint Resolve keeps_access_mem : keeps.

Lemma keeps_dwarf_get l : keeps same_cursor (dwarf_get l).
Proof. unfold dwarf_get, access_reg, load_word. keep. Qed.
#[export] Hint Resolve keeps_dwarf_get : keeps.

Lemma keeps_unw_get_reg reg : keeps same_cursor (unw_get_reg reg).
Proof.
  unfold unw_get_reg, tdep_access_reg, access_eh_reg, access_loc, get_loc. keep.
Qed.
#[export] Hint Resolve keeps_unw_get_reg : keeps.

(** ** Expressions leave the cursor alone *)

Definition same_cursor_e (s s' : expr_state) : Prop := same_cursor s.(es_u) s'.(es_u).

#[export] Instance same_cursor_e_preorder : PreOrder same_cursor_e.
Proof.
  split; [intros s; unfold same_cursor_e; reflexivity|].
  intros s1 s2 s3 H1 H2. unfold same_cursor_e in *. by etrans.
Qed.

Lemma keeps_e_on_u {A} (f : M ustate A) : keeps same_cursor f → keeps same_cursor_e (Expr.on_u f).
Proof.
  intros Hf s. specialize (Hf s.(es_u)). unfold Expr.on_u, same_cursor_e. by destruct (f (es_u s)).
Qed.

Lemma keeps_on_addr {A} (f : memory → M Z A) : keeps same_cursor_e (on_addr f).
Proof. intros s. unfold on_addr. by destruct (f _ _). Qed.

Lemma keeps_slot i : keeps same_cursor_e (slot i).
Proof. intros s. unfold slot. destruct (aread _ i) as [[|]| |]; reflexivity. Qed.
#[export] Hint Resolve keeps_e_on_u keeps_on_addr keeps_slot : keeps.

Lemma keeps_pop : keeps same_cursor_e pop.
Proof. unfold pop. keep. Qed.
#[export] Hint Resolve keeps_pop : keeps.

Lemma keeps_push_of x : keeps same_cursor_e x → keeps same_cursor_e (push_of x).
Proof. intros Hx. unfold push_of. keep. Qed.

Lemma keeps_push v : keeps same_cursor_e (push v).
Proof. apply keeps_push_of. keep. Qed.

Lemma keeps_pick n : keeps same_cursor_e (pick n).
Proof. unfold pick. keep. Qed.
#[export] Hint Resolve keeps_push keeps_pick : keeps.

Lemma keeps_expr_switch op : keeps same_cursor_e (expr_switch op).
Proof.
  unfold expr_switch, expr_lit, expr_breg, expr_reg, expr_const, expr_deref, expr_deref_size, on_tmp,
    expr_stack_op, expr_arith, expr_compare, expr_control.
  keep; apply keeps_push_of; keep.
Qed.
#[export] Hint Resolve keeps_expr_switch : keeps.

Lemma keeps_expr_loop fuel end_ : keeps same_cursor_e (expr_loop fuel end_).
Proof.
  induction fuel as [|fuel IH]; [by intros s|]. cbn [expr_loop]. unfold expr_fetch. keep.
Qed.

Lemma keeps_eval_location_expr fuel addr : keeps same_cursor (eval_location_expr fuel addr).
Proof.
  intros u. unfold eval_location_expr, dwarf_eval_expr.
  destruct (dwarf_read_uleb128 _ _) as [[len|e|t] a]; [|reflexivity..].
  match goal with |- context [(?f ≫= ?k) ?x] =>
    assert (H : keeps same_cursor_e (f ≫= k)); [|specialize (H x); destruct ((f ≫= k) x) as [r s]] end.
  { pose proof keeps_expr_loop. keep; apply H. }
  exact H.
Qed.
#[export] Hint Resolve keeps_eval_location_expr : keeps.

Lemma keeps_eval_cfa fuel rs : keeps same_cursor (eval_cfa fuel rs).
Proof. unfold eval_cfa, get_dwarf. keep. Qed.
#[export] Hint Resolve keeps_eval_cfa : keeps.

(** ** Where the cursor is *)

Definition same_pos (s s' : ustate) : Prop :=
  s'.(cur).(dwarf).(ip) = s.(cur).(dwarf).(ip) ∧ s'.(cur).(dwarf).(cfa) = s.(cur).(dwarf).(cfa).

#[export] Instance same_pos_preorder : PreOrder same_pos.
Proof. split; [by split|]. intros s1 s2 s3 [H1 H2] [H3 H4]. split; congruence. Qed.

Lemma keeps_weaken {S A} (R R' : S → S → Prop) (m : M S A) :
  (∀ s s', R s s' → R' s s') → keeps R m → keeps R' m.
Proof. intros H Hm s. apply H, Hm. Qed.

Lemma keeps_pos {A} (m : M ustate A) : keeps same_cursor m → keeps same_pos m.
Proof. apply keeps_weaken. intros s s' [H _]. unfold same_pos. by rewrite H. Qed.

Lemma keeps_upd_dwarf_pos f :
  (∀ d, (f d).(ip) = d.(ip) ∧ (f d).(cfa) = d.(cfa)) → keeps same_pos (upd_dwarf f).
Proof. intros H. apply keeps_mod. intros s. apply H. Qed.

Lemma keeps_upd_cur_pos f : (∀ c, (f c).(dwarf) = c.(dwarf)) → keeps same_pos (upd_cur f).
Proof. intros H. apply keeps_mod. intros s. split; simpl; by rewrite H. Qed.
#[export] Hint Resolve keeps_pos : keeps.
#[export] Hint Extern 1 (keeps same_pos (upd_dwarf _)) => by apply keeps_upd_dwarf_pos : keeps.
#[export] Hint Extern 1 (keeps same_pos (upd_cur _)) => by apply keeps_upd_cur_pos : keeps.

Lemma keeps_get_loc i : keeps same_cursor (get_loc i).
Proof. unfold get_loc. keep. Qed.

Lemma keeps_get_dwarf : keeps same_cursor get_dwarf.
Proof. unfold get_dwarf. keep. Qed.
#[export] Hint Resolve keeps_get_loc keeps_get_dwarf : keeps.

Lemma keeps_put_loc i l : keeps same_pos (put_loc i l).
Proof. unfold put_loc. keep. Qed.
#[export] Hint Resolve keeps_put_loc : keeps.

Lemma keeps_apply_rules n fuel rs new_cfa : ∀ i, keeps same_pos (apply_rules n fuel rs new_cfa i).
Proof.
  induction n as [|n IH]; intros i; cbn [apply_rules]; unfold apply_rule; keep.
Qed.

Lemma keeps_stash rs : keeps same_pos (tdep_stash_frame rs).
Proof. unfold tdep_stash_frame. keep. Qed.
#[export] Hint Resolve keeps_apply_rules keeps_stash : keeps.

(** The reason for an error of a bind, and its two steps when it returns. *)
Lemma bind_ok {S A B} (m : M S A) (k : A → M S B) s b s' :
  (m ≫= k) s = (Ok b, s') → ∃ a s1, m s = (Ok a, s1) ∧ k a s1 = (Ok b, s').
Proof. unfold mbind, M_bind. destruct (m s) as [[a|e|t] s1]; [eauto|done..]. Qed.

Lemma bind_err {S A B} (m : M S A) (k : A → M S B) s e s' :
  (m ≫= k) s = (Err e, s') →
  m s = (Err e, s') ∨ ∃ a s1, m s = (Ok a, s1) ∧ k a s1 = (Err e, s').
Proof.
  unfold mbind, M_bind. destruct (m s) as [[a|e'|t] s1]; [eauto| |done]. intros [= -> ->]. by left.
Qed.

(** [-UNW_ENOINFO] does not come from the memory. *)
Lemma aread_no_err {A} (l : list A) i e : aread l i ≠ Err e.
Proof. unfold aread. destruct (i <? 0); [done|]. by destruct (l !! _). Qed.

Lemma awrite_no_err {A} (l : list A) i x e : awrite l i x ≠ Err e.
Proof. unfold awrite. by destruct (_ || _). Qed.

Lemma never_aread {S A} e (l : list A) i : never e (lift (aread l i) : M S A).
Proof. intros s. apply aread_no_err. Qed.

Lemma never_awrite {S A} e (l : list A) i x : never e (lift (awrite l i x) : M S _).
Proof. intros s. apply awrite_no_err. Qed.
#[export] Hint Resolve never_aread never_awrite : keeps.

Lemma never_validate_mem e addr : never e (validate_mem addr).
Proof.
  intros mc. unfold validate_mem. mred. destruct (PAGE_START addr =? 0); [done|].
  destruct (existsb _ _); [done|]. destruct (msync_validate _ _ =? -1); [done|].
  assert (H : ∀ n lga v a, lga_free_slot n lga v a ≠ Err e).
  { induction n as [|n IH]; intros lga v a; [done|]. cbn [lga_free_slot]. mred.
    pose proof (aread_no_err lga v e) as H.
    destruct (aread lga v) as [x|e'|t]; [|by intros [= ->]|done]. destruct (x =? 0); [|apply IH].
    pose proof (awrite_no_err lga v a e) as H'.
    destruct (awrite lga v a); [done|by intros [= ->]|done]. }
  specialize (H NLGA (last_good_addr mc) (lga_victim mc) (PAGE_START addr)).
  destruct (lga_free_slot _ _ _ _) as [[[lga|] v]|e'|t]; [done| |by intros [= ->]|done].
  pose proof (awrite_no_err (last_good_addr mc) v (PAGE_START addr) e) as H'.
  destruct (awrite (last_good_addr mc) v (PAGE_START addr)); [done|by intros [= ->]|done].
Qed.

Lemma never_dwarf_get l : never UNW_ENOINFO (dwarf_get l).
Proof.
  unfold dwarf_get, DWARF_IS_REG_LOC, access_mem.
  assert (never UNW_ENOINFO (on_mach (validate_mem l))).
  { intros s. unfold on_mach. pose proof (never_validate_mem UNW_ENOINFO l s.(mach)).
    by destruct (validate_mem l (mach s)). }
  assert (never UNW_ENOINFO (load_word l)) by (intros s; apply load_no_err).
  nevers.
Qed.

#[export] Hint Resolve never_dwarf_get : keeps.

Lemma labs_no_err v e : labs v ≠ Err e.
Proof. unfold labs. by destruct (_ =? _). Qed.

Lemma stash_reg_ok_no_err r e : stash_reg_ok r ≠ Err e.
Proof.
  unfold stash_reg_ok, orm, andm. mred. pose proof (labs_no_err (sl_val r) e).
  repeat case_bool_decide; try done. destruct (labs _); [done|by intros [= ->]|done].
Qed.

Lemma is_standard_frame_no_err c rs e : is_standard_frame c rs ≠ Err e.
Proof.
  unfold is_standard_frame, andm. mred.
  repeat match goal with
  | |- context [aread ?l ?i] =>
      pose proof (aread_no_err l i e); destruct (aread l i); [|by intros [= ->]|done]
  | |- context [labs ?v] => pose proof (labs_no_err v e); destruct (labs v); [|by intros [= ->]|done]
  | |- context [stash_reg_ok ?r] =>
      pose proof (stash_reg_ok_no_err r e); destruct (stash_reg_ok r); [|by intros [= ->]|done]
  | |- (if ?b then _ else _) ≠ _ => destruct b; [|done]
  end; done.
Qed.

Lemma never_stash rs : never UNW_ENOINFO (tdep_stash_frame rs).
Proof.
  unfold tdep_stash_frame, get_loc, upd_cur. nevers.
  intros s'. apply is_standard_frame_no_err.
Qed.
#[export] Hint Resolve never_stash : keeps.

(** A successful application of the rules moves the cursor; one that fails with
    [-UNW_ENOINFO] has not moved it. *)
Lemma apply_reg_state_moves fuel rs s s' :
  apply_reg_state fuel rs s = (Ok tt, s') → ¬ same_pos s s'.
Proof.
  unfold apply_reg_state. intros (d & s1 & [= <- <-] & H)%bind_ok.
  apply bind_ok in H as (c & s1 & _ & H). apply bind_ok in H as ([] & s2 & _ & H).
  apply bind_ok in H as ([] & s3 & _ & H). apply bind_ok in H as (d3 & s4 & _ & H).
  apply bind_ok in H as (ra & s5 & _ & H). apply bind_ok in H as ([] & s6 & _ & H).
  apply bind_ok in H as (d6 & s7 & [= <- <-] & H).
  destruct ((_ =? _) && _) eqn:E; [done|].
  assert (Hp : same_pos s6 s').
  { destruct (stash_frames _); [|by injection H as <-].
    pose proof (keeps_stash rs s6) as Hk. by rewrite H in Hk. }
  intros [Hi Hc]. destruct Hp as [Hi' Hc']. rewrite Hi' in Hi. rewrite Hc' in Hc.
  rewrite Hi, Hc, !Z.eqb_refl in E. done.
Qed.

Lemma apply_reg_state_enoinfo fuel rs s s' :
  apply_reg_state fuel rs s = (Err UNW_ENOINFO, s') → same_pos s s'.
Proof.
  unfold apply_reg_state. intros [|(d & s1 & [= <- <-] & H)]%bind_err; [done|].
  apply bind_err in H as [H|(c & s1 & H1 & H)].
  { pose proof (keeps_pos _ (keeps_eval_cfa fuel rs) s) as Hk. by rewrite H in Hk. }
  pose proof (keeps_pos _ (keeps_eval_cfa fuel rs) s) as Hk1. rewrite H1 in Hk1. cbn [snd] in Hk1.
  apply bind_err in H as [H|([] & s2 & H2 & H)].
  { etrans; [exact Hk1|].
    pose proof (keeps_apply_rules (Z.to_nat DWARF_NUM_PRESERVED_REGS) fuel rs c 0 s1) as Hk.
    by rewrite H in Hk. }
  exfalso. revert H. match goal with |- ?m s2 = _ → _ => enough (Hn : never UNW_ENOINFO m) end.
  { intros H. apply (Hn s2). by rewrite H. }
  unfold get_dwarf, upd_dwarf. nevers.
Qed.

(** ** The step and the position *)

Section step_pos.
Context {P : Type} `{!PoolOps P, !LinkerOps P} {SC : StringConstants}.

Definition same_pos_st (s s' : step_state P) : Prop := same_pos s.(st_u) s'.(st_u).

#[export] Instance same_pos_st_preorder : PreOrder same_pos_st.
Proof.
  split; [intros s; unfold same_pos_st; reflexivity|].
  intros s1 s2 s3 H1 H2. unfold same_pos_st in *. by etrans.
Qed.

Lemma keeps_st_on_u {A} (f : M ustate A) : keeps same_pos f → keeps same_pos_st (on_u f).
Proof. intros Hf s. specialize (Hf s.(st_u)). unfold on_u, same_pos_st. by destruct (f (st_u s)). Qed.

Lemma keeps_on_fx {A} (f : M (fde_state P) A) : keeps same_pos_st (on_fx f).
Proof. intros s. unfold on_fx, same_pos_st, same_pos. by destruct (f _). Qed.

Lemma keeps_on_st_pool {A} (f : M P A) : keeps same_pos_st (on_st_pool f).
Proof. intros s. unfold on_st_pool, same_pos_st, same_pos. by destruct (f _). Qed.

Lemma keeps_upd_dw f :
  (∀ d, (f d).(ip) = d.(ip) ∧ (f d).(cfa) = d.(cfa)) → keeps same_pos_st (upd_dw f).
Proof. intros H. by apply keeps_st_on_u, keeps_upd_dwarf_pos. Qed.
End step_pos.
#[export] Hint Resolve keeps_st_on_u keeps_on_fx keeps_on_st_pool : keeps.
#[export] Hint Extern 1 (keeps same_pos_st (upd_dw _)) => by apply keeps_upd_dw : keeps.

Section progress.
Context {P : Type} `{!PoolOps P, !PoolLaws P, !LinkerOps P} {SC : StringConstants}.

Lemma keeps_fetch_proc_info fuel ds ip need :
  keeps (same_pos_st (P := P)) (fetch_proc_info fuel ds ip need).
Proof. unfold fetch_proc_info. keep. Qed.

Lemma keeps_create_state_record fuel ip :
  keeps (same_pos_st (P := P)) (create_state_record_for fuel ip).
Proof. unfold create_state_record_for, parse_fde_of_cursor. keep. Qed.

Lemma keeps_put_unwind_info : keeps (same_pos_st (P := P)) put_unwind_info.
Proof. unfold put_unwind_info. keep. Qed.

Lemma never_put_unwind_info e : never e (put_unwind_info : M (step_state P) ()).
Proof.
  assert (H1 : never e (on_fx unwi_put_dynamic_unwind_info : M (step_state P) ())).
  { intros s. unfold on_fx, unwi_put_dynamic_unwind_info. mred.
    by repeat match goal with |- context [if ?b then _ else _] => destruct b end. }
  assert (H2 : ∀ f, never e (upd_dw f : M (step_state P) ())) by done.
  assert (H3 : ∀ o, never e (on_st_pool (pool_free o) : M (step_state P) ())).
  { intros o s. unfold on_st_pool. pose proof (pool_free_no_err s.(st_pool) o e).
    by destruct (pool_free o (st_pool s)). }
  unfold put_unwind_info. nevers.
Qed.

Lemma on_u_ok {A} (f : M ustate A) (s s' : step_state P) a :
  on_u f s = (Ok a, s') → f s.(st_u) = (Ok a, s'.(st_u)).
Proof. unfold on_u. destruct (f (st_u s)) as [r u]. by intros [= -> <-]. Qed.

Lemma on_u_err {A} (f : M ustate A) (s s' : step_state P) e :
  on_u f s = (Err e, s') → f s.(st_u) = (Err e, s'.(st_u)).
Proof. unfold on_u. destruct (f (st_u s)) as [r u]. by intros [= -> <-]. Qed.

(** The DWARF step moves the cursor, and leaves it in place when there is no
    description. *)
Lemma dwarf_step_moves fuel ds v (s s' : step_state P) :
  dwarf_step fuel ds s = (Ok v, s') → v = 1 ∧ ¬ same_pos_st s s'.
Proof.
  unfold dwarf_step, dwarf_find_save_locs, uncached_dwarf_find_save_locs.
  intros ([] & s5 & H & H')%bind_ok.
  apply bind_ok in H' as ([] & s6 & [= <-] & [= <- <-]). split; [done|].
  apply bind_ok in H as (s0 & s1 & [= <- <-] & H). apply bind_ok in H as ([] & s1 & H1 & H).
  apply bind_ok in H as (s1' & s2 & [= <- <-] & H). apply bind_ok in H as (sr & s2 & H2 & H).
  apply bind_ok in H as ([] & s3 & H3%on_u_ok & H4).
  pose proof (keeps_fetch_proc_info fuel ds (dwarf_of s).(ip) true s) as K1. rewrite H1 in K1.
  pose proof (keeps_create_state_record fuel (dwarf_of s1).(ip) s1) as K2. rewrite H2 in K2.
  pose proof (keeps_put_unwind_info s3) as K4. rewrite H4 in K4. cbn [snd] in *.
  pose proof (apply_reg_state_moves _ _ _ _ H3) as K3. intros K. apply K3.
  unfold same_pos_st, same_pos in *. simpl in K. intuition congruence.
Qed.

Lemma dwarf_step_enoinfo fuel ds (s s' : step_state P) :
  dwarf_step fuel ds s = (Err UNW_ENOINFO, s') → same_pos_st s s'.
Proof.
  unfold dwarf_step, dwarf_find_save_locs, uncached_dwarf_find_save_locs.
  intros [H|([] & s5 & _ & H')]%bind_err.
  2: { apply bind_err in H' as [H|(? & ? & _ & H)]; discriminate H. }
  apply bind_err in H as [H|(s0 & s1 & [= <- <-] & H)]; [discriminate H|].
  pose proof (keeps_fetch_proc_info fuel ds (dwarf_of s).(ip) true s) as K1.
  apply bind_err in H as [H|([] & s1 & H1 & H)]; [by rewrite H in K1|]. rewrite H1 in K1.
  apply bind_err in H as [H|(s1' & s2 & [= <- <-] & H)]; [discriminate H|].
  pose proof (keeps_create_state_record fuel (dwarf_of s1).(ip) s1) as K2. cbn [snd] in *.
  apply bind_err in H as [H|(sr & s2 & H2 & H)]; [rewrite H in K2; by etrans|]. rewrite H2 in K2.
  apply bind_err in H as [H%on_u_err|([] & s3 & _ & H)].
  - etrans; [exact K1|]. etrans; [exact K2|]. by eapply apply_reg_state_enoinfo.
  - exfalso. apply (never_put_unwind_info UNW_ENOINFO s3). by rewrite H.
Qed.

Lemma finish_moves pi pc ret (s s' : ustate) v :
  finish_fall_back pi pc ret s = (Ok v, s') →
  v = 0 ∨ (v = 1 ∨ ret = inl v) ∧ ¬ (s'.(cur).(dwarf).(ip) = pi ∧ s'.(cur).(dwarf).(cfa) = pc).
Proof.
  unfold finish_fall_back. intros ([] & s1 & _ & H)%bind_ok.
  apply bind_ok in H as (rbp & s2 & _ & H). destruct (DWARF_IS_NULL_LOC rbp).
  { injection H as <- _. by left. }
  right. apply bind_ok in H as (rip & s3 & _ & H). apply bind_ok in H as (r & s4 & Hr & H).
  apply bind_ok in H as (d & s5 & [= <- <-] & H).
  destruct ((_ =? pi) && _) eqn:E; [done|]. destruct r as [w|]; [|done]. injection H as -> <-.
  split.
  - destruct (negb _).
    + apply bind_ok in Hr as (? & ? & _ & Hr). apply bind_ok in Hr as (? & ? & _ & Hr).
      injection Hr as <- _. by left.
    + apply bind_ok in Hr as (? & ? & _ & Hr). injection Hr as -> _. by right.
  - intros [Hi Hc]. rewrite Hi, Hc, !Z.eqb_refl in E. done.
Qed.

(** The codes the routines of the fall-back return. *)
Lemma fall_back_code (s s' : ustate) v :
  fall_back s = (Ok (Some (inl v)), s') → v = 0 ∨ v = 1.
Proof.
  unfold fall_back. intros ([] & s1 & _ & H)%bind_ok. apply bind_ok in H as (sg & s2 & _ & H).
  destruct (negb (sg =? 0)).
  - apply bind_ok in H as ([w|e] & s3 & Hw & H); [|done]. injection H as -> _.
    revert Hw. unfold try. destruct (unw_handle_signal_frame s2) as [[w|e|t] s4] eqn:E; try done.
    intros [= -> _]. revert E. unfold unw_handle_signal_frame.
    intros (s0 & s5 & [= <- <-] & H)%bind_ok. destruct (sigcontext_format (cur s2)); try done;
      repeat (apply bind_ok in H as (? & ? & _ & H)); injection H as <- _; tauto.
  - apply bind_ok in H as (plt & s3 & _ & H). destruct plt.
    { repeat (apply bind_ok in H as (? & ? & _ & H)). discriminate H. }
    apply bind_ok in H as (l & s4 & _ & H). destruct (DWARF_IS_NULL_LOC l).
    { repeat (apply bind_ok in H as (? & ? & _ & H)). discriminate H. }
    apply bind_ok in H as (ret' & s5 & Hr & H). injection H as Heq _. subst ret'. revert Hr.
    unfold frame_chain.
    intros (l' & s6 & _ & H)%bind_ok. apply bind_ok in H as (rbp & s7 & _ & H).
    apply bind_ok in H as ([[ret rbp_loc] rip_loc] & s8 & Hr & H).
    do 4 apply bind_ok in H as ([] & ? & _ & H). injection H as Heq _. subst ret. left.
    destruct (rbp =? 0); [injection Hr; congruence|]. revert Hr. unfold rbp_frame.
    intros (r1 & s9 & _ & H)%bind_ok. repeat (apply bind_ok in H as (? & ? & _ & H)).
    destruct r1; injection H; congruence.
Qed.

(** C28. A step that does not report the end of the chain returns 1 and has
    changed the instruction pointer or the frame address. *)
Theorem unw_step_progress (fuel : nat) (ds : dyn_state) (v : Z) (s s' : step_state P) :
  unw_step fuel ds s = (Ok v, s') → v = 0 ∨ v = 1 ∧ ¬ same_pos_st s s'.
Proof.
  unfold unw_step. intros (s0 & s1 & [= <- <-] & H)%bind_ok.
  apply bind_ok in H as ([] & s1 & [= <-] & H). apply bind_ok in H as ([] & s2 & [= <-] & H).
  match type of H with (try _ ≫= _) ?x = _ => set (s2 := x) in * end.
  assert (K2 : same_pos_st s s2) by done. clearbody s2.
  apply bind_ok in H as (ret & s3 & Hret & H). apply bind_ok in H as ([] & s4 & [= <-] & H).
  match type of H with _ ?x = _ => set (s4 := x) in * end.
  assert (K4 : same_pos_st s3 s4) by done. clearbody s4. revert Hret. unfold try.
  destruct (dwarf_step fuel ds s2) as [[w|e|t] s5] eqn:E; intros Hret; [| |discriminate Hret];
    injection Hret as <- ->.
  - apply dwarf_step_moves in E as [-> E].
    apply bind_ok in H as (l & s5 & Hl & H). pose proof (keeps_get_loc RBP s4.(st_u)) as K5.
    apply on_u_ok in Hl. rewrite Hl in K5. cbn [snd] in K5.
    destruct (DWARF_IS_NULL_LOC l).
    + apply bind_ok in H as ([] & ? & _ & [= <- _]). by left.
    + injection H as <- <-. right. split; [done|]. intros K. apply E. destruct K5 as [K5 _].
      unfold same_pos_st, same_pos in *. rewrite K5 in K. intuition congruence.
  - destruct (decide (e = UNW_ENOINFO)) as [->|Hne].
    2: { rewrite bool_decide_eq_false_2 in H by done. discriminate H. }
    apply dwarf_step_enoinfo in E. rewrite bool_decide_eq_true_2 in H by done. cbn [negb] in H.
    apply bind_ok in H as (d & s6 & [= <- <-] & H).
    apply bind_ok in H as (r & s7 & Hf & H). destruct r as [ret|]; [|injection H as <- _; by left].
    apply on_u_ok in H. apply finish_moves in H as [->|[Hv Hp]]; [by left|].
    assert (Hv' : v = 0 ∨ v = 1).
    { destruct Hv as [->| ->]; [by right|]. apply on_u_ok in Hf. by eapply fall_back_code. }
    destruct Hv' as [->| ->]; [by left|right]. split; [done|]. intros K. apply Hp.
    unfold same_pos_st, same_pos in *. simpl. intuition congruence.
Qed.
End progress.

(** ** The register rules *)

Lemma PAGE_START_0 : PAGE_START 0 = 0.
Proof. reflexivity. Qed.

(** A word outside the page of the null pointer reads as the memory has it. *)
Lemma dwarf_get_ok l s v :
  lga_ok s.(mach) → PAGE_START l ≠ 0 → load 8 s.(mach).(mem) l = Ok v →
  ∃ s', dwarf_get l s = (Ok v, s') ∧ same_cursor s s' ∧ lga_ok s'.(mach).
Proof.
  intros Hg Hp Hl. unfold dwarf_get, DWARF_IS_NULL_LOC, DWARF_IS_REG_LOC, access_mem, load_word.
  destruct (Z.eqb_spec l 0) as [->|]; [by rewrite PAGE_START_0 in Hp|]. mred.
  destruct (validate (cur s)); [|exists s; cbn [Z.eqb negb]; rewrite Hl; by split_and!].
  destruct (validate_mem_cases l s.(mach) Hg) as [[? _]|(_ & mc & E & Hg' & Hm & _)]; [done|].
  unfold on_mach. rewrite E. mred. exists (set_mach mc s). cbn [set_mach mach Z.eqb negb]. rewrite Hm, Hl.
  by split_and!.
Qed.

Lemma dwarf_get_null_page l s :
  lga_ok s.(mach) → PAGE_START l = 0 → l ≠ 0 → s.(cur).(validate) = true →
  dwarf_get l s = (Err UNW_EUNSPEC, s).
Proof.
  intros Hg Hp Hl Hv. unfold dwarf_get, DWARF_IS_NULL_LOC, DWARF_IS_REG_LOC, access_mem.
  destruct (Z.eqb_spec l 0) as [->|]; [done|]. mred. rewrite Hv.
  destruct (validate_mem_cases l s.(mach) Hg) as [[_ E]|(? & _)]; [|done].
  unfold on_mach. rewrite E. mred. f_equal. by destruct s.
Qed.

(** The location the register is read from is outside that page; the frame
    address stands for the stack pointer, whose location is not looked at. *)
Definition readable (s : ustate) (reg : Z) : Prop :=
  reg ≠ RSP → ∀ l, aread s.(cur).(dwarf).(loc) reg = Ok l → PAGE_START l ≠ 0.

Lemma get_saved_ok s reg v :
  lga_ok s.(mach) → reg ≠ RSP → readable s reg →
  (l ← aread s.(cur).(dwarf).(loc) reg;
   if l =? 0 then Err UNW_EBADREG else load 8 s.(mach).(mem) l) = Ok v →
  ∃ s', (l ← get_loc reg; access_loc l None) s = (Ok v, s') ∧ same_cursor s s' ∧ lga_ok s'.(mach).
Proof.
  intros Hg Hn Hr H. unfold get_loc, access_loc. revert H. mred.
  destruct (aread _ reg) as [l| |] eqn:E; [|done..]. specialize (Hr Hn l E).
  destruct (Z.eqb_spec l 0) as [->|]; [done|]. by apply dwarf_get_ok.
Qed.

Lemma unw_get_reg_ok s reg v :
  lga_ok s.(mach) → 0 ≤ reg < 17 → readable s reg → reg_value s reg = Ok v →
  ∃ s', unw_get_reg reg s = (Ok v, s') ∧ same_cursor s s' ∧ lga_ok s'.(mach).
Proof.
  intros Hg Hr Hrd. unfold reg_value.
  destruct (Z.eqb_spec reg RIP) as [->|]; [intros [= <-]; by exists s|].
  destruct (Z.eqb_spec reg RSP) as [->|]; [intros [= <-]; by exists s|].
  destruct (Z.eqb_spec reg RAX) as [->|]; [|destruct (Z.eqb_spec reg RDX) as [->|]].
  - change (unw_get_reg RAX s) with (access_eh_reg 0 RAX None s). unfold access_eh_reg. mred.
    rewrite mask_bit by lia. cbn [andb]. destruct (Z.testbit _ 0); [intros ->; by exists s|].
    by apply (get_saved_ok s RAX).
  - change (unw_get_reg RDX s) with (access_eh_reg 1 RDX None s). unfold access_eh_reg. mred.
    rewrite mask_bit by lia. cbn [andb]. destruct (Z.testbit _ 1); [intros ->; by exists s|].
    by apply (get_saved_ok s RDX).
  - rewrite get_reg_loc by done. by apply get_saved_ok.
Qed.

Lemma dwarf_to_unw_regnum_id reg : 0 ≤ reg < 17 → dwarf_to_unw_regnum reg = Ok reg.
Proof.
  intros Hr. rewrite <- (Z2Nat.id reg) by lia.
  assert (Z.to_nat reg < 17)%nat as Hn by lia. revert Hn. generalize (Z.to_nat reg).
  intros n Hn. do 17 (destruct n as [|n]; [reflexivity|]). lia.
Qed.

(** The location a rule gives a register that was at [old].  A register saved in
    another is looked for in the machine context, not where the cursor has it. *)
Definition rule_loc (new_cfa uc_ old : Z) (r : dwarf_save_loc_t) : Z :=
  match r.(where_) with
  | DWARF_WHERE_UNDEF => 0
  | DWARF_WHERE_CFAREL => u64 (new_cfa + r.(sl_val))
  | DWARF_WHERE_REG => x86_64_r_uc_addr uc_ r.(sl_val)
  | DWARF_WHERE_SAME | DWARF_WHERE_EXPR => old
  end.

(** A rule without an expression. *)
Definition rule_plain (r : dwarf_save_loc_t) : Prop :=
  r.(where_) ≠ DWARF_WHERE_EXPR ∧ (r.(where_) = DWARF_WHERE_REG → 0 ≤ r.(sl_val) < 17).

Lemma put_loc_eval i x s :
  (i < length s.(cur).(dwarf).(loc))%nat →
  put_loc (Z.of_nat i) x s = (Ok tt, on_dwarf (set_loc (<[i:=x]> s.(cur).(dwarf).(loc))) s).
Proof.
  intros Hi. unfold put_loc. mred. rewrite awrite_Ok by lia. by rewrite Nat2Z.id.
Qed.

Lemma on_dwarf_set_loc l l' s : on_dwarf (set_loc l') (on_dwarf (set_loc l) s) = on_dwarf (set_loc l') s.
Proof. by destruct s as [? []]. Qed.

Lemma on_dwarf_id s : on_dwarf (set_loc s.(cur).(dwarf).(loc)) s = s.
Proof. by destruct s as [? [[] ? ? ? ? ?]]. Qed.

Lemma apply_rule_plain fuel new_cfa i r s :
  rule_plain r → (i < length s.(cur).(dwarf).(loc))%nat →
  apply_rule fuel new_cfa (Z.of_nat i) r s =
    (Ok tt, on_dwarf (set_loc (alter (λ old, rule_loc new_cfa s.(cur).(uc) old r) i
                                 s.(cur).(dwarf).(loc))) s).
Proof.
  intros [Hne Hreg] Hi.
  assert (Ha : ∀ f, alter f i s.(cur).(dwarf).(loc) =
    <[i := f (default 0 (s.(cur).(dwarf).(loc) !! i))]> s.(cur).(dwarf).(loc)).
  { intros f. destruct (lookup_lt_is_Some_2 _ _ Hi) as [x Hx]. rewrite Hx.
    apply list_eq. intros j. destruct (decide (i = j)) as [<-|].
    - rewrite list_lookup_alter_eq, Hx, list_lookup_insert_eq by done. done.
    - by rewrite list_lookup_alter_ne, list_lookup_insert_ne. }
  rewrite Ha. unfold apply_rule, rule_loc. destruct (where_ r) eqn:E; [by apply put_loc_eval| |
    by apply put_loc_eval| |done].
  - rewrite list_insert_id; [by rewrite on_dwarf_id|].
    by destruct (lookup_lt_is_Some_2 _ _ Hi) as [x ->].
  - mred. rewrite dwarf_to_unw_regnum_id by auto. mred. by apply put_loc_eval.
Qed.

Lemma apply_rules_plain fuel rs new_cfa rows tl : ∀ n i s,
  rs.(rs_reg) = rows ++ tl → Forall rule_plain rows →
  (n + i = length rows)%nat → length s.(cur).(dwarf).(loc) = length rows →
  apply_rules n fuel rs new_cfa (Z.of_nat i) s =
    (Ok tt, on_dwarf (set_loc (take i s.(cur).(dwarf).(loc) ++
       zip_with (rule_loc new_cfa s.(cur).(uc)) (drop i s.(cur).(dwarf).(loc)) (drop i rows))) s).
Proof.
  induction n as [|n IH]; intros i s Hrs Hp Hn Hl.
  - cbn [apply_rules]. rewrite (drop_ge rows) by lia.
    replace (zip_with _ _ []) with (@nil Z) by (by destruct (drop i _)).
    rewrite app_nil_r, take_ge by lia. by rewrite on_dwarf_id.
  - cbn [apply_rules]. destruct (lookup_lt_is_Some_2 rows i) as [r Hr]; [lia|].
    mred. rewrite (aread_lookup _ i r) by (rewrite Hrs; by apply lookup_app_l_Some).
    rewrite apply_rule_plain; [|by eapply Forall_lookup_1|lia].
    replace (Z.of_nat i + 1) with (Z.of_nat (S i)) by lia.
    set (ls := s.(cur).(dwarf).(loc)) in *.
    set (f := λ old, rule_loc new_cfa (uc (cur s)) old r).
    rewrite IH; [|done|done|lia|by rewrite <- Hl; apply length_alter].
    rewrite on_dwarf_set_loc. do 3 f_equal.
    change (loc (dwarf (cur (on_dwarf (set_loc (alter f i ls)) s)))) with (alter f i ls).
    change (uc (cur (on_dwarf (set_loc (alter f i ls)) s))) with (uc (cur s)).
    destruct (lookup_lt_is_Some_2 ls i) as [x Hx]; [lia|].
    rewrite (drop_S ls x i Hx), (drop_S rows r i Hr). cbn [zip_with].
    rewrite (take_S_r (alter f i ls) i (f x)) by (by rewrite list_lookup_alter_eq, Hx).
    rewrite <- app_assoc. f_equal; [|cbn [app]; do 2 f_equal].
    + apply list_eq. intros j. destruct (decide (j < i)%nat).
      * rewrite !lookup_take_lt by lia. by rewrite list_lookup_alter_ne by lia.
      * rewrite !lookup_take_ge by lia. done.
    + apply list_eq. intros j. rewrite !lookup_drop. by rewrite list_lookup_alter_ne by lia.
Qed.

(** A row whose frame address is a register and an offset. *)
Record row_desc := RowDesc {
  rd_cfa_reg : Z;
  rd_cfa_off : Z;
  rd_rules : list dwarf_save_loc_t
}.

Definition row_ok (d : row_desc) : Prop :=
  length d.(rd_rules) = 17%nat ∧ Forall rule_plain d.(rd_rules) ∧ 0 ≤ d.(rd_cfa_reg) < 17.

(** The cursor of the caller: the locations the rules give from the frame
    address [c], and the return address [new_ip]. *)
Definition row_cursor (d : row_desc) (uc_ c new_ip : Z) (x : dwarf_cursor_t) : dwarf_cursor_t :=
  set_ip new_ip (set_cfa c (set_loc (zip_with (rule_loc c uc_) x.(loc) d.(rd_rules)) x)).

Lemma eval_cfa_reg fuel rs d w s base :
  rs.(rs_reg) = d.(rd_rules) ++ [SaveLoc DWARF_WHERE_REG d.(rd_cfa_reg); SaveLoc w d.(rd_cfa_off)] →
  row_ok d → lga_ok s.(mach) → readable s d.(rd_cfa_reg) →
  reg_value s d.(rd_cfa_reg) = Ok base →
  ∃ s', eval_cfa fuel rs s = (Ok (u64 (base + d.(rd_cfa_off))), s') ∧
        same_cursor s s' ∧ lga_ok s'.(mach).
Proof.
  intros Hrs (Hlen & _ & Hr) Hg Hrd Hb. unfold eval_cfa, get_dwarf. mred. rewrite Hrs.
  change DWARF_CFA_REG_COLUMN with (Z.of_nat 17). change DWARF_CFA_OFF_COLUMN with (Z.of_nat 18).
  rewrite (aread_lookup _ 17 (SaveLoc DWARF_WHERE_REG d.(rd_cfa_reg)))
    by (rewrite lookup_app_r by lia; by rewrite Hlen).
  cbn [where_ sl_val]. destruct (lookup_lt_is_Some_2 d.(rd_rules) 7) as [sp Hsp]; [lia|].
  change UNW_REG_SP with (Z.of_nat 7) at 1.
  rewrite (aread_lookup _ 7 sp) by (by apply lookup_app_l_Some).
  rewrite (aread_lookup _ 18 (SaveLoc w d.(rd_cfa_off)))
    by (rewrite lookup_app_r by lia; by rewrite Hlen).
  cbn [sl_val]. rewrite dwarf_to_unw_regnum_id by done. mred.
  destruct (Z.eqb_spec d.(rd_cfa_reg) UNW_REG_SP) as [E|E]; cbn [andb].
  - rewrite E in Hb. injection Hb as <-. rewrite E.
    case_bool_decide; by exists s.
  - destruct (unw_get_reg_ok s d.(rd_cfa_reg) base Hg Hr Hrd Hb) as (s' & E' & ? & ?).
    rewrite E'. by exists s'.
Qed.

Lemma cur_eq_dwarf (c : cursor) : set_dwarf c.(dwarf) c = c.
Proof. by destruct c. Qed.

(** [apply_reg_state] on a row without expressions. *)
Lemma apply_row fuel rs d w s base ra_loc new_ip :
  rs.(rs_reg) = d.(rd_rules) ++ [SaveLoc DWARF_WHERE_REG d.(rd_cfa_reg); SaveLoc w d.(rd_cfa_off)] →
  row_ok d → lga_ok s.(mach) → length s.(cur).(dwarf).(loc) = 17%nat →
  readable s d.(rd_cfa_reg) → reg_value s d.(rd_cfa_reg) = Ok base →
  let c := u64 (base + d.(rd_cfa_off)) in
  let x := row_cursor d s.(cur).(uc) c new_ip s.(cur).(dwarf) in
  aread x.(loc) x.(ret_addr_column) = Ok ra_loc →
  (ra_loc = 0 ∧ new_ip = 0 ∨
   PAGE_START ra_loc ≠ 0 ∧ load 8 s.(mach).(mem) ra_loc = Ok new_ip) →
  ∃ s', apply_reg_state fuel rs s =
      (if (new_ip =? s.(cur).(dwarf).(ip)) && (c =? s.(cur).(dwarf).(cfa)) then (Err UNW_EBADFRAME, s')
       else if s.(cur).(dwarf).(stash_frames) then tdep_stash_frame rs s' else (Ok tt, s')) ∧
    s'.(cur) = set_dwarf x s.(cur) ∧ s'.(mach).(mem) = s.(mach).(mem) ∧ lga_ok s'.(mach).
Proof.
  intros Hrs Hd Hg Hll Hrd Hb c x Hra Hip.
  destruct (eval_cfa_reg fuel rs d w s base Hrs Hd Hg Hrd Hb) as (s1 & E1 & [Hc1 Hm1] & Hg1).
  pose proof Hd as (Hlen & Hpl & _). unfold apply_reg_state, get_dwarf, upd_dwarf. mred.
  rewrite E1. fold c. change (Z.to_nat DWARF_NUM_PRESERVED_REGS) with 17%nat.
  pose proof (apply_rules_plain fuel rs c d.(rd_rules) _ 17 0 s1 Hrs Hpl ltac:(lia)
    ltac:(rewrite Hc1; lia)) as E2.
  change (Z.of_nat 0) with 0 in E2. rewrite E2. clear E2. rewrite !drop_0, take_0, Hc1. cbn [app].
  set (s2 := on_dwarf (set_cfa c) (on_dwarf (set_loc _) s1)).
  assert (Hcur2 : s2.(cur) = set_dwarf (set_ip s.(cur).(dwarf).(ip) x) s.(cur)).
  { unfold s2, on_dwarf, set_cur. cbn [cur set_dwarf dwarf]. by rewrite Hc1. }
  assert (Hm2 : s2.(mach) = s1.(mach)) by done.
  assert (Hd2 : s2.(cur).(dwarf) = set_ip s.(cur).(dwarf).(ip) x) by (by rewrite Hcur2).
  rewrite Hd2. change (loc (set_ip (ip (dwarf (cur s))) x)) with (loc x).
  change (ret_addr_column (set_ip (ip (dwarf (cur s))) x)) with (ret_addr_column x). rewrite Hra.
  assert (Hfin : ∀ s3, s3.(cur) = set_dwarf x s.(cur) → s3.(mach).(mem) = s.(mach).(mem) → lga_ok s3.(mach) →
    ∃ s', (if (s3.(cur).(dwarf).(ip) =? s.(cur).(dwarf).(ip)) && (s3.(cur).(dwarf).(cfa) =? s.(cur).(dwarf).(cfa))
           then λ s, (Err UNW_EBADFRAME, s)
           else if s3.(cur).(dwarf).(stash_frames) then tdep_stash_frame rs else λ s, (Ok (), s)) s3 =
      (if (new_ip =? s.(cur).(dwarf).(ip)) && (c =? s.(cur).(dwarf).(cfa)) then (Err UNW_EBADFRAME, s')
       else if s.(cur).(dwarf).(stash_frames) then tdep_stash_frame rs s' else (Ok tt, s')) ∧
      s'.(cur) = set_dwarf x s.(cur) ∧ s'.(mach).(mem) = s.(mach).(mem) ∧ lga_ok s'.(mach)).
  { intros s3 H3 Hm3 Hg3. exists s3. split; [|done]. rewrite H3. cbn [dwarf set_dwarf].
    change (ip x) with new_ip. change (cfa x) with c.
    change (stash_frames x) with (stash_frames (dwarf (cur s))).
    destruct (_ && _); [done|]. by destruct (stash_frames _). }
  unfold DWARF_IS_NULL_LOC. destruct Hip as [[-> Hnew]|[Hp Hl]].
  - cbn [Z.eqb]. apply Hfin; [|by rewrite <- Hm1|done].
    unfold on_dwarf, set_cur. cbn [cur]. rewrite Hd2, Hcur2. cbn [dwarf set_dwarf]. by subst new_ip.
  - destruct (Z.eqb_spec ra_loc 0) as [->|]; [by rewrite PAGE_START_0 in Hp|].
    destruct (dwarf_get_ok ra_loc s2 new_ip) as (s3 & E3 & [Hc3 Hm3] & Hg3);
      [by rewrite Hm2|done|by rewrite Hm2, Hm1|].
    rewrite E3. apply Hfin; [|by cbn [on_dwarf set_cur mach]; rewrite Hm3, Hm2|done].
    unfold on_dwarf, set_cur. cbn [cur]. rewrite Hc3, Hcur2. done.
Qed.

(** ** What a step leaves alone *)

(** A step leaves the address the description of the frame is for, the machine
    context of the cursor, and the memory. *)
Definition same_rest (s s' : ustate) : Prop :=
  s'.(cur).(frame_info).(virtual_address) = s.(cur).(frame_info).(virtual_address) ∧
  s'.(cur).(uc) = s.(cur).(uc) ∧ s'.(mach).(mem) = s.(mach).(mem).

#[export] Instance same_rest_preorder : PreOrder same_rest.
Proof.
  split; [by intros s|]. intros s1 s2 s3 (? & ? & ?) (? & ? & ?). split_and!; congruence.
Qed.

Lemma keeps_rest {A} (m : M ustate A) : keeps same_cursor m → keeps same_rest m.
Proof. apply keeps_weaken. intros s s' [H Hm]. unfold same_rest. by rewrite H. Qed.

Lemma keeps_upd_dwarf_rest f : keeps same_rest (upd_dwarf f).
Proof. by apply keeps_mod. Qed.

Lemma keeps_upd_cur_rest f :
  (∀ c, (f c).(frame_info).(virtual_address) = c.(frame_info).(virtual_address) ∧ (f c).(uc) = c.(uc)) →
  keeps same_rest (upd_cur f).
Proof. intros H. apply keeps_mod. intros s. destruct (H s.(cur)). by split_and!. Qed.
#[export] Hint Resolve keeps_rest keeps_upd_dwarf_rest : keeps.
#[export] Hint Extern 1 (keeps same_rest (upd_cur _)) => by apply keeps_upd_cur_rest : keeps.

Lemma keeps_put_loc_rest i l : keeps same_rest (put_loc i l).
Proof. unfold put_loc. keep. Qed.
#[export] Hint Resolve keeps_put_loc_rest : keeps.

Lemma keeps_apply_rules_rest n fuel rs c : ∀ i, keeps same_rest (apply_rules n fuel rs c i).
Proof. induction n as [|n IH]; intros i; cbn [apply_rules]; unfold apply_rule; keep. Qed.
#[export] Hint Resolve keeps_apply_rules_rest : keeps.

Lemma keeps_apply_reg_state_rest fuel rs : keeps same_rest (apply_reg_state fuel rs).
Proof. unfold apply_reg_state, tdep_stash_frame. keep. Qed.
#[export] Hint Resolve keeps_apply_reg_state_rest : keeps.

Lemma keeps_fall_back_rest : keeps same_rest fall_back.
Proof.
  unfold fall_back, unw_is_signal_frame, unw_handle_signal_frame, is_plt_entry, frame_chain, rbp_frame.
  keep.
Qed.

Lemma keeps_finish_rest prev_ip prev_cfa ret : keeps same_rest (finish_fall_back prev_ip prev_cfa ret).
Proof. unfold finish_fall_back. keep. Qed.
#[export] Hint Resolve keeps_fall_back_rest keeps_finish_rest : keeps.

Section step_rest.
Context {P : Type} `{!PoolOps P, !LinkerOps P} {SC : StringConstants}.

Definition same_rest_st (s s' : step_state P) : Prop := same_rest s.(st_u) s'.(st_u).

#[export] Instance same_rest_st_preorder : PreOrder same_rest_st.
Proof.
  split; [intros s; unfold same_rest_st; reflexivity|].
  intros s1 s2 s3 H1 H2. unfold same_rest_st in *. by etrans.
Qed.

Lemma keeps_on_u_rest {A} (f : M ustate A) : keeps same_rest f → keeps same_rest_st (on_u f).
Proof. intros Hf s. specialize (Hf s.(st_u)). unfold on_u, same_rest_st. by destruct (f (st_u s)). Qed.

Lemma keeps_on_fx_rest {A} (f : M (fde_state P) A) : keeps same_rest_st (on_fx f).
Proof. intros s. unfold on_fx, same_rest_st, same_rest. by destruct (f _). Qed.

Lemma keeps_on_st_pool_rest {A} (f : M P A) : keeps same_rest_st (on_st_pool f).
Proof. intros s. unfold on_st_pool, same_rest_st, same_rest. by destruct (f _). Qed.

Lemma keeps_upd_dw_rest f : keeps same_rest_st (upd_dw f).
Proof. apply keeps_on_u_rest, keeps_upd_dwarf_rest. Qed.
Hint Resolve keeps_on_u_rest keeps_on_fx_rest keeps_on_st_pool_rest keeps_upd_dw_rest : keeps.

Lemma keeps_unw_step_rest fuel ds : keeps same_rest_st (unw_step fuel ds).
Proof.
  unfold unw_step, dwarf_step, dwarf_find_save_locs, uncached_dwarf_find_save_locs, fetch_proc_info,
    create_state_record_for, parse_fde_of_cursor, put_unwind_info.
  keep; apply keeps_on_u_rest; auto with keeps.
Qed.

Lemma keeps_make_proc_info_rest fuel ds : keeps same_rest_st (dwarf_make_proc_info fuel ds).
Proof.
  unfold dwarf_make_proc_info, fetch_proc_info, put_unwind_info.
  keep; apply keeps_on_u_rest; auto with keeps.
Qed.
End step_rest.

(** ** The frames of a stack *)

Section walk.
Context {P : Type} `{!PoolOps P, !LinkerOps P} {SC : StringConstants}.
Context (fuel : nat) (ds : dyn_state).

(** The instruction pointer and the stack pointer of each frame [unw_step] reaches,
    to the last, and the state there. *)
Inductive stack_walk : step_state P → list (Z * Z) → step_state P → Prop :=
  | walk_end s r s' :
      try (unw_step fuel ds) s = (Ok r, s') →
      (match r with inl v => v ≤ 0 | inr _ => True end) → stack_walk s [] s'
  | walk_frame s v s1 frames s' :
      unw_step fuel ds s = (Ok v, s1) → 0 < v → stack_walk s1 frames s' →
      stack_walk s ((s1.(st_u).(cur).(dwarf).(ip), s1.(st_u).(cur).(dwarf).(cfa)) :: frames) s'.

(** Walking the stack writes nothing to memory. *)
Lemma stack_walk_mem s frames s' : stack_walk s frames s' → s'.(st_u).(mach).(mem) = s.(st_u).(mach).(mem).
Proof.
  induction 1 as [s r s' E _|s v s1 frames s' E _ _ IH].
  - pose proof (keeps_try _ _ (keeps_unw_step_rest fuel ds) s) as (_ & _ & H). by rewrite E in H.
  - pose proof (keeps_unw_step_rest fuel ds s) as (_ & _ & H). rewrite E in H. by rewrite IH.
Qed.
End walk.

Lemma try_ok {S A} (m : M S A) s a s' : m s = (Ok a, s') → try m s = (Ok (inl a), s').
Proof. unfold try. by intros ->. Qed.
