(* ===== verification/StepProps.v ===== *)
(** * Steps of a module with and without descriptions

    The composition of the search for the description, the parser and the
    fall-backs: what [unw_step] does at an address an FDE covers, and at one that
    none covers. *)
From S2P Require Export StepSpec.

(** ** Reading through the cursor *)

Lemma access_mem_ok l s v :
  lga_ok s.(mach) → PAGE_START l ≠ 0 → load 8 s.(mach).(mem) l = Ok v →
  ∃ s', access_mem l None s = (Ok v, s') ∧ same_cursor s s' ∧ lga_ok s'.(mach).
Proof.
  intros Hg Hp Hl. destruct (dwarf_get_ok l s v Hg Hp Hl) as (s' & E & ?).
  exists s'. split; [|done]. revert E. unfold dwarf_get, DWARF_IS_NULL_LOC, DWARF_IS_REG_LOC.
  destruct (Z.eqb_spec l 0) as [->|]; [by rewrite PAGE_START_0 in Hp|done].
Qed.

(** The states a routine that only reads goes through. *)
Definition read_only (s s' : ustate) : Prop := same_cursor s s' ∧ lga_ok s'.(mach).

(** A word the cursor can read. *)
Definition word_at (m : memory) (a v : Z) : Prop := PAGE_START a ≠ 0 ∧ load 8 m a = Ok v.

#[export] Instance word_at_dec m a v : Decision (word_at m a v).
Proof. unfold word_at. apply _. Defined.

Lemma read_word_ok l v s s0 :
  read_only s0 s → word_at s0.(mach).(mem) l v →
  ∃ s', access_mem l None s = (Ok v, s') ∧ read_only s0 s'.
Proof.
  intros [[Hc Hm] Hg] [Hp Hl]. rewrite <- Hm in Hl.
  destruct (access_mem_ok l s v Hg Hp Hl) as (s' & E & [Hc' Hm'] & Hg').
  exists s'. split; [done|]. split; [split; congruence|done].
Qed.

Lemma get_word_ok l v s s0 :
  read_only s0 s → word_at s0.(mach).(mem) l v →
  ∃ s', dwarf_get l s = (Ok v, s') ∧ read_only s0 s'.
Proof.
  intros [[Hc Hm] Hg] [Hp Hl]. rewrite <- Hm in Hl.
  destruct (dwarf_get_ok l s v Hg Hp Hl) as (s' & E & [Hc' Hm'] & Hg').
  exists s'. split; [done|]. split; [split; congruence|done].
Qed.

(** The code at [ip] is neither a signal trampoline, nor what follows a system
    call, nor a PLT entry. *)
Record plain_code (m : memory) (ip w0 w1 w2 b0 : Z) : Prop := {
  pc_w0 : word_at m ip w0;
  pc_w1 : word_at m (u64 (ip + 8)) w1;
  pc_w2 : word_at m (u64 (ip + 16)) w2;
  pc_b0 : word_at m (u64 (ip - 5)) b0;
  pc_trampoline : w0 ≠ 0x48006a10247c8d48;
  pc_syscall : Z.land b0 0xffffffffffffff ≠ 0x050fca89490000 ∧ Z.land b0 0xffffffffff ≠ 0x050fca8949;
  pc_plt : Z.land w0 0xffff ≠ 0x25ff
}.

Lemma plain_not_signal s w0 w1 w2 b0 :
  lga_ok s.(mach) → plain_code s.(mach).(mem) s.(cur).(dwarf).(ip) w0 w1 w2 b0 →
  s.(cur).(sigcontext_format) = X86_64_SCF_NONE →
  ∃ s', unw_is_signal_frame s = (Ok 0, s') ∧ read_only s s'.
Proof.
  intros Hg [H0 H1 H2 Hb Ht [Hs1 Hs2] _] Hsf. unfold unw_is_signal_frame, get_dwarf, upd_cur. mred.
  replace (set_cur _ s) with s
    by (destruct s as [? []]; unfold set_cur, set_sigcontext_format; simpl in *; by rewrite Hsf).
  assert (R : read_only s s) by (split; [reflexivity|done]). unfold try. mred.
  destruct (read_word_ok _ _ s s R H0) as (s1 & E1 & R1). rewrite E1.
  destruct (read_word_ok _ _ s1 s R1 H1) as (s2 & E2 & R2). rewrite E2.
  destruct (read_word_ok _ _ s2 s R2 H2) as (s3 & E3 & R3). rewrite E3.
  rewrite (proj2 (Z.eqb_neq _ _) Ht). cbn [andb]. mred.
  destruct (read_word_ok _ _ s3 s R3 Hb) as (s4 & E4 & R4). rewrite E4.
  rewrite (proj2 (Z.eqb_neq _ _) Hs1), (proj2 (Z.eqb_neq _ _) Hs2). by exists s4.
Qed.

Lemma plain_not_plt s s0 w0 w1 w2 b0 :
  read_only s0 s → plain_code s0.(mach).(mem) s.(cur).(dwarf).(ip) w0 w1 w2 b0 →
  ∃ s', is_plt_entry s = (Ok false, s') ∧ read_only s0 s'.
Proof.
  intros R [H0 H1 _ _ _ _ Hp]. unfold is_plt_entry, get_dwarf, try. mred.
  destruct (read_word_ok _ _ s s0 R H0) as (s1 & E1 & R1). rewrite E1.
  destruct (read_word_ok _ _ s1 s0 R1 H1) as (s2 & E2 & R2). rewrite E2.
  rewrite (proj2 (Z.eqb_neq _ _) Hp). by exists s2.
Qed.

(** ** The frame RBP points to *)

(** RBP holds [rbp], the address of a frame above the cursor: the words there are
    the caller's RBP and the return address. *)
Record rbp_chain (s : ustate) (rbp saved ra : Z) : Prop := {
  rc_loc : ∃ l, aread s.(cur).(dwarf).(loc) RBP = Ok l ∧ word_at s.(mach).(mem) l rbp;
  rc_saved : word_at s.(mach).(mem) rbp saved;
  rc_ra : word_at s.(mach).(mem) (u64 (rbp + 8)) ra;
  rc_above : s.(cur).(dwarf).(cfa) < rbp ≤ s.(cur).(dwarf).(cfa) + 0x4000;
  rc_cfa : is_u64 s.(cur).(dwarf).(cfa)
}.

(** The cursor of the frame above. *)
Definition chain_locs (rbp : Z) : list Z :=
  <[Z.to_nat RIP := u64 (rbp + 8)]> (<[Z.to_nat RBP := rbp]> all_unsaved).

Definition chain_cursor (rbp saved ra : Z) (c : cursor) : cursor :=
  set_frame_info (guessed_frame c.(frame_info))
    (set_dwarf (set_ip ra (set_ret_addr_column RIP (set_loc (chain_locs rbp)
       (set_cfa (u64 (c.(dwarf).(cfa) + u64 (saved - rbp))) c.(dwarf))))) c).

Lemma read_only_trans s1 s2 s3 : read_only s1 s2 → read_only s2 s3 → read_only s1 s3.
Proof. intros [H1 _] [H2 ?]. split; [by etrans|done]. Qed.

(** After a write to the cursor, the words in memory are still there. *)
Lemma get_word_mem l v s m :
  lga_ok s.(mach) → s.(mach).(mem) = m → word_at m l v →
  ∃ s', dwarf_get l s = (Ok v, s') ∧ read_only s s'.
Proof. intros Hg <- Hw. apply (get_word_ok l v s s); [by split|done]. Qed.

Lemma word_at_loc m l v : word_at m l v → l ≠ 0.
Proof. by intros [Hp _] ->. Qed.

Lemma rbp_frame_ok s rbp saved ra :
  lga_ok s.(mach) → rbp_chain s rbp saved ra →
  ∃ s', rbp_frame rbp s = (Ok (inl 0, rbp, u64 (rbp + 8)), s') ∧ lga_ok s'.(mach) ∧
    s'.(mach).(mem) = s.(mach).(mem) ∧
    s'.(cur) = set_frame_info (guessed_frame s.(cur).(frame_info))
      (set_dwarf (set_cfa (u64 (s.(cur).(dwarf).(cfa) + u64 (saved - rbp))) s.(cur).(dwarf)) s.(cur)).
Proof.
  intros Hg [(l & Hl & Hrbp) Hs _ Ha Hc]. unfold rbp_frame, get_dwarf, upd_cur, upd_dwarf, try. mred.
  destruct (get_word_mem rbp saved s _ Hg eq_refl Hs) as (s1 & E1 & [Hc1 Hm1] & Hg1). rewrite E1, Hc1.
  mred. cbn [orb]. rewrite (proj2 (Z.leb_gt _ _)) by lia.
  rewrite u64_small by (unfold is_u64 in *; lia). rewrite (proj2 (Z.ltb_ge _ _)) by lia. cbn [orb].
  set (s2 := set_cur _ s1).
  assert (Hc2 : s2.(cur) = set_frame_info (guessed_frame s.(cur).(frame_info)) s.(cur)) by done.
  destruct (unw_get_reg_ok s2 RBP rbp) as (s3 & E3 & [Hc3 Hm3] & Hg3).
  - done.
  - unfold RBP. lia.
  - intros _ l'. rewrite Hc2. intros Hl'. change (aread (loc (dwarf (cur s))) RBP = Ok l') in Hl'.
    rewrite Hl in Hl'. injection Hl' as <-. apply Hrbp.
  - unfold reg_value. cbn [Z.eqb Pos.eqb]. change (mem (mach s2)) with (mem (mach s1)).
    rewrite Hc2, Hm1. change (loc (dwarf (set_frame_info (guessed_frame (frame_info (cur s))) (cur s))))
      with (loc (dwarf (cur s))). rewrite Hl. mred.
    rewrite (proj2 (Z.eqb_neq _ _) (word_at_loc _ _ _ Hrbp)). apply Hrbp.
  - rewrite E3. mred. unfold load_word. rewrite Hm3. change (mem (mach s2)) with (mem (mach s1)).
    rewrite Hm1. destruct Hs as [Hp Hs]. rewrite Hs. eexists. split; [reflexivity|].
    split; [done|]. split; [exact (eq_trans Hm3 Hm1)|]. unfold on_dwarf, set_cur. cbn [cur].
    by rewrite Hc3, Hc2.
Qed.

Lemma get_loc_ok s i l : aread s.(cur).(dwarf).(loc) i = Ok l → get_loc i s = (Ok l, s).
Proof. intros H. unfold get_loc. mred. by rewrite H. Qed.

Lemma put_loc_ok s i l ls :
  awrite s.(cur).(dwarf).(loc) i l = Ok ls → put_loc i l s = (Ok tt, on_dwarf (set_loc ls) s).
Proof. intros H. unfold put_loc. mred. by rewrite H. Qed.

Lemma frame_chain_ok s rbp saved ra :
  lga_ok s.(mach) → rbp_chain s rbp saved ra → rbp ≠ 0 →
  ∃ s', frame_chain s = (Ok (inl 0), s') ∧ lga_ok s'.(mach) ∧
    s'.(mach).(mem) = s.(mach).(mem) ∧
    s'.(cur) = set_frame_info (guessed_frame s.(cur).(frame_info))
      (set_dwarf (set_loc (chain_locs rbp)
         (set_cfa (u64 (s.(cur).(dwarf).(cfa) + u64 (saved - rbp))) s.(cur).(dwarf))) s.(cur)).
Proof.
  intros Hg Hch Hne. pose proof Hch as [(l & Hl & Hrbp) Hs Hra Ha Hc]. unfold frame_chain. mred.
  rewrite (get_loc_ok s RBP l Hl).
  destruct (get_word_mem l rbp s _ Hg eq_refl Hrbp) as (s1 & E1 & [Hc1 Hm1] & Hg1). rewrite E1.
  rewrite (proj2 (Z.eqb_neq _ _) Hne).
  assert (Hch1 : rbp_chain s1 rbp saved ra).
  { split; rewrite ?Hc1, ?Hm1; [by exists l|done..]. }
  destruct (rbp_frame_ok s1 rbp saved ra Hg1 Hch1) as (s2 & E2 & Hg2 & Hm2 & Hc2). rewrite E2.
  unfold upd_dwarf. mred. set (s3 := on_dwarf (set_loc all_unsaved) s2).
  rewrite (put_loc_ok s3 RBP rbp (<[Z.to_nat RBP := rbp]> all_unsaved)) by reflexivity.
  rewrite (put_loc_ok _ RSP 0 (<[Z.to_nat RBP := rbp]> all_unsaved)) by reflexivity.
  rewrite (put_loc_ok _ RIP (u64 (rbp + 8)) (chain_locs rbp)) by reflexivity.
  eexists. split; [reflexivity|]. split; [done|]. split; [exact (eq_trans Hm2 Hm1)|].
  unfold s3, on_dwarf, set_cur. cbn [cur]. rewrite Hc2, Hc1. reflexivity.
Qed.

(** Without a description, and outside trampolines and PLT entries, the step
    goes to the frame RBP points to. *)
Lemma fall_back_chain s prev_ip prev_cfa w0 w1 w2 b0 rbp saved ra :
  lga_ok s.(mach) → s.(cur).(sigcontext_format) = X86_64_SCF_NONE →
  plain_code s.(mach).(mem) s.(cur).(dwarf).(ip) w0 w1 w2 b0 → rbp_chain s rbp saved ra →
  let c' := chain_cursor rbp saved ra (set_validate true s.(cur)) in
  ∃ s1 s2, fall_back s = (Ok (Some (inl 0)), s1) ∧
    finish_fall_back prev_ip prev_cfa (inl 0) s1 =
      (if (ra =? prev_ip) && (c'.(dwarf).(cfa) =? prev_cfa) then Err UNW_EBADFRAME else Ok 1, s2) ∧
    s2.(cur) = c' ∧ s2.(mach).(mem) = s.(mach).(mem) ∧ lga_ok s2.(mach).
Proof.
  intros Hg Hsf Hcode Hch c'. unfold fall_back, upd_cur. mred.
  set (s0 := set_cur (set_validate true s.(cur)) s).
  destruct (plain_not_signal s0 w0 w1 w2 b0 Hg Hcode Hsf) as (s1 & E1 & R1).
  rewrite E1. cbn [Z.eqb negb]. assert (Hc1 : s1.(cur) = s0.(cur)) by apply R1.
  destruct (plain_not_plt s1 s0 w0 w1 w2 b0 R1) as (s2 & E2 & R2); [by rewrite Hc1|]. rewrite E2.
  destruct R2 as [[Hc2 Hm2] Hg2]. pose proof Hch as [(l & Hl & Hrbp) Hs Hra Ha Hc].
  rewrite (get_loc_ok s2 RBP l) by (by rewrite Hc2). unfold DWARF_IS_NULL_LOC.
  rewrite (proj2 (Z.eqb_neq _ _) (word_at_loc _ _ _ Hrbp)).
  assert (Hch2 : rbp_chain s2 rbp saved ra).
  { split; rewrite ?Hc2, ?Hm2; [by exists l|done..]. }
  assert (Hne : rbp ≠ 0) by (by eapply word_at_loc).
  destruct (frame_chain_ok s2 rbp saved ra Hg2 Hch2 Hne) as (s3 & E3 & Hg3 & Hm3 & Hc3). rewrite E3.
  exists s3. unfold finish_fall_back, upd_dwarf, DWARF_IS_NULL_LOC. mred.
  set (s4 := on_dwarf (set_ret_addr_column RIP) s3).
  assert (Hl4 : s4.(cur).(dwarf).(loc) = chain_locs rbp) by (unfold s4, on_dwarf; simpl; by rewrite Hc3).
  rewrite (get_loc_ok s4 RBP rbp) by (by rewrite Hl4). rewrite (proj2 (Z.eqb_neq _ _) Hne).
  rewrite (get_loc_ok s4 RIP (u64 (rbp + 8))) by (by rewrite Hl4).
  rewrite (proj2 (Z.eqb_neq _ _) (word_at_loc _ _ _ Hra)). cbn [negb].
  destruct (get_word_mem (u64 (rbp + 8)) ra s4 s.(mach).(mem) Hg3) as (s5 & E5 & [Hc5 Hm5] & Hg5);
    [exact (eq_trans Hm3 Hm2)|done|]. rewrite E5. unfold get_dwarf. mred.
  set (s6 := on_dwarf (set_ip ra) s5).
  assert (Hc6 : s6.(cur) = c').
  { unfold s6, on_dwarf, set_cur. cbn [cur]. rewrite Hc5. unfold s4, on_dwarf, set_cur. cbn [cur].
    rewrite Hc3, Hc2. reflexivity. }
  exists s6. split; [reflexivity|]. rewrite Hc6. change (ip (dwarf c')) with ra.
  split; [by destruct (_ && _)|]. split; [done|]. split; [|done].
  change (mem (mach s6)) with (mem (mach s5)). rewrite Hm5.
  change (mem (mach s4)) with (mem (mach s3)). rewrite Hm3, Hm2. reflexivity.
Qed.

(** ** The search at a step *)

Section described.
Context {P : Type} `{!PoolOps P, !PoolLaws P, !LinkerOps P, !LinkerLaws P, !StringConstants}.
Implicit Types s : step_state P.

(** The address that is looked up for a cursor. *)
Definition lookup_ip (d : dwarf_cursor_t) : Z :=
  if d.(use_prev_instr) then u64 (d.(ip) - 1) else d.(ip).

(** No registered descriptor covers [ip]. *)
Definition undescribed (ds : dyn_state) (ip : Z) : Prop :=
  ∃ l, dyn_list ds l ∧ find_dynamic ds.(dl_store) ip l = None.

(** The pool has lent one more object than [live]. *)
Definition one_more (live : gset Z) (p : P) : Prop :=
  ∃ obj, obj ∉ live ∧ pool_ok p ({[obj]} ∪ live).

(** The cursor with another description. *)
Definition with_pi (pi : unw_proc_info_t) (u : ustate) : ustate := on_dwarf (set_pi pi) u.

Lemma in_range_zero ip : is_u64 ip → in_range ip zero_proc_info = false.
Proof. intros Hip. apply andb_false_iff. right. apply Z.ltb_ge. apply Hip. Qed.

(** What [fetch_proc_info] does when no descriptor covers the address: the
    search of the module decides, with its result inverted. *)
Lemma fetch_module fuel ds live s file sec es :
  let d := dwarf_of s in
  is_u64 (lookup_ip d) → undescribed ds (lookup_ip d) →
  module_search (P := P) s.(st_u).(mach).(mem) fuel (lookup_ip d) file sec es →
  pool_ok s.(st_pool) live →
  match fetch_proc_info fuel ds d.(ip) true s, find_fde (lookup_ip d) sec.(pe_addr) es with
  | (Err e, s'), Some _ => e = UNW_ENOINFO ∧ one_more live s'.(st_pool) ∧
      ∃ pi, s'.(st_u) = with_pi pi s.(st_u)
  | (Ok _, s'), None => s'.(st_pool) = s.(st_pool) ∧ (dwarf_of s').(pi_valid) = true ∧
      (dwarf_of s').(pi).(format) = UNW_INFO_FORMAT_TABLE ∧
      (dwarf_of s').(pi).(unwind_info) = UI_null
  | (Stop t, _), Some _ => t = Panic
  | _, _ => False
  end.
Proof.
  intros d Hip (l & Hl & Hdyn) Hms Hp. unfold fetch_proc_info. mred. fold d.
  change (if use_prev_instr d then u64 (ip d - 1) else ip d) with (lookup_ip d).
  rewrite andb_false_r. unfold upd_dw, on_u, upd_dwarf, on_fx, try. mred.
  rewrite (find_dynamic_spec P fuel _ ds l _ _ _ Hl), Hdyn. mred.
  rewrite bool_decide_eq_true_2 by done. cbn [negb].
  match goal with |- context [dwarf_find_proc_info ?f ?m ?i ?n ?x] =>
    pose proof (find_proc_info_spec live m f i n x file sec es Hms (in_range_zero _ Hip) Hp) as Hf;
    destruct (dwarf_find_proc_info f m i n x) as [[[]|e|t] fx] end; unfold inverted_result in Hf.
  - destruct Hf as (-> & Hpool & Hfm & Hui). unfold dwarf_of. cbn [st_u st_pool on_dwarf set_cur cur dwarf set_dwarf pi set_pi].
    rewrite Hfm, Hui. cbn [negb andb Z.eqb Pos.eqb]. change (format (fx_pi fx)) with (format (fx_pi fx)).
    change (UNW_INFO_FORMAT_TABLE =? UNW_INFO_FORMAT_DYNAMIC) with false.
    change (UNW_INFO_FORMAT_TABLE =? UNW_INFO_FORMAT_TABLE) with true. cbn [negb andb fx_pi].
    by split_and!.
  - destruct Hf as (-> & [x Hx] & Hf). rewrite Hx in *. destruct x as [[[[b fd] dci] st] ls].
    destruct Hf as (_ & obj & Hobj & Hp' & _). split; [done|]. split; [by exists obj|].
    by exists (fx_pi fx).
  - destruct Hf as (-> & [x Hx] & _). by rewrite Hx.
Qed.

(** [unw_step] up to the search. *)
Definition before_search (u : ustate) : ustate :=
  set_cur (set_sigcontext_format X86_64_SCF_NONE (set_validate true u.(cur))) u.

Lemma dwarf_step_err fuel ds s e s' :
  fetch_proc_info fuel ds (dwarf_of s).(ip) true s = (Err e, s') → dwarf_step fuel ds s = (Err e, s').
Proof.
  intros E. unfold dwarf_step, dwarf_find_save_locs, uncached_dwarf_find_save_locs. mred. by rewrite E.
Qed.

Lemma dwarf_step_stop fuel ds s t s' :
  fetch_proc_info fuel ds (dwarf_of s).(ip) true s = (Stop t, s') →
  dwarf_step fuel ds s = (Stop t, s').
Proof.
  intros E. unfold dwarf_step, dwarf_find_save_locs, uncached_dwarf_find_save_locs. mred. by rewrite E.
Qed.

Lemma dwarf_step_null_info fuel ds s s' :
  fetch_proc_info fuel ds (dwarf_of s).(ip) true s = (Ok tt, s') →
  (dwarf_of s').(pi_valid) = true → (dwarf_of s').(pi).(format) = UNW_INFO_FORMAT_TABLE →
  (dwarf_of s').(pi).(unwind_info) = UI_null →
  dwarf_step fuel ds s = (Stop (BadAddr 48), s').
Proof.
  intros E Hv Hf Hu. unfold dwarf_step, dwarf_find_save_locs, uncached_dwarf_find_save_locs. mred.
  rewrite E. unfold create_state_record_for, parse_fde_of_cursor. mred.
  rewrite Hv, Hf. cbn [negb orb Z.eqb Pos.eqb UNW_INFO_FORMAT_TABLE]. by rewrite Hu.
Qed.

(** The search of the module for the address of the cursor. *)
Definition step_search (fuel : nat) (ds : dyn_state) (live : gset Z) s (file : elf_file)
    (sec : Elf_progent) (es : list eh_entry) : Prop :=
  let a := lookup_ip (dwarf_of s) in
  is_u64 a ∧ undescribed ds a ∧ module_search (P := P) s.(st_u).(mach).(mem) fuel a file sec es ∧
  pool_ok s.(st_pool) live.

Definition step_finds s (sec : Elf_progent) (es : list eh_entry) :=
  find_fde (lookup_ip (dwarf_of s)) sec.(pe_addr) es.

Lemma unw_step_undescribed fuel ds live s file sec es :
  step_search fuel ds live s file sec es → step_finds s sec es = None →
  (unw_step fuel ds s).1 = Stop (BadAddr 48).
Proof.
  intros (Hip & Hdyn & Hms & Hp) Hnone. unfold step_finds in Hnone.
  pose proof (fetch_module fuel ds live (StepState (before_search s.(st_u)) s.(st_pool)) file sec es
    Hip Hdyn Hms Hp) as Hf.
  unfold unw_step, try, on_u, upd_cur. mred.
  match type of Hf with context [fetch_proc_info _ _ _ _ ?x] => set (s1 := x) in * end.
  change (lookup_ip (dwarf_of s1)) with (lookup_ip (dwarf_of s)) in Hf. rewrite Hnone in Hf.
  destruct (fetch_proc_info fuel ds _ true s1) as [[[]|e|t] s2] eqn:E; try done.
  destruct Hf as (_ & Hv & Hfm & Hu).
  match goal with |- context [dwarf_step fuel ds ?y] => change y with s1 end. by rewrite (dwarf_step_null_info fuel ds s1 s2).
Qed.

Lemma unw_step_described fuel ds live s file sec es x w0 w1 w2 b0 rbp saved ra :
  let d := dwarf_of s in
  let u := s.(st_u) in
  let c := u64 (d.(cfa) + u64 (saved - rbp)) in
  step_search fuel ds live s file sec es → step_finds s sec es = Some x →
  lga_ok u.(mach) → plain_code u.(mach).(mem) d.(ip) w0 w1 w2 b0 → rbp_chain u rbp saved ra →
  match unw_step fuel ds s with
  | (Stop t, _) => t = Panic
  | (r, s') =>
      r = (if (ra =? d.(ip)) && (c =? d.(cfa)) then Err UNW_EBADFRAME else Ok 1) ∧
      (dwarf_of s').(ip) = ra ∧ (dwarf_of s').(cfa) = c ∧ (dwarf_of s').(loc) = chain_locs rbp ∧
      s'.(st_u).(mach).(mem) = u.(mach).(mem) ∧ one_more live s'.(st_pool)
  end.
Proof.
  intros d u c (Hip & Hdyn & Hms & Hp) Hsome Hg Hcode Hch. unfold step_finds in Hsome.
  pose proof (fetch_module fuel ds live (StepState (before_search s.(st_u)) s.(st_pool)) file sec es
    Hip Hdyn Hms Hp) as Hf.
  unfold unw_step, try, on_u, upd_cur, get_dwarf. mred.
  match type of Hf with context [fetch_proc_info _ _ _ _ ?x] => set (s1 := x) in * end.
  change (lookup_ip (dwarf_of s1)) with (lookup_ip (dwarf_of s)) in Hf. rewrite Hsome in Hf.
  match goal with |- context [dwarf_step fuel ds ?y] => change y with s1 end.
  destruct (fetch_proc_info fuel ds _ true s1) as [[[]|e|t] s2] eqn:E; [done| |].
  2: { by rewrite (dwarf_step_stop fuel ds s1 t s2). }
  destruct Hf as (-> & Hone & pi' & Hu2). rewrite (dwarf_step_err fuel ds s1 _ s2) by done. mred.
  rewrite bool_decide_eq_true_2 by done. cbn [negb st_u st_pool].
  set (u3 := set_cur (set_validate _ (cur (st_u s2))) (st_u s2)).
  assert (Hm3 : u3.(mach) = u.(mach)) by (unfold u3, set_cur; by rewrite Hu2).
  assert (Hc3 : u3.(cur) = set_validate u.(cur).(validate) (with_pi pi' (before_search u)).(cur))
    by (unfold u3, set_cur; cbn [cur]; by rewrite Hu2).
  destruct (fall_back_chain u3 d.(ip) d.(cfa) w0 w1 w2 b0 rbp saved ra)
    as (u4 & u5 & E4 & E5 & Hc5 & Hm5 & Hg5).
  - by rewrite Hm3.
  - by rewrite Hc3.
  - rewrite Hm3, Hc3. exact Hcode.
  - destruct Hch. split; rewrite ?Hc3, ?Hm3; done.
  - rewrite E4. cbn [st_u st_pool]. mred.
    replace (ip (dwarf (cur u3))) with d.(ip) by (by rewrite Hc3).
    replace (cfa (dwarf (cur u3))) with d.(cfa) by (by rewrite Hc3). rewrite E5.
    unfold dwarf_of. cbn [st_u st_pool]. rewrite Hc5, Hm5, Hm3, Hc3.
    change (cfa (dwarf (chain_cursor _ _ _ _))) with c.
    destruct ((ra =? ip d) && (c =? cfa d)); cbv beta iota; by split_and!.
Qed.
End described.

(** ** Properties *)

(** C29. At an address of a module that an FDE covers, [unw_step] never uses the
    description it found: it goes to the frame RBP points to, moving the frame
    address by the distance between the two saved RBPs, and the object of the
    pool that holds the parsed CIE is not given back. *)
Theorem described_frame_leaks (P : Type) `(HP : PoolLaws P) `(HL : LinkerLaws P)
    (HS : StringConstants) (fuel : nat) (ds : dyn_state) (live : gset Z) (s : step_state P)
    (file : elf_file) (sec : Elf_progent) (es : list eh_entry)
    (x : Z * fde_desc * dwarf_cie_info_t * Z * Z) (w0 w1 w2 b0 rbp saved ra : Z) :
  let d := dwarf_of s in
  let u := s.(st_u) in
  let c := u64 (d.(cfa) + u64 (saved - rbp)) in
  step_search fuel ds live s file sec es → step_finds s sec es = Some x →
  lga_ok u.(mach) → plain_code u.(mach).(mem) d.(ip) w0 w1 w2 b0 → rbp_chain u rbp saved ra →
  match unw_step fuel ds s with
  | (Stop t, _) => t = Panic
  | (r, s') =>
      r = (if (ra =? d.(ip)) && (c =? d.(cfa)) then Err UNW_EBADFRAME else Ok 1) ∧
      (dwarf_of s').(ip) = ra ∧ (dwarf_of s').(cfa) = c ∧ (dwarf_of s').(loc) = chain_locs rbp ∧
      s'.(st_u).(mach).(mem) = u.(mach).(mem) ∧ one_more live s'.(st_pool)
  end.
Proof. by apply unw_step_described. Qed.

(** A cursor in the code of [example_module_mem], RBP saved at 0x8000. *)
Definition example_walk (ip : Z) : step_state bump :=
  StepState
    (on_dwarf (λ d, set_ip ip (set_cfa 0x8008 (set_loc (<[6%nat := 0x8000]> all_unsaved) d)))
       (UState (Machine example_module_mem [0; 0; 0; 0] 0) (zero_cursor 0)))
    (Bump 0x9000).

Definition no_descriptors : dyn_state := DynState 0 0 ∅.

Lemma no_descriptors_undescribed ip : undescribed no_descriptors ip.
Proof. exists []. split; [|reflexivity]. split; [reflexivity|constructor]. Qed.

Lemma example_step_search ip :
  0x1100 ≤ ip < 0x1200 →
  @step_search bump _ bump_laws example_linker example_linker_laws example_strings 10 no_descriptors ∅
    (example_walk ip) example_file (ElfProgent 0x1000 0x40 0x5040) example_section.
Proof.
  intros Hip. split; [change (is_u64 ip); unfold is_u64; lia|]. split; [apply no_descriptors_undescribed|].
  split; [apply (example_module_search ip Hip)|]. apply bump_start. lia.
Qed.

Lemma example_plain_code :
  plain_code example_module_mem 0x1130 0x9090909090909090 0x9090909090909090 0x9090909090909090
    0x9090909090909090.
Proof. split; [decided..|discriminate|split; discriminate|discriminate]. Qed.

Lemma example_chain : rbp_chain (example_walk 0x1130).(st_u) 0x8010 0x8050 0x1240.
Proof.
  split; [exists 0x8000; split; [reflexivity|decided]|decided..| |].
  - split; [reflexivity|discriminate].
  - split; [discriminate|reflexivity].
Qed.

Lemma described_frame_leaks_witness :
  match @unw_step bump _ example_linker example_strings 10 no_descriptors (example_walk 0x1130) with
  | (Ok r, s') => r = 1 ∧ (dwarf_of s').(ip) = 0x1240 ∧ (dwarf_of s').(cfa) = 0x8048 ∧
      one_more ∅ s'.(st_pool)
  | (Err _, _) => False
  | (Stop t, _) => t = Panic
  end.
Proof.
  pose proof (described_frame_leaks bump bump_laws example_linker_laws example_strings 10
    no_descriptors ∅ (example_walk 0x1130) example_file (ElfProgent 0x1000 0x40 0x5040)
    example_section (0x1020, example_fde, CieInfo 0x1019 0x1020 0 0 1 (u64 (-8)) 16 0x7777 0 0 0x1b 0x1b
         true false false, 0x1128, 0x1231) 0x9090909090909090 0x9090909090909090 0x9090909090909090
    0x9090909090909090 0x8010 0x8050 0x1240 (example_step_search 0x1130 ltac:(lia)) eq_refl
    ltac:(decided) example_plain_code example_chain) as Hs.
  destruct (unw_step 10 no_descriptors (example_walk 0x1130)) as [[r|e|t] s'].
  - destruct Hs as (Hr & Hip & Hc & _ & _ & Hp). injection Hr as ->. by split_and!.
  - destruct Hs as (Hr & _). discriminate Hr.
  - exact Hs.
Defined.

(** C30. At an address of a module that no FDE covers, the description claims a
    table and has no unwind information: the step dereferences a null pointer. *)
Theorem uncovered_ip_faults (P : Type) `(HP : PoolLaws P) `(HL : LinkerLaws P)
    (HS : StringConstants) (fuel : nat) (ds : dyn_state) (live : gset Z) (s : step_state P)
    (file : elf_file) (sec : Elf_progent) (es : list eh_entry) :
  step_search fuel ds live s file sec es → step_finds s sec es = None →
  (unw_step fuel ds s).1 = Stop (BadAddr 48).
Proof. apply unw_step_undescribed. Qed.

Lemma uncovered_ip_faults_witness :
  (@unw_step bump _ example_linker example_strings 10 no_descriptors (example_walk 0x1180)).1 =
    Stop (BadAddr 48).
Proof.
  apply (uncovered_ip_faults bump bump_laws example_linker_laws example_strings 10 no_descriptors ∅
    (example_walk 0x1180) example_file (ElfProgent 0x1000 0x40 0x5040) example_section).
  - apply example_step_search. lia.
  - vm_compute. reflexivity.
Defined.

(** The frame-pointer heuristic reads the word RBP points to a second time
    without the check that has just failed: an RBP inside the page of the null
    pointer faults. *)
Lemma frame_pointer_unvalidated (s : ustate) (l rbp : Z) :
  lga_ok s.(mach) → s.(cur).(validate) = true → aread s.(cur).(dwarf).(loc) RBP = Ok l →
  word_at s.(mach).(mem) l rbp → rbp ≠ 0 → PAGE_START rbp = 0 → s.(mach).(mem) !! rbp = None →
  (frame_chain s).1 = Stop (BadAddr rbp).
Proof.
  intros Hg Hv Hl Hw Hne Hp Hm. unfold frame_chain. mred. rewrite (get_loc_ok s RBP l Hl).
  destruct (get_word_mem l rbp s _ Hg eq_refl Hw) as (s1 & E1 & [Hc1 Hm1] & Hg1). rewrite E1.
  rewrite (proj2 (Z.eqb_neq _ _) Hne). unfold rbp_frame, get_dwarf, upd_cur, try. mred.
  rewrite (dwarf_get_null_page rbp s1) by (done || by rewrite Hc1). mred.
  set (s2 := set_cur _ s1).
  destruct (unw_get_reg_ok s2 RBP rbp) as (s3 & E3 & [Hc3 Hm3] & Hg3).
  - done.
  - unfold RBP. lia.
  - intros _ l' Hl'. change (aread (loc (dwarf (cur s1))) RBP = Ok l') in Hl'.
    rewrite Hc1, Hl in Hl'. injection Hl' as <-. apply Hw.
  - unfold reg_value. cbn [Z.eqb Pos.eqb]. change (loc (dwarf (cur s2))) with (loc (dwarf (cur s1))).
    change (mem (mach s2)) with (mem (mach s1)). rewrite Hc1, Hm1, Hl. mred.
    rewrite (proj2 (Z.eqb_neq _ _) (word_at_loc _ _ _ Hw)). apply Hw.
  - rewrite E3. mred. unfold load_word. rewrite Hm3. change (mem (mach s2)) with (mem (mach s1)).
    rewrite Hm1. unfold load; fold load. mred. by rewrite Hm.
Qed.

Lemma frame_pointer_unvalidated_witness :
  (frame_chain (UState (Machine (put_bytes ∅ 0x8000 (le_bytes 8 0x10)) [0; 0; 0; 0] 0)
     (set_validate true (example_walk 0).(st_u).(cur)))).1 = Stop (BadAddr 0x10).
Proof.
  apply (frame_pointer_unvalidated _ 0x8000);
    [decided|reflexivity|reflexivity|decided|discriminate|reflexivity|reflexivity].
Defined.

(** Applying a row whose rules have no expressions computes the cursor of
    the caller: the frame address from its register and offset, every location
    from its rule (a rule that names another register gives the place of that
    register in the machine context, not where the cursor has it saved), and the
    instruction pointer from the location of the return address; if neither
    address changes the frame is rejected. *)
Lemma apply_reg_state_row (fuel : nat) (rs : dwarf_reg_state_t) (d : row_desc) (w : dwarf_where_t)
    (s : ustate) (base ra_loc new_ip : Z) :
  rs.(rs_reg) = d.(rd_rules) ++ [SaveLoc DWARF_WHERE_REG d.(rd_cfa_reg); SaveLoc w d.(rd_cfa_off)] →
  row_ok d → lga_ok s.(mach) → s.(cur).(dwarf).(stash_frames) = false →
  length s.(cur).(dwarf).(loc) = 17%nat →
  readable s d.(rd_cfa_reg) → reg_value s d.(rd_cfa_reg) = Ok base →
  let c := u64 (base + d.(rd_cfa_off)) in
  let x := row_cursor d s.(cur).(uc) c new_ip s.(cur).(dwarf) in
  aread x.(loc) x.(ret_addr_column) = Ok ra_loc →
  (ra_loc = 0 ∧ new_ip = 0 ∨
   PAGE_START ra_loc ≠ 0 ∧ load 8 s.(mach).(mem) ra_loc = Ok new_ip) →
  ∃ s', apply_reg_state fuel rs s =
      (if (new_ip =? s.(cur).(dwarf).(ip)) && (c =? s.(cur).(dwarf).(cfa))
       then Err UNW_EBADFRAME else Ok tt, s') ∧
    s'.(cur) = set_dwarf x s.(cur) ∧ s'.(mach).(mem) = s.(mach).(mem) ∧ lga_ok s'.(mach).
Proof.
  intros Hrs Hd Hg Hst Hll Hrd Hb c x Hra Hip.
  destruct (apply_row fuel rs d w s base ra_loc new_ip Hrs Hd Hg Hll Hrd Hb Hra Hip)
    as (s' & E & ?). exists s'. split; [|done]. rewrite E, Hst. by destruct (_ && _).
Qed.

(** The row of a function after [push %rbp; mov %rsp,%rbp]: the frame address is
    RBP + 16, RBP is saved below it and the return address below that. *)
Definition example_row : row_desc :=
  RowDesc RBP 16
    (<[16%nat := SaveLoc DWARF_WHERE_CFAREL (u64 (-8))]>
       (<[6%nat := SaveLoc DWARF_WHERE_CFAREL (u64 (-16))]>
          (replicate 17 (SaveLoc DWARF_WHERE_SAME 0)))).

Definition example_row_state : dwarf_reg_state_t :=
  RegState (example_row.(rd_rules) ++ [SaveLoc DWARF_WHERE_REG RBP; SaveLoc DWARF_WHERE_SAME 16])
    0 0 0 0 0 false false.

Definition example_row_cursor : ustate :=
  on_dwarf (set_ret_addr_column RIP) (example_walk 0x1130).(st_u).

Lemma apply_reg_state_row_witness :
  ∃ s', apply_reg_state 10 example_row_state example_row_cursor = (Ok tt, s') ∧
    s'.(cur).(dwarf).(ip) = 0x1240 ∧ s'.(cur).(dwarf).(cfa) = 0x8020 ∧
    aread s'.(cur).(dwarf).(loc) RBP = Ok 0x8010.
Proof.
  destruct (apply_reg_state_row 10 example_row_state example_row DWARF_WHERE_SAME example_row_cursor
    0x8010 0x8018 0x1240) as (s' & E & Hc & _).
  - reflexivity.
  - split; [reflexivity|]. split; [|unfold example_row, RBP; simpl; lia].
    repeat constructor; simpl; try discriminate.
  - split; [reflexivity|split; [discriminate|reflexivity]].
  - reflexivity.
  - reflexivity.
  - intros _ l. intros [= <-]. vm_compute. discriminate.
  - vm_compute. reflexivity.
  - vm_compute. reflexivity.
  - right. split; [vm_compute; discriminate|vm_compute; reflexivity].
  - exists s'. split; [exact E|]. rewrite Hc. split; [reflexivity|]. split; reflexivity.
Defined.

(** The step from 0x1130 goes on, to another frame. *)
Lemma unw_step_progress_witness :
  match @unw_step bump _ example_linker example_strings 10 no_descriptors (example_walk 0x1130) with
  | (Ok v, s') => v = 0 ∨ v = 1 ∧ ¬ same_pos_st (example_walk 0x1130) s'
  | _ => False
  end.
Proof.
  assert (E : (@unw_step bump _ example_linker example_strings 10 no_descriptors (example_walk 0x1130)).1
    = Ok 1) by (vm_compute; reflexivity).
  pose proof (@unw_step_progress bump _ bump_laws example_linker example_strings 10 no_descriptors)
    as Hs.
  specialize (Hs 1 (example_walk 0x1130)).
  destruct (unw_step 10 no_descriptors (example_walk 0x1130)) as [[r|e|t] s']; try discriminate E.
  injection E as ->. by apply Hs.
Defined.
