(* ===== verification/Described.v ===== *)
(** * A step through a registered description

    From the bytes of a table, of the FDE it leads to and of that FDE's CIE to
    the cursor of the caller: the composition of the lookup among the registered
    descriptors, of the binary search, of the two parsers, of the call-frame
    instructions and of the application of the row they give. *)
From S2P Require Export CfiSem StepProps.

(** ** The bytes that describe an address *)

(** The table of the descriptor [di] has the entry [b] for the address [a]. *)
Record table_finds (m : memory) (di : unw_dyn_info_t) (es : list (Z * Z)) (a b : Z) : Prop := {
  tf_format : di.(di_format) = UNW_INFO_FORMAT_REMOTE_TABLE;
  tf_table : table_at m (u_table_data di) es;
  tf_sorted : StronglySorted (λ x y : Z * Z, x.1 ≤ y.1) es;
  tf_size : u64 (u_table_len di * 8) / sizeof_table_entry = Z.of_nat (length es);
  tf_entry : ∃ e, last_before es (s32 (a - u_segbase di)) = Some e ∧ b = u64 (e.2 + u_segbase di)
}.

(** The newest descriptor that covers [a] leads to the FDE at [b]. *)
Definition leads_to (m : memory) (ds : dyn_state) (a b : Z) : Prop :=
  ∃ l x di es, dyn_list ds l ∧ find_dynamic ds.(dl_store) a l = Some (x, di) ∧
    table_finds m di es a b.

(** The FDE [fd] at [b], its CIE read as [dci], covers [a]; the programs of the
    two are [p1] and [p2]. *)
Record fde_covers (m : memory) (fuel : nat) (b a : Z) (fd : fde_desc) (dci : dwarf_cie_info_t)
    (start lsda_ : Z) (p1 p2 : list cfa_instr) : Prop := {
  fc_addr : is_u64 b;
  fc_bytes : bytes_at m b (fde_bytes fd);
  fc_valid : eh_valid m fuel b (EhFde fd dci start lsda_);
  fc_range : start ≤ a < u64 (start + fd_length fd);
  fc_cie : let x := fde_cie b fd dci in prog_at m x.(cie_instr_start) x.(cie_instr_end) p1;
  fc_fde : let x := fde_cie b fd dci in prog_at m x.(fde_instr_start) x.(fde_instr_end) p2;
  fc_fuel : (length p1 < fuel)%nat ∧ (length p2 < fuel)%nat
}.

(** The rules the programs give for [ip]. *)
Definition fde_row (b ip : Z) (fd : fde_desc) (dci : dwarf_cie_info_t) (start : Z)
    (p1 p2 : list cfa_instr) : res dwarf_state_record_t :=
  let x := fde_cie b fd dci in
  sem_fde x.(code_align) x.(data_align) ip start x.(cie_instr_start) p1 x.(fde_instr_start) p2
    (StateRecord 0 0 (initial_reg_state DWARF_WHERE_UNDEF) (initial_reg_state DWARF_WHERE_SAME)).

(** ** The search *)

Section search.
Context {P : Type} `{!PoolOps P, !PoolLaws P}.

Lemma search_registered m fuel di es a b fd dci start lsda_ p1 p2 live (s : fde_state P) :
  di.(di_start_ip) ≤ a < di.(di_end_ip) → table_finds m di es a b →
  fde_covers m fuel b a fd dci start lsda_ p1 p2 → pool_ok s.(fx_pool) live →
  match dwarf_search_unwind_table fuel m a di true s with
  | (Ok _, s') => ∃ obj, obj ∉ live ∧ pool_ok s'.(fx_pool) ({[obj]} ∪ live) ∧
      s'.(fx_pi) = with_unwind_info obj (fde_cie b fd dci)
                     (fde_pi fd start lsda_ dci.(handler) s.(fx_pi))
  | (Err _, _) => False
  | (Stop t, _) => t = Panic
  end.
Proof.
  intros Hr [Hf Ht Hs Hn (e & He & ->)] [Ha Hm Hv Hc _ _ _] Hp.
  unfold dwarf_search_unwind_table, search_table. mred. rewrite Hf.
  change (UNW_INFO_FORMAT_REMOTE_TABLE =? UNW_INFO_FORMAT_REMOTE_TABLE) with true.
  change (UNW_INFO_FORMAT_REMOTE_TABLE =? UNW_INFO_FORMAT_TABLE) with false. cbn [orb negb].
  rewrite (proj2 (Z.leb_le _ _)), (proj2 (Z.ltb_lt _ _)) by lia. cbn [andb negb].
  destruct (unw_lookup_entry m (u_table_data di) (u64 (u_table_len di * 8)) _ es e Ht Hs Hn He)
    as (ea & -> & ->). mred. cbn [Z.eqb negb].
  match goal with |- context [dwarf_extract_proc_info_from_fde fuel m true 0 ?x] =>
    pose proof (extract_again m fuel (u64 (e.2 + u_segbase di)) fd dci start lsda_ s.(fx_pi) live x
      Ha Hm Hv Hp ltac:(done) eq_refl) as Hx;
    destruct (dwarf_extract_proc_info_from_fde fuel m true 0 x) as [[[]|er|t] s'] end; [|done..].
  destruct Hx as (obj & Hobj & Hp' & Hpi). rewrite Hpi.
  change (start_ip _) with start. change (end_ip _) with (u64 (start + fd_length fd)).
  rewrite (proj2 (Z.ltb_ge _ _)), (proj2 (Z.leb_gt _ _)) by lia. by exists obj.
Qed.
End search.

(** ** The description in the cursor *)

Section describe.
Context {P : Type} `{!PoolOps P, !PoolLaws P, !LinkerOps P} {SC : StringConstants}.
Implicit Types s : step_state P.

(** The cursor once its description has been found. *)
Definition fetched (pi_ : unw_proc_info_t) (signal : bool) (d : dwarf_cursor_t) : dwarf_cursor_t :=
  set_use_prev_instr (negb signal) (set_pi_is_dynamic true (set_pi_valid true (set_pi pi_ d))).

(** The description is that of the FDE, its object lent by the pool. *)
Definition describes (obj : Z) (x : dwarf_cie_info_t) (start : Z) (pi_ : unw_proc_info_t) : Prop :=
  pi_.(format) = UNW_INFO_FORMAT_TABLE ∧ pi_.(unwind_info) = UI_cie obj x ∧ pi_.(start_ip) = start.

Lemma find_dynamic_covers st ip l x d :
  find_dynamic st ip l = Some (x, d) → d.(di_start_ip) ≤ ip < d.(di_end_ip).
Proof.
  induction l as [|y l IH]; [done|]. cbn [find_dynamic]. destruct (st !! y) as [d'|]; [|done].
  destruct (_ && _) eqn:E; [|done]. intros [= _ ->]. apply andb_prop in E as [H1 H2].
  apply Z.leb_le in H1. by apply Z.ltb_lt in H2.
Qed.

Lemma fetch_registered fuel ds live s b fd dci start lsda_ p1 p2 :
  let d := dwarf_of s in
  let m := s.(st_u).(mach).(mem) in
  let x := fde_cie b fd dci in
  leads_to m ds (lookup_ip d) b → fde_covers m fuel b (lookup_ip d) fd dci start lsda_ p1 p2 →
  pool_ok s.(st_pool) live →
  match fetch_proc_info fuel ds d.(ip) true s with
  | (Ok _, s') => ∃ obj pi_, obj ∉ live ∧ pool_ok s'.(st_pool) ({[obj]} ∪ live) ∧
      describes obj x start pi_ ∧ s'.(st_u) = on_dwarf (fetched pi_ x.(signal_frame)) s.(st_u)
  | (Err _, _) => False
  | (Stop t, _) => t = Panic
  end.
Proof.
  intros d m x (l & xd & di & es & Hl & Hdyn & Htf) Hfc Hp. unfold fetch_proc_info. mred. fold d.
  change (if use_prev_instr d then u64 (ip d - 1) else ip d) with (lookup_ip d).
  rewrite andb_false_r. unfold upd_dw, on_u, upd_dwarf, on_fx, try. mred.
  rewrite (find_dynamic_spec P fuel _ ds l _ _ _ Hl), Hdyn. mred.
  unfold unwi_extract_dynamic_proc_info. mred. pose proof (tf_format _ _ _ _ _ Htf) as Hf. rewrite Hf.
  change (UNW_INFO_FORMAT_REMOTE_TABLE =? UNW_INFO_FORMAT_DYNAMIC) with false.
  change (UNW_INFO_FORMAT_REMOTE_TABLE =? UNW_INFO_FORMAT_TABLE) with false.
  change (UNW_INFO_FORMAT_REMOTE_TABLE =? UNW_INFO_FORMAT_REMOTE_TABLE) with true. cbn [orb].
  match goal with |- context [dwarf_search_unwind_table fuel ?m' ?a' ?d' true ?y] =>
    pose proof (search_registered m fuel di es (lookup_ip d) b fd dci start lsda_ p1 p2 live y
      (find_dynamic_covers _ _ _ _ _ Hdyn) Htf Hfc Hp) as Hs;
    change (dwarf_search_unwind_table fuel m' a' d' true y)
      with (dwarf_search_unwind_table fuel m (lookup_ip d) di true y);
    destruct (dwarf_search_unwind_table fuel m (lookup_ip d) di true y) as [[[]|e|t] fx] end; [|done..].
  destruct Hs as (obj & Hobj & Hp' & Hpi). mred. rewrite bool_decide_eq_false_2 by done.
  cbn [negb]. unfold dwarf_of. cbn [st_u st_pool on_dwarf set_cur cur dwarf set_dwarf pi set_pi].
  rewrite Hpi. cbn [with_unwind_info set_unwind_info set_unwind_info_size set_format format unwind_info].
  change (UNW_INFO_FORMAT_TABLE =? UNW_INFO_FORMAT_DYNAMIC) with false.
  change (UNW_INFO_FORMAT_TABLE =? UNW_INFO_FORMAT_TABLE) with true. cbn [negb andb].
  exists obj. eexists. split; [done|]. split; [exact Hp'|]. split; [|reflexivity]. done.
Qed.

(** The row of the cursor's instruction pointer, in the same way. *)
Lemma create_registered fuel live obj pi_ s b fd dci start lsda_ a p1 p2 row :
  let d := dwarf_of s in
  let x := fde_cie b fd dci in
  d.(pi_valid) = true → d.(pi) = pi_ → describes obj x start pi_ →
  fde_covers s.(st_u).(mach).(mem) fuel b a fd dci start lsda_ p1 p2 →
  fde_row b d.(ip) fd dci start p1 p2 = Ok row → pool_ok s.(st_pool) live →
  match create_state_record_for fuel d.(ip) s with
  | (Ok sr, s') => sr = row ∧ pool_ok s'.(st_pool) live ∧
      s'.(st_u) = on_dwarf (set_ret_addr_column x.(cie_ret_addr_column)) s.(st_u)
  | (Err _, _) => False
  | (Stop t, _) => t = Panic
  end.
Proof.
  intros d x Hv <- (Hf & Hui & Hst) [_ _ _ _ H1 H2 [Hf1 Hf2]] Hrow Hp.
  unfold create_state_record_for, parse_fde_of_cursor. mred. fold d. rewrite Hv, Hf. cbn [negb].
  change (UNW_INFO_FORMAT_TABLE =? UNW_INFO_FORMAT_TABLE) with true. cbn [orb]. mred. fold d.
  rewrite Hui. unfold upd_dw, on_u, upd_dwarf, on_st_pool. mred. cbn [st_u st_pool].
  set (sr0 := StateRecord 0 0 _ _).
  pose proof (parse_fde_spec P _ live (mem (mach (st_u s))) d.(pi) x d.(ip) sr0 s.(st_pool) p1 p2
    fuel H1 H2 ltac:(by split) Hp Hf1 Hf2) as Hx. cbv zeta in Hx.
  unfold fde_row in Hrow. cbv zeta in Hrow. fold x in Hrow |- *. rewrite Hst in Hx.
  fold sr0 in Hrow. rewrite Hrow in Hx. revert Hx.
  destruct (parse_fde fuel _ _ x _ sr0 (st_pool s)) as [[sr|e|t] p]; cbn [fst snd];
    intros [Hx|[Hx Hpool]]; try discriminate Hx.
  - injection Hx as ->. by split_and!.
  - by injection Hx as ->.
Qed.
End describe.

(** ** The step *)

Section step.
Context {P : Type} `{!PoolOps P, !PoolLaws P, !LinkerOps P} {SC : StringConstants}.
Implicit Types s : step_state P.

(** The row [rs] is [rd], and from the cursor [d] it gives the frame address [c],
    the locations [locs] and the return address [new_ip]. *)
Record row_gives (rs : dwarf_reg_state_t) (rd : row_desc) (column : Z) (u : ustate)
    (c : Z) (locs : list Z) (new_ip : Z) : Prop := {
  rg_row : ∃ w, rs.(rs_reg) =
    rd.(rd_rules) ++ [SaveLoc DWARF_WHERE_REG rd.(rd_cfa_reg); SaveLoc w rd.(rd_cfa_off)];
  rg_ok : row_ok rd;
  rg_readable : readable u rd.(rd_cfa_reg);
  rg_cfa : ∃ base, reg_value u rd.(rd_cfa_reg) = Ok base ∧ c = u64 (base + rd.(rd_cfa_off));
  rg_locs : locs = zip_with (rule_loc c u.(cur).(uc)) u.(cur).(dwarf).(loc) rd.(rd_rules);
  rg_ip : ∃ l, aread locs column = Ok l ∧
    (l = 0 ∧ new_ip = 0 ∨ PAGE_START l ≠ 0 ∧ load 8 u.(mach).(mem) l = Ok new_ip)
}.

(** A cursor whose addresses may be looked at. *)
Record cursor_ok (u : ustate) : Prop := {
  co_lga : lga_ok u.(mach);
  co_stash : u.(cur).(dwarf).(stash_frames) = false;
  co_locs : length u.(cur).(dwarf).(loc) = 17%nat
}.

(** The cursor of the caller. *)
Definition stepped (rd : row_desc) (c new_ip column : Z) (signal : bool)
    (pi_ : unw_proc_info_t) (k : cursor) : cursor :=
  set_dwarf (row_cursor rd k.(uc) c new_ip
    (set_ret_addr_column column (fetched pi_ signal k.(dwarf)))) k.

Lemma cur_on_dwarf f u : (on_dwarf f u).(cur) = set_dwarf (f u.(cur).(dwarf)) u.(cur).
Proof. done. Qed.

(** The release of a description found through a descriptor does nothing. *)
Lemma put_dynamic_info s :
  (dwarf_of s).(pi_valid) = true → (dwarf_of s).(pi_is_dynamic) = true →
  put_unwind_info s = (Ok tt, s).
Proof.
  intros Hv Hdyn. unfold put_unwind_info. mred. rewrite Hv, Hdyn. cbn [negb].
  unfold on_fx, unwi_put_dynamic_unwind_info, dwarf_put_unwind_info. mred.
  assert (Hid : StepState (on_dwarf (set_pi (pi (dwarf_of s))) (st_u s)) (st_pool s) = s)
    by (by destruct s as [[? [[] ? ? ? ? ?]] ?]).
  cbn [fx_pi]. fold (dwarf_of s).
  destruct (_ =? _); [|destruct (_ || _)]; cbn [fx_pi fx_pool]; by rewrite Hid.
Qed.

(** The DWARF step up to the release of the description. *)
Lemma save_locs_registered fuel ds live s b fd dci start lsda_ p1 p2 row rd c locs new_ip :
  let d := dwarf_of s in
  let x := fde_cie b fd dci in
  leads_to s.(st_u).(mach).(mem) ds (lookup_ip d) b →
  fde_covers s.(st_u).(mach).(mem) fuel b (lookup_ip d) fd dci start lsda_ p1 p2 →
  fde_row b d.(ip) fd dci start p1 p2 = Ok row → pool_ok s.(st_pool) live → cursor_ok s.(st_u) →
  row_gives row.(rs_current) rd x.(cie_ret_addr_column) s.(st_u) c locs new_ip →
  match dwarf_find_save_locs fuel ds s with
  | (Stop t, _) => t = Panic
  | (r, s') =>
      r = (if (new_ip =? d.(ip)) && (c =? d.(cfa)) then Err UNW_EBADFRAME else Ok tt) ∧
      one_more live s'.(st_pool) ∧ s'.(st_u).(mach).(mem) = s.(st_u).(mach).(mem) ∧
      lga_ok s'.(st_u).(mach) ∧
      ∃ obj pi_, describes obj x start pi_ ∧ s'.(st_u).(cur) =
        stepped rd c new_ip x.(cie_ret_addr_column) x.(signal_frame) pi_ s.(st_u).(cur)
  end.
Proof.
  intros d x Hlead Hcov Hrow Hp [Hg Hst Hll] [(w & Hrs) Hok Hrd (base & Hb & ->) Hlocs (l & Hl & Hip)].
  unfold dwarf_find_save_locs, uncached_dwarf_find_save_locs. mred. fold d.
  pose proof (fetch_registered fuel ds live s b fd dci start lsda_ p1 p2 Hlead Hcov Hp) as Hf.
  cbv zeta in Hf. fold d in Hf. fold x in Hf.
  destruct (fetch_proc_info fuel ds d.(ip) true s) as [[[]|e|t] s1]; [|done|done].
  destruct Hf as (obj & pi_ & Hobj & Hp1 & Hpi & Hu1).
  assert (Hd1 : dwarf_of s1 = fetched pi_ x.(signal_frame) d) by (unfold dwarf_of; by rewrite Hu1).
  pose proof (create_registered fuel ({[obj]} ∪ live) obj pi_ s1 b fd dci start lsda_ (lookup_ip d)
    p1 p2 row) as Hc. cbv zeta in Hc. rewrite Hd1, Hu1 in Hc. fold x in Hc.
  specialize (Hc eq_refl eq_refl Hpi Hcov Hrow Hp1). rewrite Hd1.
  destruct (create_state_record_for fuel (ip (fetched pi_ (signal_frame x) d)) s1)
    as [[sr|e|t] s2]; [|done|done].
  destruct Hc as (-> & Hp2 & Hu2). unfold on_u.
  set (u2 := on_dwarf (set_ret_addr_column (cie_ret_addr_column x))
               (on_dwarf (fetched pi_ (signal_frame x)) (st_u s))) in *.
  destruct (apply_row fuel row.(rs_current) rd w u2 base l new_ip Hrs Hok)
    as (u3 & E & Hc3 & Hm3 & Hg3); try done.
  { by rewrite Hlocs in Hl. }
  rewrite Hu2, E. change (stash_frames (dwarf (cur u2))) with (stash_frames d).
  change (stash_frames d = false) in Hst.
  rewrite Hst. change (ip (dwarf (cur u2))) with (ip d). change (cfa (dwarf (cur u2))) with (cfa d).
  assert (Hcur : u3.(cur) = stepped rd (u64 (base + rd_cfa_off rd)) new_ip
    (cie_ret_addr_column x) (signal_frame x) pi_ (cur (st_u s))).
  { rewrite Hc3. unfold u2. rewrite !cur_on_dwarf. reflexivity. }
  destruct (_ && _); mred.
  - split_and!; [done|by exists obj|done|done|]. by exists obj, pi_.
  - rewrite put_dynamic_info; [|by unfold dwarf_of; cbn [st_u]; rewrite Hcur..].
    split_and!; [done|by exists obj|done|done|]. by exists obj, pi_.
Qed.

Lemma row_gives_before rs rd column u c locs new_ip :
  row_gives rs rd column u c locs new_ip → row_gives rs rd column (before_search u) c locs new_ip.
Proof. by intros [? ? ? ? ? ?]; split. Qed.

(** What a step to the caller leaves. *)
Record caller_frame (u u' : ustate) (c : Z) (locs : list Z) (new_ip column : Z) (signal : bool)
    : Prop := {
  cf_dwarf : let d := u'.(cur).(dwarf) in
    d.(cfa) = c ∧ d.(loc) = locs ∧ d.(ip) = new_ip ∧ d.(ret_addr_column) = column ∧
    d.(use_prev_instr) = negb signal ∧ d.(stash_frames) = u.(cur).(dwarf).(stash_frames) ∧
    d.(eh_args) = u.(cur).(dwarf).(eh_args) ∧ d.(eh_valid_mask) = u.(cur).(dwarf).(eh_valid_mask);
  cf_cursor : u'.(cur).(uc) = u.(cur).(uc) ∧ u'.(cur).(validate) = u.(cur).(validate) ∧
    u'.(cur).(frame_info) = u.(cur).(frame_info);
  cf_mach : u'.(mach).(mem) = u.(mach).(mem) ∧ lga_ok u'.(mach)
}.

Lemma caller_frame_stepped u u' rd c locs new_ip column signal pi_ :
  u'.(cur) = stepped rd c new_ip column signal pi_ u.(cur) →
  locs = zip_with (rule_loc c u.(cur).(uc)) u.(cur).(dwarf).(loc) rd.(rd_rules) →
  u'.(mach).(mem) = u.(mach).(mem) → lga_ok u'.(mach) →
  caller_frame u u' c locs new_ip column signal.
Proof. intros Hc Hl Hm Hg. split; rewrite ?Hc; [|by split_and!|by split]. split_and!; by rewrite ?Hl. Qed.

(** The end of [unw_step]. *)
Lemma caller_frame_final u u' k c locs new_ip column signal :
  caller_frame (before_search u) u' c locs new_ip column signal →
  k.(validate) = u.(cur).(validate) → k.(uc) = u'.(cur).(uc) → k.(frame_info) = u'.(cur).(frame_info) →
  (∃ v, k.(dwarf) = set_pi_valid v u'.(cur).(dwarf)) →
  caller_frame u (set_cur k u') c locs new_ip column signal ∧
  ∀ a, caller_frame u (on_dwarf (set_ip a) (set_cur k u')) c locs a column signal.
Proof.
  intros [(? & ? & ? & ? & ? & ? & ? & ?) (? & _ & ?) [? ?]] Hv Hu Hf [w Hk].
  split; [|intros a]; (split; cbn [set_cur on_dwarf cur mach set_dwarf dwarf]; rewrite ?Hk);
    cbv zeta; split_and?; try done; etrans; (exact Hu || exact Hf || done).
Qed.

Lemma unw_step_registered fuel ds live s b fd dci start lsda_ p1 p2 row rd c locs new_ip rbp_loc :
  let u := s.(st_u) in
  let d := dwarf_of s in
  let x := fde_cie b fd dci in
  leads_to u.(mach).(mem) ds (lookup_ip d) b →
  fde_covers u.(mach).(mem) fuel b (lookup_ip d) fd dci start lsda_ p1 p2 →
  fde_row b d.(ip) fd dci start p1 p2 = Ok row → pool_ok s.(st_pool) live → cursor_ok u →
  row_gives row.(rs_current) rd x.(cie_ret_addr_column) u c locs new_ip →
  aread locs RBP = Ok rbp_loc →
  match unw_step fuel ds s with
  | (Stop t, _) => t = Panic
  | (r, s') => one_more live s'.(st_pool) ∧
      let stuck := (new_ip =? d.(ip)) && (c =? d.(cfa)) in
      r = (if stuck then Err UNW_EBADFRAME else Ok (if rbp_loc =? 0 then 0 else 1)) ∧
      caller_frame u s'.(st_u) c locs (if negb stuck && (rbp_loc =? 0) then 0 else new_ip)
        x.(cie_ret_addr_column) x.(signal_frame)
  end.
Proof.
  intros u d x Hlead Hcov Hrow Hp [Hg Hst Hll] Hrg%row_gives_before Hrbp.
  pose proof (save_locs_registered fuel ds live (StepState (before_search u) s.(st_pool)) b fd dci
    start lsda_ p1 p2 row rd c locs new_ip Hlead Hcov Hrow Hp ltac:(by split) Hrg) as H.
  cbv zeta in H. unfold unw_step, dwarf_step, try, on_u, upd_cur. mred.
  match type of H with context [dwarf_find_save_locs _ _ ?y] =>
    set (s1 := y) in *; match goal with |- context [dwarf_find_save_locs _ _ ?z] =>
      change z with s1 end end.
  destruct (dwarf_find_save_locs fuel ds s1) as [[[]|e|t] s2]; [| |done];
    destruct H as (Hr & Hone & Hm & Hg2 & obj & pi_ & _ & Hc2); fold x in Hc2;
    change (st_u s1) with (before_search u) in *;
    change (ip (dwarf_of s1)) with (ip d) in Hr; change (cfa (dwarf_of s1)) with (cfa d) in Hr;
    pose proof (caller_frame_stepped _ _ _ _ _ _ _ _ _ Hc2 (rg_locs _ _ _ _ _ _ _ Hrg) Hm Hg2) as Hcf;
    pose proof (λ k, caller_frame_final u s2.(st_u) k _ _ _ _ _ Hcf) as Hfin; cbv zeta;
    destruct (_ && _); try discriminate Hr.
  - unfold upd_dw, on_u, upd_dwarf, get_loc. mred. cbn [st_u st_pool].
    set (k := set_validate _ _). destruct (Hfin k) as [Hf1 Hf2]; [by try exists false..|].
    change (set_cur k (on_dwarf (set_pi_valid false) (st_u s2))) with (set_cur k (st_u s2)).
    change (loc (dwarf (cur (set_cur k (st_u s2))))) with (loc (dwarf (cur (st_u s2)))).
    destruct Hcf as [(_ & -> & _) _ _]. rewrite Hrbp. mred. unfold DWARF_IS_NULL_LOC.
    cbn [negb andb]. destruct (rbp_loc =? 0); (split; [exact Hone|split; [reflexivity|]]);
      [apply Hf2|exact Hf1].
  - injection Hr as ->. mred. set (k := set_validate _ _).
    destruct (Hfin k) as [Hf1 _]; [done..|by exists (pi_valid (dwarf k)); destruct (cur (st_u s2)) as [[]]|].
    by split_and!.
Qed.
End step.

(** ** A stack of registered procedures *)

Section stack.
Context (fuel : nat) (ds : dyn_state).

(** The cursor [u] is in a procedure with a description, which gives its caller. *)
Definition frame_described (u : ustate) (c : Z) (locs : list Z) (new_ip column : Z) (signal : bool)
    (rbp_loc : Z) : Prop :=
  let d := u.(cur).(dwarf) in
  ∃ b fd dci start lsda_ p1 p2 row rd,
    leads_to u.(mach).(mem) ds (lookup_ip d) b ∧
    fde_covers u.(mach).(mem) fuel b (lookup_ip d) fd dci start lsda_ p1 p2 ∧
    fde_row b d.(ip) fd dci start p1 p2 = Ok row ∧
    row_gives row.(rs_current) rd column u c locs new_ip ∧ aread locs RBP = Ok rbp_loc ∧
    column = (fde_cie b fd dci).(cie_ret_addr_column) ∧ signal = (fde_cie b fd dci).(signal_frame).

(** The caller is the cursor itself. *)
Definition stuck (u : ustate) (c new_ip : Z) : bool :=
  (new_ip =? u.(cur).(dwarf).(ip)) && (c =? u.(cur).(dwarf).(cfa)).

(** The descriptions lead from [u] through the frames listed, with instruction
    pointer and frame address, to one that is the last: its RBP is undefined, or
    it is its own caller. *)
Inductive described_stack : ustate → list (Z * Z) → Prop :=
  | stack_last u c locs new_ip column signal rbp_loc :
      frame_described u c locs new_ip column signal rbp_loc →
      stuck u c new_ip = true ∨ rbp_loc = 0 → described_stack u []
  | stack_caller u u' c locs new_ip column signal rbp_loc frames :
      frame_described u c locs new_ip column signal rbp_loc →
      stuck u c new_ip = false → rbp_loc ≠ 0 →
      caller_frame u u' c locs new_ip column signal → described_stack u' frames →
      described_stack u ((new_ip, c) :: frames).

(** What the descriptions depend on. *)
Record same_view (u u' : ustate) : Prop := {
  sv_mem : u'.(mach).(mem) = u.(mach).(mem);
  sv_uc : u'.(cur).(uc) = u.(cur).(uc);
  sv_ip : u'.(cur).(dwarf).(ip) = u.(cur).(dwarf).(ip);
  sv_cfa : u'.(cur).(dwarf).(cfa) = u.(cur).(dwarf).(cfa);
  sv_loc : u'.(cur).(dwarf).(loc) = u.(cur).(dwarf).(loc);
  sv_prev : u'.(cur).(dwarf).(use_prev_instr) = u.(cur).(dwarf).(use_prev_instr);
  sv_args : u'.(cur).(dwarf).(eh_args) = u.(cur).(dwarf).(eh_args);
  sv_mask : u'.(cur).(dwarf).(eh_valid_mask) = u.(cur).(dwarf).(eh_valid_mask)
}.

Lemma same_view_refl u : same_view u u.
Proof. by split. Qed.

(** Two callers of the same cursor. *)
Lemma caller_same_view u1 u2 v1 v2 c locs new_ip column signal :
  same_view u1 u2 → caller_frame u1 v1 c locs new_ip column signal →
  caller_frame u2 v2 c locs new_ip column signal → same_view v1 v2.
Proof.
  intros [] [(? & ? & ? & ? & ? & ? & ? & ?) (? & ? & ?) (? & ?)]
    [(? & ? & ? & ? & ? & ? & ? & ?) (? & ? & ?) (? & ?)].
  split; congruence.
Qed.

Lemma frame_described_view u u' c locs new_ip column signal rbp_loc :
  same_view u u' → frame_described u c locs new_ip column signal rbp_loc →
  frame_described u' c locs new_ip column signal rbp_loc.
Proof.
  intros [Hm Hu Hi Hc Hl Hp Ha Hk] (b & fd & dci & start & lsda_ & p1 & p2 & row & rd & Hld & Hcov & Hrow &
    [Hr Hok Hrd (base & Hb & Hcfa) Hlocs Hip] & Hrest).
  assert (Hlk : lookup_ip u'.(cur).(dwarf) = lookup_ip u.(cur).(dwarf))
    by (unfold lookup_ip; by rewrite Hp, Hi).
  exists b, fd, dci, start, lsda_, p1, p2, row, rd. rewrite Hm, Hlk, Hi.
  split_and!; try done; try apply Hrest. split; try done.
  - unfold readable. by rewrite Hl.
  - exists base. split; [|done]. revert Hb. unfold reg_value. by rewrite Hi, Hc, Hl, Hm, Ha, Hk.
  - by rewrite Hu, Hl.
  - by rewrite Hm.
Qed.

Lemma stuck_view u u' c new_ip : same_view u u' → stuck u' c new_ip = stuck u c new_ip.
Proof. intros []. unfold stuck. congruence. Qed.
End stack.

Section walk.
Context {P : Type} `{!PoolOps P, !PoolLaws P, !LinkerOps P} {SC : StringConstants}.
Context (fuel : nat) (ds : dyn_state).
Implicit Types s : step_state P.

(** The walk ends in a panic after some frames. *)
Inductive walk_panics : step_state P → Prop :=
  | panics_now s s' : unw_step fuel ds s = (Stop Panic, s') → walk_panics s
  | panics_later s v s' : unw_step fuel ds s = (Ok v, s') → 0 < v → walk_panics s' → walk_panics s.

Lemma walk_panics_step s v s' :
  unw_step fuel ds s = (Ok v, s') → walk_panics s → 0 < v ∧ walk_panics s'.
Proof. intros E. destruct 1 as [s s1 E1|s v1 s1 E1]; rewrite E1 in E; by simplify_eq. Qed.

Lemma step_described s live c locs new_ip column signal rbp_loc :
  frame_described fuel ds s.(st_u) c locs new_ip column signal rbp_loc →
  pool_ok s.(st_pool) live → cursor_ok s.(st_u) →
  match unw_step fuel ds s with
  | (Stop t, _) => t = Panic
  | (r, s') => one_more live s'.(st_pool) ∧
      let k := stuck s.(st_u) c new_ip in
      r = (if k then Err UNW_EBADFRAME else Ok (if rbp_loc =? 0 then 0 else 1)) ∧
      caller_frame s.(st_u) s'.(st_u) c locs (if negb k && (rbp_loc =? 0) then 0 else new_ip) column signal
  end.
Proof.
  intros (b & fd & dci & start & lsda_ & p1 & p2 & row & rd & Hld & Hcov & Hrow & Hrg & Hrbp & -> & ->) Hp Hok.
  by apply (unw_step_registered fuel ds live s b fd dci start lsda_ p1 p2 row rd c locs new_ip rbp_loc).
Qed.

Lemma described_locs u c locs new_ip column signal rbp_loc :
  cursor_ok u → frame_described fuel ds u c locs new_ip column signal rbp_loc → length locs = 17%nat.
Proof.
  intros [_ _ Hl] (b & fd & dci & start & lsda_ & p1 & p2 & row & rd & _ & _ & _ & [_ (Hr & _) _ _ -> _] & _).
  rewrite length_zip_with. lia.
Qed.

Lemma described_walk u frames : described_stack fuel ds u frames → ∀ s live,
  same_view u s.(st_u) → pool_ok s.(st_pool) live → cursor_ok s.(st_u) →
  walk_panics s ∨
  ∃ s' live', stack_walk fuel ds s frames s' ∧ pool_ok s'.(st_pool) live' ∧
    size live' = (size live + S (length frames))%nat.
Proof.
  induction 1 as [u c locs new_ip column signal rbp_loc Hfd Hend|
    u u' c locs new_ip column signal rbp_loc frames Hfd Hns Hrbp Hcf _ IH]; intros s live Hv Hp Hok;
    apply (frame_described_view _ _ _ _ _ _ _ _ _ _ Hv) in Hfd;
    pose proof (step_described s live _ _ _ _ _ _ Hfd Hp Hok) as Hs;
    destruct (unw_step fuel ds s) as [r s1] eqn:E.
  - assert (Hr : r = Stop Panic ∨ one_more live s1.(st_pool) ∧ (r = Ok 0 ∨ ∃ e, r = Err e)).
    { destruct r as [v|e|t]; [| |left; by subst]; right; destruct Hs as (? & Hr & _); (split; [done|]);
        [|by right; exists e]. rewrite (stuck_view _ _ _ _ Hv) in Hr. left.
      destruct (stuck u c new_ip), Hend as [Hend|Hend]; try discriminate; rewrite Hr; by subst. }
    destruct Hr as [-> | [(obj & Hobj & Hp') Hr]]; [left; by eapply panics_now|right].
    exists s1, ({[obj]} ∪ live). split_and!; [|done|rewrite size_union, size_singleton by set_solver; simpl; lia].
    destruct Hr as [-> | [e ->]].
    + eapply (walk_end fuel ds s (inl 0)); [unfold try; by rewrite E|done].
    + eapply (walk_end fuel ds s (inr e)); [unfold try; by rewrite E|done].
  - destruct r as [v|e|t]; [| |left; subst t; by eapply panics_now];
      destruct Hs as ((obj & Hobj & Hp') & Hr & Hcf'); rewrite (stuck_view _ _ _ _ Hv), Hns in Hr, Hcf';
      rewrite (proj2 (Z.eqb_neq rbp_loc 0)) in Hr, Hcf' by done; cbn in Hr, Hcf'; [|discriminate].
    injection Hr as ->.
    pose proof (caller_same_view _ _ _ _ _ _ _ _ _ Hv Hcf Hcf') as Hv'.
    pose proof (described_locs _ _ _ _ _ _ _ Hok Hfd) as Hll.
    pose proof Hcf' as [(Hc1 & Hl1 & Hi1 & _ & _ & Hs1 & _) _ [_ Hg1]].
    destruct (IH s1 ({[obj]} ∪ live) Hv' Hp') as [Hpan|(s' & live' & Hw & Hp2 & Hsz)].
    { split; [done| |by rewrite Hl1]. by rewrite Hs1; apply Hok. }
    + left. by eapply panics_later; [exact E|done|].
    + right. exists s', live'. split_and!; [|done|].
      * rewrite <- Hi1, <- Hc1. by eapply walk_frame; [exact E|done|].
      * rewrite Hsz, size_union, size_singleton by set_solver. simpl. lia.
Qed.
End walk.

(** ** Properties *)

(** C1. At an address that a registered descriptor covers, [unw_step] goes to the
    caller the call-frame instructions describe: from the bytes of the sorted
    table, of the FDE the last entry at or before the address leads to and of its
    CIE, it computes the row of the instruction pointer, the frame address, the
    location of every register and the return address; a frame that does not move
    is rejected, and one whose RBP is undefined is the last.  The object that holds
    the parsed CIE is never given back. *)
Theorem registered_frame_steps (P : Type) `(HP : PoolLaws P) `(HL : LinkerOps P)
    (HS : StringConstants) (fuel : nat) (ds : dyn_state) (live : gset Z) (s : step_state P)
    (b : Z) (fd : fde_desc) (dci : dwarf_cie_info_t) (start lsda_ : Z) (p1 p2 : list cfa_instr)
    (row : dwarf_state_record_t) (rd : row_desc) (c : Z) (locs : list Z) (new_ip rbp_loc : Z) :
  let u := s.(st_u) in
  let d := dwarf_of s in
  let x := fde_cie b fd dci in
  leads_to u.(mach).(mem) ds (lookup_ip d) b →
  fde_covers u.(mach).(mem) fuel b (lookup_ip d) fd dci start lsda_ p1 p2 →
  fde_row b d.(ip) fd dci start p1 p2 = Ok row → pool_ok s.(st_pool) live → cursor_ok u →
  row_gives row.(rs_current) rd x.(cie_ret_addr_column) u c locs new_ip →
  aread locs RBP = Ok rbp_loc →
  match unw_step fuel ds s with
  | (Stop t, _) => t = Panic
  | (r, s') => one_more live s'.(st_pool) ∧
      let stuck := (new_ip =? d.(ip)) && (c =? d.(cfa)) in
      r = (if stuck then Err UNW_EBADFRAME else Ok (if rbp_loc =? 0 then 0 else 1)) ∧
      caller_frame u s'.(st_u) c locs (if negb stuck && (rbp_loc =? 0) then 0 else new_ip)
        x.(cie_ret_addr_column) x.(signal_frame)
  end.
Proof. apply unw_step_registered. Qed.

(** The table at 0x2000, relative to 0x1000, leads from 0x1128 on to the FDE at
    0x1020; the stack holds the caller's RBP at 0x8000 and the return address at
    0x8008. *)
Definition example_entries : list (Z * Z) := [(0x100, 0x40); (0x128, 0x20); (0x180, 0x60)].

Definition example_described_mem : memory :=
  put_bytes (put_bytes (put_bytes example_eh_frame 0x2000 (example_entries ≫= entry_bytes))
    0x8000 (le_bytes 8 0x8050)) 0x8008 (le_bytes 8 0x1240).

Definition example_di : unw_dyn_info_t :=
  DynInfo 0 0 0x1100 0x1200 0 UNW_INFO_FORMAT_REMOTE_TABLE 0 0x1000 3 0x2000.

Definition example_registered : dyn_state :=
  snd (run_dyn_ops [Register 0x50] (DynState 0 0 {[0x50 := example_di]})).

(** After [push %rbp]: the frame address is still 0x8000. *)
Definition example_callee : step_state bump :=
  StepState
    (on_dwarf (λ d, set_ip 0x1130 (set_cfa 0x8000 (set_loc all_unsaved d)))
       (UState (Machine example_described_mem [0; 0; 0; 0] 0) (zero_cursor 0)))
    (Bump 0x9000).

Definition example_parsed_cie : dwarf_cie_info_t :=
  CieInfo 0x1019 0x1020 0 0 1 (u64 (-8)) 16 0x7777 0 0 0x1b 0x1b true false false.

Definition example_p1 : list cfa_instr := [I_def_cfa 7 8; I_offset 16 1; I_nop; I_nop].
Definition example_p2 : list cfa_instr :=
  [I_advance 1; I_def_cfa_offset 16; I_offset 6 2; I_nop; I_nop].

Definition example_described_row : row_desc :=
  RowDesc RSP 16
    (<[16%nat := SaveLoc DWARF_WHERE_CFAREL (u64 (-8))]>
       (<[6%nat := SaveLoc DWARF_WHERE_CFAREL (u64 (-16))]>
          (replicate 17 (SaveLoc DWARF_WHERE_SAME 0)))).

(** What an FDE at a concrete address covers, up to the range. *)
Ltac covered :=
  split; [decided|decided| | |cbv zeta; decided|cbv zeta; decided|simpl; lia];
  [split; [decided|]; split; [discriminate|]; split; [repeat split; vm_compute; reflexivity|];
   split; [intros pi; vm_compute; reflexivity|]; split; [reflexivity|];
   intros pi Hpi; vm_compute; reflexivity|].

Lemma example_leads_to : leads_to example_described_mem example_registered 0x1130 0x1020.
Proof.
  exists [0x50], 0x50. eexists. exists example_entries. split; [|split; [reflexivity|]].
  - split; [|decided]. split; [reflexivity|]. split; [discriminate|]. eexists.
    split; [reflexivity|]. split; reflexivity.
  - split; [reflexivity|decided|repeat constructor; simpl; lia|reflexivity|].
    eexists. split; [vm_compute; reflexivity|reflexivity].
Qed.

Lemma example_covers a :
  0x1128 ≤ a < 0x1168 →
  fde_covers example_described_mem 10 0x1020 a example_fde example_parsed_cie 0x1128 0x1231
    example_p1 example_p2.
Proof.
  intros Ha. covered. change (u64 (0x1128 + fd_length example_fde)) with 0x1168. exact Ha.
Qed.

Lemma registered_frame_steps_witness :
  match @unw_step bump _ example_linker example_strings 10 example_registered example_callee with
  | (Ok v, s') => v = 1 ∧ (dwarf_of s').(ip) = 0x1240 ∧ (dwarf_of s').(cfa) = 0x8010 ∧
      aread (dwarf_of s').(loc) RBP = Ok 0x8000
  | (Err _, _) => False
  | (Stop t, _) => t = Panic
  end.
Proof.
  destruct (fde_row 0x1020 0x1130 example_fde example_parsed_cie 0x1128 example_p1 example_p2)
    as [row|e|t] eqn:Hrow; [|vm_compute in Hrow; discriminate..].
  assert (Hreg : match fde_row 0x1020 0x1130 example_fde example_parsed_cie 0x1128 example_p1 example_p2 with
    | Ok row => row.(rs_current).(rs_reg) | _ => [] end =
    rd_rules example_described_row ++ [SaveLoc DWARF_WHERE_REG RSP; SaveLoc DWARF_WHERE_UNDEF 16])
    by (vm_compute; reflexivity).
  rewrite Hrow in Hreg.
  assert (Hrg : row_gives row.(rs_current) example_described_row 16 example_callee.(st_u) 0x8010
    (<[16%nat := 0x8008]> (<[6%nat := 0x8000]> all_unsaved)) 0x1240).
  { split; [by eexists| |by intros []|by eexists|reflexivity|].
    - split; [reflexivity|]. split; [|split; [discriminate|reflexivity]].
      repeat constructor; simpl; try discriminate.
    - exists 0x8008. split; [reflexivity|]. right. split; [vm_compute; discriminate|].
      vm_compute. reflexivity. }
  pose proof (registered_frame_steps bump bump_laws example_linker example_strings 10
    example_registered ∅ example_callee 0x1020 example_fde example_parsed_cie 0x1128 0x1231
    example_p1 example_p2 row example_described_row 0x8010 _ 0x1240 0x8000 example_leads_to
    (example_covers 0x1130 ltac:(lia)) Hrow (bump_start 0x9000 ltac:(lia))
    ltac:(split; [decided|reflexivity|reflexivity]) Hrg eq_refl) as Hs.
  destruct (unw_step 10 example_registered example_callee) as [[v|e|t] s']; [| |exact Hs].
  - destruct Hs as (_ & Hr & [(Hc & Hl & Hi & _) _ _]). injection Hr as ->.
    unfold dwarf_of. rewrite Hc, Hl, Hi. by split_and!.
  - destruct Hs as (_ & Hr & _). discriminate Hr.
Defined.

(** C2. Where the registered descriptions lead from the cursor through the frames
    listed to a last one, whose RBP is undefined or which is its own caller,
    repeated [unw_step] visits exactly those frames, in order, and ends there,
    unless a step panics; every step, the last one included, leaves one more
    object of the pool lent. *)
Theorem described_stack_walks (P : Type) `(HP : PoolLaws P) `(HL : LinkerOps P)
    (HS : StringConstants) (fuel : nat) (ds : dyn_state) (live : gset Z) (s : step_state P)
    (frames : list (Z * Z)) :
  described_stack fuel ds s.(st_u) frames → pool_ok s.(st_pool) live → cursor_ok s.(st_u) →
  walk_panics fuel ds s ∨
  ∃ s' live', stack_walk fuel ds s frames s' ∧ pool_ok s'.(st_pool) live' ∧
    size live' = (size live + S (length frames))%nat.
Proof. intros Hd. apply (described_walk fuel ds _ _ Hd), same_view_refl. Qed.

(** The caller returns to 0x1190, in the outermost procedure, whose FDE at 0x1060
    leaves RBP undefined. *)
Definition example_outer_fde : fde_desc :=
  FdeDesc 0x64 DW_EH_PE_sdata4 DW_EH_PE_pcrel false 0x118 0x40 true
    (PeItem DW_EH_PE_sdata4 DW_EH_PE_pcrel false 0x200) None [] [7; 6; 0; 0; 0; 0; 0].

Definition example_two_frames_mem : memory :=
  put_bytes (put_bytes (put_bytes example_described_mem 0x1060 (fde_bytes example_outer_fde))
    0x8008 (le_bytes 8 0x1190)) 0x8010 (le_bytes 8 0x1300).

Definition example_inner : step_state bump :=
  StepState
    (on_dwarf (λ d, set_ip 0x1130 (set_cfa 0x8000 (set_loc all_unsaved d)))
       (UState (Machine example_two_frames_mem [0; 0; 0; 0] 0) (zero_cursor 0)))
    (Bump 0x9000).

Definition example_outer_p2 : list cfa_instr := [I_undefined 6; I_nop; I_nop; I_nop; I_nop; I_nop].

Definition example_outer_row : row_desc :=
  RowDesc RSP 8
    (<[16%nat := SaveLoc DWARF_WHERE_CFAREL (u64 (-8))]>
       (<[6%nat := SaveLoc DWARF_WHERE_UNDEF 0]> (replicate 17 (SaveLoc DWARF_WHERE_SAME 0)))).

Lemma example_outer_covers :
  fde_covers example_two_frames_mem 10 0x1060 0x118f example_outer_fde example_parsed_cie 0x1180 0x1271
    example_p1 example_outer_p2.
Proof. covered. vm_compute. split; [discriminate|reflexivity]. Qed.

Lemma example_inner_covers :
  fde_covers example_two_frames_mem 10 0x1020 0x1130 example_fde example_parsed_cie 0x1128 0x1231
    example_p1 example_p2.
Proof. covered. vm_compute. split; [discriminate|reflexivity]. Qed.

Lemma example_two_lead_to a e :
  last_before example_entries (s32 (a - 0x1000)) = Some e → 0x1100 ≤ a < 0x1200 →
  leads_to example_two_frames_mem example_registered a (u64 (e.2 + 0x1000)).
Proof.
  intros He Ha. exists [0x50], 0x50, example_di, example_entries. split; [|split].
  - split; [|decided]. split; [reflexivity|]. split; [discriminate|]. eexists.
    split; [reflexivity|]. split; reflexivity.
  - cbn [find_dynamic]. change (example_registered.(dl_store) !! 0x50) with (Some example_di).
    cbn [di_start_ip di_end_ip example_di]. by rewrite (proj2 (Z.leb_le _ _)), (proj2 (Z.ltb_lt _ _)) by lia.
  - split; [reflexivity|decided|repeat constructor; simpl; lia|reflexivity|]. by exists e.
Qed.

(** The cursor of the caller, as the first step leaves it. *)
Definition example_outer : ustate :=
  on_dwarf (λ d, set_use_prev_instr true (set_ret_addr_column 16 (set_ip 0x1190 (set_cfa 0x8010
    (set_loc (<[16%nat := 0x8008]> (<[6%nat := 0x8000]> all_unsaved)) d))))) example_inner.(st_u).

Lemma example_inner_described :
  frame_described 10 example_registered example_inner.(st_u) 0x8010
    (<[16%nat := 0x8008]> (<[6%nat := 0x8000]> all_unsaved)) 0x1190 16 false 0x8000.
Proof.
  destruct (fde_row 0x1020 0x1130 example_fde example_parsed_cie 0x1128 example_p1 example_p2)
    as [row|e|t] eqn:Hrow; [|vm_compute in Hrow; discriminate..].
  exists 0x1020, example_fde, example_parsed_cie, 0x1128, 0x1231, example_p1, example_p2, row, example_described_row.
  split; [apply (example_two_lead_to 0x1130 (0x128, 0x20)); [reflexivity|lia]|].
  split; [apply example_inner_covers|]. split; [exact Hrow|]. split; [|by split_and!].
  vm_compute in Hrow. injection Hrow as <-. split; [by eexists| |by intros []|by eexists|reflexivity|].
  - split; [reflexivity|]. split; [|split; [discriminate|reflexivity]].
    repeat constructor; simpl; try discriminate.
  - exists 0x8008. split; [reflexivity|]. right. split; [vm_compute; discriminate|]. vm_compute. reflexivity.
Qed.

Lemma example_outer_described :
  frame_described 10 example_registered example_outer 0x8018
    (<[16%nat := 0x8010]> (<[6%nat := 0]> all_unsaved)) 0x1300 16 false 0.
Proof.
  destruct (fde_row 0x1060 0x1190 example_outer_fde example_parsed_cie 0x1180 example_p1 example_outer_p2)
    as [row|e|t] eqn:Hrow; [|vm_compute in Hrow; discriminate..].
  exists 0x1060, example_outer_fde, example_parsed_cie, 0x1180, 0x1271, example_p1, example_outer_p2, row,
    example_outer_row.
  split; [apply (example_two_lead_to 0x118f (0x180, 0x60)); [reflexivity|lia]|].
  split; [apply example_outer_covers|]. split; [exact Hrow|]. split; [|by split_and!].
  vm_compute in Hrow. injection Hrow as <-. split; [by eexists| |by intros []|by eexists|reflexivity|].
  - split; [reflexivity|]. split; [|split; [discriminate|reflexivity]].
    repeat constructor; simpl; try discriminate.
  - exists 0x8010. split; [reflexivity|]. right. split; [vm_compute; discriminate|]. vm_compute. reflexivity.
Qed.

Lemma example_described_stack :
  described_stack 10 example_registered example_inner.(st_u) [(0x1190, 0x8010)].
Proof.
  eapply (stack_caller _ _ _ example_outer 0x8010 _ 0x1190); [apply example_inner_described|
    reflexivity|discriminate|by repeat split|].
  by eapply stack_last; [apply example_outer_described|right].
Qed.

(** The bump pool never panics here: the walk is that of the descriptions. *)
Lemma described_stack_walks_witness :
  (walk_panics (P := bump) (LinkerOps0 := example_linker) (SC := example_strings) 10 example_registered
    example_inner → False) ∧
  ∃ s', @stack_walk bump _ example_linker example_strings 10 example_registered example_inner
    [(0x1190, 0x8010)] s'.
Proof.
  set (step := @unw_step bump _ example_linker example_strings 10 example_registered).
  assert (Hn : walk_panics (P := bump) (LinkerOps0 := example_linker) (SC := example_strings) 10
    example_registered example_inner → False).
  { assert (H : (step example_inner).1 = Ok 1 ∧ (step (step example_inner).2).1 = Ok 0)
      by (split; vm_compute; reflexivity). destruct H as [H1 H2].
    destruct (step example_inner) as [r1 s1] eqn:E1. cbn [fst snd] in H1, H2. subst r1.
    destruct (step s1) as [r2 s2] eqn:E2. cbn [fst] in H2. subst r2.
    intros Hw. destruct (walk_panics_step _ _ _ _ _ E1 Hw) as [_ Hw1].
    destruct (walk_panics_step _ _ _ _ _ E2 Hw1). lia. }
  split; [exact Hn|].
  destruct (described_stack_walks bump bump_laws example_linker example_strings 10 example_registered ∅
    example_inner [(0x1190, 0x8010)] example_described_stack (bump_start 0x9000 ltac:(lia))
    ltac:(split; [decided|reflexivity|reflexivity])) as [Hw|(s' & _ & Hw & _)].
  - destruct (Hn Hw).
  - by exists s'.
Defined.
