(* ===== verification/CachedStep.v ===== *)
(** * The step with the cache of register states

    The body of [dwarf_find_save_locs] below its first [return] ([Gparser.c]):
    the search of the cache for the row of the instruction pointer, and its entry
    there when it is new.  The compiled routine never gets to it; what is proved
    is that it would step the cursor in the same way, as long as the states in
    the cache are the rows of their addresses. *)
From S2P Require Export RsCache Described.

(** ** The routine *)

Section cached.
Context {P : Type} `{!PoolOps P, !LinkerOps P, !StringConstants}.

Record cached_state := CachedState { cs_as : unw_addr_space; cs_st : step_state P }.

Definition on_step {A} (f : M (step_state P) A) : M cached_state A := λ s,
  let '(r, st) := f s.(cs_st) in (r, CachedState s.(cs_as) st).

(** The cache is the one inside the address space. *)
Definition get_cache : M cached_state dwarf_rs_cache :=
  s ← get_st; mret s.(cs_as).(global_cache).
Definition upd_cache (c : dwarf_rs_cache) : M cached_state () :=
  mod_st (λ s, CachedState (set_global_cache c s.(cs_as)) s.(cs_st)).

(** [src/Gparser.c:852-853], [dwarf_find_save_locs] *)
Definition cache_search : M cached_state (option Z) :=
  s ← get_st;
  match get_rs_cache s.(cs_as) with
  | None => halt (BadAddr 0)
  | Some cache =>
      upd_cache cache;;
      '(rs, cache, d) ← lift (rs_lookup cache (dwarf_of s.(cs_st)));
      upd_cache cache;;
      on_step (upd_dw (λ _, d));;
      mret rs
  end.

(** [src/Gparser.c:880-880], [dwarf_find_save_locs] *)
Definition cache_release : M cached_state () :=
  s ← get_st;
  c ← lift (put_rs_cache s.(cs_as) s.(cs_as).(global_cache));
  upd_cache c.

(** [src/Gparser.c:856-859], [dwarf_find_save_locs] *)
Definition cache_hit (rs : Z) : M cached_state () :=
  c ← get_cache;
  b ← lift (aread c.(buckets) rs);
  on_step (upd_dw (λ d, set_use_prev_instr (negb b.(rs_signal_frame))
                          (set_ret_addr_column b.(rs_ret_addr_column) d))).

(** The description and the row of the cursor's instruction pointer.
    [src/Gparser.c:862-863], [dwarf_find_save_locs] *)
Definition describe (fuel : nat) (ds : dyn_state) : M (step_state P) dwarf_state_record_t :=
  s ← get_st;
  fetch_proc_info fuel ds (dwarf_of s).(ip) true;;
  s ← get_st;
  create_state_record_for fuel (dwarf_of s).(ip).

(** Of the row only what precedes [ip] is copied: the rules.
    [src/Gparser.c:869-874], [dwarf_find_save_locs] *)
Definition cache_enter (row : dwarf_reg_state_t) : M cached_state Z :=
  s ← get_st;
  '(rs, c) ← lift (rs_new s.(cs_as).(global_cache) (dwarf_of s.(cs_st)));
  c ← lift (upd_bucket rs (set_rs_reg row.(rs_reg)) c);
  c ← lift (upd_bucket (dwarf_of s.(cs_st)).(prev_rs) (set_rs_hint rs) c);
  upd_cache c;;
  b ← lift (aread c.(buckets) rs);
  on_step (upd_dw (λ d, set_prev_rs rs (set_hint b.(rs_hint) d)));;
  mret rs.

(** [src/Gparser.c:860-877], [dwarf_find_save_locs] *)
Definition cache_miss (fuel : nat) (ds : dyn_state) : M cached_state Z :=
  r ← on_step (try (describe fuel ds));
  match r with
  | inr e => cache_release;; fail e
  | inl sr =>
      rs ← cache_enter sr.(rs_current);
      on_step put_unwind_info;;
      mret rs
  end.

(** [tdep_reuse_frame] does nothing.
    [src/Gparser.c:843-887], [dwarf_find_save_locs] *)
Definition cached_find_save_locs (fuel : nat) (ds : dyn_state) : M cached_state () :=
  s ← get_st;
  if decide (s.(cs_as).(caching_policy) = UNW_CACHE_NONE)
  then on_step (uncached_dwarf_find_save_locs fuel ds)
  else
    r ← cache_search;
    rs ← match r with
         | Some rs => cache_hit rs;; mret rs
         | None => cache_miss fuel ds
         end;
    c ← get_cache;
    rs_copy ← lift (aread c.(buckets) rs);
    cache_release;;
    on_step (on_u (apply_reg_state fuel rs_copy)).
End cached.
Arguments cached_state : clear implicits.

(** ** Routines that do not look at a part of the state

    [agree g m m']: run from [g s], [m'] does what [m] does from [s], and leaves
    [g] of the state [m] leaves. *)
Section agree.
Context {S : Type} (g : S → S).

Definition agree {A} (m m' : M S A) : Prop := ∀ s, m' (g s) = (fst (m s), g (snd (m s))).

Lemma agree_ret {A} (a : A) : agree (mret a) (mret a).
Proof. done. Qed.
Lemma agree_fail {A} e : agree (fail e : M S A) (fail e).
Proof. done. Qed.
Lemma agree_halt {A} t : agree (halt t : M S A) (halt t).
Proof. done. Qed.
Lemma agree_lift {A} (r : res A) : agree (lift r) (lift r).
Proof. done. Qed.
Lemma agree_mod f f' : (∀ s, f' (g s) = g (f s)) → agree (mod_st f) (mod_st f').
Proof. intros H s. unfold mod_st. by rewrite H. Qed.

Lemma agree_bind {A B} (m m' : M S A) (k k' : A → M S B) :
  agree m m' → (∀ a, agree (k a) (k' a)) → agree (m ≫= k) (m' ≫= k').
Proof.
  intros Hm Hk s. unfold mbind, M_bind. rewrite Hm.
  destruct (m s) as [[a|e|t] s1]; [apply Hk|done..].
Qed.

Lemma agree_get {B} (k k' : S → M S B) :
  (∀ s, agree (k s) (k' (g s))) → agree (get_st ≫= k) (get_st ≫= k').
Proof. intros H s. apply H. Qed.

Lemma agree_try {A} (m m' : M S A) : agree m m' → agree (try m) (try m').
Proof. intros Hm s. unfold try. rewrite Hm. by destruct (m s) as [[a|e|t] s1]. Qed.
End agree.

Create HintDb agree.

(** Go down both programs at once; what they read from [s] and [g s] is the same
    by computation. *)
Ltac agree_step :=
  match goal with
  | |- agree _ (get_st ≫= _) _ => apply agree_get; intros ?
  | |- agree _ (mbind _ _) _ => apply agree_bind; [|intros ?]
  | |- agree _ (mret _) _ => apply agree_ret
  | |- agree _ (fail _) _ => apply agree_fail
  | |- agree _ (halt _) _ => apply agree_halt
  | |- agree _ (lift _) _ => apply agree_lift
  | |- agree _ (try _) _ => apply agree_try
  | |- agree _ (mod_st _) _ => apply agree_mod; intros ?; reflexivity
  | |- agree ?g (match ?x with _ => _ end) (match ?y with _ => _ end) =>
      change y with x; destruct x
  | |- agree ?g (if ?x then _ else _) (if ?y then _ else _) => change y with x; destruct x
  end.
Ltac agrees := cbv zeta; repeat first [solve [auto 2 with agree nocore] | agree_step].

(** ** The parts of the cursor the register rules do not look at *)

(** The description and the indices into the cache. *)
Record unseen := Unseen {
  us_pi : unw_proc_info_t; us_valid : bool; us_dynamic : bool; us_hint : Z; us_prev : Z
}.

Definition graft (x : unseen) (d : dwarf_cursor_t) : dwarf_cursor_t :=
  DwarfCursor d.(cfa) d.(ip) d.(args_size) d.(ret_addr_column) d.(eh_args) d.(eh_valid_mask)
    d.(loc) d.(stash_frames) d.(use_prev_instr) x.(us_valid) x.(us_dynamic) x.(us_pi)
    x.(us_hint) x.(us_prev).

Definition unseen_of (d : dwarf_cursor_t) : unseen :=
  Unseen d.(pi) d.(pi_valid) d.(pi_is_dynamic) d.(hint) d.(prev_rs).

Definition grafted (x : unseen) : ustate → ustate := on_dwarf (graft x).

Section graft.
Context (x : unseen).

Lemma agree_load_word a : agree (grafted x) (load_word a) (load_word a).
Proof. done. Qed.
Hint Resolve agree_load_word : agree.

Lemma agree_store_word a v : agree (grafted x) (store_word a v) (store_word a v).
Proof. intros u. unfold store_word. change (mach (grafted x u)) with (mach u). by destruct (store _ _ _ _). Qed.

Lemma agree_validate a : agree (grafted x) (on_mach (validate_mem a)) (on_mach (validate_mem a)).
Proof. intros u. unfold on_mach. change (mach (grafted x u)) with (mach u). by destruct (validate_mem _ _). Qed.
Hint Resolve agree_store_word agree_validate : agree.

Lemma agree_access_mem a w : agree (grafted x) (access_mem a w) (access_mem a w).
Proof. unfold access_mem. agrees. Qed.
Hint Resolve agree_access_mem : agree.

Lemma agree_get_loc i : agree (grafted x) (get_loc i) (get_loc i).
Proof. unfold get_loc. agrees. Qed.

Lemma agree_put_loc i l : agree (grafted x) (put_loc i l) (put_loc i l).
Proof. unfold put_loc. agrees. Qed.

Lemma agree_access_reg r w : agree (grafted x) (access_reg r w) (access_reg r w).
Proof. unfold access_reg. agrees. Qed.
Hint Resolve agree_get_loc agree_put_loc agree_access_reg : agree.

Lemma agree_dwarf_get l : agree (grafted x) (dwarf_get l) (dwarf_get l).
Proof. unfold dwarf_get. agrees. Qed.
Hint Resolve agree_dwarf_get : agree.

Lemma agree_unw_get_reg r : agree (grafted x) (unw_get_reg r) (unw_get_reg r).
Proof. unfold unw_get_reg, tdep_access_reg, access_eh_reg, access_loc. agrees. Qed.
Hint Resolve agree_unw_get_reg : agree.

(** *** Expressions *)

Definition grafted_e (s : expr_state) : expr_state := set_es_u (grafted x s.(es_u)) s.

Lemma agree_e_on_u {A} (f : M ustate A) :
  agree (grafted x) f f → agree grafted_e (Expr.on_u f) (Expr.on_u f).
Proof.
  intros Hf s. unfold Expr.on_u, grafted_e. cbn [es_u set_es_u]. rewrite Hf.
  by destruct (f (es_u s)).
Qed.

Lemma agree_on_addr {A} (f : memory → M Z A) : agree grafted_e (on_addr f) (on_addr f).
Proof. intros s. unfold on_addr. by destruct (f _ _). Qed.

Lemma agree_on_tmp {A} (f : memory → M Z A) a : agree grafted_e (on_tmp f a) (on_tmp f a).
Proof. done. Qed.

Lemma agree_slot i : agree grafted_e (slot i) (slot i).
Proof. intros s. unfold slot. change (stack (grafted_e s)) with (stack s). by destruct (aread _ i) as [[]| |]. Qed.
Hint Resolve agree_e_on_u agree_on_addr agree_on_tmp agree_slot : agree.

Lemma agree_pop : agree grafted_e pop pop.
Proof. unfold pop. agrees. Qed.
Hint Resolve agree_pop : agree.

Lemma agree_push_of v v' : agree grafted_e v v' → agree grafted_e (push_of v) (push_of v').
Proof. intros Hv. unfold push_of. agrees. Qed.

Lemma agree_push v : agree grafted_e (push v) (push v).
Proof. apply agree_push_of. agrees. Qed.

Lemma agree_pick n : agree grafted_e (pick n) (pick n).
Proof. unfold pick. agrees. Qed.
Hint Resolve agree_push agree_pick : agree.

Lemma agree_expr_switch op : agree grafted_e (expr_switch op) (expr_switch op).
Proof.
  unfold expr_switch, expr_lit, expr_breg, expr_reg, expr_const, expr_deref, expr_deref_size,
    expr_stack_op, expr_arith, expr_compare, expr_control.
  agrees; apply agree_push_of; agrees.
Qed.
Hint Resolve agree_expr_switch : agree.

Lemma agree_expr_loop end_ fuel : agree grafted_e (expr_loop fuel end_) (expr_loop fuel end_).
Proof.
  induction fuel as [|fuel IH]; [done|]. cbn [expr_loop]. unfold expr_fetch. agrees.
Qed.
Hint Resolve agree_expr_loop : agree.

Lemma agree_eval_location fuel a :
  agree (grafted x) (eval_location_expr fuel a) (eval_location_expr fuel a).
Proof.
  intros u. unfold eval_location_expr, dwarf_eval_expr. change (mach (grafted x u)) with (mach u).
  destruct (dwarf_read_uleb128 _ a) as [[len|e|t] a']; [|done..].
  set (m := get_st ≫= _). assert (H : agree grafted_e m m) by (unfold m; agrees).
  set (st := replicate (Z.to_nat MAX_EXPR_STACK_SIZE) None).
  specialize (H (ExprState u a' 0 st 0 0)).
  change (m (ExprState (grafted x u) a' 0 st 0 0) = (fst (m (ExprState u a' 0 st 0 0)),
    grafted_e (snd (m (ExprState u a' 0 st 0 0))))) in H. rewrite H.
  destruct (m (ExprState u a' 0 st 0 0)) as [[[v []]|e|t] s]; reflexivity.
Qed.
Hint Resolve agree_eval_location : agree.

(** *** The row *)

Lemma agree_get_dwarf {B} (k k' : dwarf_cursor_t → M ustate B) :
  (∀ d, agree (grafted x) (k d) (k' (graft x d))) →
  agree (grafted x) (get_dwarf ≫= k) (get_dwarf ≫= k').
Proof. intros H u. apply (H u.(cur).(dwarf)). Qed.

Ltac agrees_on_cursor :=
  repeat first
    [match goal with |- agree _ (get_dwarf ≫= _) _ => apply agree_get_dwarf; intros ? end
    |solve [auto 2 with agree nocore]|agree_step].

Lemma agree_eval_cfa fuel rs : agree (grafted x) (eval_cfa fuel rs) (eval_cfa fuel rs).
Proof. unfold eval_cfa. agrees_on_cursor. Qed.
Hint Resolve agree_eval_cfa : agree.

Lemma agree_apply_rules fuel rs c n : ∀ i,
  agree (grafted x) (apply_rules n fuel rs c i) (apply_rules n fuel rs c i).
Proof. induction n as [|n IH]; intros i; [done|]. cbn [apply_rules]. unfold apply_rule. agrees; apply IH. Qed.
Hint Resolve agree_apply_rules : agree.

Lemma agree_stash rs : agree (grafted x) (tdep_stash_frame rs) (tdep_stash_frame rs).
Proof. unfold tdep_stash_frame, upd_cur. agrees. Qed.
Hint Resolve agree_stash : agree.

(** Applying a row neither looks at the description nor at the indices. *)
Lemma agree_apply_reg_state fuel rs :
  agree (grafted x) (apply_reg_state fuel rs) (apply_reg_state fuel rs).
Proof.
  unfold apply_reg_state, upd_dwarf. cbv zeta. agrees_on_cursor.
Qed.
End graft.

(** ** The cache *)

(** What the search and the entry leave as it is. *)
Definition outer (c : dwarf_rs_cache) : Z * Z := (c.(rc_lock), c.(generation)).

Lemma upd_bucket_outer i f c c' : upd_bucket i f c = Ok c' → outer c' = outer c.
Proof. unfold upd_bucket. mred. destruct (aread _ i); [|done..]. by destruct (awrite _ _ _); intros [= <-]. Qed.

Lemma upd_hash_outer i x c c' : upd_hash i x c = Ok c' → outer c' = outer c.
Proof. unfold upd_hash. mred. by destruct (awrite _ _ _); intros [= <-]. Qed.

Lemma rs_unlink_outer rs idx fuel : ∀ c tmp prev c',
  rs_unlink fuel c rs idx tmp prev = Ok c' → outer c' = outer c.
Proof.
  induction fuel as [|fuel IH]; intros c tmp prev c'; [done|]. cbn [rs_unlink]. mred.
  destruct (aread _ tmp) as [b| |]; [|done..]. destruct (tmp =? rs).
  - destruct prev; [apply upd_bucket_outer|apply upd_hash_outer].
  - destruct (_ <=? _); [by intros [= ->]|apply IH].
Qed.

Lemma res_bind_ok {A B} (r : res A) (k : A → res B) b :
  (r ≫= k) = Ok b → ∃ a, r = Ok a ∧ k a = Ok b.
Proof. destruct r; [eauto|done..]. Qed.

Lemma rs_recycle_outer c i c' : rs_recycle c = Ok (i, c') → outer c' = outer c.
Proof.
  unfold rs_recycle. cbv zeta. intros (b & _ & H)%res_bind_ok.
  apply res_bind_ok in H as (c1 & H1%upd_bucket_outer & [= _ <-]). exact H1.
Qed.

Lemma rs_new_outer c cur i c' : rs_new c cur = Ok (i, c') → outer c' = outer c.
Proof.
  unfold rs_new. intros ([rs c1] & H1%rs_recycle_outer & H)%res_bind_ok.
  apply res_bind_ok in H as (b & _ & H). apply res_bind_ok in H as (c2 & H2 & H).
  apply res_bind_ok in H as (h & _ & H). apply res_bind_ok in H as (c3 & H3%upd_bucket_outer & H).
  apply res_bind_ok in H as (c4 & H4%upd_hash_outer & H).
  apply res_bind_ok in H as (c5 & H5%upd_bucket_outer & [= _ <-]).
  rewrite H5, H4, H3, <- H1. destruct (negb _).
  - apply res_bind_ok in H2 as (tmp & _ & H2). by eapply rs_unlink_outer.
  - by injection H2 as <-.
Qed.

Lemma rs_lookup_outer c cur r c' cur' : rs_lookup c cur = Ok (r, c', cur') → outer c' = outer c.
Proof.
  unfold rs_lookup. intros (b & _ & H)%res_bind_ok. destruct (cache_match _ _); [by injection H as _ <- _|].
  apply res_bind_ok in H as (idx & _ & H). destruct (_ <=? idx); [by injection H as _ <- _|].
  apply res_bind_ok in H as ([rs|] & _ & H); [|by injection H as _ <- _].
  apply res_bind_ok in H as (c1 & H1%upd_bucket_outer & [= _ <- _]). exact H1.
Qed.

(** The frames of the cache [c'] are those of [c], but in the bucket [x]. *)
Definition frames_but (x : nat) (c c' : dwarf_rs_cache) : Prop :=
  ∀ y b, y ≠ x → c.(buckets) !! y = Some b → frame_of <$> (c'.(buckets) !! y) = Some (frame_of b).

(** Entering a row. *)
Lemma cache_enter_spec c order cur regs :
  rs_inv c order → is_u64 cur.(ip) → cur.(ip) ≠ 0 → 0 ≤ cur.(prev_rs) < 128 →
  ∃ (x : nat) c1 c2 c3 b order', rs_new c cur = Ok (Z.of_nat x, c1) ∧
    upd_bucket (Z.of_nat x) (set_rs_reg regs) c1 = Ok c2 ∧
    upd_bucket cur.(prev_rs) (set_rs_hint (Z.of_nat x)) c2 = Ok c3 ∧
    (x < 128)%nat ∧ rs_inv c3 order' ∧ c3.(buckets) !! x = Some b ∧
    frame_of b = (regs, cur.(ip), cur.(ret_addr_column), true, false) ∧ 0 ≤ b.(rs_hint) < 128 ∧
    frames_but x c c3 ∧ outer c3 = outer c.
Proof.
  intros Hinv Hu Hip Hp.
  destruct (rs_new_spec c order cur Hinv Hu Hip) as (x & rest & c1 & b1 & _ & E1 & Hinv1 & Hb1 &
    Hv & Hi & Hra & Hsf & Hh & Hs).
  pose proof (inv_buckets _ _ _ Hinv1) as Hl1.
  assert (Hx : (x < 128)%nat) by (apply lookup_lt_Some in Hb1; lia).
  set (c2 := set_buckets (alter (set_rs_reg regs) x c1.(buckets)) c1).
  set (p := Z.to_nat cur.(prev_rs)).
  set (c3 := set_buckets (alter (set_rs_hint (Z.of_nat x)) p c2.(buckets)) c2).
  assert (Hinv3 : rs_inv c3 (rest ++ [x])) by (apply rs_inv_alter; [done|]; by apply rs_inv_alter).
  assert (E2 : upd_bucket (Z.of_nat x) (set_rs_reg regs) c1 = Ok c2) by (apply upd_bucket_Ok; lia).
  assert (E3 : upd_bucket cur.(prev_rs) (set_rs_hint (Z.of_nat x)) c2 = Ok c3).
  { rewrite <- (Z2Nat.id cur.(prev_rs)) by lia. apply upd_bucket_Ok.
    unfold c2. cbn [set_buckets buckets]. rewrite length_alter. lia. }
  assert (Hb2 : c2.(buckets) !! x = Some (set_rs_reg regs b1))
    by (unfold c2; cbn [set_buckets buckets]; by rewrite list_lookup_alter_eq, Hb1).
  set (b3 := if decide (p = x) then set_rs_hint (Z.of_nat x) (set_rs_reg regs b1) else set_rs_reg regs b1).
  assert (Hb3 : c3.(buckets) !! x = Some b3).
  { unfold c3, b3. cbn [set_buckets buckets]. destruct (decide (p = x)) as [->|].
    - by rewrite list_lookup_alter_eq, Hb2.
    - by rewrite list_lookup_alter_ne. }
  exists x, c1, c2, c3, b3, (rest ++ [x]).
  do 3 (split; [done|]). split; [lia|]. do 2 (split; [done|]). split; [|split; [|split]].
  - unfold b3, frame_of. destruct (decide (p = x)); simpl; congruence.
  - unfold b3. destruct (decide (p = x)); simpl; lia.
  - intros y b Hy Hb. rewrite <- (Hs y b Hy Hb). unfold c3, c2. cbn [set_buckets buckets].
    destruct (decide (p = y)) as [->|].
    + rewrite list_lookup_alter_eq, list_lookup_alter_ne by done. by destruct (c1.(buckets) !! y).
    + by rewrite !list_lookup_alter_ne.
  - by rewrite (upd_bucket_outer _ _ _ _ E3), (upd_bucket_outer _ _ _ _ E2), (rs_new_outer _ _ _ _ E1).
Qed.

(** ** The parts of the step *)

(** Applying a row depends on its rules only. *)
Lemma apply_rules_reg fuel rs rs' c n : rs.(rs_reg) = rs'.(rs_reg) →
  ∀ i u, apply_rules n fuel rs c i u = apply_rules n fuel rs' c i u.
Proof.
  intros H. induction n as [|n IH]; intros i u; [done|]. cbn [apply_rules]. rewrite H. mred.
  destruct (aread _ i) as [r| |]; [|done..]. by destruct (apply_rule _ _ _ _ _) as [[[]| |] u1].
Qed.

Lemma apply_reg_state_reg fuel rs rs' u : rs.(rs_reg) = rs'.(rs_reg) →
  apply_reg_state fuel rs u = apply_reg_state fuel rs' u.
Proof.
  intros H. unfold apply_reg_state, get_dwarf. mred.
  assert (Hc : eval_cfa fuel rs u = eval_cfa fuel rs' u) by (unfold eval_cfa; by rewrite H).
  assert (Hs : tdep_stash_frame rs = tdep_stash_frame rs')
    by (unfold tdep_stash_frame, is_standard_frame; by rewrite H).
  rewrite Hc, Hs. destruct (eval_cfa fuel rs' u) as [[c|e|t] u1]; [|done..].
  by rewrite (apply_rules_reg fuel rs rs' c _ H).
Qed.

(** Everything of the cursor but the description, the return-address column and
    the mark of a signal frame. *)
Definition frozen (u : ustate) : machine * cursor :=
  (u.(mach), set_dwarf (graft (Unseen zero_proc_info false false u.(cur).(dwarf).(hint) u.(cur).(dwarf).(prev_rs))
     (set_ret_addr_column 0 (set_use_prev_instr false u.(cur).(dwarf)))) u.(cur)).

Section parts.
Context {P : Type} `{!PoolOps P, !LinkerOps P} {SC : StringConstants}.

Definition frozen_st (s s' : step_state P) : Prop := frozen s'.(st_u) = frozen s.(st_u).

#[export] Instance frozen_st_preorder : PreOrder frozen_st.
Proof. split; [by intros s|]. intros s1 s2 s3 H1 H2. unfold frozen_st in *. by rewrite H2. Qed.

Lemma frozen_on_fx {A} (f : M (fde_state P) A) : keeps frozen_st (on_fx f).
Proof. intros s. unfold on_fx, frozen_st. by destruct (f _). Qed.

Lemma frozen_on_st_pool {A} (f : M P A) : keeps frozen_st (on_st_pool f).
Proof. intros s. unfold on_st_pool, frozen_st. by destruct (f _). Qed.

Lemma frozen_upd_dw f : (∀ u, frozen (on_dwarf f u) = frozen u) → keeps frozen_st (upd_dw f).
Proof. intros H s. apply H. Qed.
#[local] Hint Resolve frozen_on_fx frozen_on_st_pool : keeps.
#[local] Hint Extern 1 (keeps frozen_st (upd_dw _)) => by apply frozen_upd_dw : keeps.

Lemma frozen_describe fuel ds : keeps frozen_st (describe (P := P) fuel ds).
Proof.
  unfold describe, fetch_proc_info, create_state_record_for, parse_fde_of_cursor. keep.
Qed.

Lemma frozen_put : keeps frozen_st (put_unwind_info (P := P)).
Proof. unfold put_unwind_info. keep. Qed.
End parts.

(** ** The lock *)

Lemma rs_inv_lock k c order : rs_inv c order → rs_inv (set_rc_lock k c) order.
Proof. by intros []; split. Qed.

(** The cache is up to date with its address space, which uses it. *)
Definition cache_in_use (as_ : unw_addr_space) : Prop :=
  as_.(caching_policy) ≠ UNW_CACHE_NONE ∧ as_.(global_cache).(generation) = as_.(cache_generation).

Lemma cache_acquired as_ :
  cache_in_use as_ → let g := as_.(global_cache) in
  ∃ k, get_rs_cache as_ = Some (set_rc_lock k g) ∧
    ∀ c, c.(rc_lock) = k →
      put_rs_cache (set_global_cache c as_) c = Ok (set_rc_lock g.(rc_lock) c).
Proof.
  intros [Hp Hg]. cbv zeta. unfold get_rs_cache, put_rs_cache, lock_acquire, lock_release.
  cbn [set_global_cache caching_policy]. destruct (caching_policy as_); [done| |].
  - exists (as_.(global_cache).(rc_lock) + 1). cbn [set_rc_lock generation]. rewrite Hg, Z.eqb_refl. split; [done|].
    intros c ->. do 2 f_equal. lia.
  - exists as_.(global_cache).(rc_lock). rewrite Hg, Z.eqb_refl. split; [by destruct (global_cache as_)|].
    intros c <-. by destruct c.
Qed.

(** ** The release of the description *)

Section release.
Context {P : Type} `{!PoolOps P}.

Lemma put_same (u u' : ustate) (p : P) r v q :
  (u'.(cur).(dwarf).(pi), u'.(cur).(dwarf).(pi_valid), u'.(cur).(dwarf).(pi_is_dynamic)) =
  (u.(cur).(dwarf).(pi), u.(cur).(dwarf).(pi_valid), u.(cur).(dwarf).(pi_is_dynamic)) →
  put_unwind_info (StepState u p) = (r, StepState v q) →
  ∃ pi', v = on_dwarf (set_pi pi') u ∧
         put_unwind_info (StepState u' p) = (r, StepState (on_dwarf (set_pi pi') u') q).
Proof.
  intros [= Hpi Hv Hd].
  assert (Hid : ∀ w : ustate, w = on_dwarf (set_pi (pi (dwarf (cur w)))) w)
    by (by intros [m [[] f g a x c]]).
  unfold put_unwind_info, upd_dw, on_u, upd_dwarf, on_fx, on_st_pool. mred. unfold dwarf_of.
  cbn [st_u st_pool]. rewrite Hv, Hd.
  assert (Hsame : ∀ r0 : res (), (r0, StepState u p) = (r, StepState v q) →
    ∃ pi', v = on_dwarf (set_pi pi') u ∧
           (r0, StepState u' p) = (r, StepState (on_dwarf (set_pi pi') u') q)).
  { intros r0 [= -> <- <-]. exists (pi (dwarf (cur u))). split; [apply Hid|]. rewrite <- Hpi.
    by rewrite <- Hid. }
  destruct (negb (pi_valid (dwarf (cur u)))); [apply Hsame|].
  destruct (pi_is_dynamic (dwarf (cur u))).
  { cbn [st_u st_pool]. rewrite Hpi. unfold unwi_put_dynamic_unwind_info. mred.
    destruct (_ =? _); [|destruct (_ || _)]; cbn [fx_pi fx_pool dwarf_put_unwind_info];
      intros [= <- <- <-]; by exists (pi (dwarf (cur u))). }
  rewrite Hpi. destruct (unwind_info _) as [|obj dci|di]; [apply Hsame| |apply Hsame].
  cbn [st_u st_pool]. destruct (pool_free obj p) as [[[]|e|t] p']; cbv beta iota; cbn [st_u st_pool].
  - intros [= <- <- <-]. exists (set_unwind_info UI_null (pi (dwarf (cur u)))). split; [done|].
    by rewrite <- Hpi.
  - intros [= <- <- <-]. exists (pi (dwarf (cur u))). split; [apply Hid|]. rewrite <- Hpi.
    by rewrite <- Hid.
  - intros [= <- <- <-]. exists (pi (dwarf (cur u))). split; [apply Hid|]. rewrite <- Hpi.
    by rewrite <- Hid.
Qed.
End release.

(** ** The routine *)

Section agreement.
Context {P : Type} `{!PoolOps P, !LinkerOps P} {SC : StringConstants}.
Implicit Types st : step_state P.

(** The state [b] of the cache is what the description gives for the cursor. *)
Definition row_right (fuel : nat) (ds : dyn_state) st (b : dwarf_reg_state_t) : Prop :=
  ∀ sr st1, describe fuel ds st = (Ok sr, st1) →
    b.(rs_reg) = sr.(rs_current).(rs_reg) ∧
    b.(rs_ret_addr_column) = (dwarf_of st1).(ret_addr_column) ∧
    (dwarf_of st1).(use_prev_instr) = negb b.(rs_signal_frame).

(** So is every state the cache has for the instruction pointer. *)
Definition coherent (fuel : nat) (ds : dyn_state) (c : dwarf_rs_cache) st : Prop :=
  ∀ (y : nat) b, c.(buckets) !! y = Some b → b.(rs_valid) = true → b.(rs_ip) = (dwarf_of st).(ip) →
    row_right fuel ds st b.

(** The state [b] is the row [sr] of [ip], described by [st1]. *)
Definition holds_row (b : dwarf_reg_state_t) (ip_ : Z) (sr : dwarf_state_record_t) (st1 : step_state P)
    : Prop :=
  b.(rs_valid) = true ∧ b.(rs_ip) = ip_ ∧ b.(rs_reg) = sr.(rs_current).(rs_reg) ∧
  b.(rs_ret_addr_column) = (dwarf_of st1).(ret_addr_column).

(** The cursor's indices are in the cache. *)
Definition indices_ok (d : dwarf_cursor_t) : Prop := 0 ≤ d.(hint) < 128 ∧ 0 ≤ d.(prev_rs) < 128.

Lemma apply_grafted fuel rs u u3 x :
  apply_reg_state fuel rs u = (Ok tt, u3) → apply_reg_state fuel rs (grafted x u) = (Ok tt, grafted x u3).
Proof. intros E. rewrite (agree_apply_reg_state x fuel rs u), E. done. Qed.

(** The register rules leave what they do not look at. *)
Lemma apply_unseen fuel rs u u3 :
  apply_reg_state fuel rs u = (Ok tt, u3) → unseen_of u3.(cur).(dwarf) = unseen_of u.(cur).(dwarf).
Proof.
  intros E. pose proof (apply_grafted _ _ _ _ (unseen_of u.(cur).(dwarf)) E) as E'.
  replace (grafted _ u) with u in E' by (by destruct u as [m [[] f g a x c]]).
  rewrite E in E'. injection E' as ->. by destruct u3 as [m [[] f g a x c]].
Qed.

(** The uncached routine, step by step. *)
Lemma uncached_steps fuel ds st st' :
  uncached_dwarf_find_save_locs fuel ds st = (Ok tt, st') →
  ∃ sr st1 u3, describe fuel ds st = (Ok sr, st1) ∧
    apply_reg_state fuel sr.(rs_current) st1.(st_u) = (Ok tt, u3) ∧
    put_unwind_info (StepState u3 st1.(st_pool)) = (Ok tt, st').
Proof.
  unfold uncached_dwarf_find_save_locs, describe. intros (s0 & s1 & [= <- <-] & H)%bind_ok.
  apply bind_ok in H as ([] & s1 & E1 & H). apply bind_ok in H as (s1' & s2 & [= <- <-] & H).
  apply bind_ok in H as (sr & s2 & E2 & H). apply bind_ok in H as ([] & s3 & E3 & H).
  exists sr, s2, s3.(st_u). split; [mred; by rewrite E1|].
  unfold on_u in E3. destruct (apply_reg_state fuel (rs_current sr) (st_u s2)) as [r u3].
  injection E3 as -> <-. by split.
Qed.

Lemma bind_eq {S A B} (m : M S A) (k : A → M S B) s a s1 :
  m s = (Ok a, s1) → (m ≫= k) s = k a s1.
Proof. intros E. unfold mbind, M_bind. by rewrite E. Qed.

Lemma cache_search_eq as_ st c0 r c1 d :
  get_rs_cache as_ = Some c0 → rs_lookup c0 (dwarf_of st) = Ok (r, c1, d) →
  cache_search (CachedState as_ st) =
    (Ok r, CachedState (set_global_cache c1 as_) (StepState (on_dwarf (λ _, d) st.(st_u)) st.(st_pool))).
Proof.
  intros E1 E2. unfold cache_search. mred. cbn [cs_as cs_st]. rewrite E1. unfold upd_cache. mred.
  by rewrite E2.
Qed.

Lemma cache_hit_eq as_ st rs b :
  aread as_.(global_cache).(buckets) rs = Ok b →
  cache_hit rs (CachedState as_ st) =
    (Ok tt, CachedState as_ (StepState
       (on_dwarf (λ d, set_use_prev_instr (negb b.(rs_signal_frame))
                         (set_ret_addr_column b.(rs_ret_addr_column) d)) st.(st_u)) st.(st_pool))).
Proof. intros E. unfold cache_hit, get_cache. mred. cbn [cs_as]. by rewrite E. Qed.

Lemma cache_release_eq as_ st c :
  put_rs_cache as_ as_.(global_cache) = Ok c →
  cache_release (CachedState as_ st) = (Ok tt, CachedState (set_global_cache c as_) st).
Proof. intros E. unfold cache_release. mred. cbn [cs_as]. by rewrite E. Qed.

Lemma hit_cursor u u1 i :
  frozen u1 = frozen u →
  on_dwarf (λ d, set_use_prev_instr u1.(cur).(dwarf).(use_prev_instr)
                   (set_ret_addr_column u1.(cur).(dwarf).(ret_addr_column) d))
    (on_dwarf (λ _, set_hint i u.(cur).(dwarf)) u) =
  grafted (Unseen u.(cur).(dwarf).(pi) u.(cur).(dwarf).(pi_valid) u.(cur).(dwarf).(pi_is_dynamic) i
             u.(cur).(dwarf).(prev_rs)) u1.
Proof.
  destruct u as [m [[] f g a v c]], u1 as [m' [[] f' g' a' v' c']].
  unfold frozen. simpl. intros [=]. by subst.
Qed.

Lemma cached_hit fuel ds as_ st order c1 sr st1 u3 i cur' :
  cache_in_use as_ → rs_inv as_.(global_cache) order →
  describe fuel ds st = (Ok sr, st1) → apply_reg_state fuel sr.(rs_current) st1.(st_u) = (Ok tt, u3) →
  coherent fuel ds as_.(global_cache) st → indices_ok (dwarf_of st) →
  is_u64 (dwarf_of st).(ip) → (dwarf_of st).(ip) ≠ 0 →
  (∃ k, get_rs_cache as_ = Some (set_rc_lock k as_.(global_cache)) ∧
        rs_lookup (set_rc_lock k as_.(global_cache)) (dwarf_of st) = Ok (Some i, c1, cur')) →
  ∃ c x, cached_find_save_locs fuel ds (CachedState as_ st) =
      (Ok tt, CachedState (set_global_cache c as_) (StepState (grafted x u3) st.(st_pool))) ∧
    rs_inv c order ∧ outer c = outer as_.(global_cache) ∧
    0 ≤ x.(us_hint) < 128 ∧ 0 ≤ x.(us_prev) < 128 ∧
    ∃ (n : nat) b, frames_but n as_.(global_cache) c ∧ c.(buckets) !! n = Some b ∧
      holds_row b (dwarf_of st).(ip) sr st1.
Proof.
  intros Huse Hinv Hd Ha Hcoh [Hh Hp] Hu Hip (k & Hget & Hlk).
  destruct (rs_lookup_spec _ order _ (rs_inv_lock k _ _ Hinv) Hh Hp Hu Hip)
    as (r & c1' & cur1 & Elk & Hinv1 & _ & Hrows & Hr).
  rewrite Hlk in Elk. injection Elk as <- <- <-. destruct Hr as (b & Hb & Hi & Hbi & Hbv & ->).
  assert (Hf : ∀ y : nat, frame_of <$> (c1.(buckets) !! y) = frame_of <$> (as_.(global_cache).(buckets) !! y)).
  { intros y. pose proof (f_equal (fmap frame_of) (Hrows y)) as Hy. by rewrite <- !option_fmap_compose in Hy. }
  pose proof (Hf (Z.to_nat i)) as Hfi. change (buckets (set_rc_lock k ?g)) with (buckets g) in Hb.
  rewrite Hb in Hfi. destruct (c1.(buckets) !! Z.to_nat i) as [b1|] eqn:Hb1; [|done].
  assert (Hfb : frame_of b1 = frame_of b) by (by apply (inj Some)). clear Hfi.
  destruct (Hcoh _ b Hb Hbv Hbi sr st1 Hd) as (Hreg & Hra & Hup).
  assert (Hrd : aread c1.(buckets) i = Ok b1)
    by (rewrite <- (Z2Nat.id i) by lia; by apply aread_lookup).
  destruct (cache_acquired as_ Huse) as (k' & Hget' & Hput). rewrite Hget in Hget'.
  injection Hget' as Hk. pose proof (rs_lookup_outer _ _ _ _ _ Hlk) as Hout.
  unfold outer in Hout. injection Hout as Hlock Hgen.
  exists (set_rc_lock as_.(global_cache).(rc_lock) c1),
    (Unseen (dwarf_of st).(pi) (dwarf_of st).(pi_valid) (dwarf_of st).(pi_is_dynamic) i (dwarf_of st).(prev_rs)).
  split; [|split; [by apply rs_inv_lock|split; [|]]].
  2: { unfold outer. cbn [set_rc_lock rc_lock generation] in *. by rewrite Hgen. }
  2: { cbn [us_hint us_prev]. do 2 (split; [lia|]). exists (Z.to_nat i), b1.
       split; [intros y b0 _ Hb0; change (buckets (set_rc_lock _ c1)) with (buckets c1); by rewrite Hf, Hb0|].
       split; [done|]. unfold holds_row, frame_of in *. split_and!; congruence. }
  unfold cached_find_save_locs.
  erewrite bind_eq by reflexivity. rewrite decide_False by apply Huse.
  erewrite bind_eq by (by eapply cache_search_eq).
  erewrite bind_eq by (erewrite bind_eq by (by eapply cache_hit_eq); reflexivity).
  erewrite bind_eq by reflexivity. erewrite bind_eq by (unfold lift; cbn; by rewrite Hrd).
  erewrite bind_eq by (apply cache_release_eq, Hput; simpl in *; congruence).
  pose proof (frozen_describe fuel ds st) as Hfr. rewrite Hd in Hfr.
  change (frozen st1.(st_u) = frozen st.(st_u)) in Hfr.
  unfold frame_of in Hfb. injection Hfb as Hr1 _ Hra1 _ Hs1.
  unfold on_step, on_u. cbn [cs_st cs_as st_u st_pool].
  rewrite (apply_reg_state_reg fuel b1 sr.(rs_current)) by congruence.
  rewrite Hs1, Hra1, Hra, <- Hup. unfold dwarf_of. rewrite (hit_cursor _ _ i Hfr).
  by rewrite (apply_grafted _ _ _ _ _ Ha).
Qed.

Lemma cache_enter_eq as_ st row (x : nat) c1 c2 c3 b :
  rs_new as_.(global_cache) (dwarf_of st) = Ok (Z.of_nat x, c1) →
  upd_bucket (Z.of_nat x) (set_rs_reg row.(rs_reg)) c1 = Ok c2 →
  upd_bucket (dwarf_of st).(prev_rs) (set_rs_hint (Z.of_nat x)) c2 = Ok c3 →
  c3.(buckets) !! x = Some b →
  cache_enter row (CachedState as_ st) =
    (Ok (Z.of_nat x), CachedState (set_global_cache c3 as_) (StepState
       (on_dwarf (λ d, set_prev_rs (Z.of_nat x) (set_hint b.(rs_hint) d)) st.(st_u)) st.(st_pool))).
Proof.
  intros E1 E2 E3 E4. unfold cache_enter. mred. cbn [cs_as cs_st]. rewrite E1. mred. rewrite E2. mred.
  rewrite E3. unfold upd_cache. mred. by rewrite (aread_lookup _ _ _ E4).
Qed.

Lemma enter_cursor u p h pi' :
  on_dwarf (set_pi pi') (on_dwarf (λ d, set_prev_rs p (set_hint h d)) u) =
  grafted (Unseen pi' u.(cur).(dwarf).(pi_valid) u.(cur).(dwarf).(pi_is_dynamic) h p) u.
Proof. by destruct u as [m [[] f g a v c]]. Qed.

Lemma grafted_pi x pi' u : grafted x (on_dwarf (set_pi pi') u) = grafted x u.
Proof. by destruct u as [m [[] f g a v c]]. Qed.

Lemma cached_miss fuel ds as_ st order k sr st1 u3 st' :
  cache_in_use as_ → rs_inv as_.(global_cache) order → indices_ok (dwarf_of st) →
  is_u64 (dwarf_of st).(ip) → (dwarf_of st).(ip) ≠ 0 →
  describe fuel ds st = (Ok sr, st1) → apply_reg_state fuel sr.(rs_current) st1.(st_u) = (Ok tt, u3) →
  put_unwind_info (StepState u3 st1.(st_pool)) = (Ok tt, st') →
  get_rs_cache as_ = Some (set_rc_lock k as_.(global_cache)) →
  rs_lookup (set_rc_lock k as_.(global_cache)) (dwarf_of st) =
    Ok (None, set_rc_lock k as_.(global_cache), dwarf_of st) →
  ∃ c x order' (n : nat) b, cached_find_save_locs fuel ds (CachedState as_ st) =
      (Ok tt, CachedState (set_global_cache c as_) (StepState (grafted x st'.(st_u)) st'.(st_pool))) ∧
    rs_inv c order' ∧ outer c = outer as_.(global_cache) ∧
    0 ≤ x.(us_hint) < 128 ∧ 0 ≤ x.(us_prev) < 128 ∧
    frames_but n as_.(global_cache) c ∧ c.(buckets) !! n = Some b ∧
    holds_row b (dwarf_of st).(ip) sr st1.
Proof.
  intros Huse Hinv [Hh Hp] Hu Hip Hd Ha Hput Hget Hlk.
  pose proof (frozen_describe fuel ds st) as Hfr. rewrite Hd in Hfr.
  change (frozen st1.(st_u) = frozen st.(st_u)) in Hfr.
  assert (Hkeep : (dwarf_of st1).(ip) = (dwarf_of st).(ip) ∧ (dwarf_of st1).(prev_rs) = (dwarf_of st).(prev_rs)).
  { unfold dwarf_of. apply (f_equal (λ z, z.2.(dwarf))) in Hfr. split.
    - exact (f_equal ip Hfr).
    - exact (f_equal prev_rs Hfr). }
  destruct Hkeep as [Hip1 Hprev1].
  destruct (cache_enter_spec (set_rc_lock k as_.(global_cache)) order (dwarf_of st1)
    sr.(rs_current).(rs_reg)) as (n & c1 & c2 & c3 & b & order' & E1 & E2 & E3 & Hn & Hinv3 & Hb & Hfb &
    Hhb & Hfs & Hout); [by apply rs_inv_lock|congruence..|by rewrite Hprev1|].
  destruct (cache_acquired as_ Huse) as (k' & Hget' & Hrel). rewrite Hget in Hget'.
  injection Hget' as Hk. unfold outer in Hout. injection Hout as Hlock Hgen.
  pose proof (apply_unseen _ _ _ _ Ha) as Hun. destruct st' as [u4 p4].
  set (um := on_dwarf (λ d, set_prev_rs (Z.of_nat n) (set_hint b.(rs_hint) d)) st1.(st_u)).
  destruct (put_same u3 um st1.(st_pool) _ _ _ ltac:(unfold unseen_of in Hun; simpl; congruence) Hput)
    as (pi' & -> & Hput').
  exists (set_rc_lock as_.(global_cache).(rc_lock) c3),
    (Unseen pi' st1.(st_u).(cur).(dwarf).(pi_valid) st1.(st_u).(cur).(dwarf).(pi_is_dynamic)
       b.(rs_hint) (Z.of_nat n)), order', n, b.
  split; [|split; [by apply rs_inv_lock|split]].
  2: { unfold outer. cbn [set_rc_lock rc_lock generation] in *. by rewrite Hgen. }
  2: { cbn [us_hint us_prev]. do 2 (split; [lia|]). split; [exact Hfs|]. split; [exact Hb|].
       unfold holds_row, frame_of in *. split_and!; congruence. }
  unfold cached_find_save_locs.
  erewrite bind_eq by reflexivity. rewrite decide_False by apply Huse.
  erewrite bind_eq by (by eapply cache_search_eq).
  replace (StepState (on_dwarf (λ _, dwarf_of st) (st_u st)) (st_pool st)) with st
    by (by destruct st as [[m [[] f g a v c]] p]).
  assert (Hmiss : cache_miss fuel ds
      (CachedState (set_global_cache (set_rc_lock k as_.(global_cache)) as_) st) =
    (Ok (Z.of_nat n), CachedState (set_global_cache c3 as_) (StepState (on_dwarf (set_pi pi') um) p4))).
  { unfold cache_miss. erewrite bind_eq by (unfold on_step, try; cbn [cs_st cs_as]; by rewrite Hd).
    cbv beta iota. erewrite bind_eq by (eapply cache_enter_eq; [exact E1|exact E2|exact E3|exact Hb]).
    erewrite bind_eq by (unfold on_step; cbn [cs_st cs_as st_pool]; fold um; by rewrite Hput').
    done. }
  erewrite bind_eq by exact Hmiss.
  erewrite bind_eq by reflexivity.
  erewrite bind_eq by (unfold lift; cbn; by rewrite (aread_lookup _ _ _ Hb)).
  erewrite bind_eq by (apply cache_release_eq, Hrel; simpl in *; congruence).
  unfold on_step, on_u. cbn [cs_st cs_as st_u st_pool].
  rewrite (apply_reg_state_reg fuel b sr.(rs_current)) by (unfold frame_of in Hfb; congruence).
  unfold um. rewrite enter_cursor, (apply_grafted _ _ _ _ _ Ha), grafted_pi. done.
Qed.

Lemma cached_agrees fuel ds as_ st order st' :
  cache_in_use as_ → rs_inv as_.(global_cache) order → indices_ok (dwarf_of st) →
  is_u64 (dwarf_of st).(ip) → (dwarf_of st).(ip) ≠ 0 → coherent fuel ds as_.(global_cache) st →
  uncached_dwarf_find_save_locs fuel ds st = (Ok tt, st') →
  ∃ c st2 order', cached_find_save_locs fuel ds (CachedState as_ st) =
      (Ok tt, CachedState (set_global_cache c as_) st2) ∧
    (∃ x, st2.(st_u) = grafted x st'.(st_u)) ∧ indices_ok (dwarf_of st2) ∧
    rs_inv c order' ∧ outer c = outer as_.(global_cache) ∧
    ∃ n b sr st1, frames_but n as_.(global_cache) c ∧ c.(buckets) !! n = Some b ∧
      describe fuel ds st = (Ok sr, st1) ∧ holds_row b (dwarf_of st).(ip) sr st1.
Proof.
  intros Huse Hinv Hix Hu Hip Hcoh (sr & st1 & u3 & Hd & Ha & Hput)%uncached_steps.
  destruct (cache_acquired as_ Huse) as (k & Hget & _). pose proof Hix as [Hh Hp].
  destruct (rs_lookup_spec _ order _ (rs_inv_lock k _ _ Hinv) Hh Hp Hu Hip)
    as (r & c1 & cur1 & Elk & _ & _ & _ & Hr). destruct r as [i|].
  - destruct (cached_hit fuel ds as_ st order c1 sr st1 u3 i cur1 Huse Hinv Hd Ha Hcoh Hix Hu Hip)
      as (c & x & E & Hinv' & Hout & Hxh & Hxp & n & b & Hfs & Hb & Hrow); [by exists k|].
    destruct st' as [u4 p4]. destruct (put_same u3 u3 _ _ _ _ eq_refl Hput) as (pi' & -> & _).
    exists c, (StepState (grafted x u3) st.(st_pool)), order. split_and!; try done.
    + exists x. cbn [st_u]. by rewrite grafted_pi.
    + by exists n, b, sr, st1.
  - destruct Hr as (_ & -> & ->).
    destruct (cached_miss fuel ds as_ st order k sr st1 u3 st' Huse Hinv Hix Hu Hip Hd Ha Hput Hget Elk)
      as (c & x & order' & n & b & E & Hinv' & Hout & Hxh & Hxp & Hfs & Hb & Hrow).
    exists c, (StepState (grafted x st'.(st_u)) st'.(st_pool)), order'. split_and!; try done.
    + by exists x.
    + by exists n, b, sr, st1.
Qed.
End agreement.

(** ** Properties *)

(** C21. The cache of register states would not change a step: where the routine
    without it succeeds, and as long as every state the cache has for the
    instruction pointer is the row its description gives, the routine with it
    returns the same frame, whether the state is found or entered.  Afterwards the
    cache is well formed and unlocked, holds the row of the instruction pointer,
    and its other states are untouched. *)
Theorem cached_step_agrees (P : Type) `(PoolOps P) `(LinkerOps P) (SC : StringConstants)
    (fuel : nat) (ds : dyn_state) (as_ : unw_addr_space) (st st' : step_state P) (order : list nat) :
  cache_in_use as_ → rs_inv as_.(global_cache) order → indices_ok (dwarf_of st) →
  is_u64 (dwarf_of st).(ip) → (dwarf_of st).(ip) ≠ 0 → coherent fuel ds as_.(global_cache) st →
  uncached_dwarf_find_save_locs fuel ds st = (Ok tt, st') →
  ∃ c st2 order', cached_find_save_locs fuel ds (CachedState as_ st) =
      (Ok tt, CachedState (set_global_cache c as_) st2) ∧
    (∃ x, st2.(st_u) = grafted x st'.(st_u)) ∧ indices_ok (dwarf_of st2) ∧
    rs_inv c order' ∧ outer c = outer as_.(global_cache) ∧
    ∃ n b sr st1, frames_but n as_.(global_cache) c ∧ c.(buckets) !! n = Some b ∧
      describe fuel ds st = (Ok sr, st1) ∧ holds_row b (dwarf_of st).(ip) sr st1.
Proof. apply cached_agrees. Qed.

Definition example_cached_space : unw_addr_space := AddrSpace UNW_CACHE_GLOBAL 0 0 0 example_cache [].

Lemma example_cache_coherent fuel ds (st : step_state bump) :
  @coherent bump _ example_linker example_strings fuel ds example_cache st.
Proof.
  intros y b Hb Hv. exfalso. unfold example_cache in Hb. rewrite flush_bucket_lookup in Hb.
  destruct (_ !! y); [|discriminate Hb]. injection Hb as <-. discriminate Hv.
Qed.

Lemma cached_step_agrees_witness :
  match @cached_find_save_locs bump _ example_linker example_strings 10 example_registered
          (CachedState example_cached_space example_callee) with
  | (Ok _, s') => (dwarf_of s'.(cs_st)).(ip) = 0x1240 ∧ (dwarf_of s'.(cs_st)).(cfa) = 0x8010
  | _ => False
  end.
Proof.
  pose proof (cached_step_agrees bump bump_ops example_linker example_strings 10 example_registered
    example_cached_space example_callee) as H.
  assert (E : match @uncached_dwarf_find_save_locs bump _ example_linker example_strings 10
                      example_registered example_callee with
    | (Ok _, s') => (dwarf_of s').(ip) = 0x1240 ∧ (dwarf_of s').(cfa) = 0x8010 | _ => False end)
    by (vm_compute; split; reflexivity).
  destruct (uncached_dwarf_find_save_locs 10 example_registered example_callee) as [[[]|e|t] st'];
    [|destruct E..].
  destruct (H st' flushed_order) as (c & st2 & order' & -> & (x & Hx) & _).
  - split; [discriminate|reflexivity].
  - apply flush_rs_cache_inv. reflexivity.
  - vm_compute. repeat split; discriminate.
  - split; [discriminate|reflexivity].
  - discriminate.
  - apply example_cache_coherent.
  - reflexivity.
  - cbn [cs_st]. unfold dwarf_of. rewrite Hx. exact E.
Defined.
