(* ===== verification/Trace.v ===== *)
(** * Fast traces

    [Gtrace.c]: the hash table of frame descriptions each thread was meant to
    have, the trace that walks the stack with it, and [backtrace.c].  The state
    is that of the steps ([Step.v]) with the caches and the caller's buffer.
    Locks are left out: the model is that of one thread. *)
From S2P Require Export Step.

(** ** The caches *)

(** [src/Gtrace.c:33-33], [HASH_MIN_BITS] *)
Definition HASH_MIN_BITS : Z := 14.

(** The array [frames] points to is part of the record.
    [src/Gtrace.c:35-42], [unw_trace_cache_t] *)
Record unw_trace_cache_t := TraceCache {
  frames : list unw_tdep_frame_t;
  log_size : Z;
  used : Z;
  dtor_count : Z
}.

Definition set_frames (x : list unw_tdep_frame_t) (c : unw_trace_cache_t) : unw_trace_cache_t :=
  TraceCache x c.(log_size) c.(used) c.(dtor_count).
Definition set_used (x : Z) (c : unw_trace_cache_t) : unw_trace_cache_t :=
  TraceCache c.(frames) c.(log_size) x c.(dtor_count).

(** [src/Gtrace.c:44-44], [empty_frame] *)
Definition empty_frame : unw_tdep_frame_t := TdepFrame 0 UNW_X86_64_FRAME_OTHER (-1) (-1) 0 (-1) (-1).

Definition sizeof_tdep_frame : Z := 16.

(** [1u << n] *)
Definition shl_1u (n : Z) : res Z :=
  if (0 <=? n) && (n <? 32) then Ok (Z.shiftl 1 n) else Stop BadShift.

(** The pool of caches, set up again by [cache_pool_init], and the kernel's
    allocator for the arrays. *)
Class CacheMem (T : Type) := {
  cache_pool_init : M T ();
  cache_alloc : M T Z;
  cache_free : Z → M T ();
  cache_malloc : Z → M T Z
}.

(** The static variables, with the thread-local ones of the running thread; null
    pointers are 0, and the caches are found by their address.
    [src/Gtrace.c:49-53], [trace_cache_once_happen] *)
Record trace_globals (T : Type) := TraceGlobals {
  tg_mem : T;
  trace_cache_once_happen : bool;
  tls_cache : Z;
  tls_cache_destroyed : bool;
  global_cache : Z;
  caches : gmap Z unw_trace_cache_t
}.
Arguments TraceGlobals {T}.
Arguments tg_mem {T}.
Arguments trace_cache_once_happen {T}.
Arguments tls_cache {T}.
Arguments tls_cache_destroyed {T}.
Arguments global_cache {T}.
Arguments caches {T}.

Section caches.
Context {T : Type} `{!CacheMem T}.
Implicit Types g : trace_globals T.

Definition set_tls (cache : Z) (destroyed : bool) g : trace_globals T :=
  TraceGlobals g.(tg_mem) g.(trace_cache_once_happen) cache destroyed g.(global_cache) g.(caches).
Definition set_once (b : bool) g : trace_globals T :=
  TraceGlobals g.(tg_mem) b g.(tls_cache) g.(tls_cache_destroyed) g.(global_cache) g.(caches).
Definition set_global_cache (x : Z) g : trace_globals T :=
  TraceGlobals g.(tg_mem) g.(trace_cache_once_happen) g.(tls_cache) g.(tls_cache_destroyed) x g.(caches).
Definition set_caches (x : gmap Z unw_trace_cache_t) g : trace_globals T :=
  TraceGlobals g.(tg_mem) g.(trace_cache_once_happen) g.(tls_cache) g.(tls_cache_destroyed)
    g.(global_cache) x.

Definition on_tg_mem {A} (f : M T A) : M (trace_globals T) A := λ g,
  let '(r, t) := f g.(tg_mem) in
  (r, TraceGlobals t g.(trace_cache_once_happen) g.(tls_cache) g.(tls_cache_destroyed)
        g.(global_cache) g.(caches)).

Definition get_cache (p : Z) : M (trace_globals T) unw_trace_cache_t := λ g,
  (match g.(caches) !! p with Some c => Ok c | None => Stop (BadAddr p) end, g).
Definition put_cache (p : Z) (c : unw_trace_cache_t) : M (trace_globals T) () :=
  mod_st (λ g, set_caches (<[p := c]> g.(caches)) g).

(** [src/Gtrace.c:55-63], [trace_cache_free] *)
Definition trace_cache_free : M (trace_globals T) () := mod_st (set_tls 0 true).

(** The registration of the key is left out.
    [src/Gtrace.c:65-72], [trace_cache_init_once] *)
Definition trace_cache_init_once : M (trace_globals T) () :=
  on_tg_mem cache_pool_init;;
  mod_st (set_once true).

(** [src/Gtrace.c:74-86], [trace_cache_buckets] *)
Definition trace_cache_buckets (n : Z) : M (trace_globals T) (option (list unw_tdep_frame_t)) :=
  p ← on_tg_mem (cache_malloc (u64 (n * sizeof_tdep_frame)));
  if negb (p =? 0) then mret (Some (replicate (Z.to_nat n) empty_frame)) else mret None.

(** The result is 0 for a null pointer.
    [src/Gtrace.c:88-124], [trace_cache_create] *)
Definition trace_cache_create : M (trace_globals T) Z :=
  g ← get_st;
  if g.(tls_cache_destroyed) then mret 0
  else
    cache ← on_tg_mem cache_alloc;
    if cache =? 0 then mret 0
    else
      n ← lift (shl_1u HASH_MIN_BITS);
      frames ← trace_cache_buckets n;
      match frames with
      | None => on_tg_mem (cache_free cache);; mret 0
      | Some frames =>
          put_cache cache (TraceCache frames HASH_MIN_BITS 0 0);;
          mod_st (λ g, set_tls g.(tls_cache) false g);;
          mret cache
      end.

(** [src/Gtrace.c:126-149], [trace_cache_expand] *)
Definition trace_cache_expand (cache : Z) : M (trace_globals T) () :=
  c ← get_cache cache;
  let new_log_size := u64 (c.(log_size) + 2) in
  n ← lift (shl_1u new_log_size);
  new_frames ← trace_cache_buckets n;
  match new_frames with
  | None => fail UNW_ENOMEM
  | Some frames => put_cache cache (TraceCache frames new_log_size 0 c.(dtor_count))
  end.

(** [src/Gtrace.c:151-166], [trace_cache_get_unthreaded] *)
Definition trace_cache_get_unthreaded : M (trace_globals T) Z :=
  g ← get_st;
  (if g.(global_cache) =? 0 then
     on_tg_mem cache_pool_init;;
     cache ← trace_cache_create;
     mod_st (set_global_cache cache)
   else mret tt);;
  g ← get_st;
  mret g.(global_cache).

(** [src/Gtrace.c:168-192], [trace_cache_get] *)
Definition trace_cache_get : M (trace_globals T) Z :=
  g ← get_st;
  if negb g.(trace_cache_once_happen) then
    trace_cache_init_once;;
    g ← get_st;
    if g.(tls_cache) =? 0 then
      cache ← trace_cache_create;
      mod_st (λ g, set_tls cache g.(tls_cache_destroyed) g);;
      mret cache
    else mret g.(tls_cache)
  else trace_cache_get_unthreaded.
End caches.

(** ** The lookup *)

(** [src/Gtrace.c:276-276], [trace_lookup] *)
Definition trace_slot (rip cache_size : Z) : Z :=
  Z.land (Z.shiftr (u64 (rip * 0x9e3779b97f4a7c16)) 43) (cache_size - 1).

(** The probe from [slot] on: whether the address was found, the last slot looked
    at and its address.  [src/Gtrace.c:279-298], [trace_lookup] *)
Fixpoint trace_probe (n : nat) (fs : list unw_tdep_frame_t) (cache_size rip slot frame addr : Z)
    : res (bool * Z * Z) :=
  match n with
  | O => Ok (false, frame, addr)
  | S n' =>
      f ← aread fs slot;
      let addr := f.(virtual_address) in
      if addr =? rip then Ok (true, slot, addr)
      else if addr =? 0 then Ok (false, slot, addr)
      else
        let next := if cache_size <=? slot + 1 then slot + 1 - cache_size else slot + 1 in
        trace_probe n' fs cache_size rip next slot addr
  end.

Record trace_state (P T : Type) := TraceState {
  tr_step : step_state P;
  tr_glob : trace_globals T;
  tr_buffer : list Z
}.
Arguments TraceState {P T}.
Arguments tr_step {P T}.
Arguments tr_glob {P T}.
Arguments tr_buffer {P T}.

(** [src/unwind_i.h:67-73], [ACCESS_MEM_FAST] *)
Definition ACCESS_MEM_FAST (validate : bool) (addr old : Z) : M ustate ((Z + unw_error) * Z) :=
  if validate then
    r ← try (dwarf_get addr);
    match r with inl v => mret (inl 0, v) | inr e => mret (inr e, old) end
  else v ← load_word addr; mret (inl 0, v).

(** The registers a trace follows. *)
Record trace_regs := TraceRegs { tr_rip : Z; tr_rsp : Z; tr_rbp : Z; tr_cfa : Z }.

Definition is_err {A} (r : A + unw_error) : bool := match r with inl _ => false | inr _ => true end.

(** [src/Gtrace.c:468-478], [tdep_trace] *)
Definition advance_standard (f : unw_tdep_frame_t) (r : trace_regs)
    : M ustate ((Z + unw_error) * trace_regs) :=
  s ← get_st;
  let validate := s.(cur).(validate) in
  let cfa := u64 ((if negb (f.(cfa_reg_rsp) =? 0) then r.(tr_rsp) else r.(tr_rbp)) + f.(cfa_reg_offset)) in
  '(ret, rip) ← ACCESS_MEM_FAST validate (u64 (cfa - 8)) r.(tr_rip);
  '(ret, rbp) ← (if negb (is_err ret) && negb (f.(rbp_cfa_offset) =? -1) then
                   ACCESS_MEM_FAST validate (u64 (cfa + f.(rbp_cfa_offset))) r.(tr_rbp)
                 else mret (ret, r.(tr_rbp)));
  upd_dwarf (set_use_prev_instr true);;
  mret (ret, TraceRegs rip cfa rbp cfa).

(** [src/Gtrace.c:482-495], [tdep_trace] *)
Definition advance_sigreturn (f : unw_tdep_frame_t) (r : trace_regs)
    : M ustate ((Z + unw_error) * trace_regs) :=
  s ← get_st;
  let validate := s.(cur).(validate) in
  let cfa := u64 (r.(tr_cfa) + f.(cfa_reg_offset)) in
  '(ret, rip) ← ACCESS_MEM_FAST validate (u64 (cfa + UC_MCONTEXT_GREGS_RIP)) r.(tr_rip);
  '(ret, rbp) ← (if negb (is_err ret) then
                   ACCESS_MEM_FAST validate (u64 (cfa + UC_MCONTEXT_GREGS_RBP)) r.(tr_rbp)
                 else mret (ret, r.(tr_rbp)));
  '(ret, rsp) ← (if negb (is_err ret) then
                   ACCESS_MEM_FAST validate (u64 (cfa + UC_MCONTEXT_GREGS_RSP)) r.(tr_rsp)
                 else mret (ret, r.(tr_rsp)));
  upd_dwarf (set_use_prev_instr false);;
  mret (ret, TraceRegs rip rsp rbp rsp).

(** [src/Gtrace.c:460-504], [tdep_trace] *)
Definition trace_advance (f : unw_tdep_frame_t) (r : trace_regs)
    : M ustate ((Z + unw_error) * trace_regs) :=
  if f.(frame_type) =? UNW_X86_64_FRAME_GUESSED then
    upd_cur (set_validate true);; advance_standard f r
  else if f.(frame_type) =? UNW_X86_64_FRAME_STANDARD then advance_standard f r
  else if f.(frame_type) =? UNW_X86_64_FRAME_SIGRETURN then advance_sigreturn f r
  else mret (inr UNW_ESTOPUNWIND, r).

Section trace.
Context {P T : Type} `{!PoolOps P, !LinkerOps P, !StringConstants, !CacheMem T}.
Context (fuel : nat) (ds : dyn_state).

Definition on_step {A} (f : M (step_state P) A) : M (trace_state P T) A := λ s,
  let '(r, st) := f s.(tr_step) in (r, TraceState st s.(tr_glob) s.(tr_buffer)).
Definition on_tu {A} (f : M ustate A) : M (trace_state P T) A := on_step (on_u f).
Definition on_glob {A} (f : M (trace_globals T) A) : M (trace_state P T) A := λ s,
  let '(r, g) := f s.(tr_glob) in (r, TraceState s.(tr_step) g s.(tr_buffer)).

Definition get_frame (cache slot : Z) : M (trace_state P T) unw_tdep_frame_t :=
  c ← on_glob (get_cache cache); lift (aread c.(frames) slot).
Definition put_frame (cache slot : Z) (f : unw_tdep_frame_t) : M (trace_state P T) () :=
  c ← on_glob (get_cache cache);
  fs ← lift (awrite c.(frames) slot f);
  on_glob (put_cache cache (set_frames fs c)).

(** [src/Gtrace.c:214-221], [trace_init_addr] *)
Definition unknown_frame (rip : Z) : unw_tdep_frame_t :=
  TdepFrame rip UNW_X86_64_FRAME_OTHER 0 (-1) 0 (-1) (-1).

(** The cursor at this instruction.  [src/Gtrace.c:227-232], [trace_init_addr] *)
Definition trace_set_cursor (f : unw_tdep_frame_t) (new_cfa rip : Z) : M ustate () :=
  upd_dwarf (λ d, set_ip (u64 (rip + b2z d.(use_prev_instr))) d);;
  upd_dwarf (set_cfa new_cfa);;
  s ← get_st;
  put_loc RIP (DWARF_REG_LOC s.(cur) RIP);;
  put_loc RBP (DWARF_REG_LOC s.(cur) RBP);;
  put_loc RSP (DWARF_REG_LOC s.(cur) RSP);;
  upd_cur (set_frame_info f).

(** [src/Gtrace.c:234-236], [trace_init_addr] *)
Definition trace_put_regs (rip rbp rsp : Z) : M ustate () :=
  l ← get_loc RIP; dwarf_put l rip;;
  l ← get_loc RBP; dwarf_put l rbp;;
  l ← get_loc RSP; dwarf_put l rsp;;
  mret tt.

(** [f] is the slot [slot] of the cache.
    [src/Gtrace.c:194-255], [trace_init_addr] *)
Definition trace_init_addr (cache slot cfa rip rbp rsp : Z) : M (trace_state P T) () :=
  let f := unknown_frame rip in
  put_frame cache slot f;;
  on_tu (trace_set_cursor f cfa rip);;
  ret ← try (on_tu (trace_put_regs rip rbp rsp);; on_step (unw_step fuel ds));
  match ret with
  | inr _ => mret tt
  | inl ret =>
      s ← get_st;
      put_frame cache slot s.(tr_step).(st_u).(cur).(frame_info);;
      if ret =? 0 then f ← get_frame cache slot; put_frame cache slot (set_last_frame (-1) f)
      else mret tt
  end.

(** The slot in the larger table, and its address, if there is memory for it.
    [src/Gtrace.c:307-313], [trace_lookup] *)
Definition trace_make_room (cache rip : Z) : M (trace_state P T) (option (Z * Z)) :=
  ret ← try (on_glob (trace_cache_expand cache));
  match ret with
  | inr _ => mret None
  | inl _ =>
      c ← on_glob (get_cache cache);
      cache_size ← lift (shl_1u c.(log_size));
      let slot := trace_slot rip cache_size in
      f ← get_frame cache slot;
      mret (Some (slot, f.(virtual_address)))
  end.

(** [src/Gtrace.c:316-319], [trace_lookup] *)
Definition trace_fill (cache slot addr cfa rip rbp rsp : Z) : M (trace_state P T) () :=
  (if addr =? 0 then
     c ← on_glob (get_cache cache);
     on_glob (put_cache cache (set_used (u64 (c.(used) + 1)) c))
   else mret tt);;
  trace_init_addr cache slot cfa rip rbp rsp.

(** The result is the slot, [None] for a null pointer.
    [src/Gtrace.c:257-320], [trace_lookup] *)
Definition trace_lookup (cache cfa rip rbp rsp : Z) : M (trace_state P T) (option Z) :=
  c ← on_glob (get_cache cache);
  cache_size ← lift (shl_1u c.(log_size));
  '(found, slot, addr) ← lift (trace_probe 16 c.(frames) cache_size rip (trace_slot rip cache_size) 0 0);
  if (found : bool) then mret (Some slot)
  else
    ret ← (if negb (addr =? 0) || (cache_size / 2 <=? c.(used)) then trace_make_room cache rip
           else mret (Some (slot, addr)));
    match ret with
    | None => mret None
    | Some (slot, addr) => trace_fill cache slot addr cfa rip rbp rsp;; mret (Some slot)
    end.

(** ** The trace *)

Definition put_buffer (i v : Z) : M (trace_state P T) () :=
  s ← get_st;
  b ← lift (awrite s.(tr_buffer) i v);
  mod_st (λ s, TraceState s.(tr_step) s.(tr_glob) b).

(** [n] is [maxdepth - depth]; the results are [ret] and [depth].
    [src/Gtrace.c:421-515], [tdep_trace] *)
Fixpoint trace_loop (n : nat) (cache depth : Z) (ret : Z + unw_error) (r : trace_regs)
    : M (trace_state P T) ((Z + unw_error) * Z) :=
  match n with
  | O => mret (ret, depth)
  | S n' =>
      d ← on_tu get_dwarf;
      let rip := u64 (r.(tr_rip) - b2z d.(use_prev_instr)) in
      let r := TraceRegs rip r.(tr_rsp) r.(tr_rbp) r.(tr_cfa) in
      slot ← trace_lookup cache r.(tr_cfa) rip r.(tr_rbp) r.(tr_rsp);
      match slot with
      | None => mret (inr UNW_ENOINFO, depth)
      | Some slot =>
          f ← get_frame cache slot;
          if negb (f.(virtual_address) =? rip) then halt Panic
          else if negb (f.(last_frame) =? 0) then mret (ret, depth)
          else
            '(ret, r) ← on_tu (trace_advance f r);
            if is_err ret || (r.(tr_rip) <? 0x4000) then mret (ret, depth)
            else
              d ← on_tu get_dwarf;
              put_buffer depth (u64 (r.(tr_rip) - b2z d.(use_prev_instr)));;
              trace_loop n' cache (depth + 1) ret r
      end
  end.

(** The results are the return value and the final [*size]; [cursor] and
    [buffer] are not null.  [src/Gtrace.c:385-522], [tdep_trace] *)
Definition tdep_trace (size : Z) : M (trace_state P T) ((Z + unw_error) * Z) :=
  if size <=? 0 then mret (inr UNW_EINVAL, size)
  else
    on_tu (upd_dwarf (set_stash_frames true));;
    d ← on_tu get_dwarf;
    rbp ← on_tu (l ← get_loc RBP; load_word l);
    cache ← on_glob trace_cache_get;
    if cache =? 0 then on_tu (upd_dwarf (set_stash_frames false));; mret (inr UNW_ENOMEM, 0)
    else trace_loop (Z.to_nat size) cache 0 (inl 0) (TraceRegs d.(ip) d.(cfa) rbp d.(cfa)).

(** ** Backtraces *)

(** [n'] is [size - n] rounds and one more.
    [src/backtrace.c:42-50], [slow_backtrace] *)
Fixpoint slow_backtrace_loop (n' : nat) (size n : Z) : M (trace_state P T) Z :=
  match n' with
  | O => halt NoFuel
  | S n' =>
      r ← try (on_step (unw_step fuel ds));
      if negb (match r with inl v => 0 <? v | inr _ => false end) then mret n
      else if size <=? n then mret n
      else
        ip ← try (on_tu (unw_get_reg RIP));
        match ip with
        | inr _ => mret n
        | inl ip => put_buffer n ip;; slow_backtrace_loop n' size (n + 1)
        end
  end.

(** [junk] is what the storage of the local cursor holds.
    [src/backtrace.c:32-52], [slow_backtrace] *)
Definition slow_backtrace (junk : cursor) (size uc : Z) : M (trace_state P T) Z :=
  on_tu (upd_cur (λ _, junk));;
  r ← try (on_tu (unw_init_local uc));
  match r with
  | inr _ => mret 0
  | inl _ => slow_backtrace_loop (S (Z.to_nat size)) size 0
  end.

(** [unw_getcontext] and [tdep_getcontext_trace] are written in assembler.
    [uc] is the address of the local context.
    [src/backtrace.c:54-73], [unw_backtrace] *)
Definition unw_backtrace (tdep_getcontext_trace unw_getcontext : Z → M machine ())
    (junk junk' : cursor) (uc size : Z) : M (trace_state P T) Z :=
  on_tu (on_mach (tdep_getcontext_trace uc));;
  on_tu (upd_cur (λ _, junk));;
  r ← try (on_tu (unw_init_local uc));
  match r with
  | inr _ => mret 0
  | inl _ =>
      '(ret, n) ← tdep_trace size;
      if is_err ret then
        on_tu (on_mach (unw_getcontext uc));;
        slow_backtrace junk' size uc
      else mret n
  end.
End trace.
