(* ===== verification/TraceSpec.v ===== *)
(** * What the traces do

    The hash table of frame descriptions as a partial map, the agreement of a
    traced frame with a step, and the bounds of the caller's buffer. *)
From S2P Require Export Trace StepProps.

(** ** The table as a map *)

(** The description the table holds for an address. *)
Definition known (fs : list unw_tdep_frame_t) (rip : Z) : option unw_tdep_frame_t :=
  snd <$> list_find (λ f, f.(virtual_address) = rip) fs.

(** The slot [k] steps after [slot]. *)
Definition probe_at (size slot : Z) (k : nat) : Z := (slot + Z.of_nat k) mod size.

(** A slot in use for another address. *)
Definition taken (fs : list unw_tdep_frame_t) (rip i : Z) : Prop :=
  ∃ f, aread fs i = Ok f ∧ f.(virtual_address) ≠ 0 ∧ f.(virtual_address) ≠ rip.

(** Every description is found from the slot its address is hashed to within 16
    steps, past slots taken by others. *)
Definition reachable (fs : list unw_tdep_frame_t) : Prop :=
  ∀ i f, fs !! i = Some f → f.(virtual_address) ≠ 0 →
    ∃ k, (k < 16)%nat ∧
      Z.of_nat i = probe_at (Z.of_nat (length fs)) (trace_slot f.(virtual_address) (Z.of_nat (length fs))) k ∧
      ∀ j, (j < k)%nat →
        taken fs f.(virtual_address)
          (probe_at (Z.of_nat (length fs)) (trace_slot f.(virtual_address) (Z.of_nat (length fs))) j).

Definition in_use (fs : list unw_tdep_frame_t) : nat :=
  length (filter (λ f, f.(virtual_address) ≠ 0) fs).

Record cache_ok (c : unw_trace_cache_t) : Prop := {
  co_log : HASH_MIN_BITS ≤ c.(log_size) < 32;
  co_size : Z.of_nat (length c.(frames)) = 2 ^ c.(log_size);
  co_used : c.(used) = Z.of_nat (in_use c.(frames)) ∧ c.(used) ≤ 2 ^ c.(log_size) / 2;
  co_reachable : reachable c.(frames)
}.

Lemma known_Some fs rip f :
  known fs rip = Some f → f.(virtual_address) = rip ∧ ∃ i, fs !! i = Some f.
Proof.
  unfold known. destruct (list_find _ fs) as [[i f']|] eqn:E; [|done]. intros [= ->].
  apply list_find_Some in E as (? & ? & _). eauto.
Qed.

Lemma known_None fs rip i f : known fs rip = None → fs !! i = Some f → f.(virtual_address) ≠ rip.
Proof.
  unfold known. destruct (list_find _ fs) as [[]|] eqn:E; [done|]. intros _ Hf.
  rewrite list_find_None, Forall_lookup in E. by eapply E.
Qed.

Lemma trace_slot_range rip n : 0 ≤ n → 0 ≤ trace_slot rip (2 ^ n) < 2 ^ n.
Proof.
  intros Hn. unfold trace_slot.
  replace (2 ^ n - 1) with (Z.ones n) by (rewrite Z.ones_equiv; lia).
  rewrite Z.land_ones by done. apply Z.mod_pos_bound. lia.
Qed.

Lemma probe_range size slot k : 0 < size → 0 ≤ probe_at size slot k < size.
Proof. intros. apply Z.mod_pos_bound. lia. Qed.

Lemma probe_0 size slot : 0 ≤ slot < size → probe_at size slot 0 = slot.
Proof. intros. unfold probe_at. rewrite Z.add_0_r. apply Z.mod_small. lia. Qed.

Lemma probe_S size slot k :
  0 ≤ slot < size →
  probe_at size (if size <=? slot + 1 then slot + 1 - size else slot + 1) k = probe_at size slot (S k).
Proof.
  intros Hs. unfold probe_at. destruct (Z.leb_spec size (slot + 1)).
  - replace (slot + 1 - size + Z.of_nat k) with (slot + Z.of_nat (S k) + (-1) * size) by lia.
    apply Z_mod_plus_full.
  - f_equal. lia.
Qed.

(** The outcome of a probe of [n] slots. *)
Lemma trace_probe_spec fs rip : ∀ n slot frame addr,
  let size := Z.of_nat (length fs) in
  let p := probe_at size slot in
  0 ≤ slot < size →
  (∃ k f, (k < n)%nat ∧ (∀ j, (j < k)%nat → taken fs rip (p j)) ∧ aread fs (p k) = Ok f ∧
     (f.(virtual_address) = rip ∧ trace_probe n fs size rip slot frame addr = Ok (true, p k, rip) ∨
      f.(virtual_address) = 0 ∧ rip ≠ 0 ∧
        trace_probe n fs size rip slot frame addr = Ok (false, p k, 0))) ∨
  (∀ j, (j < n)%nat → taken fs rip (p j)) ∧
  ∃ frame' addr', trace_probe n fs size rip slot frame addr = Ok (false, frame', addr') ∧
    (n ≠ O → addr' ≠ 0) ∧ (n = O → addr' = addr).
Proof.
  induction n as [|n IH]; intros slot frame addr size p Hs.
  { right. split; [lia|]. exists frame, addr. by split_and!. }
  cbn [trace_probe]. mred. destruct (lookup_lt_is_Some_2 fs (Z.to_nat slot)) as [f Hf]; [lia|].
  assert (Hread : aread fs slot = Ok f) by (rewrite <- (Z2Nat.id slot) by lia; by apply aread_lookup).
  assert (Hp0 : p 0%nat = slot) by (by apply probe_0).
  rewrite Hread. destruct (Z.eqb_spec f.(virtual_address) rip) as [Heq|Hne].
  { left. exists 0%nat, f. rewrite Hp0, Heq. split_and!; [lia|lia|done|by left]. }
  destruct (Z.eqb_spec f.(virtual_address) 0) as [H0|Hn0].
  { left. exists 0%nat, f. rewrite Hp0, H0. split_and!; [lia|lia|done|]. right. split_and!; congruence. }
  assert (Ht0 : taken fs rip (p 0%nat)) by (rewrite Hp0; by exists f).
  set (next := if size <=? slot + 1 then slot + 1 - size else slot + 1).
  assert (Hnext : 0 ≤ next < size) by (unfold next; destruct (Z.leb_spec size (slot + 1)); lia).
  assert (Hpn : ∀ k, probe_at size next k = p (S k)) by (intros k; by apply probe_S).
  assert (Htk : ∀ k, (∀ j, (j < k)%nat → taken fs rip (probe_at size next j)) →
                     ∀ j, (j < S k)%nat → taken fs rip (p j)).
  { intros k Hk [|j] Hj; [done|]. rewrite <- Hpn. apply Hk. lia. }
  destruct (IH next slot f.(virtual_address) Hnext)
    as [(k & f' & Hk & Ht & Hr & E)|(Ht & fr & ad & E & Had & Had0)].
  - left. exists (S k), f'. rewrite <- Hpn. split_and!; [lia|by apply Htk|done|].
    unfold size in *. destruct E as [[? ->]|(? & ? & ->)]; [by left|by right].
  - right. split; [by apply Htk|]. exists fr, ad. unfold size in *. rewrite E.
    split_and!; [done| |done]. intros _. destruct n; [by rewrite Had0|by apply Had].
Qed.

(** ** A new entry *)

Lemma taken_lookup fs rip i :
  taken fs rip i → ∃ f, fs !! Z.to_nat i = Some f ∧ 0 ≤ i ∧ f.(virtual_address) ≠ 0 ∧ f.(virtual_address) ≠ rip.
Proof.
  intros (f & Hr & H0 & Hn). exists f. unfold aread in Hr.
  destruct (Z.ltb_spec i 0); [done|]. destruct (fs !! Z.to_nat i); by simplify_eq.
Qed.

Lemma reachable_unique fs i j f g :
  reachable fs → fs !! i = Some f → fs !! j = Some g →
  f.(virtual_address) = g.(virtual_address) → f.(virtual_address) ≠ 0 → i = j.
Proof.
  intros Hr Hi Hj Heq H0. destruct (Hr i f Hi H0) as (k & _ & Ek & Hk).
  rewrite Heq in H0, Ek, Hk. destruct (Hr j g Hj H0) as (k' & _ & Ek' & Hk').
  destruct (Nat.lt_trichotomy k k') as [Hlt|[->|Hlt]]; [exfalso|lia|exfalso].
  - apply Hk', taken_lookup in Hlt as (h & Hh & _ & _ & Hne).
    rewrite <- Ek, Nat2Z.id, Hi in Hh. by injection Hh as <-.
  - apply Hk, taken_lookup in Hlt as (h & Hh & _ & _ & Hne).
    rewrite <- Ek', Nat2Z.id, Hj in Hh. by injection Hh as <-.
Qed.

Lemma known_intro fs i f :
  reachable fs → fs !! i = Some f → f.(virtual_address) ≠ 0 → known fs f.(virtual_address) = Some f.
Proof.
  intros Hr Hi H0. destruct (known fs f.(virtual_address)) as [g|] eqn:E.
  - apply known_Some in E as [Heq [j Hj]]. f_equal.
    assert (j = i) as -> by (by eapply reachable_unique; [..|rewrite Heq|rewrite Heq]). congruence.
  - by destruct (known_None _ _ _ _ E Hi).
Qed.

Lemma taken_insert fs rip i f j :
  taken fs rip j → (∃ g, fs !! i = Some g ∧ g.(virtual_address) = 0) →
  taken (<[i:=f]> fs) rip j.
Proof.
  intros Ht Hi. apply taken_lookup in Ht as (g & Hg & Hj & H0 & Hn). exists g.
  split; [|done]. rewrite <- (Z2Nat.id j) by done. apply aread_lookup.
  rewrite list_lookup_insert_ne; [done|]. intros ->.
  destruct Hi as (h & Hi & Hh). rewrite Hg in Hi. by injection Hi as ->.
Qed.

(** An entry put in the free slot a probe ends at. *)
Lemma reachable_insert fs i f g k :
  reachable fs → fs !! i = Some g → g.(virtual_address) = 0 → f.(virtual_address) ≠ 0 → (k < 16)%nat →
  let p := probe_at (Z.of_nat (length fs)) (trace_slot f.(virtual_address) (Z.of_nat (length fs))) in
  Z.of_nat i = p k → (∀ j, (j < k)%nat → taken fs f.(virtual_address) (p j)) →
  reachable (<[i:=f]> fs).
Proof.
  intros Hr Hi Hg Hf Hk p Ep Hp j h Hj Hh. rewrite length_insert.
  destruct (decide (j = i)) as [->|Hne].
  - rewrite list_lookup_insert_eq in Hj by (by eapply lookup_lt_Some). injection Hj as <-.
    exists k. split_and!; [done|done|]. intros j Hj. apply taken_insert; [by apply Hp|eauto].
  - rewrite list_lookup_insert_ne in Hj by done. destruct (Hr j h Hj Hh) as (k' & ? & ? & Hk').
    exists k'. split_and!; [done|done|]. intros j' Hj'. apply taken_insert; [by apply Hk'|eauto].
Qed.

Lemma known_insert fs i f g r :
  reachable fs → reachable (<[i:=f]> fs) → fs !! i = Some g → g.(virtual_address) = 0 →
  f.(virtual_address) ≠ 0 → r ≠ 0 →
  known (<[i:=f]> fs) r = if decide (r = f.(virtual_address)) then Some f else known fs r.
Proof.
  intros Hr Hr' Hi Hg Hf Hr0. pose proof (lookup_lt_Some _ _ _ Hi) as Hlt.
  destruct (decide (r = _)) as [->|Hne].
  - eapply known_intro; [done|by apply list_lookup_insert_eq|done].
  - apply option_eq. intros h. split; intros Hh; apply known_Some in Hh as [<- [j Hj]].
    + assert (j ≠ i) by (intros ->; rewrite list_lookup_insert_eq in Hj by done; congruence).
      rewrite list_lookup_insert_ne in Hj by done. by eapply known_intro.
    + assert (j ≠ i) by (intros ->; congruence).
      eapply known_intro; [done|by rewrite list_lookup_insert_ne|done].
Qed.

Lemma in_use_insert fs i f g :
  fs !! i = Some g → g.(virtual_address) = 0 → f.(virtual_address) ≠ 0 →
  in_use (<[i:=f]> fs) = S (in_use fs).
Proof.
  intros Hi Hg Hf. unfold in_use. rewrite (insert_take_drop _ _ _ (lookup_lt_Some _ _ _ Hi)).
  replace (length (filter _ fs)) with
    (length (filter (λ h, h.(virtual_address) ≠ 0) (take i fs ++ g :: drop (S i) fs)))
    by (by rewrite take_drop_middle).
  rewrite !filter_app, !filter_cons, !length_app. repeat case_decide; simplify_eq; simpl; try lia.
Qed.

Lemma known_empty n r : r ≠ 0 → known (replicate n empty_frame) r = None.
Proof.
  intros Hr. destruct (known _ r) as [f|] eqn:E; [|done].
  apply known_Some in E as [<- [i [-> _]%lookup_replicate]]. done.
Qed.

Lemma empty_cache_ok n d :
  HASH_MIN_BITS ≤ n < 32 → cache_ok (TraceCache (replicate (Z.to_nat (2 ^ n)) empty_frame) n 0 d).
Proof.
  intros Hn. unfold HASH_MIN_BITS in Hn. assert (0 < 2 ^ n) by lia. split; cbn [frames log_size used].
  - done.
  - rewrite length_replicate. lia.
  - split; [|apply Z.div_pos; lia]. unfold in_use. f_equal.
    induction (Z.to_nat (2 ^ n)) as [|k IH]; [done|]. cbn [replicate]. rewrite filter_cons.
    by case_decide.
  - intros i f [-> _]%lookup_replicate Hf. by destruct Hf.
Qed.

(** ** The address of the frame description *)

(** A step leaves the address the description of the frame is for. *)
Definition same_va (s s' : ustate) : Prop :=
  s'.(cur).(frame_info).(virtual_address) = s.(cur).(frame_info).(virtual_address).

#[export] Instance same_va_preorder : PreOrder same_va.
Proof. split; [by intros s|]. intros s1 s2 s3 H1 H2. unfold same_va in *. congruence. Qed.

Lemma keeps_va {A} (m : M ustate A) : keeps same_cursor m → keeps same_va m.
Proof. apply keeps_weaken. intros s s' [H _]. unfold same_va. by rewrite H. Qed.

Lemma keeps_upd_dwarf_va f : keeps same_va (upd_dwarf f).
Proof. by apply keeps_mod. Qed.
#[export] Hint Resolve keeps_va keeps_upd_dwarf_va : keeps.

Section step_va.
Context {P : Type} `{!PoolOps P, !LinkerOps P} {SC : StringConstants}.

Definition same_va_st (s s' : step_state P) : Prop := same_va s.(st_u) s'.(st_u).

#[export] Instance same_va_st_preorder : PreOrder same_va_st.
Proof.
  split; [intros s; unfold same_va_st; reflexivity|].
  intros s1 s2 s3 H1 H2. unfold same_va_st in *. by etrans.
Qed.

Lemma keeps_on_u_va {A} (f : M ustate A) : keeps same_va f → keeps same_va_st (on_u f).
Proof. intros Hf s. specialize (Hf s.(st_u)). unfold on_u, same_va_st. by destruct (f (st_u s)). Qed.

Lemma keeps_unw_step_va fuel ds : keeps same_va_st (unw_step fuel ds).
Proof. eapply keeps_weaken; [|apply keeps_unw_step_rest]. by intros s s' [H _]. Qed.
End step_va.

(** ** The lookup *)

Section lookup.
Context {P T : Type} `{!PoolOps P, !LinkerOps P, !CacheMem T} {SC : StringConstants}.
Implicit Types s : trace_state P T.

Definition cache_at s (p : Z) (c : unw_trace_cache_t) : Prop := s.(tr_glob).(caches) !! p = Some c.

(** The state with another cache at [p], and with another state of the steps. *)
Definition with_cache (p : Z) (c : unw_trace_cache_t) s : trace_state P T :=
  TraceState s.(tr_step) (set_caches (<[p:=c]> s.(tr_glob).(caches)) s.(tr_glob)) s.(tr_buffer).
Definition with_step (st : step_state P) s : trace_state P T :=
  TraceState st s.(tr_glob) s.(tr_buffer).

Lemma on_step_eval {A} (f : M (step_state P) A) s :
  on_step f s = ((f s.(tr_step)).1, with_step (f s.(tr_step)).2 s).
Proof. unfold on_step. by destruct (f (tr_step s)). Qed.

Lemma get_cache_eval s p c : cache_at s p c → on_glob (get_cache p) s = (Ok c, s).
Proof. intros Hc. unfold on_glob, get_cache. rewrite Hc. by destruct s. Qed.

Lemma put_frame_eval s p c slot f :
  cache_at s p c → 0 ≤ slot < Z.of_nat (length c.(frames)) →
  put_frame p slot f s =
    (Ok tt, with_cache p (set_frames (<[Z.to_nat slot := f]> c.(frames)) c) s).
Proof.
  intros Hc Hs. unfold put_frame. mred. rewrite (get_cache_eval _ _ _ Hc). rewrite awrite_Ok by lia.
  reflexivity.
Qed.

Lemma get_frame_eval s p c slot f :
  cache_at s p c → 0 ≤ slot → c.(frames) !! Z.to_nat slot = Some f → get_frame p slot s = (Ok f, s).
Proof.
  intros Hc Hs Hf. unfold get_frame. mred. rewrite (get_cache_eval _ _ _ Hc).
  rewrite <- (Z2Nat.id slot) at 1 by done. by rewrite (aread_lookup _ _ _ Hf).
Qed.

Lemma with_cache_at p c s : cache_at (with_cache p c s) p c.
Proof. apply lookup_insert_eq. Qed.

Lemma with_cache_twice p c c' st s :
  with_cache p c' (with_step st (with_cache p c s)) = with_cache p c' (with_step st s).
Proof. unfold with_cache, with_step, set_caches. simpl. by rewrite insert_insert_eq. Qed.

Lemma never_trace_set_cursor e f c rip : never e (trace_set_cursor f c rip).
Proof. unfold trace_set_cursor, upd_dwarf, upd_cur, put_loc. nevers. Qed.

Lemma trace_set_cursor_va f c rip u u' :
  trace_set_cursor f c rip u = (Ok tt, u') → u'.(cur).(frame_info) = f.
Proof.
  unfold trace_set_cursor. intros ([] & u1 & _ & H)%bind_ok. apply bind_ok in H as ([] & u2 & _ & H).
  apply bind_ok in H as (x & u3 & _ & H). do 3 apply bind_ok in H as ([] & ? & _ & H).
  by injection H as <-.
Qed.

Lemma keeps_trace_put_regs rip rbp rsp : keeps same_va (trace_put_regs rip rbp rsp).
Proof.
  assert (Hs : ∀ a v, keeps same_va (store_word a v)).
  { intros a v u. unfold store_word, same_va. by destruct (store _ _ _ _). }
  unfold trace_put_regs, dwarf_put, DWARF_IS_REG_LOC, access_mem. keep.
Qed.

(** The part of [trace_init_addr] that can fail. *)
Definition try_step (fuel : nat) (ds : dyn_state) (rip rbp rsp : Z) : M (step_state P) Z :=
  on_u (trace_put_regs rip rbp rsp);; unw_step fuel ds.

Lemma keeps_try_step fuel ds rip rbp rsp : keeps same_va_st (try_step fuel ds rip rbp rsp).
Proof.
  apply keeps_bind; [exact _|apply keeps_on_u_va, keeps_trace_put_regs|].
  intros []. apply keeps_unw_step_va.
Qed.

Lemma try_step_eval fuel ds rip rbp rsp s :
  (on_tu (trace_put_regs rip rbp rsp);; on_step (unw_step fuel ds)) s =
    on_step (T := T) (try_step fuel ds rip rbp rsp) s.
Proof.
  unfold on_tu, try_step, on_step. mred. by destruct (on_u _ (tr_step s)) as [[[]|e|t] u].
Qed.

(** Filling in a slot leaves a description of the address there. *)
Lemma trace_init_addr_spec fuel ds p c slot new_cfa rip rbp rsp s :
  cache_at s p c → 0 ≤ slot < Z.of_nat (length c.(frames)) →
  match trace_init_addr fuel ds p slot new_cfa rip rbp rsp s with
  | (Ok _, s') => ∃ st f, f.(virtual_address) = rip ∧
      s' = with_cache p (set_frames (<[Z.to_nat slot := f]> c.(frames)) c) (with_step st s)
  | (Err _, _) => False
  | (Stop _, _) => True
  end.
Proof.
  intros Hc Hs. unfold trace_init_addr. mred. rewrite (put_frame_eval _ _ _ _ _ Hc Hs).
  set (s1 := with_cache p _ s).
  assert (Hput : ∀ st f0 f, put_frame p slot f (with_cache p (set_frames (<[Z.to_nat slot := f0]> c.(frames)) c)
      (with_step st s)) =
    (Ok tt, with_cache p (set_frames (<[Z.to_nat slot := f]> c.(frames)) c) (with_step st s))).
  { intros st f0 f. rewrite (put_frame_eval _ _ _ _ _ (with_cache_at p _ (with_step st s)))
      by (cbn [frames set_frames]; rewrite length_insert; lia).
    f_equal. cbn [frames set_frames]. rewrite list_insert_insert_eq.
    apply (with_cache_twice p _ _ st (with_step st s)). }
  unfold on_tu at 1. rewrite on_step_eval.
  pose proof (never_trace_set_cursor) as Hn. unfold on_u at 1 2.
  destruct (trace_set_cursor (unknown_frame rip) new_cfa rip (st_u (tr_step s1))) as [[[]|e|t] u1] eqn:E1;
    [|by destruct (Hn e _ _ _ _ (f_equal fst E1))|done]. cbn [fst snd].
  apply trace_set_cursor_va in E1. set (st1 := StepState u1 _).
  unfold try. match goal with |- context [on_tu (trace_put_regs _ _ _) ?x] =>
    pose proof (try_step_eval fuel ds rip rbp rsp x) as Ht end.
  unfold mbind, M_bind in Ht. rewrite Ht, on_step_eval. clear Ht.
  change (tr_step (with_step st1 s1)) with st1.
  pose proof (keeps_try_step fuel ds rip rbp rsp st1) as Hva.
  destruct (try_step fuel ds rip rbp rsp st1) as [r st2]. cbn [fst snd] in *.
  assert (Hva2 : st2.(st_u).(cur).(frame_info).(virtual_address) = rip).
  { unfold same_va_st, same_va in Hva. rewrite Hva. change (st_u st1) with u1. by rewrite E1. }
  destruct r as [v|e|t]; [| |done].
  - change (tr_step _) with st2.
    change (with_step st2 (with_step st1 s1)) with
      (with_cache p (set_frames (<[Z.to_nat slot := unknown_frame rip]> c.(frames)) c) (with_step st2 s)).
    rewrite Hput. destruct (v =? 0).
    + rewrite (get_frame_eval _ _ _ _ _ (with_cache_at p _ (with_step st2 s)))
        by (lia || apply list_lookup_insert_eq; lia). rewrite Hput.
      by exists st2, (set_last_frame (-1) st2.(st_u).(cur).(frame_info)).
    + by exists st2, st2.(st_u).(cur).(frame_info).
  - by exists st2, (unknown_frame rip).
Qed.

(** The free slot a probe for [rip] ends at. *)
Definition free_slot (fs : list unw_tdep_frame_t) (rip : Z) (i : nat) : Prop :=
  ∃ k g, (k < 16)%nat ∧ fs !! i = Some g ∧ g.(virtual_address) = 0 ∧
    let p := probe_at (Z.of_nat (length fs)) (trace_slot rip (Z.of_nat (length fs))) in
    Z.of_nat i = p k ∧ ∀ j, (j < k)%nat → taken fs rip (p j).

Definition fill (i : nat) (f : unw_tdep_frame_t) (c : unw_trace_cache_t) : unw_trace_cache_t :=
  set_frames (<[i := f]> c.(frames)) (set_used (u64 (c.(used) + 1)) c).

(** The map with an entry for the address of [f]. *)
Definition adds (fs fs' : list unw_tdep_frame_t) (f : unw_tdep_frame_t) : Prop :=
  ∀ r, r ≠ 0 → known fs' r = if decide (r = f.(virtual_address)) then Some f else known fs r.

Lemma fill_ok c i f :
  cache_ok c → free_slot c.(frames) f.(virtual_address) i → f.(virtual_address) ≠ 0 →
  c.(used) < 2 ^ c.(log_size) / 2 →
  cache_ok (fill i f c) ∧ adds c.(frames) (fill i f c).(frames) f.
Proof.
  intros [Hlog Hsz [Hu Hu2] Hr] (k & g & Hk & Hi & Hg & Ep & Hp) Hf Hlt.
  assert (Hr' : reachable (<[i:=f]> c.(frames))) by (by eapply reachable_insert).
  split; [split|]; cbn [fill set_frames set_used frames log_size used].
  - done.
  - by rewrite length_insert.
  - assert (2 ^ c.(log_size) ≤ 2 ^ 31) by (apply Z.pow_le_mono_r; lia).
    assert (2 ^ c.(log_size) / 2 ≤ 2 ^ 31 / 2) by (apply Z.div_le_mono; lia).
    change (2 ^ 31 / 2) with 1073741824 in *. rewrite u64_small by (unfold is_u64; lia).
    rewrite (in_use_insert _ _ _ g) by done. lia.
  - done.
  - intros r Hr0. by eapply known_insert.
Qed.

Lemma shl_1u_ok n : 0 ≤ n < 32 → shl_1u n = Ok (2 ^ n).
Proof.
  intros Hn. unfold shl_1u. rewrite (proj2 (Z.leb_le _ _)), (proj2 (Z.ltb_lt _ _)) by lia.
  by rewrite Z.shiftl_1_l.
Qed.

Lemma put_cache_eval p c s : on_glob (put_cache p c) s = (Ok tt, with_cache p c s).
Proof. reflexivity. Qed.

(** The state with another state of the allocator. *)
Definition with_mem (t : T) s : trace_state P T :=
  TraceState s.(tr_step)
    (TraceGlobals t s.(tr_glob).(trace_cache_once_happen) s.(tr_glob).(tls_cache)
       s.(tr_glob).(tls_cache_destroyed) s.(tr_glob).(global_cache) s.(tr_glob).(caches)) s.(tr_buffer).

Lemma expand_spec p c s :
  cache_at s p c → cache_ok c →
  match on_glob (trace_cache_expand p) s with
  | (Ok _, s') => c.(log_size) + 2 < 32 ∧ ∃ t,
      s' = with_cache p (TraceCache (replicate (Z.to_nat (2 ^ (c.(log_size) + 2))) empty_frame)
                           (c.(log_size) + 2) 0 c.(dtor_count)) (with_mem t s)
  | (Err _, s') => ∃ t, s' = with_mem t s
  | (Stop _, _) => True
  end.
Proof.
  intros Hc [Hlog _ _ _]. unfold HASH_MIN_BITS in Hlog. unfold on_glob, trace_cache_expand, get_cache. mred.
  rewrite Hc. rewrite u64_small by (unfold is_u64; lia).
  unfold shl_1u. destruct (Z.leb_spec 0 (c.(log_size) + 2)); [|lia].
  destruct (Z.ltb_spec (c.(log_size) + 2) 32); [|done]. cbn [andb]. rewrite Z.shiftl_1_l.
  unfold trace_cache_buckets, on_tg_mem. mred.
  destruct (cache_malloc _ _) as [[a|e|t] t']; [| |done].
  - destruct (negb (a =? 0)); [|by exists t']. split; [done|]. by exists t'.
  - by exists t'.
Qed.

(** What a lookup of [rip] in the cache [c] at [p] leaves. *)
Definition lookup_result (p rip : Z) (c : unw_trace_cache_t) s (r : res (option Z)) s' : Prop :=
  match r with
  | Ok (Some slot) => ∃ c' f, cache_at s' p c' ∧ cache_ok c' ∧ aread c'.(frames) slot = Ok f ∧
      f.(virtual_address) = rip ∧
      match known c.(frames) rip with
      | Some f0 => s' = s ∧ f = f0
      | None => adds c.(frames) c'.(frames) f ∧ c'.(log_size) = c.(log_size) ∨
                adds [] c'.(frames) f ∧ c'.(log_size) = c.(log_size) + 2
      end
  | Ok None => known c.(frames) rip = None ∧ s'.(tr_step) = s.(tr_step) ∧ cache_at s' p c
  | Err _ => False
  | Stop _ => True
  end.

(** Filling in a free slot. *)
Lemma fill_slot fuel ds p c i new_cfa rip rbp rsp s :
  cache_at s p c → cache_ok c → free_slot c.(frames) rip i → rip ≠ 0 →
  c.(used) < 2 ^ c.(log_size) / 2 →
  match trace_fill fuel ds p (Z.of_nat i) 0 new_cfa rip rbp rsp s with
  | (Ok _, s') => ∃ c' f, cache_at s' p c' ∧ cache_ok c' ∧ aread c'.(frames) (Z.of_nat i) = Ok f ∧
      f.(virtual_address) = rip ∧ adds c.(frames) c'.(frames) f ∧ c'.(log_size) = c.(log_size)
  | (Err _, _) => False
  | (Stop _, _) => True
  end.
Proof.
  intros Hc Hok Hfree H0 Hu. unfold trace_fill. cbn [Z.eqb]. mred.
  rewrite (get_cache_eval _ _ _ Hc), put_cache_eval. set (s1 := with_cache p _ s).
  pose proof Hfree as (k & g & _ & Hi & _). pose proof (lookup_lt_Some _ _ _ Hi).
  pose proof (trace_init_addr_spec fuel ds p (set_used (u64 (c.(used) + 1)) c) (Z.of_nat i) new_cfa rip
    rbp rsp s1 (with_cache_at _ _ _) ltac:(cbn [frames set_used]; lia)) as H'.
  destruct (trace_init_addr _ _ _ _ _ _ _ _ s1) as [[[]|e|t] s2]; [|done..].
  destruct H' as (st & f & <- & ->). exists (fill i f c), f.
  destruct (fill_ok c i f Hok Hfree H0 Hu) as [Hok' Hadd]. rewrite Nat2Z.id.
  split_and!; [apply with_cache_at|done| |done|done|done].
  apply aread_lookup. apply list_lookup_insert_eq. done.
Qed.

(** A probe that ends at a description for [rip], or without one. *)
Lemma probe_known fs rip k f :
  reachable fs → rip ≠ 0 →
  let p := probe_at (Z.of_nat (length fs)) (trace_slot rip (Z.of_nat (length fs))) in
  aread fs (p k) = Ok f → f.(virtual_address) = rip → known fs rip = Some f.
Proof.
  intros Hr H0 p Hf <-. unfold aread in Hf. destruct (Z.ltb_spec (p k) 0); [done|].
  destruct (fs !! Z.to_nat (p k)) eqn:E; [|done]. injection Hf as ->. by eapply known_intro.
Qed.

Lemma probe_unknown fs rip (n : nat) :
  reachable fs → rip ≠ 0 →
  let p := probe_at (Z.of_nat (length fs)) (trace_slot rip (Z.of_nat (length fs))) in
  (∀ j, (j < n)%nat → taken fs rip (p j)) →
  n = 16%nat ∨ (∃ f, aread fs (p n) = Ok f ∧ f.(virtual_address) = 0) → known fs rip = None.
Proof.
  intros Hr H0 p Ht Hend. destruct (known fs rip) as [f|] eqn:E; [|done].
  apply known_Some in E as [Hf [i Hi]]. destruct (Hr i f Hi) as (k & Hk & Ek & Hkt); [by rewrite Hf|].
  rewrite Hf in Ek, Hkt. fold p in Ek. change (Z.of_nat i = p k) in Ek.
  assert (Hrd : aread fs (p k) = Ok f) by (rewrite <- Ek; by apply aread_lookup).
  destruct (Nat.lt_trichotomy k n) as [Hlt|[->|Hlt]].
  - destruct (Ht k Hlt) as (g & Hg & _ & Hne). congruence.
  - destruct Hend as [->|(g & Hg & Hg0)]; [lia|]. congruence.
  - destruct Hend as [->|(g & Hg & Hg0)]; [lia|].
    destruct (Hkt n Hlt) as (h & Hh & Hh0 & _). change (aread fs (p n) = Ok h) in Hh. congruence.
Qed.

Lemma free_slot_empty n rip :
  (0 < n)%nat → 0 ≤ trace_slot rip (Z.of_nat n) < Z.of_nat n →
  free_slot (replicate n empty_frame) rip (Z.to_nat (trace_slot rip (Z.of_nat n))).
Proof.
  intros Hn Hs. exists 0%nat, empty_frame. rewrite length_replicate. cbv zeta. split_and!; [lia| |done| |lia].
  - apply lookup_replicate. split; [done|lia].
  - rewrite probe_0 by done. lia.
Qed.

(** The new table is empty. *)
Lemma make_room_spec p c rip s :
  cache_at s p c → cache_ok c →
  match trace_make_room p rip s with
  | (Ok (Some (slot, addr)), s') => ∃ c' i, cache_at s' p c' ∧ cache_ok c' ∧ addr = 0 ∧
      slot = Z.of_nat i ∧ free_slot c'.(frames) rip i ∧ c'.(used) < 2 ^ c'.(log_size) / 2 ∧
      c'.(log_size) = c.(log_size) + 2 ∧ ∀ r, r ≠ 0 → known c'.(frames) r = None
  | (Ok None, s') => s'.(tr_step) = s.(tr_step) ∧ cache_at s' p c
  | (Err _, _) => False
  | (Stop _, _) => True
  end.
Proof.
  intros Hc Hok. pose proof (expand_spec p c s Hc Hok) as He. destruct Hok as [Hlog _ _ _].
  unfold HASH_MIN_BITS in Hlog. unfold trace_make_room, try. mred.
  destruct (on_glob (trace_cache_expand p) s) as [[[]|e|t] s1]; [| |done].
  2: { destruct He as [t ->]. done. }
  destruct He as (Hn & t & ->). set (n := c.(log_size) + 2) in *. set (s1 := with_mem t s).
  set (c' := TraceCache _ n 0 c.(dtor_count)).
  assert (Hn2 : 2 ^ 2 ≤ 2 ^ n) by (apply Z.pow_le_mono_r; lia).
  rewrite (get_cache_eval _ p c' (with_cache_at _ _ _)). cbn [c' log_size]. rewrite shl_1u_ok by lia.
  pose proof (trace_slot_range rip n ltac:(lia)) as Hs.
  rewrite (get_frame_eval _ p c' _ empty_frame (with_cache_at _ _ _)); [|lia|].
  2: { apply lookup_replicate. split; [done|]. lia. }
  exists c', (Z.to_nat (trace_slot rip (2 ^ n))). cbn [c' used log_size frames].
  assert (Hsz : Z.of_nat (Z.to_nat (2 ^ n)) = 2 ^ n) by lia.
  split_and!.
  - apply with_cache_at.
  - apply empty_cache_ok. unfold HASH_MIN_BITS. lia.
  - done.
  - lia.
  - rewrite <- Hsz at 2. apply free_slot_empty; rewrite ?Hsz; lia.
  - change (2 ^ 2) with 4 in Hn2. assert (4 / 2 ≤ 2 ^ n / 2) by (by apply Z.div_le_mono).
    change (4 / 2) with 2 in *. lia.
  - done.
  - intros r Hr. by apply known_empty.
Qed.

Lemma trace_lookup_spec fuel ds p c new_cfa rip rbp rsp s :
  cache_at s p c → cache_ok c → rip ≠ 0 →
  let '(r, s') := trace_lookup fuel ds p new_cfa rip rbp rsp s in lookup_result p rip c s r s'.
Proof.
  intros Hc Hok H0. pose proof Hok as [Hlog Hsz [_ Hu] Hr]. unfold HASH_MIN_BITS in Hlog.
  pose proof (trace_slot_range rip c.(log_size) ltac:(lia)) as Hslot.
  assert (Hroom : known c.(frames) rip = None →
    let '(r, s') := (ret ← trace_make_room p rip;
       match ret with
       | None => mret None
       | Some (slot, addr) => trace_fill fuel ds p slot addr new_cfa rip rbp rsp;; mret (Some slot)
       end) s in lookup_result p rip c s r s').
  { intros Hnone. mred. pose proof (make_room_spec p c rip s Hc Hok) as Hm.
    destruct (trace_make_room p rip s) as [[[[slot addr]|]|e|t] s1]; [|by destruct Hm|done..].
    destruct Hm as (c1 & i & Hc1 & Hok1 & -> & -> & Hfree & Hu1 & Hl1 & Hk1).
    pose proof (fill_slot fuel ds p c1 i new_cfa rip rbp rsp s1 Hc1 Hok1 Hfree H0 Hu1) as Hf.
    destruct (trace_fill _ _ _ _ _ _ _ _ _ s1) as [[[]|e|t] s2]; [|done..].
    destruct Hf as (c' & f & ? & ? & ? & Hva & Hadd & Hl). exists c', f. rewrite Hnone.
    split_and!; [done..|]. right. split; [|congruence]. intros r Hr0. rewrite Hadd, Hk1 by done. done. }
  unfold trace_lookup. mred_in Hroom. mred. rewrite (get_cache_eval _ _ _ Hc), shl_1u_ok by lia.
  rewrite <- Hsz in *.
  destruct (trace_probe_spec c.(frames) rip 16 _ 0 0 Hslot)
    as [(k & f & Hk & Ht & Hf & [[Hfr E]|(Hf0 & _ & E)])|(Ht & fr & ad & E & Had & _)];
    rewrite E.
  - exists c, f. rewrite (probe_known c.(frames) rip k f) by done. by split_and!.
  - assert (Hnone : known c.(frames) rip = None) by (eapply (probe_unknown _ _ k); eauto).
    set (sl := probe_at _ _ k) in *.
    assert (Hsl : 0 ≤ sl < Z.of_nat (length c.(frames))) by (apply probe_range; lia).
    assert (Hfree : free_slot c.(frames) rip (Z.to_nat sl)).
    { exists k, f. cbv zeta. split_and!; [done| |done|by rewrite Z2Nat.id by lia|done].
      unfold aread in Hf. destruct (Z.ltb_spec sl 0); [lia|]. by destruct (c.(frames) !! _); simplify_eq. }
    cbn [Z.eqb negb orb]. destruct (Z.leb_spec (Z.of_nat (length c.(frames)) / 2) c.(used)) as [Hfull|Hfit].
    + by apply Hroom.
    + pose proof (fill_slot fuel ds p c (Z.to_nat sl) new_cfa rip rbp rsp s Hc Hok Hfree H0
        ltac:(by rewrite <- Hsz)) as H'. rewrite Z2Nat.id in H' by lia.
      destruct (trace_fill _ _ _ _ _ _ _ _ _ s) as [[[]|e|t] s2]; [|done..].
      destruct H' as (c' & f' & ? & ? & ? & ? & ? & ?). exists c', f'. rewrite Hnone.
      split_and!; [done..|]. by left.
  - assert (Hnone : known c.(frames) rip = None) by (eapply (probe_unknown _ _ 16); eauto).
    rewrite (proj2 (Z.eqb_neq ad 0)) by (by apply Had). cbn [negb orb]. by apply Hroom.
Qed.
End lookup.

(** ** Standard frames *)

Lemma andm_true b r : andm b r = Ok true → b = true ∧ r = Ok true.
Proof. by destruct b. Qed.

(** A register a standard frame leaves alone, or saves at an offset that is not
    the mark of an unsaved one. *)
Lemma stash_reg_cases r :
  stash_reg_ok r = Ok true →
  r.(where_) = DWARF_WHERE_UNDEF ∨ r.(where_) = DWARF_WHERE_SAME ∨
  r.(where_) = DWARF_WHERE_CFAREL ∧ s64 r.(sl_val) ≠ -1.
Proof.
  unfold stash_reg_ok, orm. case_bool_decide; [by left|]. case_bool_decide; [by right; left|].
  intros [Hc Hl]%andm_true. case_bool_decide; [|done]. right. right. split; [done|]. intros Hs.
  assert (Hz : u64 (r.(sl_val) + 1) = 0) by (rewrite <- u64_add_l, <- (u64_s64 r.(sl_val)), Hs; reflexivity).
  revert Hl. unfold labs. rewrite Hs, Hz. discriminate.
Qed.

Lemma is_standard_inv c rs rules creg w off :
  rs.(rs_reg) = rules ++ [SaveLoc DWARF_WHERE_REG creg; SaveLoc w off] → length rules = 17%nat →
  is_standard_frame c rs = Ok true →
  (creg = RBP ∨ creg = RSP) ∧
  aread c.(dwarf).(loc) c.(dwarf).(ret_addr_column) = Ok (u64 (c.(dwarf).(cfa) - 8)) ∧
  ∃ r, rules !! 6%nat = Some r ∧ stash_reg_ok r = Ok true.
Proof.
  intros Hrs Hlen. unfold is_standard_frame. rewrite Hrs.
  change DWARF_CFA_REG_COLUMN with (Z.of_nat 17). change DWARF_CFA_OFF_COLUMN with (Z.of_nat 18).
  rewrite (aread_lookup _ 17 (SaveLoc DWARF_WHERE_REG creg)) by (rewrite lookup_app_r by lia; by rewrite Hlen).
  rewrite (aread_lookup _ 18 (SaveLoc w off)) by (rewrite lookup_app_r by lia; by rewrite Hlen).
  mred. cbn [where_ sl_val]. intros [_ Hs]%andm_true. apply andm_true in Hs as [_ Hs].
  apply andm_true in Hs as [Hreg Hs]. destruct (labs off) as [a| |]; [|done..].
  apply andm_true in Hs as [_ Hs]. destruct (aread c.(dwarf).(loc) _) as [ra| |]; [|done..].
  apply andm_true in Hs as [->%Z.eqb_eq Hs]. split; [|split; [done|]].
  - apply orb_true_iff in Hreg as [->%Z.eqb_eq| ->%Z.eqb_eq]; tauto.
  - destruct (lookup_lt_is_Some_2 rules 6) as [r Hr]; [lia|]. exists r. split; [done|]. revert Hs.
    change RBP with (Z.of_nat 6). rewrite (aread_lookup _ 6 r) by (by apply lookup_app_l_Some).
    destruct (stash_reg_ok r) as [[]| |]; [done|by intros []%andm_true..|done|done].
Qed.

Lemma advance_standard_eval f r s new_ip c rbp' :
  s.(cur).(validate) = false →
  c = u64 ((if negb (f.(cfa_reg_rsp) =? 0) then r.(tr_rsp) else r.(tr_rbp)) + f.(cfa_reg_offset)) →
  load 8 s.(mach).(mem) (u64 (c - 8)) = Ok new_ip →
  (if f.(rbp_cfa_offset) =? -1 then rbp' = r.(tr_rbp)
   else load 8 s.(mach).(mem) (u64 (c + f.(rbp_cfa_offset))) = Ok rbp') →
  advance_standard f r s =
    (Ok (inl 0, TraceRegs new_ip c rbp' c), on_dwarf (set_use_prev_instr true) s).
Proof.
  intros Hv Hc Hip Hbp. unfold advance_standard, ACCESS_MEM_FAST, load_word, upd_dwarf. mred.
  rewrite Hv, <- Hc, Hip. cbn [is_err negb andb].
  destruct (f.(rbp_cfa_offset) =? -1); cbn [negb]; [by rewrite Hbp|by rewrite Hbp].
Qed.

(** What a trace computes from a standard frame is what the step computed. *)
Lemma standard_frame_spec fuel rs d w s base ra_loc new_ip v rbp :
  rs.(rs_reg) = d.(rd_rules) ++ [SaveLoc DWARF_WHERE_REG d.(rd_cfa_reg); SaveLoc w d.(rd_cfa_off)] →
  row_ok d → lga_ok s.(mach) → length s.(cur).(dwarf).(loc) = 17%nat →
  readable s d.(rd_cfa_reg) → reg_value s d.(rd_cfa_reg) = Ok base →
  let c := u64 (base + d.(rd_cfa_off)) in
  let x := row_cursor d s.(cur).(uc) c new_ip s.(cur).(dwarf) in
  aread x.(loc) x.(ret_addr_column) = Ok ra_loc → word_at s.(mach).(mem) ra_loc new_ip →
  ¬ (new_ip = s.(cur).(dwarf).(ip) ∧ c = s.(cur).(dwarf).(cfa)) →
  s.(cur).(dwarf).(stash_frames) = true → s.(cur).(validate) = false →
  s.(cur).(frame_info) = unknown_frame v → is_standard_frame (set_dwarf x s.(cur)) rs = Ok true →
  reg_value s RBP = Ok rbp →
  ∃ s', apply_reg_state fuel rs s = (Ok tt, s') ∧ s'.(cur).(dwarf) = x ∧
    ∀ rbp', reg_value s' RBP = Ok rbp' →
      trace_advance s'.(cur).(frame_info)
        (TraceRegs v s.(cur).(dwarf).(cfa) rbp s.(cur).(dwarf).(cfa)) s' =
      (Ok (inl 0, TraceRegs new_ip c rbp' c), on_dwarf (set_use_prev_instr true) s').
Proof.
  intros Hrs Hd Hg Hll Hrd Hb c x Hra [Hp Hl] Hmv Hst Hv Hf Hstd Hbp.
  destruct (apply_row fuel rs d w s base ra_loc new_ip Hrs Hd Hg Hll Hrd Hb Hra (or_intror (conj Hp Hl)))
    as (s1 & E & Hc1 & Hm1 & _).
  fold c x in E, Hc1. rewrite Hst in E.
  assert (Hsame : (new_ip =? s.(cur).(dwarf).(ip)) && (c =? s.(cur).(dwarf).(cfa)) = false).
  { destruct (Z.eqb_spec new_ip s.(cur).(dwarf).(ip)), (Z.eqb_spec c s.(cur).(dwarf).(cfa)); tauto. }
  rewrite Hsame in E. pose proof Hd as (Hlen & _ & _).
  destruct (is_standard_inv _ _ _ _ _ _ Hrs Hlen Hstd) as (Hreg & Hra' & r & Hr & Hok).
  change (aread x.(loc) x.(ret_addr_column) = Ok (u64 (c - 8))) in Hra'.
  rewrite Hra in Hra'. injection Hra' as ->.
  destruct (lookup_lt_is_Some_2 d.(rd_rules) 7) as [sp Hsp]; [lia|].
  set (f := standard_frame (unknown_frame v) (SaveLoc DWARF_WHERE_REG d.(rd_cfa_reg))
              (SaveLoc w d.(rd_cfa_off)) r sp).
  set (s' := set_cur (set_frame_info f (set_dwarf x s.(cur))) s1).
  assert (Est : tdep_stash_frame rs s1 = (Ok tt, s')).
  { unfold tdep_stash_frame, upd_cur. mred. rewrite Hc1, Hstd, Hrs.
    change DWARF_CFA_REG_COLUMN with (Z.of_nat 17). change DWARF_CFA_OFF_COLUMN with (Z.of_nat 18).
    change RBP with (Z.of_nat 6). change RSP with (Z.of_nat 7).
    rewrite (aread_lookup _ 17 (SaveLoc DWARF_WHERE_REG d.(rd_cfa_reg))),
      (aread_lookup _ 18 (SaveLoc w d.(rd_cfa_off)))
      by (rewrite lookup_app_r by lia; by rewrite Hlen).
    rewrite (aread_lookup _ 6 r), (aread_lookup _ 7 sp) by (by apply lookup_app_l_Some).
    unfold s', f. rewrite <- Hf, Hc1. reflexivity. }
  rewrite Est in E. exists s'. split; [exact E|]. split; [reflexivity|]. intros rbp' Hbp'.
  change (trace_advance (frame_info (cur s')) (TraceRegs v s.(cur).(dwarf).(cfa) rbp s.(cur).(dwarf).(cfa)) s')
    with (advance_standard f (TraceRegs v s.(cur).(dwarf).(cfa) rbp s.(cur).(dwarf).(cfa)) s').
  apply advance_standard_eval.
  - done.
  - cbn [f standard_frame cfa_reg_rsp cfa_reg_offset sl_val tr_rsp tr_rbp].
    rewrite <- u64_add_r, u64_s64, u64_add_r. unfold c. f_equal. f_equal.
    destruct Hreg as [Hreg|Hreg]; rewrite Hreg in Hb |- *.
    + change (RBP =? RSP) with false. cbn [Z.eqb negb]. congruence.
    + change (RSP =? RSP) with true. cbn [Z.eqb negb]. by injection Hb as <-.
  - change (mem (mach s')) with (mem (mach s1)). by rewrite Hm1.
  - destruct (lookup_lt_is_Some_2 s.(cur).(dwarf).(loc) 6) as [old Hold]; [lia|].
    assert (Hx6 : aread x.(loc) RBP = Ok (rule_loc c s.(cur).(uc) old r)).
    { change RBP with (Z.of_nat 6). apply aread_lookup. unfold x, row_cursor.
      change (loc (set_ip _ _)) with (zip_with (rule_loc c s.(cur).(uc)) s.(cur).(dwarf).(loc) d.(rd_rules)).
      by rewrite lookup_zip_with, Hold, Hr. }
    assert (Hs6 : aread s.(cur).(dwarf).(loc) RBP = Ok old) by (by apply (aread_lookup _ 6)).
    revert Hbp' Hbp. unfold reg_value. cbn [Z.eqb Pos.eqb RBP RIP RSP RAX RDX andb].
    change (loc (dwarf (cur s'))) with x.(loc). change (mem (mach s')) with (mem (mach s1)).
    rewrite Hm1, Hx6, Hs6. mred. unfold rule_loc.
    cbn [f standard_frame rbp_cfa_offset tr_rbp].
    destruct (stash_reg_cases r Hok) as [Hw|[Hw|[Hw Hne]]]; rewrite Hw; [done| |].
    + rewrite decide_False by done. cbn [unknown_frame rbp_cfa_offset]. cbn [Z.eqb Pos.eqb].
      destruct (old =? 0); [done|]. congruence.
    + rewrite decide_True by done. rewrite (proj2 (Z.eqb_neq _ _) Hne).
      rewrite <- (u64_add_r c (s64 _)), u64_s64, u64_add_r.
      destruct (u64 (c + sl_val r) =? 0); [done|]. by intros ->.
Qed.

(** ** Guessed frames *)

(** A guessed frame is traced one word too high: the word RBP points to is taken
    for the return address, and the return address for the saved RBP. *)
Lemma advance_guessed f rbp saved ra v rsp c s m :
  lga_ok s.(mach) → s.(mach).(mem) = m → is_u64 rbp →
  word_at m rbp saved → word_at m (u64 (rbp + 8)) ra →
  ∃ s', trace_advance (guessed_frame f) (TraceRegs v rsp rbp c) s =
    (Ok (inl 0, TraceRegs saved (u64 (rbp + 8)) ra (u64 (rbp + 8))), s').
Proof.
  intros Hg Hm Hu Hs Hr. unfold trace_advance. cbn [guessed_frame frame_type].
  change (UNW_X86_64_FRAME_GUESSED =? UNW_X86_64_FRAME_GUESSED) with true.
  unfold advance_standard, ACCESS_MEM_FAST, upd_cur, upd_dwarf, try. mred.
  cbn [guessed_frame cfa_reg_rsp cfa_reg_offset rbp_cfa_offset tr_rbp Z.eqb negb].
  replace (u64 (u64 (rbp + 8) - 8)) with rbp
    by (unfold Z.sub; rewrite u64_add_l; replace (rbp + 8 + - (8)) with rbp by lia; by rewrite u64_small).
  rewrite Z.add_0_r, u64_idemp. set (s0 := set_cur _ s). change (validate (cur s0)) with true.
  destruct (get_word_mem rbp saved s0 m Hg Hm Hs) as (s1 & E1 & [Hc1 Hm1] & Hg1).
  rewrite E1. cbn [is_err negb andb].
  destruct (get_word_mem (u64 (rbp + 8)) ra s1 m Hg1 (eq_trans Hm1 Hm) Hr) as (s2 & E2 & _).
  rewrite E2. by eexists.
Qed.

(** ** The caller's buffer *)

Section buffer.
Context {P T : Type} `{!PoolOps P, !LinkerOps P, !CacheMem T} {SC : StringConstants}.

(** The entries from [size] on are as they were. *)
Definition buffer_upto (size : Z) (s s' : trace_state P T) : Prop :=
  length s'.(tr_buffer) = length s.(tr_buffer) ∧
  ∀ i, size ≤ Z.of_nat i → s'.(tr_buffer) !! i = s.(tr_buffer) !! i.

#[export] Instance buffer_upto_preorder size : PreOrder (buffer_upto size).
Proof.
  split; [by split|]. intros s1 s2 s3 [H1 H2] [H3 H4]. split; [congruence|].
  intros i Hi. by rewrite H4, H2.
Qed.

Context (size : Z).

Lemma keeps_on_step {A} (f : M (step_state P) A) : keeps (buffer_upto size) (on_step f).
Proof. intros s. unfold on_step. by destruct (f _). Qed.

Lemma keeps_on_glob {A} (f : M (trace_globals T) A) : keeps (buffer_upto size) (on_glob f).
Proof. intros s. unfold on_glob. by destruct (f _). Qed.
Hint Resolve keeps_on_step keeps_on_glob : keeps.

Lemma keeps_on_tu {A} (f : M ustate A) : keeps (buffer_upto size) (on_tu f).
Proof. apply keeps_on_step. Qed.
Hint Resolve keeps_on_tu : keeps.

Lemma keeps_trace_lookup fuel ds cache cfa rip rbp rsp :
  keeps (buffer_upto size) (trace_lookup fuel ds cache cfa rip rbp rsp).
Proof.
  unfold trace_lookup, trace_make_room, trace_fill, trace_init_addr, get_frame, put_frame. keep.
Qed.

Lemma keeps_get_frame cache slot : keeps (buffer_upto size) (get_frame cache slot).
Proof. unfold get_frame. keep. Qed.

Lemma keeps_put_buffer i v : i < size → keeps (buffer_upto size) (put_buffer i v).
Proof.
  intros Hi s. unfold put_buffer. mred. destruct (awrite _ _ _) as [b| |] eqn:E; [|reflexivity..].
  split; cbn [snd tr_buffer]; [by eapply length_awrite|]. intros j Hj. revert E. unfold awrite.
  destruct (Z.ltb_spec i 0); [done|]. cbn [orb]. destruct (_ <=? i); [done|]. intros [= <-].
  apply list_lookup_insert_ne. lia.
Qed.
Hint Resolve keeps_trace_lookup keeps_get_frame : keeps.

Lemma keeps_trace_loop fuel ds cache : ∀ n depth ret r,
  depth + Z.of_nat n ≤ size → keeps (buffer_upto size) (trace_loop fuel ds n cache depth ret r).
Proof.
  induction n as [|n IH]; intros depth ret r Hd; cbn [trace_loop]; keep.
  - apply keeps_put_buffer. lia.
  - apply IH. lia.
Qed.

Lemma keeps_slow_loop fuel ds : ∀ n' n, keeps (buffer_upto size) (slow_backtrace_loop fuel ds n' size n).
Proof.
  induction n' as [|n' IH]; intros n; cbn [slow_backtrace_loop]; [by intros s|].
  destruct (Z.leb_spec size n); keep; by apply keeps_put_buffer.
Qed.

Lemma keeps_tdep_trace fuel ds : keeps (buffer_upto size) (tdep_trace fuel ds size).
Proof.
  unfold tdep_trace. destruct (Z.leb_spec size 0); [keep|]. keep. apply keeps_trace_loop. lia.
Qed.

Lemma keeps_unw_backtrace fuel ds gct gc junk junk' uc :
  keeps (buffer_upto size) (unw_backtrace fuel ds gct gc junk junk' uc size).
Proof.
  pose proof keeps_tdep_trace. pose proof keeps_slow_loop.
  unfold unw_backtrace, slow_backtrace. keep; auto.
Qed.

(** The numbers of entries. *)
Lemma trace_loop_count fuel ds cache : ∀ n depth ret r (s s' : trace_state P T) x d,
  trace_loop fuel ds n cache depth ret r s = (Ok (x, d), s') → depth ≤ d ≤ depth + Z.of_nat n.
Proof.
  induction n as [|n IH]; intros depth ret r s s' x d; cbn [trace_loop].
  { intros [= _ <- _]. lia. }
  intros (dw & s1 & _ & H)%bind_ok. apply bind_ok in H as (slot & s2 & _ & H).
  destruct slot as [slot|]; [|injection H as _ <- _; lia].
  apply bind_ok in H as (f & s3 & _ & H). destruct (negb (_ =? _)); [done|].
  destruct (negb _); [injection H as _ <- _; lia|].
  apply bind_ok in H as ([ret' r'] & s4 & _ & H).
  destruct (_ || _); [injection H as _ <- _; lia|].
  apply bind_ok in H as (d' & s5 & _ & H). apply bind_ok in H as ([] & s6 & _ & H).
  apply IH in H. lia.
Qed.

Lemma slow_loop_count fuel ds : ∀ n' n (s s' : trace_state P T) r,
  slow_backtrace_loop fuel ds n' size n s = (Ok r, s') → n ≤ r ≤ Z.max n size.
Proof.
  induction n' as [|n' IH]; intros n s s' r; cbn [slow_backtrace_loop]; [done|].
  intros (v & s1 & _ & H)%bind_ok. destruct (negb _); [injection H as <- _; lia|].
  destruct (Z.leb_spec size n); [injection H as <- _; lia|].
  apply bind_ok in H as ([i|e] & s2 & _ & H); [|injection H as <- _; lia].
  apply bind_ok in H as ([] & s3 & _ & H). apply IH in H. lia.
Qed.
End buffer.

(** ** Properties *)

(** C33. The hash table of frame descriptions is a map from addresses: looking up
    one it has returns its slot and changes nothing; looking up another steps the
    cursor once and adds the description, to the same table or, when 16 probes
    met other addresses or the table is half full, to an empty one four times as
    large.  The count of used slots is exact and every entry stays within 16
    probes. *)
Theorem trace_lookup_refines (P T : Type) `(HPO : PoolOps P) `(HLO : LinkerOps P) `(HC : CacheMem T)
    (SC : StringConstants) (fuel : nat) (ds : dyn_state) (p : Z) (c : unw_trace_cache_t)
    (new_cfa rip rbp rsp : Z) (s : trace_state P T) :
  cache_at s p c → cache_ok c → rip ≠ 0 →
  let '(r, s') := trace_lookup fuel ds p new_cfa rip rbp rsp s in lookup_result p rip c s r s'.
Proof. apply trace_lookup_spec. Qed.

(** The kernel's [bump] allocator for the caches. *)
#[export] Instance bump_cache : CacheMem bump := {|
  cache_pool_init := mret tt;
  cache_alloc := pool_alloc;
  cache_free := pool_free;
  cache_malloc _ := pool_alloc
|}.

(** The code of [example_module_mem] with a machine context at 0x10000. *)
Definition example_regs (r : Z) : Z :=
  if r =? RIP then 0x1130 else if r =? RBP then 0x8010 else if r =? RSP then 0x8008 else 0.

Definition example_trace_mem : memory :=
  foldr (λ i m, put_bytes m (x86_64_r_uc_addr example_context (Z.of_nat i))
                  (le_bytes 8 (example_regs (Z.of_nat i)))) example_module_mem (seq 0 17).

Definition example_cache : unw_trace_cache_t :=
  TraceCache (replicate (Z.to_nat (2 ^ 14)) empty_frame) 14 0 0.

Definition example_trace (c : cursor) (caches : gmap Z unw_trace_cache_t) : trace_state bump bump :=
  TraceState (StepState (UState (Machine example_trace_mem [0; 0; 0; 0] 0) c) (Bump 0x9000))
    (TraceGlobals (Bump 0xa000) false 0 false 0 caches) [7; 7; 7].

Definition example_start : trace_state bump bump :=
  example_trace (snd (unw_init_local example_context
    (UState (Machine example_trace_mem [0; 0; 0; 0] 0) (zero_cursor 0)))).(cur) {[0x7000 := example_cache]}.

Lemma trace_lookup_refines_witness :
  match @trace_lookup bump bump _ example_linker example_strings _ 10 no_descriptors 0x7000 0x8008 0x112f
          0x8010 0x8008 example_start with
  | (Ok (Some slot), s') => ∃ c f, cache_at s' 0x7000 c ∧ cache_ok c ∧ aread c.(frames) slot = Ok f ∧
      f.(virtual_address) = 0x112f
  | _ => False
  end.
Proof.
  assert (E : match (@trace_lookup bump bump _ example_linker example_strings _ 10 no_descriptors 0x7000
    0x8008 0x112f 0x8010 0x8008 example_start).1 with Ok (Some _) => true | _ => false end = true)
    by (vm_compute; reflexivity).
  pose proof (trace_lookup_refines bump bump bump_ops example_linker bump_cache example_strings 10
    no_descriptors 0x7000 example_cache 0x8008 0x112f 0x8010 0x8008 example_start) as Hl.
  specialize (Hl (lookup_singleton_eq _ _) (empty_cache_ok 14 0 ltac:(unfold HASH_MIN_BITS; lia)) ltac:(lia)).
  destruct (trace_lookup 10 no_descriptors _ _ _ _ _ example_start) as [[[slot|]|e|t] s'];
    try discriminate E.
  destruct Hl as (c & f & H1 & H2 & H3 & H4 & _). by exists c, f.
Defined.

(** C34. A trace through a standard frame agrees with the step: when
    [apply_reg_state] stashes the description of a row, the frame address, the
    return address and RBP that [tdep_trace] computes from the description are
    those of the stepped cursor. *)
Theorem standard_frame_agrees (fuel : nat) (rs : dwarf_reg_state_t) (d : row_desc)
    (w : dwarf_where_t) (s : ustate) (base ra_loc new_ip v rbp : Z) :
  rs.(rs_reg) = d.(rd_rules) ++ [SaveLoc DWARF_WHERE_REG d.(rd_cfa_reg); SaveLoc w d.(rd_cfa_off)] →
  row_ok d → lga_ok s.(mach) → length s.(cur).(dwarf).(loc) = 17%nat →
  readable s d.(rd_cfa_reg) → reg_value s d.(rd_cfa_reg) = Ok base →
  let c := u64 (base + d.(rd_cfa_off)) in
  let x := row_cursor d s.(cur).(uc) c new_ip s.(cur).(dwarf) in
  aread x.(loc) x.(ret_addr_column) = Ok ra_loc → word_at s.(mach).(mem) ra_loc new_ip →
  ¬ (new_ip = s.(cur).(dwarf).(ip) ∧ c = s.(cur).(dwarf).(cfa)) →
  s.(cur).(dwarf).(stash_frames) = true → s.(cur).(validate) = false →
  s.(cur).(frame_info) = unknown_frame v → is_standard_frame (set_dwarf x s.(cur)) rs = Ok true →
  reg_value s RBP = Ok rbp →
  ∃ s', apply_reg_state fuel rs s = (Ok tt, s') ∧ s'.(cur).(dwarf) = x ∧
    ∀ rbp', reg_value s' RBP = Ok rbp' →
      trace_advance s'.(cur).(frame_info)
        (TraceRegs v s.(cur).(dwarf).(cfa) rbp s.(cur).(dwarf).(cfa)) s' =
      (Ok (inl 0, TraceRegs new_ip c rbp' c), on_dwarf (set_use_prev_instr true) s').
Proof. apply standard_frame_spec. Qed.

(** The cursor of [example_row], called from a trace. *)
Definition example_stash_cursor : ustate :=
  on_dwarf (set_stash_frames true)
    (set_cur (set_frame_info (unknown_frame 0x1130) example_row_cursor.(cur)) example_row_cursor).

Lemma standard_frame_agrees_witness :
  ∃ s', apply_reg_state 10 example_row_state example_stash_cursor = (Ok tt, s') ∧
    trace_advance s'.(cur).(frame_info) (TraceRegs 0x1130 0x8008 0x8010 0x8008) s' =
      (Ok (inl 0, TraceRegs 0x1240 0x8020 0x8050 0x8020), on_dwarf (set_use_prev_instr true) s').
Proof.
  destruct (standard_frame_agrees 10 example_row_state example_row DWARF_WHERE_SAME example_stash_cursor
    0x8010 0x8018 0x1240 0x1130 0x8010) as (s' & E & Hx & Ht).
  - reflexivity.
  - split; [reflexivity|]. split; [|split; [discriminate|reflexivity]].
    repeat constructor; simpl; try discriminate.
  - split; [reflexivity|split; [discriminate|reflexivity]].
  - reflexivity.
  - intros _ l. intros [= <-]. vm_compute. discriminate.
  - vm_compute. reflexivity.
  - vm_compute. reflexivity.
  - decided.
  - intros [Hip _]. discriminate Hip.
  - reflexivity.
  - reflexivity.
  - reflexivity.
  - vm_compute. reflexivity.
  - vm_compute. reflexivity.
  - exists s'. split; [exact E|]. apply Ht.
    assert (Hm : (apply_reg_state 10 example_row_state example_stash_cursor).2.(mach).(mem) =
                 example_module_mem) by reflexivity.
    rewrite E in Hm. cbn [snd] in Hm. unfold reg_value. rewrite Hx, Hm. vm_compute. reflexivity.
Defined.

(** A guessed frame is described one word too high.  Where [unw_step] falls
    back on the frame RBP points to, it takes the word at RBP for the saved RBP
    and the next for the return address; [tdep_trace], following the description
    the step left, takes them for the return address and the saved RBP. *)
Lemma guessed_frame_swapped (s : ustate) (prev_ip prev_cfa w0 w1 w2 b0 rbp saved ra : Z) :
  lga_ok s.(mach) → s.(cur).(sigcontext_format) = X86_64_SCF_NONE →
  plain_code s.(mach).(mem) s.(cur).(dwarf).(ip) w0 w1 w2 b0 → rbp_chain s rbp saved ra →
  is_u64 rbp →
  ∃ s1 r s2, fall_back s = (Ok (Some (inl 0)), s1) ∧
    finish_fall_back prev_ip prev_cfa (inl 0) s1 = (r, s2) ∧
    s2.(cur).(dwarf).(ip) = ra ∧ reg_value s2 RBP = Ok saved ∧
    ∀ v rsp c, ∃ s3, trace_advance s2.(cur).(frame_info) (TraceRegs v rsp rbp c) s2 =
      (Ok (inl 0, TraceRegs saved (u64 (rbp + 8)) ra (u64 (rbp + 8))), s3).
Proof.
  intros Hg Hsf Hcode Hch Hu.
  destruct (fall_back_chain s prev_ip prev_cfa w0 w1 w2 b0 rbp saved ra Hg Hsf Hcode Hch)
    as (s1 & s2 & E1 & E2 & Hc & Hm & Hg2).
  eexists s1, _, s2. split; [exact E1|]. split; [exact E2|]. rewrite Hc. split; [done|].
  destruct Hch as [_ Hs Hr _ _]. split.
  - unfold reg_value. rewrite Hc, Hm.
    change (aread (loc (dwarf (chain_cursor _ _ _ _))) RBP) with (@Ok Z rbp).
    cbn [Z.eqb Pos.eqb RBP RIP RSP RAX RDX andb]. mred.
    rewrite (proj2 (Z.eqb_neq _ _) (word_at_loc _ _ _ Hs)). apply Hs.
  - intros v rsp c. eapply advance_guessed; [done|exact Hm|done|exact Hs|exact Hr].
Qed.

Lemma guessed_frame_swapped_witness :
  ∃ s1 r s2 s3, fall_back (example_walk 0x1130).(st_u) = (Ok (Some (inl 0)), s1) ∧
    finish_fall_back 0x1130 0x8008 (inl 0) s1 = (r, s2) ∧ s2.(cur).(dwarf).(ip) = 0x1240 ∧
    trace_advance s2.(cur).(frame_info) (TraceRegs 0x1130 0x8008 0x8010 0x8008) s2 =
      (Ok (inl 0, TraceRegs 0x8050 0x8018 0x1240 0x8018), s3).
Proof.
  destruct (guessed_frame_swapped (example_walk 0x1130).(st_u) 0x1130 0x8008 0x9090909090909090
    0x9090909090909090 0x9090909090909090 0x9090909090909090 0x8010 0x8050 0x1240 ltac:(decided)
    eq_refl example_plain_code example_chain ltac:(decided)) as (s1 & r & s2 & H1 & H2 & H3 & _ & H4).
  destruct (H4 0x1130 0x8008 0x8008) as [s3 H5].
  exists s1, r, s2, s3. exact (conj H1 (conj H2 (conj H3 H5))).
Defined.

(** C35. A backtrace fills in no more entries than the caller asked for, and
    leaves the buffer as it is from there on, however the fast and the slow walk
    end. *)
Theorem backtrace_bounds (P T : Type) `(HPO : PoolOps P) `(HLO : LinkerOps P) `(HC : CacheMem T)
    (SC : StringConstants) (fuel : nat) (ds : dyn_state)
    (tdep_getcontext_trace unw_getcontext : Z → M machine ()) (junk junk' : cursor) (uc size : Z)
    (s : trace_state P T) :
  let '(r, s') := unw_backtrace fuel ds tdep_getcontext_trace unw_getcontext junk junk' uc size s in
  buffer_upto size s s' ∧ match r with Ok n => 0 ≤ n ≤ Z.max 0 size | _ => True end.
Proof.
  pose proof (keeps_unw_backtrace (T := T) size fuel ds tdep_getcontext_trace unw_getcontext junk junk' uc s) as Hk.
  destruct (unw_backtrace _ _ _ _ _ _ _ _ s) as [r s'] eqn:E. split; [exact Hk|].
  destruct r as [n|e|t]; [|done..]. clear Hk. revert E. unfold unw_backtrace.
  intros ([] & s1 & _ & H)%bind_ok. apply bind_ok in H as ([] & s2 & _ & H).
  apply bind_ok in H as (i & s3 & _ & H). destruct i as [[]|e]; [|injection H as <- _; lia].
  apply bind_ok in H as ([ret d] & s4 & Ht & H). destruct (is_err ret) eqn:Eret.
  - apply bind_ok in H as ([] & s5 & _ & H). revert H. unfold slow_backtrace.
    intros ([] & s6 & _ & H)%bind_ok. apply bind_ok in H as (i & s7 & _ & H).
    destruct i as [[]|e]; [|injection H as <- _; lia]. apply slow_loop_count in H. lia.
  - injection H as <- _. revert Ht. unfold tdep_trace.
    destruct (Z.leb_spec size 0); [intros [= <- _ _]; done|].
    intros ([] & s5 & _ & H')%bind_ok. apply bind_ok in H' as (dw & s6 & _ & H').
    apply bind_ok in H' as (bp & s7 & _ & H'). apply bind_ok in H' as (cache & s8 & _ & H').
    destruct (cache =? 0).
    + apply bind_ok in H' as ([] & s9 & _ & [= <- _ _]). done.
    + apply trace_loop_count in H'. lia.
Qed.

(** A buffer of three entries, one of them asked for. *)
Lemma backtrace_bounds_witness :
  match @unw_backtrace bump bump _ example_linker example_strings _ 10 no_descriptors
          (λ _, mret tt) (λ _, mret tt) (zero_cursor 0) (zero_cursor 0) example_context 1 example_start with
  | (Ok n, s') => 0 ≤ n ≤ 1 ∧ s'.(tr_buffer) !! 1%nat = Some 7
  | _ => False
  end.
Proof.
  assert (E : (@unw_backtrace bump bump _ example_linker example_strings _ 10 no_descriptors
    (λ _, mret tt) (λ _, mret tt) (zero_cursor 0) (zero_cursor 0) example_context 1 example_start).1 = Ok 1)
    by (vm_compute; reflexivity).
  pose proof (backtrace_bounds bump bump bump_ops example_linker bump_cache example_strings 10 no_descriptors
    (λ _, mret tt) (λ _, mret tt) (zero_cursor 0) (zero_cursor 0) example_context 1 example_start) as Hb.
  destruct (unw_backtrace 10 no_descriptors _ _ _ _ example_context 1 example_start) as [[n|e|t] s'];
    try discriminate E.
  destruct Hb as [[_ Hb] Hn]. split; [exact Hn|]. rewrite Hb by reflexivity. reflexivity.
Defined.
