(* ===== verification/Kmod.v ===== *)
(** * The kernel module

    [libunwind.c]: what the module does when it is loaded, with the name of a
    procedure ([Gget_proc_name.c], [Ginit.c]); and the relation between the
    routines that walk the stack. *)
From S2P Require Export Trace.
From S2P Require Import StepSpec StepProps TraceSpec.

Section module.
Context {P : Type} `{!PoolOps P, !LinkerOps P, !StringConstants}.
Context (fuel : nat) (ds : dyn_state).
(** [linker_search_symbol_name addr buflen] of the kernel: the name it puts in a buffer
    of that length and the offset, when there is a symbol. *)
Context (linker_search_symbol_name : Z → Z → option (string * Z)).

(** [*offp] is written only when a name is found.
    [src/Gget_proc_name.c:29-34], [get_proc_name] *)
Definition get_proc_name (ip buf_len : Z) : option (string * Z) := linker_search_symbol_name ip buf_len.

(** [src/Gget_proc_name.c:36-44], [unw_get_proc_name] *)
Definition unw_get_proc_name (buf_len : Z) : M ustate (option (string * Z)) :=
  s ← get_st; mret (get_proc_name s.(cur).(dwarf).(ip) buf_len).

(** [src/Ginit.c:237-243], [get_static_proc_name] *)
Definition get_static_proc_name (ip buf_len : Z) : option (string * Z) :=
  linker_search_symbol_name ip buf_len.

(** The four values of a line; [None] is whatever a local variable held that has
    not been set. *)
Record bt_line := BtLine {
  bt_ip : option Z;
  bt_name : string;
  bt_offset : option Z;
  bt_sp : option Z
}.

(** The size of the array [fname].
    [src/libunwind.c:20-20], [show_backtrace] *)
Definition fname_size : Z := 64.

(** The lines printed, with the values of [ip], [sp] and [offset] before each round.
    [src/libunwind.c:19-26], [show_backtrace] *)
Fixpoint show_frames (n : nat) (ip sp offset : option Z) : M (step_state P) (list bt_line) :=
  match n with
  | O => halt NoFuel
  | S n' =>
      r ← try (unw_step fuel ds);
      if negb (match r with inl v => 0 <? v | inr _ => false end) then mret []
      else
        i ← try (on_u (unw_get_reg RIP));
        let ip := match i with inl v => Some v | inr _ => ip end in
        p ← try (on_u (unw_get_reg RSP));
        let sp := match p with inl v => Some v | inr _ => sp end in
        name ← on_u (unw_get_proc_name fname_size);
        let '(fname, offset) := match name with Some (f, o) => (f, Some o) | None => (EmptyString, offset) end in
        rest ← show_frames n' ip sp offset;
        mret (BtLine ip fname offset sp :: rest)
  end.

(** [unw_getcontext] is written in assembler; the results of it and of
    [unw_init_local] are not looked at.
    [src/libunwind.c:10-27], [show_backtrace] *)
Definition show_backtrace (n : nat) (unw_getcontext : Z → M machine ()) (junk : cursor) (uc : Z)
    : M (step_state P) (list bt_line) :=
  on_u (upd_cur (λ _, junk));;
  on_u (on_mach (unw_getcontext uc));;
  try (on_u (unw_init_local uc));;
  show_frames n None None None.

(** The events of sys/module.h; the others are not told apart. *)
Inductive module_event := MOD_LOAD | MOD_UNLOAD | MOD_OTHER.

(** [EOPNOTSUPP] of sys/errno.h. *)
Definition EOPNOTSUPP : Z := 45.

(** The result and the lines printed.
    [src/libunwind.c:30-46], [event_handler] *)
Definition event_handler (n : nat) (unw_getcontext : Z → M machine ()) (junk : cursor) (uc : Z)
    (event : module_event) : M (step_state P) (Z * list bt_line) :=
  match event with
  | MOD_LOAD => lines ← show_backtrace n unw_getcontext junk uc; mret (0, lines)
  | MOD_UNLOAD => mret (0, [])
  | MOD_OTHER => mret (EOPNOTSUPP, [])
  end.

(** ** The lines are the frames of the stack *)

Lemma show_frames_walk s frames s' : stack_walk fuel ds s frames s' → ∀ n ip0 sp0 off,
  (length frames < n)%nat →
  ∃ lines, show_frames n ip0 sp0 off s = (Ok lines, s') ∧
    (λ l, (bt_ip l, bt_sp l)) <$> lines = (λ f, (Some f.1, Some f.2)) <$> frames ∧
    Forall2 (λ l f, match linker_search_symbol_name f.1 fname_size with
                    | Some (name, o) => bt_name l = name ∧ bt_offset l = Some o
                    | None => bt_name l = EmptyString end) lines frames.
Proof.
  induction 1 as [s r s' E Hr|s v s1 frames s' E Hv _ IH]; intros [|n] ip0 sp0 off Hn; [simpl in Hn; lia| |simpl in Hn; lia|].
  - exists []. cbn [show_frames]. mred. rewrite E.
    replace (negb _) with true; [done|]. destruct r as [v|]; [|done]. by rewrite (proj2 (Z.ltb_ge _ _)).
  - cbn [show_frames]. mred. rewrite (try_ok _ _ _ _ E).
    rewrite (proj2 (Z.ltb_lt _ _)) by done. cbn [negb].
    set (d := s1.(st_u).(cur).(dwarf)).
    change (try (on_u (unw_get_reg RIP)) s1) with (@Ok (Z + unw_error) (inl d.(ip)), StepState s1.(st_u) s1.(st_pool)).
    cbn [fst snd]. destruct s1 as [u1 p1]. cbn [st_u st_pool] in *.
    change (try (on_u (unw_get_reg RSP)) (StepState u1 p1)) with (@Ok (Z + unw_error) (inl d.(cfa)), StepState u1 p1).
    assert (Hpn : on_u (unw_get_proc_name fname_size) (StepState u1 p1)
      = (Ok (linker_search_symbol_name d.(ip) fname_size), StepState u1 p1)) by done.
    cbv beta iota. rewrite Hpn. cbv beta iota. clear Hpn.
    destruct (linker_search_symbol_name d.(ip) fname_size) as [[name o]|] eqn:En;
      [destruct (IH n (Some d.(ip)) (Some d.(cfa)) (Some o)) as (lines & -> & El & Hl);
        [simpl in Hn; lia|]; exists (BtLine (Some d.(ip)) name (Some o) (Some d.(cfa)) :: lines)
      |destruct (IH n (Some d.(ip)) (Some d.(cfa)) off) as (lines & -> & El & Hl);
        [simpl in Hn; lia|]; exists (BtLine (Some d.(ip)) EmptyString off (Some d.(cfa)) :: lines)];
      (split; [done|]; split; [cbn [fmap list_fmap]; by rewrite <- El|]; constructor; [|done]; simpl; by rewrite En).
Qed.
End module.

Lemma try_on_step {P T A} (f : M (step_state P) A) s (g : trace_globals T) b :
  try (on_step f) (TraceState s g b) = let '(r, st) := try f s in (r, TraceState st g b).
Proof. unfold try, on_step. cbn. destruct (f s) as [[] ?]; reflexivity. Qed.

(** The addresses the slow backtrace stores: those of the first frames. *)
Lemma slow_loop_walk {P T} `{!PoolOps P, !LinkerOps P, !CacheMem T} {SC : StringConstants} fuel ds
    (g : trace_globals T) size s frames s' : stack_walk fuel ds s frames s' →
  ∀ n' n b, 0 ≤ n ≤ size → size - n < Z.of_nat n' → Z.of_nat (length b) = size →
  let k := Nat.min (length frames) (Z.to_nat (size - n)) in
  ∃ st b', slow_backtrace_loop fuel ds n' size n (TraceState s g b) = (Ok (n + Z.of_nat k), TraceState st g b') ∧
    take (Z.to_nat n + k) b' = take (Z.to_nat n) b ++ take k (fst <$> frames) ∧ length b' = length b ∧
    (Z.of_nat (length frames) ≤ size - n → st = s').
Proof.
  induction 1 as [s r s' E Hr|s v s1 frames s' E Hv _ IH]; intros [|n'] n b Hn Hn' Hb k; try lia.
  - exists s', b. cbn [slow_backtrace_loop]. mred. rewrite try_on_step, E.
    replace (negb _) with true by (destruct r as [v|]; [|done]; by rewrite (proj2 (Z.ltb_ge _ _))).
    subst k. simpl. rewrite Z.add_0_r, Nat.add_0_r, app_nil_r. done.
  - cbn [slow_backtrace_loop]. mred. rewrite try_on_step, (try_ok _ _ _ _ E).
    rewrite (proj2 (Z.ltb_lt _ _)) by done. cbn [negb]. cbv beta iota.
    destruct (Z.leb_spec size n) as [Hfull|Hroom].
    { exists s1, b. subst k. replace (Z.to_nat (size - n)) with 0%nat by lia. rewrite Nat.min_0_r.
      rewrite Z.add_0_r, Nat.add_0_r, app_nil_r. split_and!; [done..|]. simpl. lia. }
    set (d := s1.(st_u).(cur).(dwarf)).
    assert (Hip : try (on_tu (unw_get_reg RIP)) (TraceState s1 g b) = (Ok (inl d.(ip)), TraceState s1 g b))
      by (by destruct s1).
    rewrite Hip. cbv beta iota. clear Hip.
    unfold put_buffer. mred. cbn [tr_buffer]. rewrite awrite_Ok by lia. cbv beta iota. cbn [tr_step tr_glob].
    set (b1 := <[Z.to_nat n := d.(ip)]> b).
    assert (Hb1 : length b1 = length b) by apply length_insert.
    destruct (IH n' (n + 1) b1) as (st & b' & -> & Ht & Hl & Hst); [lia..|].
    exists st, b'. subst k. cbn [length fmap list_fmap fst].
    replace (Z.to_nat (size - n)) with (S (Z.to_nat (size - (n + 1)))) by lia.
    rewrite <- Nat.succ_min_distr. set (k := Nat.min _ _) in *. split_and!.
    + f_equal. f_equal. lia.
    + replace (Z.to_nat n + S k)%nat with (Z.to_nat (n + 1) + k)%nat by lia. rewrite Ht.
      cbn [take]. rewrite cons_middle, app_assoc. f_equal.
      replace (Z.to_nat (n + 1)) with (S (Z.to_nat n)) by lia.
      rewrite (take_S_r b1 _ d.(ip)) by (apply list_lookup_insert_eq; lia). f_equal.
      by apply take_insert_ge.
    + by rewrite Hl.
    + intros Hle. apply Hst. lia.
Qed.

(** ** Properties *)

(** C36. The module's backtrace prints, and the slow backtrace stores, the frames
    [unw_step] reaches: all of them the one, as many as the buffer takes the other. *)
Theorem backtraces_agree P T `(HPO : PoolOps P) `(HLO : LinkerOps P) `(HC : CacheMem T)
    (SC : StringConstants) (fuel : nat) (ds : dyn_state) (search : Z → Z → option (string * Z))
    (s s' : step_state P) (frames : list (Z * Z)) (g : trace_globals T) (b : list Z) (n : nat) :
  stack_walk fuel ds s frames s' → (length frames < n)%nat →
  let size := Z.of_nat (length b) in
  let k := Nat.min (length frames) (length b) in
  (∃ lines, show_frames fuel ds search n None None None s = (Ok lines, s') ∧
     (λ l, (bt_ip l, bt_sp l)) <$> lines = (λ f, (Some f.1, Some f.2)) <$> frames ∧
     Forall2 (λ l f, match search f.1 fname_size with
                     | Some (name, o) => bt_name l = name ∧ bt_offset l = Some o
                     | None => bt_name l = EmptyString end) lines frames) ∧
  ∃ st b', slow_backtrace_loop fuel ds (S (length b)) size 0 (TraceState s g b)
             = (Ok (Z.of_nat k), TraceState st g b') ∧
    take k b' = take k (fst <$> frames) ∧ length b' = length b ∧
    ((length frames ≤ length b)%nat → st = s').
Proof.
  intros Hw Hn size k. split; [by apply show_frames_walk|].
  destruct (slow_loop_walk fuel ds g size s frames s' Hw (S (length b)) 0 b) as (st & b' & E & Ht & Hl & Hst);
    [subst size; lia..|].
  replace (Z.to_nat (size - 0)) with (length b) in E, Ht by (subst size; lia).
  exists st, b'. split_and!; [exact E|exact Ht|exact Hl|]. intros Hle. apply Hst. subst size. lia.
Qed.

(** The code of [example_module_mem] called from code that no module describes, in
    the last frame of the stack. *)
Definition example_stack : step_state bump :=
  let m := put_bytes (put_bytes example_module_mem 0x1230 (replicate 64 0x90)) 0x8050 (replicate 16 0) in
  StepState
    (on_dwarf (λ d, set_ip 0x1130 (set_cfa 0x8008 (set_loc (<[6%nat := 0x8000]> all_unsaved) d)))
       (UState (Machine m [0; 0; 0; 0] 0) (zero_cursor 0)))
    (Bump 0x9000).

Lemma example_stack_walk : ∃ s',
  @stack_walk bump _ example_linker example_strings 10 no_descriptors example_stack
    [(0x1240, 0x8048); (0, 0xfffffffffffffff8)] s'.
Proof.
  set (step := @unw_step bump _ example_linker example_strings 10 no_descriptors).
  assert (H : let s1 := (step example_stack).2 in let s2 := (step s1).2 in
    ((step example_stack).1, (dwarf_of s1).(ip), (dwarf_of s1).(cfa),
     (step s1).1, (dwarf_of s2).(ip), (dwarf_of s2).(cfa), (try step s2).1)
    = (Ok 1, 0x1240, 0x8048, Ok 1, 0, 0xfffffffffffffff8, Ok (inl 0))) by (vm_compute; reflexivity).
  cbv zeta in H.
  destruct (step example_stack) as [r1 s1] eqn:E1. cbn [fst snd] in H.
  destruct (step s1) as [r2 s2] eqn:E2. cbn [fst snd] in H.
  destruct (try step s2) as [r3 s3] eqn:E3. cbn [fst] in H. exists s3.
  injection H as -> Hi1 Hc1 -> Hi2 Hc2 ->. rewrite <- Hi1, <- Hc1, <- Hi2, <- Hc2.
  eapply walk_frame; [exact E1|reflexivity|].
  eapply walk_frame; [exact E2|reflexivity|].
  eapply walk_end; [exact E3|]. apply Z.le_refl.
Qed.

(** With a symbol for the first caller, and room for one address. *)
Lemma backtraces_agree_witness :
  let search := λ a (_ : Z), if a =? 0x1240 then Some ("caller"%string, 16) else None in
  ∃ lines s' g st b',
  @show_frames bump _ example_linker example_strings 10 no_descriptors search 3 None None None example_stack
    = (Ok lines, s') ∧
  bt_name <$> lines = ["caller"%string; EmptyString] ∧
  @slow_backtrace_loop bump bump _ example_linker example_strings 10 no_descriptors 2 1 0
    (TraceState example_stack g [7]) = (Ok 1, TraceState st g b') ∧ b' = [0x1240].
Proof.
  intros search. destruct example_stack_walk as [s' Hw].
  set (g := example_start.(tr_glob)).
  destruct (backtraces_agree bump bump bump_ops example_linker bump_cache example_strings 10 no_descriptors
    search example_stack s' _ g [7] 3 Hw) as [(lines & E1 & _ & Hl) (st & b' & E2 & Ht & Hb & _)].
  - vm_compute. reflexivity.
  - exists lines, s', g, st, b'. split; [exact E1|]. split; [|split; [exact E2|]].
    + apply Forall2_cons_inv_r in Hl as (l1 & ls & H1 & Hl & ->).
      apply Forall2_cons_inv_r in Hl as (l2 & ls2 & H2 & Hl & ->).
      apply Forall2_nil_inv_r in Hl as ->. destruct H1 as [H1 _]. simpl in H1, H2 |- *.
      rewrite H1, H2. reflexivity.
    + destruct b' as [|x [|y b']]; try discriminate Hb. simpl in Ht. injection Ht as ->. reflexivity.
Defined.
