(* ===== verification/Unwind.v ===== *)
(** * Exceptions

    [Unwind.c] and [unwind-internal.h]: the two phases of raising an exception
    and the accessors of its context; [Gresume.c]: how execution is resumed in
    the frame of a cursor.  Personality, stop and trace routines are the
    caller's: they are found by their address and act on the same state. *)
From S2P Require Export Step.

(** ** Resuming *)

(** What becomes of the processor: it continues with the machine context, or the
    routine returns. *)
Inductive resumed := Resumed | NotResumed (e : unw_error).

Section resume.
Context {P : Type} `{!PoolOps P, !LinkerOps P, !StringConstants}.

(** The commented-out body leaves a call of [panic].
    [src/Gos-freebsd.c:187-198], [x86_64_sigreturn] *)
Definition x86_64_sigreturn : M (step_state P) () := halt Panic.

(** [setcontext] does not return: it loads the registers from the machine context
    ([Asm]).
    [src/Gresume.c:33-57], [x86_64_local_resume] *)
Definition x86_64_local_resume (fuel : nat) (ds : dyn_state) : M (step_state P) resumed :=
  try (dwarf_make_proc_info fuel ds);;
  s ← get_st;
  if negb (bool_decide (s.(st_u).(cur).(sigcontext_format) = X86_64_SCF_NONE)) then
    x86_64_sigreturn;; halt Panic
  else mret Resumed.

(** [val] is [None] before it is first set; the result is what it holds after.
    The message is the only statement of the [if].
    [src/Gresume.c:84-94], [establish_machine_state] *)
Definition establish_reg (reg : Z) (val : option Z) : M ustate (option Z) :=
  if unw_is_fpreg reg then
    r ← try (tdep_access_fpreg reg);
    match r with inl _ => try (access_fpreg reg);; mret val | inr _ => mret val end
  else
    r ← try (tdep_access_reg reg None);
    let val := match r with inl v => Some v | inr _ => val end in
    match val with
    | None => halt Undef
    | Some v => try (access_reg reg (Some v));; mret val
    end.

(** [n] registers from [reg] on.
    [src/Gresume.c:82-95], [establish_machine_state] *)
Fixpoint establish_loop (n : nat) (reg : Z) (val : option Z) : M ustate () :=
  match n with
  | O => mret tt
  | S n' => val ← establish_reg reg val; establish_loop n' (reg + 1) val
  end.

(** [src/Gresume.c:61-97], [establish_machine_state] *)
Definition establish_machine_state : M ustate () :=
  establish_loop (Z.to_nat (UNW_REG_LAST + 1)) 0 None.

(** [src/Gresume.c:99-112], [unw_resume] *)
Definition unw_resume (fuel : nat) (ds : dyn_state) : M (step_state P) resumed :=
  r ← try (on_u establish_machine_state);
  match r with
  | inr e => mret (NotResumed e)
  | inl _ => x86_64_local_resume fuel ds
  end.
End resume.

(** ** Data *)

(** [src/include/unwind.h:40-52], [_Unwind_Reason_Code] *)
Inductive _Unwind_Reason_Code :=
  | _URC_NO_REASON
  | _URC_FOREIGN_EXCEPTION_CAUGHT
  | _URC_FATAL_PHASE2_ERROR
  | _URC_FATAL_PHASE1_ERROR
  | _URC_NORMAL_STOP
  | _URC_END_OF_STACK
  | _URC_HANDLER_FOUND
  | _URC_INSTALL_CONTEXT
  | _URC_CONTINUE_UNWIND.

#[export] Instance reason_eq_dec : EqDecision _Unwind_Reason_Code.
Proof. solve_decision. Defined.

(** [src/include/unwind.h:56-56], [_UA_SEARCH_PHASE] *)
Definition _UA_SEARCH_PHASE : Z := 1.
(** [src/include/unwind.h:57-57], [_UA_CLEANUP_PHASE] *)
Definition _UA_CLEANUP_PHASE : Z := 2.
(** [src/include/unwind.h:58-58], [_UA_HANDLER_FRAME] *)
Definition _UA_HANDLER_FRAME : Z := 4.
(** [src/include/unwind.h:59-59], [_UA_FORCE_UNWIND] *)
Definition _UA_FORCE_UNWIND : Z := 8.
(** [src/include/unwind.h:105-105], [_UA_END_OF_STACK] *)
Definition _UA_END_OF_STACK : Z := 16.

(** [src/include/unwind.h:77-83], [_Unwind_Exception] *)
Record _Unwind_Exception := UnwindException {
  exception_class : Z;
  exception_cleanup : Z;
  private_1 : Z;
  private_2 : Z
}.

Definition set_privates (p1 p2 : Z) (e : _Unwind_Exception) : _Unwind_Exception :=
  UnwindException e.(exception_class) e.(exception_cleanup) p1 p2.

(** The context is the cursor of [uw_step] with its flag.
    [src/unwind-internal.h:41-44], [_Unwind_Context] *)
Record unwind_state (P : Type) := UnwindState {
  uw_step : step_state P;
  end_of_stack : bool;
  uw_exc : _Unwind_Exception
}.
Arguments UnwindState {P}.
Arguments uw_step {P}.
Arguments end_of_stack {P}.
Arguments uw_exc {P}.

(** The caller's routines, by address: a personality with its actions, a stop
    routine with its actions and parameter, the routine of a backtrace, and the
    cleanup of an exception.  [unw_getcontext] is written in assembler. *)
Class Callbacks (P : Type) := {
  personality_fn : Z → Z → M (unwind_state P) _Unwind_Reason_Code;
  stop_fn : Z → Z → Z → M (unwind_state P) _Unwind_Reason_Code;
  trace_fn : Z → Z → M (unwind_state P) _Unwind_Reason_Code;
  cleanup_fn : Z → _Unwind_Reason_Code → M (unwind_state P) ();
  getcontext : Z → M machine Z
}.

(** The end of a routine that may continue in another frame. *)
Inductive outcome := Returns (r : _Unwind_Reason_Code) | Continues.

Section unwind.
Context {P : Type} `{!PoolOps P, !LinkerOps P, !StringConstants, !Callbacks P}.
Context (fuel : nat) (ds : dyn_state).

Definition on_uw {A} (f : M (step_state P) A) : M (unwind_state P) A := λ s,
  let '(r, st) := f s.(uw_step) in (r, UnwindState st s.(end_of_stack) s.(uw_exc)).
Definition on_uu {A} (f : M ustate A) : M (unwind_state P) A := on_uw (on_u f).
Definition upd_exc (f : _Unwind_Exception → _Unwind_Exception) : M (unwind_state P) () :=
  mod_st (λ s, UnwindState s.(uw_step) s.(end_of_stack) (f s.(uw_exc))).
Definition upd_end (b : bool) : M (unwind_state P) () :=
  mod_st (λ s, UnwindState s.(uw_step) b s.(uw_exc)).

(** [junk] is what the local cursor's storage holds, [uc] the address of the
    local context; the result is the value of the macro.
    [src/unwind-internal.h:49-52], [_Unwind_InitContext] *)
Definition _Unwind_InitContext (junk : cursor) (uc : Z) : M (unwind_state P) Z :=
  on_uu (upd_cur (λ _, junk));;
  upd_end false;;
  r ← on_uu (on_mach (getcontext uc));
  if r <? 0 then mret (-1)
  else
    r ← try (on_uu (unw_init_local uc));
    match r with inr _ => mret (-1) | inl _ => mret 0 end.

(** ** Phase 2 *)

(** The actions of a frame: those of the last, with the mark of the handler's
    frame when there is no stop routine and this is it.
    [src/unwind-internal.h:116-123], [_Unwind_Phase2] *)
Definition phase2_actions (stop stop_parameter actions : Z) : M (unwind_state P) Z :=
  if stop =? 0 then
    ip ← on_uu (unw_get_reg UNW_REG_IP);
    mret (if stop_parameter =? ip then Z.lor actions _UA_HANDLER_FRAME else actions)
  else mret actions.

(** Both branches of the last [if] end in [panic]: its body is the message only.
    [src/unwind-internal.h:114-156], [_Unwind_Phase2] *)
Definition phase2_personality (personality stop stop_parameter actions : Z)
    : M (unwind_state P) outcome :=
  actions ← try (phase2_actions stop stop_parameter actions);
  match actions with
  | inr _ => mret (Returns _URC_FATAL_PHASE2_ERROR)
  | inl actions =>
      reason ← personality_fn personality actions;
      if bool_decide (reason = _URC_CONTINUE_UNWIND) then halt Panic
      else if bool_decide (reason = _URC_INSTALL_CONTEXT) then
        r ← on_uw (unw_resume fuel ds);
        match r with Resumed => mret Continues | NotResumed _ => halt Panic end
      else mret (Returns _URC_FATAL_PHASE2_ERROR)
  end.

(** The messages about each frame are left out.
    [src/unwind-internal.h:74-157], [_Unwind_Phase2] *)
Fixpoint phase2_loop (n : nat) (stop stop_parameter actions : Z) : M (unwind_state P) outcome :=
  match n with
  | O => halt NoFuel
  | S n' =>
      ret ← try (on_uw (unw_step fuel ds));
      match ret with
      | inr _ => mret (Returns _URC_FATAL_PHASE2_ERROR)
      | inl ret =>
          actions ← (if ret <=? 0 then upd_end true;; mret (Z.lor actions _UA_END_OF_STACK)
                     else mret actions);
          reason ← (if stop =? 0 then mret _URC_NO_REASON else stop_fn stop actions stop_parameter);
          if negb (bool_decide (reason = _URC_NO_REASON)) then mret (Returns _URC_FATAL_PHASE2_ERROR)
          else
            s ← get_st;
            if s.(end_of_stack) then mret (Returns _URC_FATAL_PHASE2_ERROR)
            else
              pi ← on_uw (unw_get_proc_info fuel ds);
              if pi.(pi_handler) =? 0 then phase2_loop n' stop stop_parameter actions
              else phase2_personality pi.(pi_handler) stop stop_parameter actions
      end
  end.

(** [n] bounds the frames.  [src/unwind-internal.h:54-161], [_Unwind_Phase2] *)
Definition _Unwind_Phase2 (n : nat) : M (unwind_state P) outcome :=
  s ← get_st;
  let stop := s.(uw_exc).(private_1) in
  let actions := if stop =? 0 then _UA_CLEANUP_PHASE else Z.lor _UA_CLEANUP_PHASE _UA_FORCE_UNWIND in
  phase2_loop n stop s.(uw_exc).(private_2) actions.

(** ** Phase 1 *)

(** What the search ends with: the handler's frame is that of the cursor, or the
    value to return.  [src/Unwind.c:263-297], [_Unwind_RaiseException] *)
Fixpoint phase1_loop (n : nat) : M (unwind_state P) (option _Unwind_Reason_Code) :=
  match n with
  | O => halt NoFuel
  | S n' =>
      ret ← try (on_uw (unw_step fuel ds));
      match ret with
      | inr _ => mret (Some _URC_FATAL_PHASE1_ERROR)
      | inl ret =>
          if ret <=? 0 then mret (Some _URC_END_OF_STACK)
          else
            pi ← on_uw (unw_get_proc_info fuel ds);
            if pi.(pi_handler) =? 0 then phase1_loop n'
            else
              reason ← personality_fn pi.(pi_handler) _UA_SEARCH_PHASE;
              if bool_decide (reason = _URC_CONTINUE_UNWIND) then phase1_loop n'
              else if bool_decide (reason = _URC_HANDLER_FOUND) then mret None
              else mret (Some _URC_FATAL_PHASE1_ERROR)
      end
  end.

(** [src/Unwind.c:238-316], [_Unwind_RaiseException] *)
Definition _Unwind_RaiseException (n : nat) (junk : cursor) (uc : Z) : M (unwind_state P) outcome :=
  r ← _Unwind_InitContext junk uc;
  if r <? 0 then mret (Returns _URC_FATAL_PHASE1_ERROR)
  else
    r ← phase1_loop n;
    match r with
    | Some reason => mret (Returns reason)
    | None =>
        ip ← try (on_uu (unw_get_reg UNW_REG_IP));
        match ip with
        | inr _ => mret (Returns _URC_FATAL_PHASE1_ERROR)
        | inl ip =>
            upd_exc (set_privates 0 ip);;
            r ← try (on_uu (unw_init_local uc));
            match r with
            | inr _ => mret (Returns _URC_FATAL_PHASE1_ERROR)
            | inl _ => _Unwind_Phase2 n
            end
        end
    end.

(** [src/Unwind.c:89-109], [_Unwind_ForcedUnwind] *)
Definition _Unwind_ForcedUnwind (n : nat) (junk : cursor) (uc stop stop_parameter : Z)
    : M (unwind_state P) outcome :=
  if stop =? 0 then mret (Returns _URC_FATAL_PHASE2_ERROR)
  else
    r ← _Unwind_InitContext junk uc;
    if r <? 0 then mret (Returns _URC_FATAL_PHASE2_ERROR)
    else upd_exc (set_privates stop stop_parameter);; _Unwind_Phase2 n.

(** [src/Unwind.c:322-337], [_Unwind_Resume_or_Rethrow] *)
Definition _Unwind_Resume_or_Rethrow (n : nat) (junk : cursor) (uc : Z) : M (unwind_state P) outcome :=
  s ← get_st;
  if negb (s.(uw_exc).(private_1) =? 0) then
    r ← _Unwind_InitContext junk uc;
    if r <? 0 then mret (Returns _URC_FATAL_PHASE2_ERROR) else _Unwind_Phase2 n
  else _Unwind_RaiseException n junk uc.

(** [abort] is a panic; the routine has no value to return.
    [src/Unwind.c:343-354], [_Unwind_Resume] *)
Definition _Unwind_Resume (n : nat) (junk : cursor) (uc : Z) : M (unwind_state P) () :=
  r ← _Unwind_InitContext junk uc;
  if r <? 0 then halt Panic
  else
    r ← _Unwind_Phase2 n;
    match r with Continues => mret tt | Returns _ => halt Panic end.

(** [src/Unwind.c:40-52], [_Unwind_Backtrace] *)
Fixpoint backtrace_frames (n : nat) (trace trace_parameter : Z) : M (unwind_state P) _Unwind_Reason_Code :=
  match n with
  | O => halt NoFuel
  | S n' =>
      ret ← try (on_uw (unw_step fuel ds));
      match ret with
      | inr _ => mret _URC_FATAL_PHASE1_ERROR
      | inl ret =>
          if ret <=? 0 then mret _URC_END_OF_STACK
          else
            reason ← trace_fn trace trace_parameter;
            if bool_decide (reason = _URC_NO_REASON) then backtrace_frames n' trace trace_parameter
            else mret _URC_FATAL_PHASE1_ERROR
      end
  end.

(** [src/Unwind.c:28-53], [_Unwind_Backtrace] *)
Definition _Unwind_Backtrace (n : nat) (junk : cursor) (uc trace trace_parameter : Z)
    : M (unwind_state P) _Unwind_Reason_Code :=
  r ← _Unwind_InitContext junk uc;
  if r <? 0 then mret _URC_FATAL_PHASE1_ERROR else backtrace_frames n trace trace_parameter.

(** [src/Unwind.c:59-66], [_Unwind_DeleteException] *)
Definition _Unwind_DeleteException : M (unwind_state P) () :=
  s ← get_st;
  let cleanup := s.(uw_exc).(exception_cleanup) in
  if negb (cleanup =? 0) then cleanup_fn cleanup _URC_FOREIGN_EXCEPTION_CAUGHT else mret tt.

(** ** The accessors of the context *)

(** A value that is read although it was not set. *)
Definition read_val {A} (f : M ustate A) : M (unwind_state P) A :=
  r ← try (on_uu f);
  match r with inl v => mret v | inr _ => halt Undef end.

(** The description is that of a local variable, with the pool of the state.
    [src/Unwind.c:71-82], [_Unwind_FindEnclosingFunction] *)
Definition _Unwind_FindEnclosingFunction (junk : unw_proc_info_t) (ip : Z) : M (unwind_state P) Z := λ s,
  let '(r, fx) := unw_get_proc_info_by_ip fuel s.(uw_step).(st_u).(mach).(mem) ds ip
                    (FdeState 0 junk s.(uw_step).(st_pool)) in
  let s' := UnwindState (StepState s.(uw_step).(st_u) fx.(fx_pool)) s.(end_of_stack) s.(uw_exc) in
  match r with
  | Ok _ => (Ok fx.(fx_pi).(start_ip), s')
  | Err _ => (Ok 0, s')
  | Stop t => (Stop t, s')
  end.

(** [src/Unwind.c:116-127], [_Unwind_GetBSP] *)
Definition _Unwind_GetBSP : M (unwind_state P) Z := mret 0.

(** [src/Unwind.c:132-139], [_Unwind_GetCFA] *)
Definition _Unwind_GetCFA : M (unwind_state P) Z := read_val (unw_get_reg UNW_REG_SP).

(** [src/Unwind.c:145-153], [_Unwind_GetDataRelBase] *)
Definition _Unwind_GetDataRelBase : M (unwind_state P) Z :=
  pi ← on_uw (unw_get_proc_info fuel ds); mret pi.(gp).

(** [src/Unwind.c:158-170], [_Unwind_GetGR] *)
Definition _Unwind_GetGR (index : Z) : M (unwind_state P) Z :=
  s ← get_st;
  if (index =? UNW_REG_SP) && s.(end_of_stack) then mret 0 else read_val (unw_get_reg index).

(** [src/Unwind.c:175-182], [_Unwind_GetIP] *)
Definition _Unwind_GetIP : M (unwind_state P) Z := read_val (unw_get_reg UNW_REG_IP).

(** The second result is [*ip_before_insn].
    [src/Unwind.c:187-195], [_Unwind_GetIPInfo] *)
Definition _Unwind_GetIPInfo : M (unwind_state P) (Z * Z) :=
  val ← read_val (unw_get_reg UNW_REG_IP);
  b ← on_uu unw_is_signal_frame;
  mret (val, b).

(** [src/Unwind.c:200-208], [_Unwind_GetLanguageSpecificData] *)
Definition _Unwind_GetLanguageSpecificData : M (unwind_state P) Z :=
  pi ← on_uw (unw_get_proc_info fuel ds); mret pi.(lsda).

(** [src/Unwind.c:214-222], [_Unwind_GetRegionStart] *)
Definition _Unwind_GetRegionStart : M (unwind_state P) Z :=
  pi ← on_uw (unw_get_proc_info fuel ds); mret pi.(start_ip).

(** [src/Unwind.c:227-231], [_Unwind_GetTextRelBase] *)
Definition _Unwind_GetTextRelBase : M (unwind_state P) Z := mret 0.

(** [src/Unwind.c:359-363], [_Unwind_SetIP] *)
Definition _Unwind_SetIP (new_value : Z) : M (unwind_state P) () :=
  try (on_uu (unw_set_reg UNW_REG_IP new_value));; mret tt.

(** [src/Unwind.c:373-386], [_Unwind_SetGR] *)
Definition _Unwind_SetGR (index new_value : Z) : M (unwind_state P) () :=
  try (on_uu (unw_set_reg index new_value));; mret tt.
End unwind.
