(* ===== verification/UnwindSpec.v ===== *)
(** * What resuming does

    The registers the machine context holds when [unw_resume] continues in the frame of
    a cursor. *)
From S2P Require Export Unwind StepProps.

(** ** The registers of a resumed context *)

(** The place of a register in the machine context. *)
Definition slot_of (uc_ reg : Z) : Z := x86_64_r_uc_addr uc_ reg.

(** What [tdep_access_reg] reads for a register: the frame address, an argument
    that was set, or the word at the save location. *)
Definition saved_value (c : cursor) (m : memory) (reg v : Z) : Prop :=
  let d := c.(dwarf) in
  if reg =? RSP then v = d.(cfa)
  else if (reg =? RAX) && Z.testbit d.(eh_valid_mask) 0 then aread d.(eh_args) 0 = Ok v
  else if (reg =? RDX) && Z.testbit d.(eh_valid_mask) 1 then aread d.(eh_args) 1 = Ok v
  else ∃ l, aread d.(loc) reg = Ok l ∧ word_at m l v.

(** The register was not saved. *)
Definition unsaved (c : cursor) (reg : Z) : Prop :=
  let d := c.(dwarf) in
  reg ≠ RSP ∧ (reg = RAX → Z.testbit d.(eh_valid_mask) 0 = false) ∧
  (reg = RDX → Z.testbit d.(eh_valid_mask) 1 = false) ∧ aread d.(loc) reg = Ok 0.

(** The register is read at its save location, or is an argument. *)
Lemma tdep_read_loc reg s :
  0 ≤ reg < 17 → reg ≠ RSP → reg ≠ RAX → reg ≠ RDX →
  tdep_access_reg reg None s = (l ← get_loc reg; access_loc l None) s.
Proof.
  intros Hr. rewrite <- (Z2Nat.id reg) by lia.
  assert (Hn : (Z.to_nat reg < 17)%nat) by lia. revert Hn. generalize (Z.to_nat reg). intros n Hn.
  do 17 (destruct n as [|n]; [by intros; try reflexivity|]). lia.
Qed.

Lemma access_saved s reg l v :
  lga_ok s.(mach) → aread s.(cur).(dwarf).(loc) reg = Ok l → word_at s.(mach).(mem) l v →
  ∃ s', (l ← get_loc reg; access_loc l None) s = (Ok v, s') ∧ read_only s s'.
Proof.
  intros Hg Hl Hw. mred. rewrite (get_loc_ok s reg l Hl). cbn [access_loc].
  by apply (get_word_ok l v s s).
Qed.

Lemma access_unsaved s reg :
  aread s.(cur).(dwarf).(loc) reg = Ok 0 →
  (l ← get_loc reg; access_loc l None) s = (Err UNW_EBADREG, s).
Proof. intros Hl. mred. by rewrite (get_loc_ok s reg 0 Hl). Qed.

Lemma tdep_read_saved s reg v :
  lga_ok s.(mach) → 0 ≤ reg < 17 → saved_value s.(cur) s.(mach).(mem) reg v →
  ∃ s', tdep_access_reg reg None s = (Ok v, s') ∧ read_only s s'.
Proof.
  intros Hg Hr. unfold saved_value.
  destruct (Z.eqb_spec reg RSP) as [->|Hsp]; [intros ->; by exists s|].
  assert (Hro : read_only s s) by (by split).
  destruct (Z.eqb_spec reg RAX) as [->|Hax]; [|destruct (Z.eqb_spec reg RDX) as [->|Hdx]]; cbn [andb].
  - change (tdep_access_reg RAX None s) with (access_eh_reg 0 RAX None s).
    unfold access_eh_reg. mred. rewrite mask_bit by lia. cbn [andb].
    destruct (Z.testbit _ 0); [intros ->; by exists s|]. intros (l & Hl & Hw). by eapply access_saved.
  - change (tdep_access_reg RDX None s) with (access_eh_reg 1 RDX None s).
    unfold access_eh_reg. mred. rewrite mask_bit by lia.
    destruct (Z.testbit _ 1); [intros ->; by exists s|]. intros (l & Hl & Hw). by eapply access_saved.
  - intros (l & Hl & Hw). rewrite tdep_read_loc by done. by eapply access_saved.
Qed.

Lemma tdep_read_unsaved s reg :
  0 ≤ reg < 17 → unsaved s.(cur) reg → tdep_access_reg reg None s = (Err UNW_EBADREG, s).
Proof.
  intros Hr (Hsp & Hax & Hdx & Hl).
  destruct (decide (reg = RAX)) as [->|]; [|destruct (decide (reg = RDX)) as [->|]].
  - change (tdep_access_reg RAX None s) with (access_eh_reg 0 RAX None s).
    unfold access_eh_reg. mred. rewrite mask_bit, Hax by (done || lia). by apply (access_unsaved s RAX).
  - change (tdep_access_reg RDX None s) with (access_eh_reg 1 RDX None s).
    unfold access_eh_reg. mred. rewrite mask_bit, Hdx by (done || lia). by apply (access_unsaved s RDX).
  - rewrite tdep_read_loc by done. by apply access_unsaved.
Qed.

(** The offsets of two registers in the context are a word apart. *)
Definition greg_off (i : nat) : Z := default 0 (regnum_of_Z (Z.of_nat i) ≫= uc_mcontext_gregs).

Lemma greg_off_apart i j :
  (i < 17)%nat → (j < 17)%nat → i ≠ j →
  greg_off i + 8 ≤ greg_off j ∨ greg_off j + 8 ≤ greg_off i.
Proof.
  intros Hi Hj Hne.
  assert (E : forallb (λ a, forallb (λ b, (a =? b)%nat ||
    ((greg_off a + 8 <=? greg_off b) || (greg_off b + 8 <=? greg_off a))) (seq 0 17)) (seq 0 17) = true)
    by (vm_compute; reflexivity).
  rewrite forallb_forall in E. specialize (E i ltac:(apply in_seq; lia)).
  rewrite forallb_forall in E. specialize (E j ltac:(apply in_seq; lia)).
  apply orb_true_iff in E as [E%Nat.eqb_eq|[E%Z.leb_le|E%Z.leb_le]%orb_true_iff]; lia.
Qed.

Lemma slot_greg_off uc_ i :
  context_ok uc_ → 0 ≤ i < 17 → slot_of uc_ i = uc_ + greg_off (Z.to_nat i) ∧ 0 ≤ greg_off (Z.to_nat i) ≤ 0xc8.
Proof.
  intros [Hu1 Hu2] Hi. destruct (greg_offset i Hi) as (r & o & Er & Eo & Ho).
  unfold slot_of, x86_64_r_uc_addr, greg_off. rewrite Z2Nat.id by lia. rewrite Er. cbn [mbind option_bind].
  rewrite Eo. cbn [default]. rewrite u64_small by (unfold is_u64; lia). simpl. lia.
Qed.

(** The places of two registers do not overlap. *)
Lemma slots_apart uc_ i j :
  context_ok uc_ → 0 ≤ i < 17 → 0 ≤ j < 17 → i ≠ j →
  disjoint_words (slot_of uc_ i) (slot_of uc_ j).
Proof.
  intros Hu Hi Hj Hne.
  destruct (slot_greg_off uc_ i Hu Hi) as [-> Hi2]. destruct (slot_greg_off uc_ j Hu Hj) as [-> Hj2].
  destruct (greg_off_apart (Z.to_nat i) (Z.to_nat j) ltac:(lia) ltac:(lia) ltac:(lia)) as [Hap|Hap];
    intros a b Ha Hb; destruct Hu as [Hu1 Hu2]; rewrite !u64_small by (unfold is_u64; lia); lia.
Qed.

(** The register is read at its save location, which is the place of [j]. *)
Definition kept_in (c : cursor) (reg j : Z) : Prop :=
  let d := c.(dwarf) in
  reg ≠ RSP ∧ (reg = RAX → Z.testbit d.(eh_valid_mask) 0 = false) ∧
  (reg = RDX → Z.testbit d.(eh_valid_mask) 1 = false) ∧ aread d.(loc) reg = Ok (slot_of c.(uc) j).

Section establish.
Context (c : cursor) (m0 : memory) (v : Z → Z).

(** What the context gets from the [k]-th register on, those before it being there
    already: the register's value, or what was put in the place it is kept in, or, for
    one that was not saved, the value of the register before. *)
Definition gets_from (k : Z) (m : memory) (i : Z) : Prop :=
  (∃ x, saved_value c m i x ∧
     ((∀ j, k ≤ j < i → ¬ kept_in c i j) ∧ v i = x ∨
      ∃ j, k ≤ j < i ∧ kept_in c i j ∧ v i = u64 (v j))) ∨
  unsaved c i ∧ 0 < i ∧ v i = v (i - 1).

Definition gets (i : Z) : Prop := gets_from 0 m0 i.

(** The places of the registers are mapped; the save location of a register is apart
    from the places of those before it, or is one of them. *)
Record context_apart : Prop := {
  ca_context : context_ok c.(uc);
  ca_mapped : ∀ i k, 0 ≤ i < 17 → 0 ≤ k < 8 → is_Some (m0 !! u64 (slot_of c.(uc) i + k));
  ca_locs : Forall is_u64 c.(dwarf).(loc);
  ca_apart : ∀ i j l, 0 ≤ j < i → i < 17 → aread c.(dwarf).(loc) i = Ok l → l ≠ 0 →
    disjoint_words l (slot_of c.(uc) j) ∨ l = slot_of c.(uc) j
}.

(** A word outside the context. *)
Definition outside (a : Z) : Prop := is_u64 a ∧ ∀ j, 0 ≤ j < 17 → disjoint_words a (slot_of c.(uc) j).

(** The first [k] registers are in the context. *)
Record established (k : Z) (s : ustate) : Prop := {
  es_cur : s.(cur) = c;
  es_lga : lga_ok s.(mach);
  es_dom : dom s.(mach).(mem) = dom m0;
  es_done : ∀ j, 0 ≤ j < k → load 8 s.(mach).(mem) (slot_of c.(uc) j) = Ok (u64 (v j));
  es_todo : ∀ i, k ≤ i < 17 → gets_from k s.(mach).(mem) i;
  es_outside : ∀ a, outside a → load 8 s.(mach).(mem) a = load 8 m0 a
}.

Context (Hca : context_apart).

Lemma slot_u64 i : 0 ≤ i < 17 → is_u64 (slot_of c.(uc) i) ∧ slot_of c.(uc) i ≠ 0.
Proof. intros Hi. destruct (r_uc_addr_range c.(uc) i (ca_context Hca) Hi) as (? & ? & _). done. Qed.

Lemma slot_inj i j : 0 ≤ i < 17 → 0 ≤ j < 17 → slot_of c.(uc) i = slot_of c.(uc) j → i = j.
Proof.
  intros Hi Hj E. destruct (decide (i = j)) as [|Hne]; [done|].
  pose proof (slots_apart c.(uc) i j (ca_context Hca) Hi Hj Hne) as Hd. rewrite E in Hd.
  by destruct (Hd 0 0).
Qed.

Lemma word_at_store m m' a x l w :
  store 8 m a x = Ok m' → is_u64 a → is_u64 l → disjoint_words l a → word_at m l w → word_at m' l w.
Proof. intros Hs Ha Hl Hd [Hp Hw]. split; [done|]. by rewrite (load_store_disjoint _ _ _ _ _ Hs). Qed.

(** How a store at the place of [k] changes what is read for a later register. *)
Lemma saved_value_store m m' k y i x :
  store 8 m (slot_of c.(uc) k) y = Ok m' → 0 ≤ k < i → i < 17 → saved_value c m i x →
  kept_in c i k ∧ saved_value c m' i (u64 y) ∨ ¬ kept_in c i k ∧ saved_value c m' i x.
Proof.
  intros Hs Hk Hi. unfold saved_value, kept_in.
  destruct (Z.eqb_spec i RSP) as [->|Hsp]; [intros ?; right; split; [by intros [? _]|done]|].
  destruct (Z.eqb_spec i RAX) as [->|Hax]; [unfold RAX in Hk; lia|].
  destruct (Z.eqb_spec i RDX) as [->|Hdx]; cbn [andb].
  - destruct (Z.testbit _ 1) eqn:E1.
    { intros ?. right. split; [|done]. intros (_ & _ & He & _). by discriminate He. }
    intros (l & Hl & Hw). destruct (decide (l = slot_of c.(uc) k)) as [->|Hne].
    + left. split; [done|]. eexists. split; [done|]. split; [apply Hw|].
      eapply load_store_same; [exact Hs|]. apply slot_u64; lia.
    + right. split; [rewrite Hl; intros (_ & _ & _ & [= ?]); done|]. exists l. split; [done|].
      eapply word_at_store; [exact Hs|apply slot_u64; lia| | |exact Hw].
      { eapply aread_Forall; [apply Hca|exact Hl]. }
      destruct (ca_apart Hca RDX k l ltac:(done) Hi Hl) as [?|?]; [by eapply word_at_loc|done|done].
  - intros (l & Hl & Hw). destruct (decide (l = slot_of c.(uc) k)) as [->|Hne].
    + left. split; [done|]. eexists. split; [done|]. split; [apply Hw|].
      eapply load_store_same; [exact Hs|]. apply slot_u64; lia.
    + right. split; [rewrite Hl; intros (_ & _ & _ & [= ?]); done|]. exists l. split; [done|].
      eapply word_at_store; [exact Hs|apply slot_u64; lia| | |exact Hw].
      { eapply aread_Forall; [apply Hca|exact Hl]. }
      destruct (ca_apart Hca i k l ltac:(done) Hi Hl) as [?|?]; [by eapply word_at_loc|done|done].
Qed.

Lemma gets_store m m' k i :
  store 8 m (slot_of c.(uc) k) (v k) = Ok m' → 0 ≤ k < i → i < 17 →
  gets_from k m i → gets_from (k + 1) m' i.
Proof.
  intros Hs Hk Hi [(x & Hx & Hv)|Hu]; [left|by right].
  destruct (saved_value_store _ _ _ _ _ _ Hs Hk Hi Hx) as [[Hkept Hx']|[Hkept Hx']].
  - exists (u64 (v k)). split; [done|]. left.
    assert (Honly : ∀ j, k ≤ j < i → kept_in c i j → j = k).
    { intros j Hj Hkj. apply slot_inj; [lia|lia|]. destruct Hkept as (_ & _ & _ & E), Hkj as (_ & _ & _ & E').
      rewrite E in E'. by injection E'. }
    split; [intros j Hj Hkj; specialize (Honly j ltac:(lia) Hkj); lia|].
    destruct Hv as [[Hno _]|(j & Hj & Hkj & ->)]; [by destruct (Hno k ltac:(lia))|].
    by rewrite (Honly j Hj Hkj).
  - exists x. split; [done|]. destruct Hv as [[Hno ->]|(j & Hj & Hkj & ->)].
    + left. split; [|done]. intros j Hj. apply Hno. lia.
    + right. exists j. split; [|done]. destruct (decide (j = k)) as [->|]; [done|lia].
Qed.

(** Storing a register's value in the context. *)
Lemma access_reg_store s reg y :
  0 ≤ reg < 17 → s.(cur) = c → dom s.(mach).(mem) = dom m0 →
  ∃ m', store 8 s.(mach).(mem) (slot_of c.(uc) reg) y = Ok m' ∧
    access_reg reg (Some y) s = (Ok y, set_mach (set_mem m' s.(mach)) s).
Proof.
  intros Hr Hc Hd. destruct (slot_u64 reg Hr) as [Hu H0].
  destruct (store_mapped 8 s.(mach).(mem) (slot_of c.(uc) reg) y) as [m' Hm']; [|done|].
  { intros k Hk. apply elem_of_dom. rewrite Hd. apply elem_of_dom. by apply (ca_mapped Hca). }
  exists m'. split; [done|]. unfold access_reg, store_word. mred. cbn [unw_is_fpreg]. rewrite Hc.
  unfold slot_of in *. rewrite (proj2 (Z.eqb_neq _ _) H0). by rewrite Hm'.
Qed.

Lemma established_store k s m' :
  0 ≤ k < 17 → established k s → store 8 s.(mach).(mem) (slot_of c.(uc) k) (v k) = Ok m' →
  established (k + 1) (set_mach (set_mem m' s.(mach)) s).
Proof.
  intros Hk [Hc Hg Hd Hdone Htodo Hout] Hs.
  split; try done; cbn [mach set_mach mem set_mem].
  - by rewrite (store_dom _ _ _ _ _ Hs).
  - intros j Hj. destruct (decide (j = k)) as [->|].
    + eapply load_store_same; [exact Hs|]. by apply slot_u64.
    + rewrite (load_store_disjoint _ _ _ _ _ Hs);
        [apply Hdone; lia|by apply slot_u64|apply slot_u64; lia|].
      apply slots_apart; [apply Hca|lia..].
  - intros i Hi. eapply gets_store; [exact Hs|lia|lia|]. apply Htodo. lia.
  - intros a Ha. rewrite (load_store_disjoint _ _ _ _ _ Hs); [by apply Hout|by apply slot_u64|apply Ha|].
    by apply Ha.
Qed.

(** One register. *)
Lemma establish_reg_spec k val s :
  0 ≤ k < 17 → established k s → (0 < k → val = Some (v (k - 1))) →
  ∃ s', establish_reg k val s = (Ok (Some (v k)), s') ∧ established (k + 1) s'.
Proof.
  intros Hk Hest Hval. pose proof Hest as [Hc Hg Hd _ Htodo _].
  unfold establish_reg, unw_is_fpreg, try. mred.
  destruct (Htodo k ltac:(lia)) as [(x & Hx & Hv)|(Hu & Hk0 & Hv)].
  - assert (v k = x) as <- by (destruct Hv as [[_ ?]|(j & ? & _)]; [done|lia]).
    rewrite <- Hc in Hx. destruct (tdep_read_saved s k (v k) Hg ltac:(lia) Hx) as (s1 & E & [Hc1 Hm1] & Hg1).
    rewrite E. destruct (access_reg_store s1 k (v k) ltac:(lia)) as (m' & Hst & E').
    { by rewrite Hc1. } { by rewrite Hm1. }
    rewrite E'. eexists. split; [reflexivity|]. apply established_store; [lia| |done].
    destruct Hest. split; rewrite ?Hc1, ?Hm1; done.
  - rewrite <- Hc in Hu. rewrite (tdep_read_unsaved s k ltac:(lia) Hu), Hval, <- Hv by done.
    destruct (access_reg_store s k (v k) ltac:(lia) Hc Hd) as (m' & Hst & E').
    rewrite E'. eexists. split; [reflexivity|]. by apply established_store.
Qed.

Lemma establish_loop_spec : ∀ n k val s,
  Z.of_nat n = 17 - k → 0 ≤ k → established k s → (0 < k → val = Some (v (k - 1))) →
  ∃ s', establish_loop n k val s = (Ok tt, s') ∧ established 17 s'.
Proof.
  induction n as [|n IH]; intros k val s Hn Hk Hest Hval; cbn [establish_loop].
  { exists s. replace 17 with k by lia. done. }
  mred. destruct (establish_reg_spec k val s ltac:(lia) Hest Hval) as (s1 & -> & Hest1).
  apply IH; [lia|lia|done|]. intros _. by rewrite Z.add_simpl_r.
Qed.
End establish.

(** The whole machine context. *)
Lemma establish_spec (s : ustate) (v : Z → Z) :
  lga_ok s.(mach) → context_apart s.(cur) s.(mach).(mem) →
  (∀ i, 0 ≤ i < 17 → gets s.(cur) s.(mach).(mem) v i) →
  ∃ s', establish_machine_state s = (Ok tt, s') ∧ established s.(cur) s.(mach).(mem) v 17 s'.
Proof.
  intros Hg Hca Hv. apply (establish_loop_spec s.(cur) s.(mach).(mem) v Hca 17 0 None s); [done|done| |lia].
  by split; try done; intros ??; lia.
Qed.

(** ** Properties *)

(** C37. [establish_machine_state] puts the registers of a cursor into the machine
    context one after the other: the frame address, an argument that was set, or the word
    at the save location.  A register that is kept in the place of a register before it
    gets what that one was just given, not what it held, and one that is not saved the
    value of the one before; nothing outside the context changes. *)
Theorem resume_installs_registers (s : ustate) (v : Z → Z) :
  lga_ok s.(mach) → context_apart s.(cur) s.(mach).(mem) →
  (∀ i, 0 ≤ i < 17 → gets s.(cur) s.(mach).(mem) v i) →
  ∃ s', establish_machine_state s = (Ok tt, s') ∧ s'.(cur) = s.(cur) ∧
    (∀ i, 0 ≤ i < 17 → load 8 s'.(mach).(mem) (slot_of s.(cur).(uc) i) = Ok (u64 (v i))) ∧
    ∀ a, outside s.(cur) a → load 8 s'.(mach).(mem) a = load 8 s.(mach).(mem) a.
Proof.
  intros Hg Hca Hv. destruct (establish_spec s v Hg Hca Hv) as (s' & E & [Hc _ _ Hl _ Ho]). by exists s'.
Qed.

(** After a step along the frame chain only RBP and the return address are
    saved: resuming there reads an uninitialised variable, or, when both argument
    registers have been set, gives RBX the second argument and R12 to R15 the
    stack pointer, each unsaved register the value of the one before it. *)
Lemma resume_after_frame_chain (s : ustate) (rbp saved ra a b : Z) :
  s.(cur).(dwarf).(loc) = chain_locs rbp → s.(cur).(dwarf).(eh_args) = [a; b] →
  lga_ok s.(mach) → context_apart s.(cur) s.(mach).(mem) →
  word_at s.(mach).(mem) rbp saved → word_at s.(mach).(mem) (u64 (rbp + 8)) ra →
  outside s.(cur) rbp → outside s.(cur) (u64 (rbp + 8)) →
  if Z.testbit s.(cur).(dwarf).(eh_valid_mask) 0 then
    Z.testbit s.(cur).(dwarf).(eh_valid_mask) 1 = true →
    ∃ s', establish_machine_state s = (Ok tt, s') ∧
      let reg i := load 8 s'.(mach).(mem) (slot_of s.(cur).(uc) i) in
      reg RIP = Ok (u64 ra) ∧ reg RBP = Ok (u64 saved) ∧ reg RBX = Ok (u64 b) ∧
      ∀ i, 12 ≤ i ≤ 15 → reg i = Ok (u64 s.(cur).(dwarf).(cfa))
  else (establish_machine_state s).1 = Stop Undef.
Proof.
  intros Hl Ha Hg Hca Hs Hr Ho1 Ho2. destruct (Z.testbit _ 0) eqn:E0; [intros E1|].
  - set (v := λ i, if i =? 0 then a else if i <? 6 then b else if i =? 6 then saved
                   else if i <? 16 then s.(cur).(dwarf).(cfa) else ra).
    destruct (establish_spec s v Hg Hca) as (s' & E & [Hc _ _ Hv _ _]).
    + assert (Hno : ∀ i j l, 0 ≤ i < 17 → 0 ≤ j < i → aread (chain_locs rbp) i = Ok l →
        (l = 0 ∨ outside s.(cur) l) → ¬ kept_in s.(cur) i j).
      { intros i j l Hi Hj El Hlo (_ & _ & _ & Ek). rewrite Hl, El in Ek. injection Ek as ->.
        destruct Hlo as [Hz|[_ Ho]]; [by apply (slot_u64 s.(cur) s.(mach).(mem) Hca j ltac:(lia))|].
        by destruct (Ho j ltac:(lia) 0 0). }
      intros i Hi. unfold gets, gets_from, saved_value, unsaved. rewrite Hl, Ha, E0, E1.
      assert (Hk : ∀ l, aread (chain_locs rbp) i = Ok l → (l = 0 ∨ outside s.(cur) l) →
        ∀ j, 0 ≤ j < i → ¬ kept_in s.(cur) i j) by (intros l El Hlo j Hj; by eapply Hno; eauto).
      clear Hno. destruct (Z_of_nat_complete i) as [n ->]; [lia|]. assert (Hn : (n < 17)%nat) by lia. clear Hi.
      do 17 (destruct n as [|n];
        [first [left; eexists; split; [reflexivity|left; split; [by apply (Hk 0); auto|reflexivity]]
               |left; eexists; split; [eexists; split; [reflexivity|eassumption]|left; split; [by eapply Hk; eauto|reflexivity]]
               |right; split_and!; first [reflexivity|lia|discriminate]]|]). lia.
    + exists s'. split; [exact E|]. cbv zeta.
      split_and!; [apply (Hv 16)|apply (Hv 6)|apply (Hv 3)|]; [lia..|].
      intros i Hi. rewrite Hv by lia. unfold v. rewrite (proj2 (Z.eqb_neq i 0)), (proj2 (Z.ltb_ge i 6)) by lia.
      rewrite (proj2 (Z.eqb_neq i 6)), (proj2 (Z.ltb_lt i 16)) by lia. done.
  - assert (Hu : unsaved s.(cur) 0) by (unfold unsaved; rewrite Hl, E0; split_and!; done).
    unfold establish_machine_state. change (Z.to_nat (UNW_REG_LAST + 1)) with 17%nat.
    cbn [establish_loop].
    unfold establish_reg, unw_is_fpreg, try. mred.
    by rewrite (tdep_read_unsaved s 0 ltac:(lia) Hu).
Qed.

Lemma Ok_inj {A} (x y : A) : Ok x = Ok y → x = y.
Proof. by intros [= ->]. Qed.

Lemma example_apart c m :
  c.(uc) = example_context → Forall is_u64 c.(dwarf).(loc) →
  Forall (λ i, Forall (λ k, is_Some (m !! u64 (slot_of example_context (Z.of_nat i) + Z.of_nat k)))
    (seq 0 8)) (seq 0 17) →
  (∀ i j l, 0 ≤ j < i → i < 17 → aread c.(dwarf).(loc) i = Ok l → l ≠ 0 →
    disjoint_words l (slot_of example_context j) ∨ l = slot_of example_context j) →
  context_apart c m.
Proof.
  intros Hu Hl Hm Ha. split; rewrite ?Hu.
  - unfold context_ok, example_context. lia.
  - intros i k Hi Hk. rewrite <- (Z2Nat.id i), <- (Z2Nat.id k) by lia.
    rewrite Forall_forall in Hm. specialize (Hm (Z.to_nat i) ltac:(apply elem_of_seq; lia)).
    rewrite Forall_forall in Hm. apply Hm. apply elem_of_seq. lia.
  - done.
  - done.
Qed.

(** A context whose RBX is kept in R12's place and R12 in RBX's, every other register in
    its own. *)
Definition example_place (i : Z) : Z := if i =? 3 then 12 else if i =? 12 then 3 else i.

Definition example_swapped : ustate :=
  on_dwarf (set_loc ((λ i, slot_of example_context (example_place i)) <$> seqZ 0 17)) example_cursor.

Lemma example_swapped_loc i :
  0 ≤ i < 17 → aread example_swapped.(cur).(dwarf).(loc) i = Ok (slot_of example_context (example_place i)).
Proof.
  intros Hi. destruct (Z_of_nat_complete i) as [n ->]; [lia|]. assert (Hn : (n < 17)%nat) by lia. clear Hi.
  do 17 (destruct n as [|n]; [vm_compute; reflexivity|]). lia.
Qed.

Lemma example_place_range i : 0 ≤ i < 17 → 0 ≤ example_place i < 17.
Proof. unfold example_place. repeat case_match; lia. Qed.

Lemma example_context_ok : context_ok example_context.
Proof. unfold context_ok, example_context. lia. Qed.

Lemma example_swapped_apart : context_apart example_swapped.(cur) example_swapped.(mach).(mem).
Proof.
  apply example_apart; [reflexivity|decided|decided|].
  intros i j l Hj Hi Hl _. rewrite example_swapped_loc in Hl by lia. apply Ok_inj in Hl as <-.
  destruct (decide (example_place i = j)) as [<-|Hne]; [by right|left].
  apply slots_apart; [apply example_context_ok|apply example_place_range; lia|lia|done].
Qed.

Definition example_resumed (i : Z) : Z := if (i =? 3) || (i =? 12) then 112 else 100 + i.

Lemma example_swapped_gets i :
  0 ≤ i < 17 → gets example_swapped.(cur) example_swapped.(mach).(mem) example_resumed i.
Proof.
  intros Hi. left. exists (100 + example_place i). split.
  - unfold saved_value.
    assert (Em : example_swapped.(mach).(mem) = example_mem) by (vm_compute; reflexivity).
    assert (Ec : example_swapped.(cur).(dwarf).(cfa) = 107) by (vm_compute; reflexivity).
    assert (Ev : example_swapped.(cur).(dwarf).(eh_valid_mask) = 0) by (vm_compute; reflexivity).
    rewrite Em, Ec, Ev, !Z.testbit_0_l, !andb_false_r.
    destruct (Z.eqb_spec i RSP) as [->|_]; [reflexivity|].
    eexists. split; [by apply example_swapped_loc|].
    pose proof (example_place_range i Hi) as Hp. split; [|exact (example_context_holds _ Hp)].
    assert (Hall : forallb (λ n, negb (PAGE_START (slot_of example_context (Z.of_nat n)) =? 0)) (seq 0 17) = true)
      by (vm_compute; reflexivity).
    rewrite forallb_forall in Hall. specialize (Hall (Z.to_nat (example_place i)) ltac:(apply in_seq; lia)).
    rewrite Z2Nat.id in Hall by lia. by apply negb_true_iff, Z.eqb_neq in Hall.
  - assert (Hk : ∀ j, 0 ≤ j < i → kept_in example_swapped.(cur) i j → example_place i = j).
    { intros j Hj (_ & _ & _ & E). rewrite example_swapped_loc in E by done. apply Ok_inj in E.
      apply (slot_inj _ _ example_swapped_apart); [by apply example_place_range|lia|exact E]. }
    destruct (decide (i = 12)) as [->|Hne].
    + right. exists 3. split; [lia|]. split; [|reflexivity].
      split_and!; [done..|]. by apply example_swapped_loc.
    + left. split.
      * intros j Hj Hkj. apply Hk in Hkj; [|done]. revert Hkj. unfold example_place.
        repeat case_match; lia.
      * unfold example_resumed, example_place. repeat case_match; lia.
Qed.

(** R12, 103 in the place of RBX before, becomes 112 like RBX. *)
Lemma resume_installs_registers_witness :
  ∃ s', establish_machine_state example_swapped = (Ok tt, s') ∧
    load 8 example_swapped.(mach).(mem) (slot_of example_context 3) = Ok 103 ∧
    load 8 s'.(mach).(mem) (slot_of example_context 3) = Ok 112 ∧
    load 8 s'.(mach).(mem) (slot_of example_context 12) = Ok 112.
Proof.
  destruct (resume_installs_registers example_swapped example_resumed) as (s' & E & _ & Hl & _).
  - decided.
  - exact example_swapped_apart.
  - exact example_swapped_gets.
  - exists s'. split; [exact E|]. split; [vm_compute; reflexivity|].
    split; [apply (Hl 3); lia|apply (Hl 12); lia].
Defined.

Lemma example_below l j : l < 0x10000 - 8 → is_u64 l → 0 ≤ j < 17 → disjoint_words l (slot_of example_context j).
Proof.
  intros Hl Hu Hj. destruct (r_uc_addr_range example_context j example_context_ok Hj) as (Hs & _ & Hr).
  assert (Hc : example_context = 0x10000) by reflexivity.
  apply disjoint_words_apart; [exact Hu|exact Hs|unfold slot_of; lia|unfold slot_of; lia].
Qed.

(** The stack of [example_module_mem] and a machine context, after a step to the
    frame at 0x8010, both argument registers set. *)
Definition example_chain_state : ustate :=
  on_dwarf (λ d, set_eh_valid_mask 3 (set_eh_args [0x11; 0x22] (set_loc (chain_locs 0x8010) (set_cfa 0x8048 d))))
    (UState (Machine (put_bytes example_mem 0x8000 ([0x8010; 0; 0x8050; 0x1240] ≫= le_bytes 8))
       [0; 0; 0; 0] 0) (zero_cursor 0)).

Lemma resume_after_frame_chain_witness :
  ∃ s', establish_machine_state example_chain_state = (Ok tt, s') ∧
    load 8 s'.(mach).(mem) (slot_of example_context RBX) = Ok 0x22 ∧
    load 8 s'.(mach).(mem) (slot_of example_context 12) = Ok 0x8048.
Proof.
  destruct (resume_after_frame_chain example_chain_state 0x8010 0x8050 0x1240 0x11 0x22)
    as (s' & E & _ & _ & Hb & Hr).
  - reflexivity.
  - reflexivity.
  - decided.
  - apply example_apart; [reflexivity|decided|decided|].
    intros i j l Hj Hi Hl Hne. rewrite <- (Z2Nat.id i) in Hl by lia.
    assert (Hn : (Z.to_nat i < 17)%nat) by lia. revert Hn Hl. generalize (Z.to_nat i). intros n Hn Hl.
    assert (Hlow : l < 0x10000 - 8 ∧ is_u64 l).
    { do 17 (destruct n as [|n]; [vm_compute in Hl; injection Hl as <-; split; [lia|unfold is_u64; lia]|]). lia. }
    left. apply example_below; [apply Hlow|apply Hlow|lia].
  - decided.
  - decided.
  - split; [unfold is_u64; lia|]. intros j Hj. apply example_below; [lia|unfold is_u64; lia|lia].
  - split; [apply u64_range|]. intros j Hj. apply example_below; [decided|apply u64_range|lia].
  - reflexivity.
  - exists s'. split; [exact E|]. split; [exact Hb|]. apply (Hr 12). lia.
Defined.
