(* ===== verification/Asm.v ===== *)
(** * The assembler routines

    [getcontext.S], [setcontext.S], [longjmp.S] and [siglongjmp.S] as lists of
    instructions, with an interpreter for the few kinds of instruction they use.  The
    registers are numbered as in the rest of the library, RIP among them. *)
From S2P Require Export UnwindSpec.

(** ** The machine *)

Record cpu := Cpu { regs : Z → Z; cpu_mem : memory }.

Definition put_reg (r v : Z) (c : cpu) : cpu :=
  Cpu (λ i, if i =? r then v else c.(regs) i) c.(cpu_mem).

Inductive instr :=
  | Load (off base dst : Z)
  | Store (src off base : Z)
  | Mov (src dst : Z)
  | Lea (off base dst : Z)
  | Xor (src dst : Z)
  | Push (src : Z)
  | Ret.

Definition ea (c : cpu) (base off : Z) : Z := u64 (c.(regs) base + off).

Definition exec (i : instr) (c : cpu) : res cpu :=
  match i with
  | Load off base dst => v ← load 8 c.(cpu_mem) (ea c base off); Ok (put_reg dst v c)
  | Store src off base => m ← store 8 c.(cpu_mem) (ea c base off) (c.(regs) src); Ok (Cpu c.(regs) m)
  | Mov src dst => Ok (put_reg dst (c.(regs) src) c)
  | Lea off base dst => Ok (put_reg dst (ea c base off) c)
  | Xor src dst => Ok (put_reg dst (Z.lxor (c.(regs) dst) (c.(regs) src)) c)
  | Push src =>
      m ← store 8 c.(cpu_mem) (ea c RSP (-8)) (c.(regs) src);
      Ok (put_reg RSP (ea c RSP (-8)) (Cpu c.(regs) m))
  | Ret =>
      t ← load 8 c.(cpu_mem) (ea c RSP 0);
      Ok (put_reg RIP t (put_reg RSP (ea c RSP 8) c))
  end.

Fixpoint run_asm (l : list instr) (c : cpu) : res cpu :=
  match l with [] => Ok c | i :: l' => c' ← exec i c; run_asm l' c' end.

(** ** The routines *)

(** The offset of a register in the context. *)
Definition gregs (r : Z) : Z := default 0 (regnum_of_Z r ≫= uc_mcontext_gregs).

Definition restore (r : Z) : instr := Load (gregs r) RDI r.
Definition save (r : Z) : instr := Store r (gregs r) RDI.

(** [src/getcontext.S:39-68], [_Ux86_64_getcontext] *)
Definition _Ux86_64_getcontext : list instr :=
  map save [12; 13; 14; 15; RBP; RBX; 8; 9; RDI; RSI; RDX; RAX; RCX] ++
  [Lea 8 RSP RAX; Store RAX (gregs RSP) RDI; Load 0 RSP RAX; Store RAX (gregs RIP) RDI; Xor RAX RAX; Ret].

(** [src/getcontext.S:83-97], [_Ux86_64_getcontext_trace] *)
Definition _Ux86_64_getcontext_trace : list instr :=
  map save [RBP; RBX] ++
  [Lea 8 RSP RAX; Store RAX (gregs RSP) RDI; Load 0 RSP RAX; Store RAX (gregs RIP) RDI; Xor RAX RAX; Ret].

(** [src/setcontext.S:45-68], [_Ux86_64_setcontext] *)
Definition _Ux86_64_setcontext : list instr :=
  map restore [8; 9; RBX; RBP; 12; 13; 14; 15; RSI; RDX; RAX; RCX; RSP] ++
  [Load (gregs RIP) RDI RCX; Push RCX; restore RCX; restore RDI; Ret].

(** [src/longjmp.S:28-31], [_UI_longjmp_cont] *)
Definition _UI_longjmp_cont : list instr := [Push RAX; Mov RDX RAX; Ret].

(** [src/siglongjmp.S:28-29], [_UI_siglongjmp_cont] *)
Definition _UI_siglongjmp_cont : list instr := [Ret].

(** ** Running them *)

Lemma put_reg_same r v c : (put_reg r v c).(regs) r = v.
Proof. cbn. by rewrite Z.eqb_refl. Qed.

Lemma put_reg_ne i r v c : i ≠ r → (put_reg r v c).(regs) i = c.(regs) i.
Proof. intros H. cbn. by rewrite (proj2 (Z.eqb_neq _ _) H). Qed.

Lemma put_reg_mem r v c : (put_reg r v c).(cpu_mem) = c.(cpu_mem).
Proof. done. Qed.

(** Compute what the registers hold. *)
Ltac asm :=
  repeat match goal with
  | |- context [regs (put_reg ?r ?v ?c) ?i] =>
      first [rewrite (put_reg_same r v c)|rewrite (put_reg_ne i r v c) by done]
  | |- context [cpu_mem (put_reg ?r ?v ?c)] => rewrite (put_reg_mem r v c)
  | |- context [regs (Cpu ?f ?m)] => change (regs (Cpu f m)) with f
  | |- context [cpu_mem (Cpu ?f ?m)] => change (cpu_mem (Cpu f m)) with m
  end.

Lemma run_app l1 l2 c : run_asm (l1 ++ l2) c = (c' ← run_asm l1 c; run_asm l2 c').
Proof.
  revert c. induction l1 as [|i l1 IH]; intros c; [done|]. cbn [app run_asm].
  destruct (exec i c) as [c1| |]; [|done..]. mred. by rewrite IH.
Qed.

Lemma gregs_slot uc r : 0 ≤ r < 17 → u64 (uc + gregs r) = slot_of uc r.
Proof.
  intros Hr. destruct (greg_offset r Hr) as (x & o & E1 & E2 & _).
  unfold slot_of, x86_64_r_uc_addr, gregs. rewrite E1. cbn [mbind option_bind]. by rewrite E2.
Qed.

(** Loads from the context. *)
Lemma restores_run uc w : ∀ l c,
  c.(regs) RDI = uc → Forall (λ r, 0 ≤ r < 17 ∧ r ≠ RDI ∧ load 8 c.(cpu_mem) (slot_of uc r) = Ok (w r)) l →
  ∃ c', run_asm (map restore l) c = Ok c' ∧ c'.(cpu_mem) = c.(cpu_mem) ∧
    (∀ i, i ∈ l → c'.(regs) i = w i) ∧ ∀ i, i ∉ l → c'.(regs) i = c.(regs) i.
Proof.
  induction l as [|r l IH]; intros c Hu Hl.
  { exists c. split_and!; [done|done|by intros i ?%elem_of_nil|done]. }
  apply Forall_cons in Hl as [(Hr & Hd & Hw) Hl]. cbn [map run_asm restore exec].
  unfold ea. rewrite Hu, gregs_slot, Hw by done. mred.
  destruct (IH (put_reg r (w r) c)) as (c' & E & Em & Hin & Hout).
  - unfold put_reg. cbn [regs]. by rewrite (proj2 (Z.eqb_neq RDI r)).
  - exact Hl.
  - exists c'. split_and!; [exact E|exact Em| |].
    + intros i Hi. destruct (decide (i ∈ l)) as [|Hn]; [by apply Hin|].
      apply elem_of_cons in Hi as [->|]; [|done]. rewrite Hout by done. cbn. by rewrite Z.eqb_refl.
    + intros i Hi. apply not_elem_of_cons in Hi as [Hne Hi]. rewrite Hout by done. cbn.
      by rewrite (proj2 (Z.eqb_neq _ _)).
Qed.

Definition places_mapped (m : memory) (uc : Z) : Prop :=
  ∀ i k, 0 ≤ i < 17 → 0 ≤ k < 8 → is_Some (m !! u64 (slot_of uc i + k)).

Lemma slot_range uc i : context_ok uc → 0 ≤ i < 17 → is_u64 (slot_of uc i).
Proof. intros Hu Hi. by apply r_uc_addr_range. Qed.

(** Writing one place of the context. *)
Lemma place_store m uc r v :
  context_ok uc → places_mapped m uc → 0 ≤ r < 17 →
  ∃ m', store 8 m (slot_of uc r) v = Ok m' ∧ places_mapped m' uc ∧
    load 8 m' (slot_of uc r) = Ok (u64 v) ∧
    (∀ i, 0 ≤ i < 17 → i ≠ r → load 8 m' (slot_of uc i) = load 8 m (slot_of uc i)) ∧
    ∀ a, is_u64 a → disjoint_words a (slot_of uc r) → load 8 m' a = load 8 m a.
Proof.
  intros Hc Hm Hr. destruct (store_mapped 8 m (slot_of uc r) v) as [m' E]; [|by apply slot_range|].
  { intros k Hk. by apply Hm. }
  exists m'. split_and!; [done| | | |].
  - intros i k Hi Hk. apply elem_of_dom. rewrite (store_dom _ _ _ _ _ E). apply elem_of_dom. by apply Hm.
  - eapply load_store_same; [exact E|]. by apply slot_range.
  - intros i Hi Hne. apply (load_store_disjoint _ _ _ _ _ E); [by apply slot_range|by apply slot_range|].
    by apply slots_apart.
  - intros a Ha Hd. apply (load_store_disjoint _ _ _ _ _ E); [by apply slot_range|done|done].
Qed.

(** Stores into the context. *)
Lemma saves_run uc a : ∀ l c,
  context_ok uc → c.(regs) RDI = uc → places_mapped c.(cpu_mem) uc → NoDup l → Forall (λ r, 0 ≤ r < 17) l →
  is_u64 a → (∀ i, 0 ≤ i < 17 → disjoint_words a (slot_of uc i)) →
  ∃ m', run_asm (map save l) c = Ok (Cpu c.(regs) m') ∧ places_mapped m' uc ∧
    (∀ i, i ∈ l → load 8 m' (slot_of uc i) = Ok (u64 (c.(regs) i))) ∧
    (∀ i, 0 ≤ i < 17 → i ∉ l → load 8 m' (slot_of uc i) = load 8 c.(cpu_mem) (slot_of uc i)) ∧
    load 8 m' a = load 8 c.(cpu_mem) a.
Proof.
  induction l as [|r l IH]; intros c Hc Hu Hm Hnd Hl Ha Hd.
  { exists c.(cpu_mem). split_and!; [by destruct c|done|by intros i ?%elem_of_nil|done|done]. }
  apply NoDup_cons in Hnd as [Hr' Hnd]. apply Forall_cons in Hl as [Hr Hl].
  cbn [map run_asm save exec]. unfold ea. rewrite Hu, gregs_slot by done.
  destruct (place_store c.(cpu_mem) uc r (c.(regs) r) Hc Hm Hr) as (m1 & -> & Hm1 & Es & Eo & Ea). mred.
  destruct (IH (Cpu c.(regs) m1) Hc Hu Hm1 Hnd Hl Ha Hd) as (m' & E & Hm' & Hin & Hout & Ea').
  exists m'. cbn [regs cpu_mem] in *. split_and!; [exact E|done| | |by rewrite Ea', Ea by auto].
  - intros i [->|Hi]%elem_of_cons; [by rewrite Hout|by apply Hin].
  - intros i Hi [Hne Hni]%not_elem_of_cons. by rewrite Hout, Eo.
Qed.

(** What a routine sees that is entered with the word [ra] on the stack. *)
Definition entered (c : cpu) (uc ra : Z) : Prop :=
  c.(regs) RDI = uc ∧ is_u64 (c.(regs) RSP) ∧ load 8 c.(cpu_mem) (c.(regs) RSP) = Ok ra ∧
  ∀ i, 0 ≤ i < 17 → disjoint_words (c.(regs) RSP) (slot_of uc i).

(** The end of both routines that save a context. *)
Lemma save_pc_run c uc ra :
  context_ok uc → entered c uc ra → places_mapped c.(cpu_mem) uc →
  ∃ c', run_asm [Lea 8 RSP RAX; Store RAX (gregs RSP) RDI; Load 0 RSP RAX; Store RAX (gregs RIP) RDI;
                 Xor RAX RAX; Ret] c = Ok c' ∧
    c'.(regs) RAX = 0 ∧ c'.(regs) RIP = ra ∧ c'.(regs) RSP = u64 (c.(regs) RSP + 8) ∧
    (∀ i, i ≠ RAX → i ≠ RIP → i ≠ RSP → c'.(regs) i = c.(regs) i) ∧
    load 8 c'.(cpu_mem) (slot_of uc RSP) = Ok (u64 (c.(regs) RSP + 8)) ∧
    load 8 c'.(cpu_mem) (slot_of uc RIP) = Ok ra ∧
    ∀ i, 0 ≤ i < 17 → i ≠ RSP → i ≠ RIP → load 8 c'.(cpu_mem) (slot_of uc i) = load 8 c.(cpu_mem) (slot_of uc i).
Proof.
  intros Hc (Hu & Hs & Hra & Hap) Hm.
  destruct (place_store c.(cpu_mem) uc RSP (u64 (c.(regs) RSP + 8)) Hc Hm ltac:(unfold RSP; lia))
    as (m1 & E1 & Hm1 & Es1 & Eo1 & Ea1).
  destruct (place_store m1 uc RIP ra Hc Hm1 ltac:(unfold RIP; lia)) as (m2 & E2 & Hm2 & Es2 & Eo2 & Ea2).
  pose proof (load_range _ _ _ _ Hra) as Hrr.
  assert (Hru : u64 ra = ra) by by apply u64_small.
  eexists. split.
  { cbn [run_asm exec]. unfold ea. mred. asm. rewrite Hu, gregs_slot, E1 by (unfold RSP; lia). mred. asm.
    rewrite Z.add_0_r, (u64_small (c.(regs) RSP)), Ea1, Hra by (done || (apply Hap; unfold RSP; lia)). mred. asm.
    rewrite Hu, gregs_slot, E2 by (unfold RIP; lia). mred. asm.
    rewrite Z.add_0_r, (u64_small (c.(regs) RSP)), Ea2, Ea1, Hra by (done || (apply Hap; unfold RSP, RIP; lia)).
    mred. reflexivity. }
  split_and!; asm; [apply Z.lxor_nilpotent|done|done| |by rewrite Eo2, Es1, u64_idemp|by rewrite Es2, Hru|].
  - intros i H1 H2 H3. by asm.
  - intros i Hi H1 H2. by rewrite Eo2, Eo1.
Qed.

(** The registers [getcontext] stores as they are. *)
Definition stored : list Z := [12; 13; 14; 15; RBP; RBX; 8; 9; RDI; RSI; RDX; RAX; RCX].

Lemma stored_range i : i ∈ stored → 0 ≤ i < 17 ∧ i ≠ RSP ∧ i ≠ RIP.
Proof.
  intros Hi. assert (H : Forall (λ i, 0 ≤ i < 17 ∧ i ≠ RSP ∧ i ≠ RIP) stored) by decided.
  by apply (proj1 (Forall_forall _ _) H).
Qed.

(** The context describes the caller of the routine that was entered with [c]. *)
Definition describes_caller (l : list Z) (m : memory) (uc ra : Z) (c : cpu) : Prop :=
  (∀ i, i ∈ l → load 8 m (slot_of uc i) = Ok (u64 (c.(regs) i))) ∧
  load 8 m (slot_of uc RSP) = Ok (u64 (c.(regs) RSP + 8)) ∧ load 8 m (slot_of uc RIP) = Ok ra.

(** Back in the caller with the result 0. *)
Definition returned (c c' : cpu) (ra : Z) : Prop :=
  c'.(regs) RAX = 0 ∧ c'.(regs) RIP = ra ∧ c'.(regs) RSP = u64 (c.(regs) RSP + 8) ∧
  ∀ i, i ≠ RAX → i ≠ RIP → i ≠ RSP → c'.(regs) i = c.(regs) i.

Lemma save_run l c uc ra :
  context_ok uc → entered c uc ra → places_mapped c.(cpu_mem) uc →
  NoDup l → Forall (λ i, 0 ≤ i < 17 ∧ i ≠ RSP ∧ i ≠ RIP) l →
  ∃ c', run_asm (map save l ++ [Lea 8 RSP RAX; Store RAX (gregs RSP) RDI; Load 0 RSP RAX;
                                Store RAX (gregs RIP) RDI; Xor RAX RAX; Ret]) c = Ok c' ∧
    returned c c' ra ∧ describes_caller l c'.(cpu_mem) uc ra c.
Proof.
  intros Hc He Hm Hnd Hl. pose proof He as (Hu & Hs & Hra & Hap).
  assert (Hl' : Forall (λ i, 0 ≤ i < 17) l) by (eapply Forall_impl; [exact Hl|naive_solver]).
  destruct (saves_run uc (c.(regs) RSP) l c Hc Hu Hm Hnd Hl' Hs Hap) as (m1 & E1 & Hm1 & Hin & _ & Ea).
  destruct (save_pc_run (Cpu c.(regs) m1) uc ra Hc) as (c' & E & H0 & H1 & H2 & H3 & S1 & S2 & S3).
  { split_and!; [done|done|cbn; congruence|done]. } { done. }
  exists c'. rewrite run_app, E1. split_and!; [exact E|by split_and!|].
  split_and!; [|done|done]. intros i Hi. rewrite Forall_forall in Hl. destruct (Hl i Hi) as (? & ? & ?).
  rewrite S3 by done. by apply Hin.
Qed.

Lemma getcontext_run c uc ra :
  context_ok uc → entered c uc ra → places_mapped c.(cpu_mem) uc →
  ∃ c', run_asm _Ux86_64_getcontext c = Ok c' ∧ returned c c' ra ∧ describes_caller stored c'.(cpu_mem) uc ra c.
Proof. intros Hc He Hm. apply (save_run stored); [done|done|done|decided|decided]. Qed.

Lemma getcontext_trace_run c uc ra :
  context_ok uc → entered c uc ra → places_mapped c.(cpu_mem) uc →
  ∃ c', run_asm _Ux86_64_getcontext_trace c = Ok c' ∧ returned c c' ra ∧
    describes_caller [RBP; RBX] c'.(cpu_mem) uc ra c.
Proof. intros Hc He Hm. apply (save_run [RBP; RBX]); [done|done|done|decided|decided]. Qed.

(** The registers [setcontext] loads. *)
Definition loaded (i : Z) : Prop := 0 ≤ i < 17 ∧ i ≠ 10 ∧ i ≠ 11.

(** A word that can be written and is not of the context. *)
Definition stack_word (m : memory) (uc a : Z) : Prop :=
  is_u64 a ∧ (∀ k, 0 ≤ k < 8 → is_Some (m !! u64 (a + k))) ∧
  ∀ i, 0 ≤ i < 17 → disjoint_words a (slot_of uc i).

Lemma setcontext_run c uc w :
  context_ok uc → c.(regs) RDI = uc → (∀ i, loaded i → load 8 c.(cpu_mem) (slot_of uc i) = Ok (w i)) →
  stack_word c.(cpu_mem) uc (u64 (w RSP - 8)) →
  ∃ c', run_asm _Ux86_64_setcontext c = Ok c' ∧ (∀ i, loaded i → c'.(regs) i = w i) ∧
    store 8 c.(cpu_mem) (u64 (w RSP - 8)) (w RIP) = Ok c'.(cpu_mem).
Proof.
  intros Hc Hu Hw (Hau & Hmap & Hap). unfold _Ux86_64_setcontext.
  assert (Hall : ∀ l, Forall (λ r, 0 ≤ r < 17 ∧ r ≠ 10 ∧ r ≠ 11 ∧ r ≠ RDI) l →
    Forall (λ r, 0 ≤ r < 17 ∧ r ≠ RDI ∧ load 8 c.(cpu_mem) (slot_of uc r) = Ok (w r)) l).
  { intros l Hl. eapply Forall_impl; [exact Hl|]. intros r (? & ? & ? & ?). split_and!; [lia|lia|done|]. by apply Hw. }
  destruct (restores_run uc w [8; 9; RBX; RBP; 12; 13; 14; 15; RSI; RDX; RAX; RCX; RSP] c Hu)
    as (c1 & E1 & Em & Hin & Hout); [apply Hall; decided|].
  rewrite run_app, E1. mred.
  assert (Hld : ∀ i, 0 ≤ i < 17 → i ≠ 10 → i ≠ 11 → load 8 c.(cpu_mem) (slot_of uc i) = Ok (w i))
    by (intros; by apply Hw).
  assert (Hu1 : c1.(regs) RDI = uc) by (rewrite Hout by decided; done).
  assert (Hs1 : c1.(regs) RSP = w RSP) by (apply Hin; decided).
  destruct (store_mapped 8 c.(cpu_mem) (u64 (w RSP - 8)) (w RIP)) as [m' Est]; [exact Hmap|exact Hau|].
  assert (Hkeep : ∀ i, 0 ≤ i < 17 → i ≠ 10 → i ≠ 11 → load 8 m' (slot_of uc i) = Ok (w i)).
  { intros i Hi ??. rewrite (load_store_disjoint _ _ _ _ _ Est); [by apply Hld|done|by apply slot_range|].
    intros x y Hx Hy Heq. by destruct (Hap i Hi y x Hy Hx). }
  pose proof (load_range _ _ _ _ (Hld RIP ltac:(unfold RIP; lia) ltac:(done) ltac:(done))) as Hip.
  pose proof (load_range _ _ _ _ (Hld RSP ltac:(unfold RSP; lia) ltac:(done) ltac:(done))) as Hsp.
  eexists. split; [|split].
  - cbn [run_asm exec restore]. unfold ea. mred. rewrite Hu1, Em, gregs_slot, Hld by (done || unfold RIP; lia).
    mred. asm. rewrite Hs1, Em. replace (w RSP + -8) with (w RSP - 8) by lia. rewrite Est. mred. asm.
    rewrite Hu1, gregs_slot, Hkeep by (done || unfold RCX; lia). mred. asm.
    rewrite Hu1, gregs_slot, Hkeep by (done || unfold RDI; lia). mred. asm.
    rewrite Z.add_0_r, (u64_small (u64 _)), (load_store_same _ _ _ _ Est), (u64_small (w RIP)) by (done || apply u64_range).
    mred. reflexivity.
  - intros i (Hi & H10 & H11).
    destruct (decide (i = RIP)) as [->|Hrip]; [by asm|].
    destruct (decide (i = RSP)) as [->|Hrsp].
    { asm. rewrite u64_add_l. replace (w RSP - 8 + 8) with (w RSP) by lia. by apply u64_small. }
    destruct (decide (i = RDI)) as [->|Hrdi]; [by asm|].
    destruct (decide (i = RCX)) as [->|Hrcx]; [by asm|].
    asm. apply Hin. unfold RIP, RSP, RDI, RCX in *.
    assert (Hm : i = 0 ∨ i = 1 ∨ i = 3 ∨ i = 4 ∨ i = 6 ∨ i = 8 ∨ i = 9 ∨ i = 12 ∨ i = 13 ∨ i = 14 ∨ i = 15) by lia.
    destruct_or! Hm; subst i; decided.
  - asm. exact Est.
Qed.

(** The continuation of [longjmp]: to the address in RAX, with the result in RDX. *)
Lemma longjmp_cont_run c a :
  a = u64 (c.(regs) RSP - 8) → (∀ k, 0 ≤ k < 8 → is_Some (c.(cpu_mem) !! u64 (a + k))) →
  is_u64 (c.(regs) RAX) → is_u64 (c.(regs) RSP) →
  ∃ c', run_asm _UI_longjmp_cont c = Ok c' ∧ c'.(regs) RIP = c.(regs) RAX ∧ c'.(regs) RAX = c.(regs) RDX ∧
    ∀ i, i ≠ RIP → i ≠ RAX → c'.(regs) i = c.(regs) i.
Proof.
  intros -> Hm Ha Hs.
  destruct (store_mapped 8 c.(cpu_mem) (u64 (c.(regs) RSP - 8)) (c.(regs) RAX)) as [m' E];
    [exact Hm|apply u64_range|].
  eexists. split; [|split; [|split]].
  - unfold _UI_longjmp_cont. cbn [run_asm exec]. unfold ea. mred.
    replace (c.(regs) RSP + -8) with (c.(regs) RSP - 8) by lia. rewrite E. mred. asm.
    rewrite Z.add_0_r, (u64_small (u64 _)), (load_store_same _ _ _ _ E), (u64_small (c.(regs) RAX))
      by (done || apply u64_range). mred. reflexivity.
  - by asm.
  - by asm.
  - intros i H1 H2. destruct (decide (i = RSP)) as [->|Hsp].
    + asm. rewrite u64_add_l. replace (c.(regs) RSP - 8 + 8) with (c.(regs) RSP) by lia. by apply u64_small.
    + by asm.
Qed.

(** That of [siglongjmp]: to wherever the stack says. *)
Lemma siglongjmp_cont_run c t :
  is_u64 (c.(regs) RSP) → load 8 c.(cpu_mem) (c.(regs) RSP) = Ok t →
  ∃ c', run_asm _UI_siglongjmp_cont c = Ok c' ∧ c'.(regs) RIP = t ∧
    c'.(regs) RSP = u64 (c.(regs) RSP + 8) ∧ ∀ i, i ≠ RIP → i ≠ RSP → c'.(regs) i = c.(regs) i.
Proof.
  intros Hs Ht. eexists. split; [|split; [|split]].
  - unfold _UI_siglongjmp_cont. cbn [run_asm exec]. unfold ea. mred.
    rewrite Z.add_0_r, u64_small, Ht by done. mred. reflexivity.
  - by asm.
  - by asm.
  - intros i H1 H2. by asm.
Qed.
