(* ===== verification/Raise.v ===== *)
(** * What raising an exception does

    The frames the two phases go through and how each ends, against which
    [_Unwind_RaiseException] and the routines that start with the second phase are
    proved; a personality routine that declines in the second phase. *)
From S2P Require Export UnwindSpec.

(** ** The frames of the two phases *)

Section outcomes.
Context {P : Type} `{!PoolOps P, !LinkerOps P, !Callbacks P} {SC : StringConstants}.
Context (fuel : nat) (ds : dyn_state).
Implicit Types (s : unwind_state P) (o : outcome).

(** The step from a frame: to the frame above, past the last one, or none. *)
Definition goes_up s s1 : Prop := ∃ v, 0 < v ∧ on_uw (unw_step fuel ds) s = (Ok v, s1).
Definition passes_last s s1 : Prop := ∃ v, v ≤ 0 ∧ on_uw (unw_step fuel ds) s = (Ok v, s1).
Definition step_fails s s1 : Prop := ∃ e, on_uw (unw_step fuel ds) s = (Err e, s1).

(** The frame's personality routine is at [h], zero if there is none. *)
Definition handler_at s (h : Z) s1 : Prop :=
  ∃ pi, on_uw (unw_get_proc_info fuel ds) s = (Ok pi, s1) ∧ pi.(pi_handler) = h.

(** The instruction pointer of the frame. *)
Definition ip_is s (ip : Z) s1 : Prop := on_uu (unw_get_reg UNW_REG_IP) s = (Ok ip, s1).
Definition no_ip s s1 : Prop := ∃ e, on_uu (unw_get_reg UNW_REG_IP) s = (Err e, s1).

(** *** The search *)

(** The next frame has no personality routine. *)
Definition bare s s2 : Prop := ∃ s1, goes_up s s1 ∧ handler_at s1 0 s2.

(** The personality routine of the next frame answers the search with [r]. *)
Definition answers s (r : _Unwind_Reason_Code) s3 : Prop :=
  ∃ s1 h s2, goes_up s s1 ∧ handler_at s1 h s2 ∧ h ≠ 0 ∧ personality_fn h _UA_SEARCH_PHASE s2 = (Ok r, s3).

(** The next [k] frames have no handler. *)
Inductive declined : nat → unwind_state P → unwind_state P → Prop :=
  | declined_none s : declined 0 s s
  | declined_frame k s s1 s' :
      bare s s1 ∨ answers s _URC_CONTINUE_UNWIND s1 → declined k s1 s' → declined (S k) s s'.

(** What the search comes to at the frame after them: a handler, or the code to return. *)
Definition search_ends s (e : option _Unwind_Reason_Code) s' : Prop :=
  passes_last s s' ∧ e = Some _URC_END_OF_STACK ∨
  step_fails s s' ∧ e = Some _URC_FATAL_PHASE1_ERROR ∨
  answers s _URC_HANDLER_FOUND s' ∧ e = None ∨
  ∃ r, answers s r s' ∧ r ≠ _URC_CONTINUE_UNWIND ∧ r ≠ _URC_HANDLER_FOUND ∧ e = Some _URC_FATAL_PHASE1_ERROR.

Lemma try_inv {S A} (m : M S A) x r x' :
  try m x = (Ok r, x') → match r with inl a => m x = (Ok a, x') | inr e => m x = (Err e, x') end.
Proof. unfold try. destruct (m x) as [[] ?]; by intros [= <- <-]. Qed.

Lemma try_err {S A} (m : M S A) x e x' : m x = (Err e, x') → try m x = (Ok (inr e), x').
Proof. unfold try. by intros ->. Qed.

(** The step as the loops take it. *)
Lemma step_run {A} (up : M (unwind_state P) A) (last fails : M (unwind_state P) A) s a s' :
  (ret ← try (on_uw (unw_step fuel ds));
   match ret with inr _ => fails | inl ret => if ret <=? 0 then last else up end) s = (Ok a, s') ↔
  (∃ s1, goes_up s s1 ∧ up s1 = (Ok a, s')) ∨ (∃ s1, passes_last s s1 ∧ last s1 = (Ok a, s')) ∨
  ∃ s1, step_fails s s1 ∧ fails s1 = (Ok a, s').
Proof.
  unfold goes_up, passes_last, step_fails. split.
  - intros (ret & s1 & Hs%try_inv & H)%bind_ok. destruct ret as [v|e].
    + destruct (Z.leb_spec v 0).
      * right. left. exists s1. split; [by exists v|done].
      * left. exists s1. split; [by exists v|done].
    + right. right. exists s1. split; [by exists e|done].
  - intros [(s1 & (v & Hv & E) & H)|[(s1 & (v & Hv & E) & H)|(s1 & (e & E) & H)]]; mred.
    + by rewrite (try_ok _ _ _ _ E), (proj2 (Z.leb_gt _ _)).
    + by rewrite (try_ok _ _ _ _ E), (proj2 (Z.leb_le _ _)).
    + by rewrite (try_err _ _ _ _ E).
Qed.

(** The frame's personality routine, as the loops find it. *)
Lemma handler_run {A} (none : M (unwind_state P) A) (some : Z → M (unwind_state P) A) s a s' :
  (pi ← on_uw (unw_get_proc_info fuel ds);
   if pi.(pi_handler) =? 0 then none else some pi.(pi_handler)) s = (Ok a, s') ↔
  ∃ h s1, handler_at s h s1 ∧ (h = 0 ∧ none s1 = (Ok a, s') ∨ h ≠ 0 ∧ some h s1 = (Ok a, s')).
Proof.
  split.
  - intros (pi & s1 & Hpi & H)%bind_ok. exists pi.(pi_handler), s1. split; [by exists pi|].
    destruct (Z.eqb_spec pi.(pi_handler) 0); [left|right]; done.
  - intros (h & s1 & (pi & Hpi & <-) & H). mred. rewrite Hpi.
    destruct H as [[-> H]|[Hz H]]; [done|]. by rewrite (proj2 (Z.eqb_neq _ _) Hz).
Qed.

(** One turn of the loop. *)
Lemma phase1_turn n s e s' :
  phase1_loop fuel ds (S n) s = (Ok e, s') ↔
  search_ends s e s' ∨
  ∃ s1, (bare s s1 ∨ answers s _URC_CONTINUE_UNWIND s1) ∧ phase1_loop fuel ds n s1 = (Ok e, s').
Proof.
  set (ask := λ h, reason ← personality_fn h _UA_SEARCH_PHASE;
    if bool_decide (reason = _URC_CONTINUE_UNWIND) then phase1_loop fuel ds n
    else if bool_decide (reason = _URC_HANDLER_FOUND) then mret None
    else mret (Some _URC_FATAL_PHASE1_ERROR)).
  pose proof (λ s1, handler_run (phase1_loop fuel ds n) ask s1 e s') as Hrun.
  cbn [phase1_loop]. rewrite step_run. unfold search_ends. split.
  - intros [(s1 & Hu & H)|[(s1 & Hs & [= <- <-])|(s1 & Hs & [= <- <-])]].
    + apply Hrun in H as (h & s2 & Hh & [[-> H]|[Hz H]]).
      { right. exists s2. split; [left; by exists s1|done]. }
      apply bind_ok in H as (r & s3 & Hr & H).
      assert (Ha : answers s r s3) by by exists s1, h, s2.
      case_bool_decide as Hc; [subst r; right; exists s3; split; [by right|done]|].
      left. case_bool_decide as Hf; injection H as <- <-; [subst r; right; right; by left|].
      right; right; right. by exists r.
    + left. by left.
    + left. right. by left.
  - intros [[[Hs ->]|[[Hs ->]|[[Ha ->]|(r & Ha & Hc & Hf & ->)]]]|(s1 & [(s0 & Hu & Hh)|Ha] & H)].
    + right. left. by exists s'.
    + right. right. by exists s'.
    + destruct Ha as (s1 & h & s2 & Hu & Hh & Hz & Hr). left. exists s1. split; [done|].
      apply Hrun. exists h, s2. split; [done|]. right. split; [done|]. unfold ask. mred. by rewrite Hr.
    + destruct Ha as (s1 & h & s2 & Hu & Hh & Hz & Hr). left. exists s1. split; [done|].
      apply Hrun. exists h, s2. split; [done|]. right. split; [done|]. unfold ask. mred. by rewrite Hr, !bool_decide_eq_false_2.
    + left. exists s0. split; [done|]. apply Hrun. exists 0, s1. split; [done|]. by left.
    + destruct Ha as (s0 & h & s2 & Hu & Hh & Hz & Hr). left. exists s0. split; [done|].
      apply Hrun. exists h, s2. split; [done|]. right. split; [done|]. unfold ask. mred. by rewrite Hr.
Qed.

Lemma phase1_spec n : ∀ s e s',
  phase1_loop fuel ds n s = (Ok e, s') ↔ ∃ k s1, (k < n)%nat ∧ declined k s s1 ∧ search_ends s1 e s'.
Proof.
  induction n as [|n IH]; intros s e s'; [split; [done|intros (k & s1 & ? & _); lia]|].
  rewrite phase1_turn. split.
  - intros [He|(s1 & Hd & Hl)]; [exists 0%nat, s; split_and!; [lia|constructor|done]|].
    apply IH in Hl as (k & s2 & Hk & Hd2 & He). exists (S k), s2. split_and!; [lia|by econstructor|done].
  - intros (k & s1 & Hk & Hd & He). destruct Hd as [s|k s s0 s1 Hd Hds]; [by left|].
    right. exists s0. split; [done|]. apply IH. exists k, s1. split_and!; [lia|done|done].
Qed.

(** *** The cleanup *)

Definition flagged s : unwind_state P := UnwindState s.(uw_step) true s.(uw_exc).

(** Going up with the actions [a]; past the last frame the context is marked, and the
    actions say so. *)
Definition enters (a : Z) s (a1 : Z) s1 : Prop :=
  goes_up s s1 ∧ a1 = a ∨ ∃ s0, passes_last s s0 ∧ a1 = Z.lor a _UA_END_OF_STACK ∧ s1 = flagged s0.

Context (stop param : Z).

(** The stop routine's answer; without one there is no reason to stop. *)
Definition stop_says (a : Z) s (r : _Unwind_Reason_Code) s1 : Prop :=
  stop = 0 ∧ r = _URC_NO_REASON ∧ s1 = s ∨ stop ≠ 0 ∧ stop_fn stop a param s = (Ok r, s1).

(** The next frame is entered and no reason to stop there, nor the end of the stack. *)
Definition let_through (a : Z) s (a1 : Z) s2 : Prop :=
  ∃ s1, enters a s a1 s1 ∧ stop_says a1 s1 _URC_NO_REASON s2 ∧ s2.(end_of_stack) = false.

(** The next [k] frames have nothing to clean up; the actions after them. *)
Inductive nothing_to_clean : nat → Z → unwind_state P → Z → unwind_state P → Prop :=
  | clean_none a s : nothing_to_clean 0 a s a s
  | clean_frame k a s a1 s1 s2 a' s' :
      let_through a s a1 s1 → handler_at s1 0 s2 → nothing_to_clean k a1 s2 a' s' →
      nothing_to_clean (S k) a s a' s'.

(** What the personality routine is called with: without a stop routine, the frame with
    the instruction pointer the search ended at is marked as the handler's. *)
Definition told (a : Z) s (a' : Z) s1 : Prop :=
  stop ≠ 0 ∧ a' = a ∧ s1 = s ∨
  stop = 0 ∧ ∃ ip, ip_is s ip s1 ∧ a' = if param =? ip then Z.lor a _UA_HANDLER_FRAME else a.

(** How the cleanup ends at the frame after them: it continues there, or fails. *)
Definition cleanup_ends (a : Z) s o s' : Prop :=
  o = Returns _URC_FATAL_PHASE2_ERROR ∧
    (step_fails s s' ∨
     (∃ a1 s1 r, enters a s a1 s1 ∧ stop_says a1 s1 r s' ∧ r ≠ _URC_NO_REASON) ∨
     (∃ a1 s1, enters a s a1 s1 ∧ stop_says a1 s1 _URC_NO_REASON s' ∧ s'.(end_of_stack) = true) ∨
     (∃ a1 s1 h s2, let_through a s a1 s1 ∧ handler_at s1 h s2 ∧ h ≠ 0 ∧
        (stop = 0 ∧ no_ip s2 s' ∨
         ∃ a2 s3 r, told a1 s2 a2 s3 ∧ personality_fn h a2 s3 = (Ok r, s') ∧
           r ≠ _URC_CONTINUE_UNWIND ∧ r ≠ _URC_INSTALL_CONTEXT))) ∨
  o = Continues ∧
    ∃ a1 s1 h s2 a2 s3 s4, let_through a s a1 s1 ∧ handler_at s1 h s2 ∧ h ≠ 0 ∧ told a1 s2 a2 s3 ∧
      personality_fn h a2 s3 = (Ok _URC_INSTALL_CONTEXT, s4) ∧ on_uw (unw_resume fuel ds) s4 = (Ok Resumed, s').

Definition cleans_up (n : nat) (a : Z) s o s' : Prop :=
  ∃ k a1 s1, (k < n)%nat ∧ nothing_to_clean k a s a1 s1 ∧ cleanup_ends a1 s1 o s'.

Lemma stop_says_run a s (r : _Unwind_Reason_Code) s1 :
  (if stop =? 0 then mret _URC_NO_REASON else stop_fn stop a param : M (unwind_state P) _) s = (Ok r, s1) ↔
  stop_says a s r s1.
Proof.
  unfold stop_says. destruct (Z.eqb_spec stop 0) as [Hz|Hz]; split; intros H.
  - injection H as <- <-. by left.
  - destruct H as [(_ & -> & ->)|[? _]]; done.
  - by right.
  - destruct H as [(? & _)|[_ ?]]; done.
Qed.

Lemma told_run a s x s1 :
  try (phase2_actions stop param a) s = (Ok x, s1) ↔
  match x with inl a' => told a s a' s1 | inr _ => stop = 0 ∧ no_ip s s1 ∧ ∃ e, x = inr e ∧
    on_uu (unw_get_reg UNW_REG_IP) s = (Err e, s1) end.
Proof.
  unfold told, no_ip, ip_is, phase2_actions, try. destruct (Z.eqb_spec stop 0) as [Hz|Hz]; mred.
  - destruct (on_uu (unw_get_reg UNW_REG_IP) s) as [[ip|e|t] s2]; split.
    + intros [= <- <-]. right. split; [done|]. by exists ip.
    + destruct x as [a'|e]; [|intros (_ & [? ?] & _); done].
      intros [[? _]|(_ & ip' & [= <- <-] & ->)]; done.
    + intros [= <- <-]. split_and!; [done|by exists e|by exists e].
    + destruct x as [a'|e']; [intros [[? _]|(_ & ip' & ? & _)]; done|].
      by intros (_ & _ & e'' & [= ->] & [= <- <-]).
    + done.
    + destruct x as [a'|e']; [intros [[? _]|(_ & ip' & ? & _)]; done|by intros (_ & [? ?] & _)].
  - split.
    + intros [= <- <-]. by left.
    + destruct x as [a'|e']; [|by intros (? & _)]. intros [(_ & -> & ->)|[? _]]; done.
Qed.

(** What the frame's personality routine makes of it. *)
Lemma phase2_personality_spec h a s o s' :
  phase2_personality fuel ds h stop param a s = (Ok o, s') ↔
  o = Returns _URC_FATAL_PHASE2_ERROR ∧
    (stop = 0 ∧ no_ip s s' ∨
     ∃ a2 s3 r, told a s a2 s3 ∧ personality_fn h a2 s3 = (Ok r, s') ∧
       r ≠ _URC_CONTINUE_UNWIND ∧ r ≠ _URC_INSTALL_CONTEXT) ∨
  o = Continues ∧
    ∃ a2 s3 s4, told a s a2 s3 ∧ personality_fn h a2 s3 = (Ok _URC_INSTALL_CONTEXT, s4) ∧
      on_uw (unw_resume fuel ds) s4 = (Ok Resumed, s').
Proof.
  unfold phase2_personality. split.
  - intros (x & s1 & Hx & H)%bind_ok. apply told_run in Hx. destruct x as [a2|e].
    2: { injection H as <- <-. left. split; [done|]. left. tauto. }
    apply bind_ok in H as (r & s2 & Hr & H). case_bool_decide as Hc; [done|].
    case_bool_decide as Hi.
    + apply bind_ok in H as (y & s3 & Hy & H). destruct y; [|done]. injection H as <- <-. subst r.
      right. split; [done|]. by exists a2, s1, s2.
    + injection H as <- <-. left. split; [done|]. right. by exists a2, s1, r.
  - intros [[-> [[Hz [e He]]|(a2 & s3 & r & Ht & Hr & Hc & Hi)]]|[-> (a2 & s3 & s4 & Ht & Hr & Hy)]]; mred.
    + assert (Hx : try (phase2_actions stop param a) s = (Ok (inr e), s')).
      { apply told_run. split_and!; [done|by exists e|by exists e]. }
      by rewrite Hx.
    + assert (Hx : try (phase2_actions stop param a) s = (Ok (inl a2), s3)) by by apply told_run.
      rewrite Hx. mred. by rewrite Hr, !bool_decide_eq_false_2 by done.
    + assert (Hx : try (phase2_actions stop param a) s = (Ok (inl a2), s3)) by by apply told_run.
      rewrite Hx. mred. rewrite Hr, bool_decide_eq_false_2, bool_decide_eq_true_2 by done. mred. by rewrite Hy.
Qed.

(** The loop's turn once the next frame is entered. *)
Definition turn_rest (n : nat) (a : Z) : M (unwind_state P) outcome :=
  reason ← (if stop =? 0 then mret _URC_NO_REASON else stop_fn stop a param);
  if negb (bool_decide (reason = _URC_NO_REASON)) then mret (Returns _URC_FATAL_PHASE2_ERROR)
  else
    s ← get_st;
    if s.(end_of_stack) then mret (Returns _URC_FATAL_PHASE2_ERROR)
    else
      pi ← on_uw (unw_get_proc_info fuel ds);
      if pi.(pi_handler) =? 0 then phase2_loop fuel ds n stop param a
      else phase2_personality fuel ds pi.(pi_handler) stop param a.

Lemma phase2_enter n a s o s' :
  phase2_loop fuel ds (S n) stop param a s = (Ok o, s') ↔
  step_fails s s' ∧ o = Returns _URC_FATAL_PHASE2_ERROR ∨
  ∃ a1 s1, enters a s a1 s1 ∧ turn_rest n a1 s1 = (Ok o, s').
Proof.
  assert (E : phase2_loop fuel ds (S n) stop param a s =
    (ret ← try (on_uw (unw_step fuel ds));
     match ret with
     | inr _ => mret (Returns _URC_FATAL_PHASE2_ERROR)
     | inl ret => if ret <=? 0 then (upd_end true;; turn_rest n (Z.lor a _UA_END_OF_STACK)) else turn_rest n a
     end) s).
  { cbn [phase2_loop]. mred. destruct (try _ s) as [[[v|e]|e|t] s1]; try done. by destruct (v <=? 0). }
  rewrite E, step_run. unfold enters. split.
  - intros [(s1 & Hu & H)|[(s1 & Hs & H)|(s1 & Hs & [= <- <-])]].
    + right. exists a, s1. split; [by left|done].
    + right. exists (Z.lor a _UA_END_OF_STACK), (flagged s1). split; [right; by exists s1|exact H].
    + by left.
  - intros [[Hs ->]|(a1 & s1 & [[Hu ->]|(s0 & Hs & -> & ->)] & H)].
    + right. right. by exists s'.
    + left. by exists s1.
    + right. left. by exists s0.
Qed.

Lemma turn_rest_spec n a s o s' :
  turn_rest n a s = (Ok o, s') ↔
  (∃ r, stop_says a s r s' ∧ r ≠ _URC_NO_REASON ∧ o = Returns _URC_FATAL_PHASE2_ERROR) ∨
  ∃ s1, stop_says a s _URC_NO_REASON s1 ∧
    (s1.(end_of_stack) = true ∧ s' = s1 ∧ o = Returns _URC_FATAL_PHASE2_ERROR ∨
     s1.(end_of_stack) = false ∧ ∃ h s2, handler_at s1 h s2 ∧
       (h = 0 ∧ phase2_loop fuel ds n stop param a s2 = (Ok o, s') ∨
        h ≠ 0 ∧ phase2_personality fuel ds h stop param a s2 = (Ok o, s'))).
Proof.
  pose proof (λ s1, handler_run (phase2_loop fuel ds n stop param a)
    (λ h, phase2_personality fuel ds h stop param a) s1 o s') as Hrun.
  unfold turn_rest. split.
  - intros (r & s1 & Hr%stop_says_run & H)%bind_ok. case_bool_decide as Hn; cbn [negb] in H.
    2: { injection H as <- <-. left. by exists r. }
    subst r. right. exists s1. split; [done|]. apply bind_ok in H as (x & s2 & [= <- <-] & H).
    destruct (end_of_stack s1); [injection H as <- <-; by left|right].
    split; [done|]. by apply Hrun in H.
  - intros [(r & Hr%stop_says_run & Hn & ->)|(s1 & Hr%stop_says_run & H)]; unfold mbind at 1, M_bind at 1; rewrite Hr.
    + by rewrite bool_decide_eq_false_2.
    + rewrite bool_decide_eq_true_2 by done. cbn [negb].
      destruct H as [(He & -> & ->)|(He & H)].
      * mred. by rewrite He.
      * apply Hrun in H. unfold mbind at 1, M_bind at 1. cbn [get_st]. unfold get_st. by rewrite He.
Qed.

Lemma phase2_spec n : ∀ a s o s',
  phase2_loop fuel ds n stop param a s = (Ok o, s') ↔ cleans_up n a s o s'.
Proof.
  induction n as [|n IH]; intros a s o s'; [split; [done|intros (k & a1 & s1 & ? & _); lia]|].
  rewrite phase2_enter. setoid_rewrite turn_rest_spec. setoid_rewrite IH. setoid_rewrite phase2_personality_spec.
  split.
  - assert (Hhere : cleanup_ends a s o s' → cleans_up (S n) a s o s').
    { intros He. exists 0%nat, a, s. split_and!; [lia|constructor|done]. }
    intros [[Hs ->]|(a1 & s1 & He & [(r & Hr & Hn & ->)|(s2 & Hr & [(Hend & -> & ->)|(Hend & h & s3 & Hh & H)])])].
    + apply Hhere. left. by split; [|left].
    + apply Hhere. left. split; [done|]. right. left. by exists a1, s1, r.
    + apply Hhere. left. split; [done|]. right. right. left. by exists a1, s1.
    + assert (Hl : let_through a s a1 s2) by by exists s1.
      destruct H as [[-> (k & a2 & s4 & Hk & Hnc & Hce)]|[Hz [[-> H]|[-> (a2 & s4 & s5 & Ht & Hp & Hu)]]]].
      * exists (S k), a2, s4. split_and!; [lia|by econstructor|done].
      * apply Hhere. left. split; [done|]. right. right. right. by exists a1, s2, h, s3.
      * apply Hhere. right. split; [done|]. by exists a1, s2, h, s3, a2, s4, s5.
  - intros (k & a1 & s1 & Hk & Hnc & Hce). destruct Hnc as [a s|k a s a1 s1 s2 a' s'' (s0 & He & Hr & Hend) Hh Hnc].
    + destruct Hce as [[-> [Hs|[(a1 & s1 & r & He & Hr & Hn)|[(a1 & s1 & He & Hr & Hend)|
        (a1 & s1 & h & s2 & (s0 & He & Hr & Hend) & Hh & Hz & H)]]]]|
        [-> (a1 & s1 & h & s2 & a2 & s3 & s4 & (s0 & He & Hr & Hend) & Hh & Hz & H)]].
      * by left.
      * right. exists a1, s1. split; [done|]. left. by exists r.
      * right. exists a1, s1. split; [done|]. right. exists s'. split; [done|]. by left.
      * right. exists a1, s0. split; [done|]. right. exists s1. split; [done|]. right. split; [done|].
        exists h, s2. split; [done|]. right. split; [done|]. by left.
      * right. exists a1, s0. split; [done|]. right. exists s1. split; [done|]. right. split; [done|].
        exists h, s2. split; [done|]. right. split; [done|]. right. split; [done|]. by exists a2, s3, s4.
    + right. exists a1, s0. split; [done|]. right. exists s1. split; [done|]. right. split; [done|].
      exists 0, s2. split; [done|]. left. split; [done|]. exists k, a', s''. split_and!; [lia|done|done].
Qed.
End outcomes.

(** *** Both phases *)

Section raise.
Context {P : Type} `{!PoolOps P, !LinkerOps P, !Callbacks P} {SC : StringConstants}.
Context (fuel : nat) (ds : dyn_state).
Implicit Types (s : unwind_state P) (o : outcome).

Definition marked (p1 p2 : Z) s : unwind_state P :=
  UnwindState s.(uw_step) s.(end_of_stack) (set_privates p1 p2 s.(uw_exc)).

(** The context is that of the caller, or there is none. *)
Definition starts (junk : cursor) (uc : Z) s s0 : Prop := ∃ r, 0 ≤ r ∧ _Unwind_InitContext junk uc s = (Ok r, s0).
Definition no_start (junk : cursor) (uc : Z) s s0 : Prop := ∃ r, r < 0 ∧ _Unwind_InitContext junk uc s = (Ok r, s0).

(** Back to the first frame; the exception has the instruction pointer of the handler's. *)
Definition restarts (uc : Z) s s' : Prop :=
  ∃ ip s1, ip_is s ip s1 ∧ on_uu (unw_init_local uc) (marked 0 ip s1) = (Ok tt, s').
Definition no_restart (uc : Z) s s' : Prop :=
  no_ip s s' ∨ ∃ ip s1 e, ip_is s ip s1 ∧ on_uu (unw_init_local uc) (marked 0 ip s1) = (Err e, s').

(** Phase 2 with what the exception says: a stop routine, or the mark of the search. *)
Definition cleanup (n : nat) s o s' : Prop :=
  let stop := s.(uw_exc).(private_1) in
  cleans_up fuel ds stop s.(uw_exc).(private_2) n
    (if stop =? 0 then _UA_CLEANUP_PHASE else Z.lor _UA_CLEANUP_PHASE _UA_FORCE_UNWIND) s o s'.

(** What raising comes to: [n] bounds the frames of each phase. *)
Inductive raised (n : nat) (junk : cursor) (uc : Z) s : outcome → unwind_state P → Prop :=
  | raised_no_start s' :
      no_start junk uc s s' → raised n junk uc s (Returns _URC_FATAL_PHASE1_ERROR) s'
  | raised_end_of_stack k s0 s1 s' :
      starts junk uc s s0 → (k < n)%nat → declined fuel ds k s0 s1 → passes_last fuel ds s1 s' →
      raised n junk uc s (Returns _URC_END_OF_STACK) s'
  | raised_step_fails k s0 s1 s' :
      starts junk uc s s0 → (k < n)%nat → declined fuel ds k s0 s1 → step_fails fuel ds s1 s' →
      raised n junk uc s (Returns _URC_FATAL_PHASE1_ERROR) s'
  | raised_refused k s0 s1 r s' :
      starts junk uc s s0 → (k < n)%nat → declined fuel ds k s0 s1 → answers fuel ds s1 r s' →
      r ≠ _URC_CONTINUE_UNWIND → r ≠ _URC_HANDLER_FOUND →
      raised n junk uc s (Returns _URC_FATAL_PHASE1_ERROR) s'
  | raised_no_restart k s0 s1 s2 s' :
      starts junk uc s s0 → (k < n)%nat → declined fuel ds k s0 s1 →
      answers fuel ds s1 _URC_HANDLER_FOUND s2 → no_restart uc s2 s' →
      raised n junk uc s (Returns _URC_FATAL_PHASE1_ERROR) s'
  | raised_cleanup k s0 s1 s2 s3 o s' :
      starts junk uc s s0 → (k < n)%nat → declined fuel ds k s0 s1 →
      answers fuel ds s1 _URC_HANDLER_FOUND s2 → restarts uc s2 s3 → cleanup n s3 o s' →
      raised n junk uc s o s'.

Lemma _Unwind_Phase2_spec n s o s' : _Unwind_Phase2 fuel ds n s = (Ok o, s') ↔ cleanup n s o s'.
Proof. unfold _Unwind_Phase2, cleanup. mred. apply phase2_spec. Qed.

Lemma mark_run p q s : upd_exc (set_privates p q) s = (Ok tt, marked p q s).
Proof. done. Qed.

Lemma restart_run n uc s o s' :
  (ip ← try (on_uu (unw_get_reg UNW_REG_IP));
   match ip with
   | inr _ => mret (Returns _URC_FATAL_PHASE1_ERROR)
   | inl ip =>
       upd_exc (set_privates 0 ip);;
       r ← try (on_uu (unw_init_local uc));
       match r with
       | inr _ => mret (Returns _URC_FATAL_PHASE1_ERROR)
       | inl _ => _Unwind_Phase2 fuel ds n
       end
   end : M (unwind_state P) outcome) s = (Ok o, s') ↔
  no_restart uc s s' ∧ o = Returns _URC_FATAL_PHASE1_ERROR ∨
  ∃ s1, restarts uc s s1 ∧ cleanup n s1 o s'.
Proof.
  unfold no_restart, restarts, no_ip, ip_is. split.
  - intros (x & s1 & Hx%try_inv & H)%bind_ok. destruct x as [ip|e].
    2: { injection H as <- <-. left. split; [left; by exists e|done]. }
    apply bind_ok in H as ([] & s2 & [= <-] & H). apply bind_ok in H as (y & s3 & Hy%try_inv & H).
    destruct y as [[]|e].
    + right. exists s3. split; [by exists ip, s1|]. by apply _Unwind_Phase2_spec.
    + injection H as <- <-. left. split; [right; by exists ip, s1, e|done].
  - intros [[[[e E]|(ip & s1 & e & E & E')] ->]|(s3 & (ip & s1 & E & E') & H)]; mred.
    + by rewrite (try_err _ _ _ _ E).
    + rewrite (try_ok _ _ _ _ E). mred. by rewrite mark_run, (try_err _ _ _ _ E').
    + rewrite (try_ok _ _ _ _ E). mred. rewrite mark_run, (try_ok _ _ _ _ E').
      by apply _Unwind_Phase2_spec.
Qed.

(** Starting, then [f]; without a context the code is [c]. *)
Lemma start_run junk uc (c : _Unwind_Reason_Code) (f : M (unwind_state P) outcome) s o s' :
  (r ← _Unwind_InitContext junk uc; if r <? 0 then mret (Returns c) else f) s = (Ok o, s') ↔
  no_start junk uc s s' ∧ o = Returns c ∨ ∃ s0, starts junk uc s s0 ∧ f s0 = (Ok o, s').
Proof.
  unfold no_start, starts. split.
  - intros (r & s0 & Hr & H)%bind_ok. destruct (Z.ltb_spec r 0).
    + injection H as <- <-. left. split; [by exists r|done].
    + right. exists s0. split; [by exists r|done].
  - intros [[(r & Hr & E) ->]|(s0 & (r & Hr & E) & H)]; mred; rewrite E.
    + by rewrite (proj2 (Z.ltb_lt _ _)).
    + by rewrite (proj2 (Z.ltb_ge _ _)).
Qed.

Lemma raise_spec n junk uc s o s' :
  _Unwind_RaiseException fuel ds n junk uc s = (Ok o, s') ↔ raised n junk uc s o s'.
Proof.
  unfold _Unwind_RaiseException. rewrite start_run. split.
  - intros [[Hs ->]|(s0 & Hs & H)]; [by apply raised_no_start|].
    apply bind_ok in H as (e & s2 & (k & s1 & Hk & Hd & He)%phase1_spec & H).
    destruct He as [[He ->]|[[He ->]|[[He ->]|(r & He & Hc & Hf & ->)]]].
    + injection H as <- <-. by eapply raised_end_of_stack.
    + injection H as <- <-. by eapply raised_step_fails.
    + apply restart_run in H as [[H ->]|(s3 & H & Hc)]; [by eapply raised_no_restart|by eapply raised_cleanup].
    + injection H as <- <-. by eapply raised_refused.
  - assert (Hgo : ∀ s0 e s1 s2 k, starts junk uc s s0 → (k < n)%nat → declined fuel ds k s0 s1 →
      search_ends fuel ds s1 e s2 → starts junk uc s s0 ∧ phase1_loop fuel ds n s0 = (Ok e, s2)).
    { intros. split; [done|]. apply phase1_spec. eauto. }
    intros [s1 Hs|k s0 s1 s1' Hs Hk Hd He|k s0 s1 s1' Hs Hk Hd He|k s0 s1 r s1' Hs Hk Hd He Hc Hf|
      k s0 s1 s2 s1' Hs Hk Hd He Hr|k s0 s1 s2 s3 o1 s1' Hs Hk Hd He Hr Hc]; [by left|right; exists s0..].
    + destruct (Hgo s0 _ s1 _ k Hs Hk Hd (or_introl (conj He eq_refl))) as [_ E]. split; [done|].
      mred. by rewrite E.
    + destruct (Hgo s0 _ s1 _ k Hs Hk Hd (or_intror (or_introl (conj He eq_refl)))) as [_ E]. split; [done|].
      mred. by rewrite E.
    + destruct (Hgo s0 (Some _URC_FATAL_PHASE1_ERROR) s1 s1' k Hs Hk Hd) as [_ E].
      { right; right; right. by exists r. }
      split; [done|]. mred. by rewrite E.
    + destruct (Hgo s0 None s1 s2 k Hs Hk Hd) as [_ E]. { right; right. by left. }
      split; [done|]. unfold mbind at 1, M_bind at 1. rewrite E. apply restart_run. by left.
    + destruct (Hgo s0 None s1 s2 k Hs Hk Hd) as [_ E]. { right; right. by left. }
      split; [done|]. unfold mbind at 1, M_bind at 1. rewrite E. apply restart_run. right. by exists s3.
Qed.
End raise.

(** ** Properties *)

(** C38. What raising an exception comes to ([raised]).  It comes back as the end of
    the stack when no frame up to the last has a personality routine that says anything
    but to go on; as a failure of the first phase when there is no context, a step fails,
    a routine answers the search otherwise, or the first frame cannot be gone back to.
    Once a handler is found there, the second phase goes up from the first frame, through
    those without a personality routine, to the first that has one, which is told whether
    its frame is the handler's: it has execution continue there, or the exception comes
    back as a failure of that phase ([cleanup_ends]).  Forced unwinding is the second
    phase alone, with the stop routine asked at each frame. *)
Theorem raise_outcomes P `{!PoolOps P, !LinkerOps P, !Callbacks P} {SC : StringConstants}
    fuel ds n junk uc (s s' : unwind_state P) (o : outcome) :
  (_Unwind_RaiseException fuel ds n junk uc s = (Ok o, s') ↔ raised fuel ds n junk uc s o s') ∧
  (∀ stop param, _Unwind_ForcedUnwind fuel ds n junk uc stop param s = (Ok o, s') ↔
     (stop = 0 ∧ s' = s ∨ stop ≠ 0 ∧ no_start junk uc s s') ∧ o = Returns _URC_FATAL_PHASE2_ERROR ∨
     stop ≠ 0 ∧ ∃ s0, starts junk uc s s0 ∧ cleanup fuel ds n (marked stop param s0) o s') ∧
  (_Unwind_Resume_or_Rethrow fuel ds n junk uc s = (Ok o, s') ↔
     s.(uw_exc).(private_1) = 0 ∧ raised fuel ds n junk uc s o s' ∨
     s.(uw_exc).(private_1) ≠ 0 ∧
       (no_start junk uc s s' ∧ o = Returns _URC_FATAL_PHASE2_ERROR ∨
        ∃ s0, starts junk uc s s0 ∧ cleanup fuel ds n s0 o s')).
Proof.
  split_and!; [apply raise_spec|intros stop param|].
  - unfold _Unwind_ForcedUnwind. destruct (Z.eqb_spec stop 0) as [Hz|Hz].
    + split; [intros [= <- <-]; left; tauto|]. intros [[[[_ ->]|[? _]] ->]|[? _]]; done.
    + rewrite start_run. split.
      * intros [?|(s0 & Hs & H)]; [left; tauto|right]. split; [done|]. exists s0. split; [done|].
        change (_Unwind_Phase2 fuel ds n (marked stop param s0) = (Ok o, s')) in H. by apply _Unwind_Phase2_spec.
      * intros [[[[? _]|[_ ?]] ->]|(_ & s0 & Hs & H)]; [done|by left|right]. exists s0. split; [done|].
        change (_Unwind_Phase2 fuel ds n (marked stop param s0) = (Ok o, s')). by apply _Unwind_Phase2_spec.
  - change (_Unwind_Resume_or_Rethrow fuel ds n junk uc s) with
      ((if negb (s.(uw_exc).(private_1) =? 0)
        then r ← _Unwind_InitContext junk uc;
             if r <? 0 then mret (Returns _URC_FATAL_PHASE2_ERROR) else _Unwind_Phase2 fuel ds n
        else _Unwind_RaiseException fuel ds n junk uc) s).
    destruct (Z.eqb_spec s.(uw_exc).(private_1) 0) as [Hz|Hz]; cbn [negb].
    + rewrite raise_spec. tauto.
    + rewrite start_run. setoid_rewrite _Unwind_Phase2_spec. tauto.
Qed.

Lemma on_uw_run {P A} (f : M (step_state P) A) (s : unwind_state P) r st :
  f s.(uw_step) = (r, st) → on_uw f s = (r, UnwindState st s.(end_of_stack) s.(uw_exc)).
Proof. unfold on_uw. by intros ->. Qed.

(** A personality routine that answers in the second phase that the unwinding
    should go on ends the kernel: the panic after the message of each of the last
    two [if]s is not in the [if]. *)
Lemma phase2_declined_panics P `{!PoolOps P, !LinkerOps P, !Callbacks P} {SC : StringConstants}
    fuel ds n (s : unwind_state P) v st1 pi st2 ip s3 s4 :
  s.(uw_exc).(private_1) = 0 → s.(end_of_stack) = false →
  unw_step fuel ds s.(uw_step) = (Ok v, st1) → 0 < v →
  unw_get_proc_info fuel ds st1 = (Ok pi, st2) → pi.(pi_handler) ≠ 0 →
  on_uu (unw_get_reg UNW_REG_IP) (UnwindState st2 false s.(uw_exc)) = (Ok ip, s3) →
  personality_fn pi.(pi_handler)
    (if s.(uw_exc).(private_2) =? ip then Z.lor _UA_CLEANUP_PHASE _UA_HANDLER_FRAME
     else _UA_CLEANUP_PHASE) s3 = (Ok _URC_CONTINUE_UNWIND, s4) →
  _Unwind_Phase2 fuel ds (S n) s = (Stop Panic, s4).
Proof.
  intros Hp He Hs Hv Hpi Hh Hip Hd. unfold _Unwind_Phase2. mred. rewrite Hp. cbn [phase2_loop Z.eqb].
  unfold try. mred. rewrite (on_uw_run _ _ _ _ Hs). mred. rewrite (proj2 (Z.leb_gt _ _) Hv). mred.
  rewrite He. mred. rewrite bool_decide_true by done. cbn [negb end_of_stack].
  rewrite (on_uw_run _ (UnwindState st1 false s.(uw_exc)) _ _ Hpi). mred.
  rewrite (proj2 (Z.eqb_neq _ _) Hh). unfold phase2_personality, phase2_actions, try. cbn [Z.eqb].
  mred. cbn [uw_step end_of_stack uw_exc]. rewrite Hip. mred. rewrite Hd. reflexivity.
Qed.

(** [example_module_mem] with the machine context of a call from 0x1130, whose
    frame-chain leads to 0x1240; the code there is described by a registered
    descriptor with a personality routine. *)
Definition example_raise_mem : memory :=
  foldr (λ '(r, v) m, put_bytes m (slot_of example_context r) (le_bytes 8 v)) example_module_mem
    (imap (λ i v, (Z.of_nat i, v))
      [0; 0; 0; 0; 0; 0; 0x8010; 0x8008; 0; 0; 0; 0; 0; 0; 0; 0; 0x1130]).

Definition example_described : dyn_state :=
  snd (run_dyn_ops [Register 0x10]
    (DynState 0 0 (list_to_map [(0x10, DynInfo 0 0 0x1200 0x1300 0 0 0 0x7777 0 0)]))).

(** A personality routine that finds a handler and gives [reason] in phase 2. *)
Definition example_callbacks (reason : _Unwind_Reason_Code) : Callbacks bump := {|
  personality_fn _ actions :=
    mret (if actions =? _UA_SEARCH_PHASE then _URC_HANDLER_FOUND else reason);
  stop_fn _ _ _ := mret _URC_NO_REASON;
  trace_fn _ _ := mret _URC_NO_REASON;
  cleanup_fn _ _ := mret tt;
  getcontext _ := mret 0
|}.

(** A personality routine that knows no handler. *)
Definition example_decline : Callbacks bump := {|
  personality_fn _ _ := mret _URC_CONTINUE_UNWIND;
  stop_fn _ _ _ := mret _URC_NO_REASON;
  trace_fn _ _ := mret _URC_NO_REASON;
  cleanup_fn _ _ := mret tt;
  getcontext _ := mret 0
|}.

Definition example_raise : unwind_state bump :=
  UnwindState (StepState (UState (Machine example_raise_mem [0; 0; 0; 0] 0) (zero_cursor 0)) (Bump 0x9000))
    false (UnwindException 0 0 0 0).

Lemma run_split {A B} (x : A * B) a : x.1 = a → x = (a, x.2).
Proof. destruct x. by intros <-. Qed.

(** The same in the last frame of the chain. *)
Definition example_raise_last : unwind_state bump :=
  UnwindState (StepState (UState (Machine (put_bytes example_raise_mem (slot_of example_context RBP) (le_bytes 8 0))
    [0; 0; 0; 0] 0) (zero_cursor 0)) (Bump 0x9000)) false (UnwindException 0 0 0 0).

(** The raiser gets the exception back when its personality routine, having found
    a handler, does not install it; when it declines the search, the stack ends. *)
Lemma raise_outcomes_witness :
  (∃ s', @raised bump bump_ops example_linker (example_callbacks _URC_NO_REASON) example_strings 10
     example_described 5 (zero_cursor 0) example_context example_raise (Returns _URC_FATAL_PHASE2_ERROR) s') ∧
  (∃ s', @raised bump bump_ops example_linker example_decline example_strings 10
     example_described 5 (zero_cursor 0) example_context example_raise_last (Returns _URC_END_OF_STACK) s').
Proof.
  split; eexists.
  - assert (E : (@_Unwind_RaiseException bump _ example_linker example_strings (example_callbacks _URC_NO_REASON)
      10 example_described 5 (zero_cursor 0) example_context example_raise).1
      = Ok (Returns _URC_FATAL_PHASE2_ERROR)) by (vm_compute; reflexivity).
    apply run_split in E. eapply raise_outcomes. exact E.
  - assert (E : (@_Unwind_RaiseException bump _ example_linker example_strings example_decline
      10 example_described 5 (zero_cursor 0) example_context example_raise_last).1
      = Ok (Returns _URC_END_OF_STACK)) by (vm_compute; reflexivity).
    apply run_split in E. eapply raise_outcomes. exact E.
Defined.

(** The cursor at the start of the second phase. *)
Definition example_phase2 : unwind_state bump :=
  snd (on_uu (unw_init_local example_context) example_raise).

Lemma phase2_declined_panics_witness :
  (@_Unwind_Phase2 bump _ example_linker example_strings (example_callbacks _URC_CONTINUE_UNWIND)
     10 example_described 5 example_phase2).1 = Stop Panic.
Proof.
  set (step := @unw_step bump _ example_linker example_strings 10 example_described
                 example_phase2.(uw_step)).
  set (pi := @unw_get_proc_info bump _ example_linker example_strings 10 example_described step.2).
  set (ip := on_uu (unw_get_reg UNW_REG_IP) (UnwindState pi.2 false example_phase2.(uw_exc))).
  assert (Es : step.1 = Ok 1) by (vm_compute; reflexivity).
  set (p := match pi.1 with Ok x => x | _ => zero_proc_info end).
  assert (Ep : pi.1 = Ok p ∧ p.(pi_handler) ≠ 0) by (vm_compute; split; [reflexivity|discriminate]).
  assert (Ei : ip.1 = Ok 0x1240) by (vm_compute; reflexivity).
  destruct Ep as [Ep Eh].
  rewrite (phase2_declined_panics bump (PoolOps0 := bump_ops) (SC := example_strings) (LinkerOps0 := example_linker)
    (Callbacks0 := example_callbacks _URC_CONTINUE_UNWIND) 10 example_described 4 example_phase2
    1 step.2 p pi.2 0x1240 ip.2 ip.2 eq_refl eq_refl (run_split step _ Es) eq_refl
    (run_split pi (Ok p) Ep) Eh (run_split ip (Ok 0x1240) Ei) eq_refl). reflexivity.
Defined.
