(* ===== verification/Setjmp.v ===== *)
(** * Non-local jumps

    [setjmp/]: the jumps that walk to the frame a buffer was filled in with
    [unw_step] and continue there, through the assembler routines of [Asm].  Signal
    masks are those of the system's [sigprocmask]. *)
From S2P Require Export Unwind.
From S2P Require Import StepSpec StepProps UnwindSpec Asm Raise.

(** ** The buffer *)

(** [src/include/tdep-x86_64/jmpbuf.h:27-27], [JB_SP] *)
Definition JB_SP : Z := 2.
(** [src/include/tdep-x86_64/jmpbuf.h:28-28], [JB_RP] *)
Definition JB_RP : Z := 0.
(** [src/include/tdep-x86_64/jmpbuf.h:30-30], [JB_MASK_SAVED] *)
Definition JB_MASK_SAVED : Z := 0.
(** [src/include/tdep-x86_64/jmpbuf.h:31-31], [JB_MASK] *)
Definition JB_MASK : Z := 9.

(** [&wp[i]] *)
Definition jb_slot (env i : Z) : Z := u64 (env + 8 * i).

(** [frame_address] and [return_address] are what the compiler's builtins give.
    [src/setjmp/setjmp.c:38-49], [setjmp] *)
Definition setjmp (frame_address return_address env : Z) : M ustate Z :=
  store_word (jb_slot env JB_SP) frame_address;;
  store_word (jb_slot env JB_RP) return_address;;
  mret 0.

(** [sigprocmask addr] stores the current mask at [addr].
    [src/setjmp/sigsetjmp.c:32-50], [sigsetjmp] *)
Definition sigsetjmp (sigprocmask : Z → M machine Z) (frame_address return_address env savemask : Z)
    : M ustate Z :=
  store_word (jb_slot env JB_SP) frame_address;;
  store_word (jb_slot env JB_RP) return_address;;
  store_word (jb_slot env JB_MASK_SAVED) (u64 savemask);;
  if negb (savemask =? 0) then
    r ← on_mach (sigprocmask (jb_slot env JB_MASK));
    if r <? 0 then halt Panic else mret 0
  else mret 0.

(** [src/setjmp/setjmp_i.h:105-109], [bsp_match] *)
Definition bsp_match (env : Z) : bool := true.

(** [src/setjmp/setjmp_i.h:111-116], [resume_restores_sigmask] *)
Definition resume_restores_sigmask (env : Z) : bool := false.

Section longjmp.
Context {P : Type} `{!PoolOps P, !LinkerOps P, !StringConstants}.
Context (fuel : nat) (ds : dyn_state).
(** [unw_getcontext], and the addresses of [_UI_longjmp_cont] and
    [_UI_siglongjmp_cont]. *)
Context (unw_getcontext : Z → M machine Z) (longjmp_cont siglongjmp_cont : Z).

(** A register set, or a call of [abort]. *)
Definition set_or_abort (reg v : Z) : M (step_state P) () :=
  r ← try (on_u (unw_set_reg reg v));
  match r with inl _ => mret tt | inr _ => halt Panic end.

(** The end of both jumps: the routine does not return when [unw_resume] does not.
    [src/setjmp/longjmp.c:83-95], [_longjmp] *)
Definition jump_to (cont env val : Z) : M (step_state P) () :=
  rp ← on_u (load_word (jb_slot env JB_RP));
  set_or_abort (UNW_REG_EH + 0) rp;;
  set_or_abort (UNW_REG_EH + 1) (u64 val);;
  set_or_abort UNW_REG_IP cont;;
  r ← unw_resume fuel ds;
  match r with Resumed => mret tt | NotResumed _ => halt Panic end.

(** [src/setjmp/siglongjmp.c:84-122], [siglongjmp] *)
Definition sigjump_to (env val : Z) : M (step_state P) () :=
  saved ← on_u (load_word (jb_slot env JB_MASK_SAVED));
  if negb (resume_restores_sigmask env) && negb (saved =? 0) then
    set_or_abort (UNW_REG_EH + 2) (jb_slot env JB_MASK);;
    jump_to siglongjmp_cont env val
  else jump_to longjmp_cont env val.

(** The walk both jumps make, which ends in [found] at the frame of the buffer; [n]
    bounds the frames.  [src/setjmp/longjmp.c:69-99], [_longjmp] *)
Fixpoint walk_to (n : nat) (env : Z) (found : M (step_state P) ()) : M (step_state P) () :=
  match n with
  | O => halt NoFuel
  | S n' =>
      sp ← try (on_u (unw_get_reg UNW_REG_SP));
      match sp with
      | inr _ => halt Panic
      | inl sp =>
          saved ← on_u (load_word (jb_slot env JB_SP));
          if (sp =? u64 (saved + 8)) && bsp_match env then found
          else
            r ← try (unw_step fuel ds);
            if match r with inl v => 0 <? v | inr _ => false end then walk_to n' env found
            else halt Panic
      end
  end.

(** The local cursor and context.  [src/setjmp/longjmp.c:60-67], [_longjmp] *)
Definition start_walk (junk : cursor) (uc : Z) : M (step_state P) () :=
  on_u (upd_cur (λ _, junk));;
  r ← on_u (on_mach (unw_getcontext uc));
  if r <? 0 then halt Panic
  else
    r ← try (on_u (unw_init_local uc));
    match r with inl _ => mret tt | inr _ => halt Panic end.

(** [src/setjmp/longjmp.c:57-100], [_longjmp] *)
Definition _longjmp (n : nat) (junk : cursor) (uc env val : Z) : M (step_state P) () :=
  start_walk junk uc;; walk_to n env (jump_to longjmp_cont env val).

(** [src/setjmp/siglongjmp.c:56-127], [siglongjmp] *)
Definition siglongjmp (n : nat) (junk : cursor) (uc env val : Z) : M (step_state P) () :=
  start_walk junk uc;; walk_to n env (sigjump_to env val).
End longjmp.

(** ** What a jump does *)

Section lands.
Context {P : Type} `{!PoolOps P, !LinkerOps P} {SC : StringConstants}.
Context (fuel : nat) (ds : dyn_state).
Implicit Types s : step_state P.

Definition cfa_of s : Z := s.(st_u).(cur).(dwarf).(cfa).
Definition mem_of s : memory := s.(st_u).(mach).(mem).

(** The stack pointer of the frame is the one the buffer asks for. *)
Definition frame_of (env : Z) s (saved : Z) : Prop :=
  load 8 (mem_of s) (jb_slot env JB_SP) = Ok saved ∧ cfa_of s = u64 (saved + 8).

(** The frames from the first state to the second are not the buffer's. *)
Inductive passes (env : Z) : step_state P → step_state P → Prop :=
  | passes_none s : passes env s s
  | passes_frame s saved v s1 s2 :
      load 8 (mem_of s) (jb_slot env JB_SP) = Ok saved → cfa_of s ≠ u64 (saved + 8) →
      unw_step fuel ds s = (Ok v, s1) → 0 < v → passes env s1 s2 → passes env s s2.

Lemma walk_to_eq n env found s :
  walk_to fuel ds (S n) env found s =
  match load 8 (mem_of s) (jb_slot env JB_SP) with
  | Ok saved =>
      if cfa_of s =? u64 (saved + 8) then found s
      else let '(r, s1) := try (unw_step fuel ds) s in
           match r with
           | Ok (inl v) => if 0 <? v then walk_to fuel ds n env found s1 else (Stop Panic, s1)
           | Ok (inr _) => (Stop Panic, s1)
           | Err e => (Err e, s1)
           | Stop t => (Stop t, s1)
           end
  | Err e => (Err e, s)
  | Stop t => (Stop t, s)
  end.
Proof.
  cbn [walk_to]. mred.
  assert (E : try (on_u (unw_get_reg UNW_REG_SP)) s = (Ok (inl (cfa_of s)), s)) by by destruct s.
  rewrite E. cbv beta iota.
  assert (El : on_u (load_word (jb_slot env JB_SP)) s = (load 8 (mem_of s) (jb_slot env JB_SP), s))
    by by destruct s.
  rewrite El. destruct (load 8 _ _) as [saved| |]; [|done..]. unfold bsp_match. rewrite andb_true_r.
  destruct (_ =? _); [done|]. cbv beta.
  destruct (try (unw_step fuel ds) s) as [[[v|e]|e|t] s1]; [by destruct (0 <? v)|done..].
Qed.

Lemma try_ok_inv {S A} (m : M S A) (x x' : S) a : try m x = (Ok (inl a), x') → m x = (Ok a, x').
Proof. unfold try. destruct (m x) as [[] ?]; by intros [= -> ->]. Qed.

Lemma walk_to_lands env found : ∀ n s s',
  walk_to fuel ds n env found s = (Ok tt, s') →
  ∃ s1 saved, passes env s s1 ∧ frame_of env s1 saved ∧ found s1 = (Ok tt, s').
Proof.
  induction n as [|n IH]; intros s s'; [done|]. rewrite walk_to_eq.
  destruct (load 8 _ _) as [saved| |] eqn:El; [|done..].
  destruct (Z.eqb_spec (cfa_of s) (u64 (saved + 8))) as [Ec|Ec].
  { intros E. exists s, saved. split; [constructor|by split]. }
  destruct (try (unw_step fuel ds) s) as [[[v|e]|e|t] s1] eqn:Es; try done. destruct (Z.ltb_spec 0 v); [|done].
  intros (s2 & saved' & Hp & Hf & E)%IH. exists s2, saved'. split; [|done].
  eapply passes_frame; [exact El|exact Ec|by apply try_ok_inv|done|exact Hp].
Qed.

(** A frame of the buffer that can be walked to is found, in so many turns. *)
Lemma walk_to_reaches env s s1 saved : passes env s s1 → frame_of env s1 saved →
  ∃ k, ∀ n found, (k < n)%nat → walk_to fuel ds n env found s = found s1.
Proof.
  induction 1 as [s|s x v s0 s1 El Hne Es Hv _ IH]; intros Hf.
  - exists 0%nat. intros [|n] found Hn; [lia|]. destruct Hf as [El Ec]. by rewrite walk_to_eq, El, Ec, Z.eqb_refl.
  - destruct (IH Hf) as [k Hk]. exists (S k). intros [|n] found Hn; [lia|].
    rewrite walk_to_eq, El, (proj2 (Z.eqb_neq _ _) Hne), (try_ok _ _ _ _ Es), (proj2 (Z.ltb_lt _ _) Hv).
    apply Hk. lia.
Qed.

(** A set register, and the registers set before. *)
Lemma set_or_abort_ok reg v s s' :
  0 ≤ reg < 17 → set_or_abort reg v s = (Ok tt, s') →
  ∃ u, reg_write s.(st_u) reg v = Ok u ∧ s' = StepState u s.(st_pool).
Proof.
  intros Hr. unfold set_or_abort, on_u. mred. unfold try.
  destruct (unw_set_reg reg v s.(st_u)) as [[[]|e|t] u] eqn:E; [|done..].
  intros [= <-]. exists u. split; [by apply unw_set_reg_write|done].
Qed.

(** The three registers of a jump, set one after the other: the cursor and the memory
    they leave. *)
Record jumps (u u3 : ustate) (rp v cont l : Z) : Prop := {
  jp_uc : u3.(cur).(uc) = u.(cur).(uc);
  jp_loc : u3.(cur).(dwarf).(loc) = u.(cur).(dwarf).(loc);
  jp_cfa : u3.(cur).(dwarf).(cfa) = u.(cur).(dwarf).(cfa);
  jp_rax : aread u3.(cur).(dwarf).(eh_args) 0 = Ok rp;
  jp_rdx : aread u3.(cur).(dwarf).(eh_args) 1 = Ok v;
  jp_rax_set : Z.testbit u3.(cur).(dwarf).(eh_valid_mask) 0 = true;
  jp_rdx_set : Z.testbit u3.(cur).(dwarf).(eh_valid_mask) 1 = true;
  jp_rip : aread u.(cur).(dwarf).(loc) RIP = Ok l;
  jp_store : store 8 u.(mach).(mem) l cont = Ok u3.(mach).(mem);
  jp_lga : lga_ok u.(mach) → lga_ok u3.(mach)
}.

Lemma jump_registers u u1 u2 u3 rp v cont :
  reg_write u RAX rp = Ok u1 → reg_write u1 RDX v = Ok u2 → reg_write u2 RIP cont = Ok u3 →
  ∃ l, jumps u u3 rp v cont l.
Proof.
  intros [(n1 & a1 & H1 & E1 & ->)|(? & _)]%reg_write_inv; [|done|unfold RAX; lia].
  intros [(n2 & a2 & H2 & E2 & ->)|(_ & ? & _)]%reg_write_inv; [|done|unfold RDX; lia].
  intros [(n3 & a3 & [[? _]|[? _]] & _)|(_ & _ & _ & l & m & Hl & _ & Hm & ->)]%reg_write_inv;
    [done..| |unfold RIP; lia].
  destruct H1 as [[_ ->]|[? _]]; [|done]. destruct H2 as [[? _]|[_ ->]]; [done|].
  apply aread_awrite in E1. pose proof (aread_awrite_ne _ _ _ 0 _ E2 ltac:(done)) as E0.
  apply aread_awrite in E2. cbn [on_dwarf set_cur cur set_dwarf dwarf set_eh_args set_eh_valid_mask eh_args] in *.
  exists l. split; try done; cbn -[Z.lor Z.testbit Z.shiftl aread]; try congruence.
  - rewrite !Z.lor_spec. change (Z.testbit (Z.shiftl 1 0) 0) with true. by rewrite orb_true_r.
  - rewrite !Z.lor_spec. change (Z.testbit (Z.shiftl 1 1) 1) with true. by rewrite orb_true_r.
Qed.

Lemma load_word_run a s v s0 :
  on_u (load_word a) s = (Ok v, s0) → load 8 (mem_of s) a = Ok v ∧ s0 = s.
Proof.
  unfold on_u, load_word, mem_of. destruct s as [u p]. cbn [st_u].
  destruct (load 8 _ _); [|done..]. by intros [= -> <-].
Qed.

Lemma jump_to_lands cont env val s s' :
  jump_to fuel ds cont env val s = (Ok tt, s') →
  ∃ u3 rp l, load 8 (mem_of s) (jb_slot env JB_RP) = Ok rp ∧ jumps s.(st_u) u3 rp (u64 val) cont l ∧
    unw_resume fuel ds (StepState u3 s.(st_pool)) = (Ok Resumed, s').
Proof.
  unfold jump_to. intros (rp & s0 & [El ->]%load_word_run & H)%bind_ok.
  apply bind_ok in H as ([] & s1 & H1 & H). apply bind_ok in H as ([] & s2 & H2 & H).
  apply bind_ok in H as ([] & s3 & H3 & H).
  apply set_or_abort_ok in H1 as (u1 & W1 & ->); [|decided].
  apply set_or_abort_ok in H2 as (u2 & W2 & ->); [|decided].
  apply set_or_abort_ok in H3 as (u3 & W3 & ->); [|decided].
  destruct (jump_registers _ _ _ _ _ _ _ W1 W2 W3) as [l Hj].
  apply bind_ok in H as (r & s4 & H4 & H). destruct r; [|done]. injection H as ->.
  by exists u3, rp, l.
Qed.

(** *** The frame jumped to *)

(** A frame whose save locations are words of the stack or the places of the context,
    with [v] for what its registers hold once [rp], [val] and [cont] are set; [l] is
    where its return address is. *)
Record ready (s : step_state P) (rp val cont l : Z) (v : Z → Z) : Prop := {
  rd_lga : lga_ok s.(st_u).(mach);
  rd_context : context_ok s.(st_u).(cur).(uc);
  rd_mapped : places_mapped (mem_of s) s.(st_u).(cur).(uc);
  rd_locs : Forall is_u64 s.(st_u).(cur).(dwarf).(loc);
  rd_own : ∀ i x, 0 ≤ i < 17 → aread s.(st_u).(cur).(dwarf).(loc) i = Ok x → x ≠ 0 →
    outside s.(st_u).(cur) x ∨ x = slot_of s.(st_u).(cur).(uc) i;
  rd_rip : aread s.(st_u).(cur).(dwarf).(loc) RIP = Ok l ∧ PAGE_START l ≠ 0;
  rd_alone : ∀ i x, 0 ≤ i < 16 → aread s.(st_u).(cur).(dwarf).(loc) i = Ok x → x ≠ 0 → disjoint_words x l;
  rd_set : v RAX = rp ∧ v RDX = u64 val ∧ v RIP = u64 cont;
  rd_values : ∀ i, 0 ≤ i < 16 → i ≠ RAX → i ≠ RDX →
    saved_value s.(st_u).(cur) (mem_of s) i (v i) ∨ unsaved s.(st_u).(cur) i ∧ v i = v (i - 1);
  rd_stack : stack_word (mem_of s) s.(st_u).(cur).(uc) (u64 (cfa_of s - 8))
}.

Lemma ready_apart s rp val cont l v u3 :
  ready s rp val cont l v → jumps s.(st_u) u3 rp (u64 val) cont l → context_apart u3.(cur) u3.(mach).(mem).
Proof.
  intros Hr Hj. destruct Hj. split.
  - rewrite jp_uc0. apply Hr.
  - intros i k Hi Hk. rewrite jp_uc0. apply elem_of_dom. rewrite (store_dom _ _ _ _ _ jp_store0).
    apply elem_of_dom. by apply (rd_mapped _ _ _ _ _ _ Hr).
  - rewrite jp_loc0. apply Hr.
  - intros i j x Hj Hi Hx Hx0. rewrite jp_loc0 in Hx. rewrite jp_uc0.
    destruct (rd_own _ _ _ _ _ _ Hr i x ltac:(lia) Hx Hx0) as [Ho| ->]; left; [apply Ho; lia|].
    apply slots_apart; [apply Hr|lia..].
Qed.

Lemma ready_gets s rp val cont l v u3 i :
  ready s rp val cont l v → jumps s.(st_u) u3 rp (u64 val) cont l → 0 ≤ i < 17 →
  gets u3.(cur) u3.(mach).(mem) v i.
Proof.
  intros Hr Hj Hi. destruct (rd_set _ _ _ _ _ _ Hr) as (V0 & V1 & V16).
  assert (Hno : ∀ j, 0 ≤ j < i → ¬ kept_in u3.(cur) i j).
  { intros j Hji (_ & _ & _ & E). rewrite (jp_loc _ _ _ _ _ _ Hj), (jp_uc _ _ _ _ _ _ Hj) in E.
    assert (H0 : slot_of s.(st_u).(cur).(uc) j ≠ 0) by (apply r_uc_addr_range; [apply Hr|lia]).
    destruct (rd_own _ _ _ _ _ _ Hr i _ Hi E H0) as [[_ Ho]|Heq].
    - by destruct (Ho j ltac:(lia) 0 0).
    - pose proof (slots_apart s.(st_u).(cur).(uc) j i (rd_context _ _ _ _ _ _ Hr) ltac:(lia) Hi ltac:(lia)) as Hd.
      rewrite <- Heq in Hd. by destruct (Hd 0 0). }
  destruct (rd_rip _ _ _ _ _ _ Hr) as [Hl Hpg].
  assert (Hlu : is_u64 l) by (eapply aread_Forall; [apply Hr|exact Hl]).
  unfold gets, gets_from. destruct (decide (i = RAX)) as [->|Hax].
  { left. exists rp. split; [|by left]. unfold saved_value. cbn [Z.eqb andb RAX RSP Pos.eqb].
    rewrite (jp_rax_set _ _ _ _ _ _ Hj). apply Hj. }
  destruct (decide (i = RDX)) as [->|Hdx].
  { left. exists (u64 val). split; [|by left]. unfold saved_value. cbn [Z.eqb andb RAX RDX RSP Pos.eqb].
    rewrite (jp_rdx_set _ _ _ _ _ _ Hj). apply Hj. }
  destruct (decide (i = RIP)) as [->|Hip].
  { left. exists (u64 cont). split; [|by left]. unfold saved_value. cbn [Z.eqb andb RAX RDX RSP RIP Pos.eqb].
    exists l. rewrite (jp_loc _ _ _ _ _ _ Hj). split; [done|]. split; [done|].
    eapply load_store_same; [apply Hj|done]. }
  unfold RIP in Hip. destruct (rd_values _ _ _ _ _ _ Hr i ltac:(lia) Hax Hdx) as [Hv|[Hu Hv]].
  - left. exists (v i). split; [|by left]. revert Hv. unfold saved_value.
    rewrite (proj2 (Z.eqb_neq i RAX)), (proj2 (Z.eqb_neq i RDX)) by done. cbn [andb].
    rewrite (jp_cfa _ _ _ _ _ _ Hj), (jp_loc _ _ _ _ _ _ Hj).
    destruct (i =? RSP); [done|]. intros (x & Hx & Hw). exists x. split; [done|].
    pose proof (word_at_loc _ _ _ Hw) as Hx0. destruct Hw as [Hp Hw]. split; [done|].
    rewrite (load_store_disjoint _ _ _ _ _ (jp_store _ _ _ _ _ _ Hj)); [done|done| |].
    + eapply aread_Forall; [apply Hr|exact Hx].
    + apply (rd_alone _ _ _ _ _ _ Hr i); [lia|done|done].
  - right. destruct Hu as (H1 & _ & _ & H4). split_and!; [|unfold RAX in Hax; lia|done].
    split_and!; [done|done|done|]. by rewrite (jp_loc _ _ _ _ _ _ Hj).
Qed.

(** *** The context that is resumed *)

#[local] Hint Resolve keeps_make_proc_info_rest : keeps.

Lemma keeps_local_resume : keeps same_rest_st (x86_64_local_resume (P := P) fuel ds).
Proof. unfold x86_64_local_resume, x86_64_sigreturn. keep. Qed.

Lemma unw_resume_context s s' v :
  lga_ok s.(st_u).(mach) → context_apart s.(st_u).(cur) (mem_of s) →
  (∀ i, 0 ≤ i < 17 → gets s.(st_u).(cur) (mem_of s) v i) →
  unw_resume fuel ds s = (Ok Resumed, s') →
  (∀ i, 0 ≤ i < 17 → load 8 (mem_of s') (slot_of s.(st_u).(cur).(uc) i) = Ok (u64 (v i))) ∧
  dom (mem_of s') = dom (mem_of s) ∧
  ∀ a, outside s.(st_u).(cur) a → load 8 (mem_of s') a = load 8 (mem_of s) a.
Proof.
  intros Hg Hca Hv. destruct (establish_spec s.(st_u) v Hg Hca Hv) as (u & E & [Hc _ Hd Hl _ Ho]).
  unfold unw_resume. intros (r & s1 & H1 & H)%bind_ok.
  assert (E1 : on_u establish_machine_state s = (Ok tt, StepState u s.(st_pool))) by (unfold on_u; by rewrite E).
  rewrite (try_ok _ _ _ _ E1) in H1. injection H1 as <- <-.
  pose proof (keeps_local_resume (StepState u s.(st_pool))) as (_ & _ & Hm). rewrite H in Hm.
  unfold mem_of in *. cbn [snd st_u] in Hm. by rewrite Hm.
Qed.

(** The processor when the context is resumed: [setcontext] is entered with its address. *)
Definition resuming (s : step_state P) (uc : Z) (c : cpu) : Prop :=
  c.(regs) RDI = uc ∧ c.(cpu_mem) = mem_of s.

(** From the resumption to the entry of [cont]. *)
Lemma reaches_cont s rp val cont l v u3 s' c :
  ready s rp val cont l v → jumps s.(st_u) u3 rp (u64 val) cont l →
  unw_resume fuel ds (StepState u3 s.(st_pool)) = (Ok Resumed, s') → resuming s' s.(st_u).(cur).(uc) c →
  ∃ c1, run_asm _Ux86_64_setcontext c = Ok c1 ∧ (∀ i, loaded i → c1.(regs) i = u64 (v i)) ∧
    (∀ k, 0 ≤ k < 8 → is_Some (c1.(cpu_mem) !! u64 (u64 (cfa_of s - 8) + k))) ∧
    v RSP = cfa_of s ∧
    ∀ a, outside s.(st_u).(cur) a → disjoint_words a l → disjoint_words a (u64 (cfa_of s - 8)) →
      load 8 c1.(cpu_mem) a = load 8 (mem_of s) a.
Proof.
  intros Hr Hj Hres [Hdi Hmem]. set (s3 := StepState u3 s.(st_pool)) in *.
  destruct (unw_resume_context s3 s' v) as (Hw & Hd & Ho); [|by eapply ready_apart| |done|].
  { by apply (jp_lga _ _ _ _ _ _ Hj), Hr. } { intros i Hi. by eapply ready_gets. }
  assert (Huc : s3.(st_u).(cur).(uc) = s.(st_u).(cur).(uc)) by apply Hj.
  assert (Hd' : dom c.(cpu_mem) = dom (mem_of s)).
  { rewrite Hmem, Hd. apply (store_dom _ _ _ _ _ (jp_store _ _ _ _ _ _ Hj)). }
  assert (Hsp : v RSP = cfa_of s).
  { destruct (rd_values _ _ _ _ _ _ Hr RSP) as [H|[[H _] _]]; [unfold RSP; lia|done|done|exact H|done]. }
  destruct (rd_stack _ _ _ _ _ _ Hr) as (Hau & Hmap & Hap).
  assert (Ecfa : u64 (u64 (v RSP) - 8) = u64 (cfa_of s - 8)).
  { rewrite Hsp. unfold Z.sub. by rewrite u64_add_l. }
  destruct (setcontext_run c s.(st_u).(cur).(uc) (λ i, u64 (v i))) as (c1 & E1 & Hin & Hst).
  - apply Hr.
  - exact Hdi.
  - intros i [Hi _]. rewrite Hmem, <- Huc. by apply Hw.
  - rewrite Ecfa. split_and!; [done| |done]. intros k Hk. apply elem_of_dom. rewrite Hd'. apply elem_of_dom. by apply Hmap.
  - rewrite Ecfa in Hst. exists c1. split_and!; [done|done| |done|].
    + intros k Hk. apply elem_of_dom. rewrite (store_dom _ _ _ _ _ Hst), Hd'. apply elem_of_dom. by apply Hmap.
    + intros a [Ha Hout] Hdl Hds. destruct (rd_rip _ _ _ _ _ _ Hr) as [Hl _].
      assert (Hlu : is_u64 l) by (eapply aread_Forall; [apply Hr|exact Hl]).
      rewrite (load_store_disjoint _ _ _ _ _ Hst) by done. rewrite Hmem, Ho.
      * apply (load_store_disjoint _ _ _ _ _ (jp_store _ _ _ _ _ _ Hj)); done.
      * split; [done|]. intros j Hji. rewrite Huc. by apply Hout.
Qed.

(** *** Where a jump goes *)

(** Execution is at [ra] in the frame with the stack pointer [sp], with the result and
    the frame's preserved registers. *)
Definition in_frame (ra result sp : Z) (v : Z → Z) (c : cpu) : Prop :=
  c.(regs) RIP = ra ∧ c.(regs) RAX = result ∧ c.(regs) RSP = sp ∧
  ∀ i, i ∈ [RBX; RBP; 12; 13; 14; 15] → c.(regs) i = u64 (v i).

(** The jump from [s1] through [_UI_longjmp_cont]. *)
Definition lands (env val cont : Z) s1 (saved : Z) s' : Prop :=
  ∃ rp, load 8 (mem_of s1) (jb_slot env JB_RP) = Ok rp ∧
    ∀ l v c, ready s1 rp val cont l v → resuming s' s1.(st_u).(cur).(uc) c →
      ∃ c1 c2, run_asm _Ux86_64_setcontext c = Ok c1 ∧ c1.(regs) RIP = u64 cont ∧
        run_asm _UI_longjmp_cont c1 = Ok c2 ∧ in_frame rp (u64 val) (u64 (saved + 8)) v c2.

(** The jump from [s1] through [_UI_siglongjmp_cont]: [t] is the word on top of the
    frame's stack. *)
Definition strays (env val sigcont : Z) s1 s' : Prop :=
  ∃ u rp, reg_write s1.(st_u) RCX (jb_slot env JB_MASK) = Ok u ∧
    load 8 u.(mach).(mem) (jb_slot env JB_RP) = Ok rp ∧
    ∀ l v c t, ready (StepState u s1.(st_pool)) rp val sigcont l v →
      outside u.(cur) (cfa_of s1) → disjoint_words (cfa_of s1) l → load 8 u.(mach).(mem) (cfa_of s1) = Ok t →
      resuming s' u.(cur).(uc) c →
      ∃ c1 c2, run_asm _Ux86_64_setcontext c = Ok c1 ∧ c1.(regs) RIP = u64 sigcont ∧
        c1.(regs) RAX = rp ∧ c1.(regs) RDX = u64 val ∧ c1.(regs) RCX = jb_slot env JB_MASK ∧
        run_asm _UI_siglongjmp_cont c1 = Ok c2 ∧ c2.(regs) RIP = t ∧ c2.(regs) RAX = rp.

Lemma loaded_regs i : i ∈ [RAX; RDX; RCX; RBX; RBP; RSP; 12; 13; 14; 15; RIP] → loaded i.
Proof.
  intros Hi. assert (H : Forall (λ i, 0 ≤ i < 17 ∧ i ≠ 10 ∧ i ≠ 11) [RAX; RDX; RCX; RBX; RBP; RSP; 12; 13; 14; 15; RIP])
    by decided. by apply (proj1 (Forall_forall _ _) H).
Qed.

Lemma next_word_apart a : disjoint_words a (u64 (a - 8)).
Proof. intros i j Hi Hj. rewrite u64_add_l. unfold u64. dlia. Qed.

Lemma jump_lands cont env val s1 saved s' :
  frame_of env s1 saved → jump_to fuel ds cont env val s1 = (Ok tt, s') → lands env val cont s1 saved s'.
Proof.
  intros [_ Hcfa] (u3 & rp & l' & Hrp & Hj & Hres)%jump_to_lands. exists rp. split; [done|].
  intros l v c Hr Hc. destruct (rd_rip _ _ _ _ _ _ Hr) as [Hl _].
  assert (l' = l) as -> by (pose proof (jp_rip _ _ _ _ _ _ Hj) as E; rewrite Hl in E; by injection E).
  destruct (reaches_cont s1 rp val cont l v u3 s' c Hr Hj Hres Hc) as (c1 & E1 & Hin & Hmap & Hsp & _).
  destruct (rd_set _ _ _ _ _ _ Hr) as (V0 & V1 & V16).
  assert (Hi : ∀ i, i ∈ [RAX; RDX; RCX; RBX; RBP; RSP; 12; 13; 14; 15; RIP] → c1.(regs) i = u64 (v i))
    by (intros i Hi; by apply Hin, loaded_regs).
  assert (H7 : c1.(regs) RSP = cfa_of s1) by (rewrite Hi, Hsp, Hcfa by decided; by rewrite u64_idemp).
  pose proof (load_range _ _ _ _ Hrp) as Hrr.
  assert (H0 : c1.(regs) RAX = rp) by (rewrite Hi, V0 by decided; by apply u64_small).
  destruct (longjmp_cont_run c1 (u64 (cfa_of s1 - 8))) as (c2 & E2 & R16 & R0 & Rest).
  { by rewrite H7. } { done. } { by rewrite H0. } { rewrite H7, Hcfa. apply u64_range. }
  exists c1, c2. split_and!; [done| |done|].
  - rewrite Hi, V16 by decided. by rewrite u64_idemp.
  - split_and!.
    + by rewrite R16.
    + rewrite R0, Hi, V1 by decided. by rewrite u64_idemp.
    + rewrite Rest, H7 by done. done.
    + intros i Hpi. assert (Hne : i ≠ RIP ∧ i ≠ RAX ∧ i ∈ [RAX; RDX; RCX; RBX; RBP; RSP; 12; 13; 14; 15; RIP]).
      { assert (H : Forall (λ i, i ≠ RIP ∧ i ≠ RAX ∧ i ∈ [RAX; RDX; RCX; RBX; RBP; RSP; 12; 13; 14; 15; RIP])
          [RBX; RBP; 12; 13; 14; 15]) by decided. by apply (proj1 (Forall_forall _ _) H). }
      destruct Hne as (? & ? & ?). by rewrite Rest, Hi.
Qed.

Lemma jump_strays sigcont env val s1 u saved s' :
  frame_of env s1 saved → reg_write s1.(st_u) RCX (jb_slot env JB_MASK) = Ok u →
  jump_to fuel ds sigcont env val (StepState u s1.(st_pool)) = (Ok tt, s') → strays env val sigcont s1 s'.
Proof.
  intros [_ Hcfa] Hw (u3 & rp & l' & Hrp & Hj & Hres)%jump_to_lands. exists u, rp. split_and!; [done|done|].
  intros l v c t Hr Hout Hdl Ht Hc. set (s := StepState u s1.(st_pool)) in *.
  destruct (rd_rip _ _ _ _ _ _ Hr) as [Hl _].
  assert (l' = l) as -> by (pose proof (jp_rip _ _ _ _ _ _ Hj) as E; rewrite Hl in E; by injection E).
  apply reg_write_inv in Hw as [(n & a & [[? _]|[? _]] & _)|(_ & _ & _ & x & m & Hx & Hx0 & Hm & Eu)]; [done..| |done].
  assert (Hs : cfa_of s = cfa_of s1) by (unfold cfa_of, s; cbn [st_u]; by rewrite Eu).
  destruct (reaches_cont s rp val sigcont l v u3 s' c Hr Hj Hres Hc) as (c1 & E1 & Hin & _ & Hsp & Hmem).
  rewrite Hs in *. destruct (rd_set _ _ _ _ _ _ Hr) as (V0 & V1 & V16).
  assert (Hi : ∀ i, i ∈ [RAX; RDX; RCX; RBX; RBP; RSP; 12; 13; 14; 15; RIP] → c1.(regs) i = u64 (v i))
    by (intros i Hi; by apply Hin, loaded_regs).
  assert (H7 : c1.(regs) RSP = cfa_of s1) by (rewrite Hi, Hsp, Hcfa by decided; by rewrite u64_idemp).
  pose proof (load_range _ _ _ _ Hrp) as Hrr.
  assert (V2 : v RCX = jb_slot env JB_MASK).
  { assert (Hloc : aread s.(st_u).(cur).(dwarf).(loc) RCX = Ok x) by (unfold s; cbn [st_u]; by rewrite Eu).
    assert (Hxu : is_u64 x) by (eapply aread_Forall; [apply (rd_locs _ _ _ _ _ _ Hr)|exact Hloc]).
    destruct (rd_values _ _ _ _ _ _ Hr RCX) as [H|[(_ & _ & _ & H) _]]; [unfold RCX; lia|done|done| |].
    - destruct H as (y & Hy & _ & Hv). rewrite Hloc in Hy. injection Hy as <-.
      unfold mem_of, s in Hv. cbn [st_u] in Hv. rewrite Eu in Hv. cbn [mach set_mach mem set_mem] in Hv.
      rewrite (load_store_same _ _ _ _ Hm Hxu) in Hv. injection Hv as <-. apply u64_idemp.
    - rewrite Hloc in H. by injection H. }
  destruct (siglongjmp_cont_run c1 t) as (c2 & E2 & R16 & _ & Rest).
  { rewrite H7, Hcfa. apply u64_range. }
  { rewrite H7, Hmem; [exact Ht|exact Hout|exact Hdl|apply next_word_apart]. }
  exists c1, c2. split_and!; try done.
  - rewrite Hi, V16 by decided. by rewrite u64_idemp.
  - rewrite Hi, V0 by decided. by apply u64_small.
  - rewrite Hi, V1 by decided. by rewrite u64_idemp.
  - rewrite Hi, V2 by decided. apply u64_idemp.
  - rewrite Rest, Hi, V0 by decided. by apply u64_small.
Qed.

(** The frame a walk finds is one. *)
Lemma passes_unique env s s1 s2 saved1 saved2 :
  passes env s s1 → frame_of env s1 saved1 → passes env s s2 → frame_of env s2 saved2 → s1 = s2.
Proof.
  induction 1 as [s|s x v s0 s1 Hl Hne E Hv _ IH]; intros [Hf1 Hc1] Hp [Hf2 Hc2].
  - destruct Hp as [s|s x v s0 s2 Hl Hne _ _ _]; [done|]. rewrite Hl in Hf1. injection Hf1 as ->. done.
  - destruct Hp as [s|s x' v' s0' s2 _ _ E' _ Hp].
    + rewrite Hl in Hf2. injection Hf2 as ->. done.
    + rewrite E in E'. injection E' as -> ->. by apply IH.
Qed.
End lands.

(** ** Properties *)

(** C39. A jump that is carried out is made from the youngest frame whose stack pointer
    is one word above the one in the buffer; where there is one it is found.  Through the context it leaves to resume,
    [setcontext] and [_UI_longjmp_cont], execution continues at the buffer's return
    address with the value as the result, with the frame's stack pointer and preserved
    registers.  A [siglongjmp] with a mask gives [_UI_siglongjmp_cont] the return address
    in RAX, the value in RDX and the mask's address in RCX, but that routine only returns:
    to whatever word is on top of the frame's stack. *)
Theorem longjmp_lands P `(HPO : PoolOps P) `(HLO : LinkerOps P) (SC : StringConstants) (fuel : nat)
    (ds : dyn_state) (getcontext : Z → M machine Z) (cont sigcont : Z) (n : nat) (junk : cursor)
    (uc env val : Z) (s s' : step_state P) :
  (_longjmp fuel ds getcontext cont n junk uc env val s = (Ok tt, s') →
   ∃ s0 s1 saved, start_walk getcontext junk uc s = (Ok tt, s0) ∧ passes fuel ds env s0 s1 ∧
     frame_of env s1 saved ∧ lands env val cont s1 saved s') ∧
  (siglongjmp fuel ds getcontext cont sigcont n junk uc env val s = (Ok tt, s') →
   ∃ s0 s1 saved mask, start_walk getcontext junk uc s = (Ok tt, s0) ∧ passes fuel ds env s0 s1 ∧
     frame_of env s1 saved ∧ load 8 (mem_of s1) (jb_slot env JB_MASK_SAVED) = Ok mask ∧
     if mask =? 0 then lands env val cont s1 saved s' else strays env val sigcont s1 s') ∧
  ∀ s0 s1 saved, start_walk getcontext junk uc s = (Ok tt, s0) → passes fuel ds env s0 s1 →
    frame_of env s1 saved → ∃ k, ∀ n', (k < n')%nat →
    _longjmp fuel ds getcontext cont n' junk uc env val s = jump_to fuel ds cont env val s1 ∧
    siglongjmp fuel ds getcontext cont sigcont n' junk uc env val s = sigjump_to fuel ds cont sigcont env val s1.
Proof.
  split_and!.
  - intros ([] & s0 & E0 & H)%bind_ok. apply walk_to_lands in H as (s1 & saved & Hp & Hf & H).
    exists s0, s1, saved. split_and!; [done..|]. by eapply jump_lands.
  - intros ([] & s0 & E0 & H)%bind_ok. apply walk_to_lands in H as (s1 & saved & Hp & Hf & H).
    unfold sigjump_to in H. apply bind_ok in H as (mask & s1' & [El ->]%load_word_run & H).
    exists s0, s1, saved, mask. split_and!; [done..|]. revert H.
    destruct (Z.eqb_spec mask 0); cbn [negb resume_restores_sigmask andb].
    + by apply jump_lands.
    + intros ([] & s2 & E2 & H)%bind_ok. apply set_or_abort_ok in E2 as (u & W & ->); [|decided].
      by eapply jump_strays.
  - intros s0 s1 saved E Hp Hf. destruct (walk_to_reaches fuel ds env s0 s1 saved Hp Hf) as [k Hk]. exists k.
    intros n' Hn. unfold _longjmp, siglongjmp. mred. rewrite E. split; by apply Hk.
Qed.

(** C40. A buffer filled in by [setjmp] of this library is never found again: it holds
    the address of [setjmp]'s own frame, which no aligned frame has its stack pointer
    one word above; the jump walks to the end of the stack and panics. *)
Theorem longjmp_misses_setjmp P `(HPO : PoolOps P) `(HLO : LinkerOps P) (SC : StringConstants)
    (fuel : nat) (ds : dyn_state) (env c ra : Z) (u u' : ustate) (s s' : step_state P)
    (frames : list (Z * Z)) (n : nat) (found : M (step_state P) ()) :
  is_u64 env → env + 24 < 18446744073709551616 → c mod 16 = 0 →
  setjmp (u64 (c - 16)) ra env u = (Ok 0, u') → mem_of s = u'.(mach).(mem) →
  stack_walk fuel ds s frames s' → (length frames < n)%nat →
  cfa_of s mod 16 = 0 → Forall (λ f, f.2 mod 16 = 0) frames →
  walk_to fuel ds n env found s = (Stop Panic, s').
Proof.
  intros Hu He Hc Hs Hm Hw Hn Ha Hf.
  assert (Hl : load 8 (mem_of s) (jb_slot env JB_SP) = Ok (u64 (c - 16))).
  { rewrite Hm. revert Hs. unfold setjmp, store_word. mred.
    destruct (store 8 _ (jb_slot env JB_SP) _) as [m1| |] eqn:E1; [|done..]. mred.
    cbn [mach set_mach mem set_mem].
    destruct (store 8 m1 _ _) as [m2| |] eqn:E2; [|done..]. intros [= <-]. cbn [mach set_mach mem set_mem].
    assert (Hsp : jb_slot env JB_SP = env + 16 ∧ jb_slot env JB_RP = env).
    { unfold jb_slot, JB_SP, JB_RP, is_u64 in *. rewrite !u64_small by (unfold is_u64; lia). lia. }
    destruct Hsp as [Es Er]. rewrite Es in *. rewrite Er in *.
    rewrite (load_store_disjoint _ _ _ _ _ E2), (load_store_same _ _ _ _ E1).
    - by rewrite u64_idemp.
    - unfold is_u64 in *. lia.
    - done.
    - unfold is_u64 in *. lia.
    - intros i j Hi Hj. unfold is_u64 in *. rewrite !u64_small by (unfold is_u64; lia). lia. }
  assert (Hne : ∀ x, x mod 16 = 0 → x ≠ u64 (u64 (c - 16) + 8)).
  { intros x Hx ->. unfold u64 in Hx. dlia. }
  revert n Hn Hl Ha Hf. clear Hm Hs. induction Hw as [s r s' E Hr|s v s1 frames s' E Hv Hw IH];
    intros [|n] Hn Hl Ha Hf; try (simpl in Hn; lia); rewrite walk_to_eq, Hl, (proj2 (Z.eqb_neq _ _)) by by apply Hne.
  - rewrite E. destruct r as [v|]; [|done]. by rewrite (proj2 (Z.ltb_ge _ _)).
  - rewrite (try_ok _ _ _ _ E), (proj2 (Z.ltb_lt _ _)) by done.
    apply Forall_cons in Hf as [Hf1 Hf]. apply IH; [simpl in Hn; lia| |exact Hf1|exact Hf].
    pose proof (keeps_unw_step_rest fuel ds s) as (_ & _ & Hm). rewrite E in Hm. cbn [snd] in Hm.
    unfold mem_of in *. by rewrite Hm.
Qed.

(** [sigsetjmp] stores the flag for the mask where the return address is: the jump
    that follows would go to the flag. *)
Lemma sigsetjmp_loses_return_address (sigprocmask : Z → M machine Z) (fa ra env savemask : Z) (u u' : ustate) :
  is_u64 env →
  (∀ a mc r mc', sigprocmask a mc = (r, mc') → load 8 mc'.(mem) (jb_slot env JB_RP) = load 8 mc.(mem) (jb_slot env JB_RP)) →
  sigsetjmp sigprocmask fa ra env savemask u = (Ok 0, u') →
  load 8 u'.(mach).(mem) (jb_slot env JB_RP) = Ok (u64 savemask).
Proof.
  intros Hu Hp. unfold sigsetjmp, store_word. mred.
  destruct (store 8 _ (jb_slot env JB_SP) _) as [m1| |]; [|done..]. mred. cbn [mach set_mach mem set_mem].
  destruct (store 8 m1 _ _) as [m2| |]; [|done..]. mred. cbn [mach set_mach mem set_mem].
  destruct (store 8 m2 _ _) as [m3| |] eqn:E3; [|done..]. mred.
  assert (Hl : load 8 m3 (jb_slot env JB_RP) = Ok (u64 savemask)).
  { change (jb_slot env JB_RP) with (jb_slot env JB_MASK_SAVED).
    rewrite (load_store_same _ _ _ _ E3) by apply u64_range. by rewrite u64_idemp. }
  destruct (savemask =? 0); cbn [negb]; [by intros [= <-]|].
  unfold on_mach. mred. cbn [mach set_mach mem set_mem].
  destruct (sigprocmask _ _) as [[r|e|t] mc] eqn:E; [|done..]. apply Hp in E. cbn [mem] in E.
  destruct (r <? 0); [done|]. intros [= <-]. cbn [mach set_mach]. by rewrite E.
Qed.


(** ** Examples *)

(** A buffer at 0x20000 for the frame whose stack pointer is 0x8008, with 0x5678 on top
    of its stack. *)
Definition example_jump : step_state bump :=
  let m := put_bytes (put_bytes (put_bytes example_raise_mem 0x20000 (le_bytes 8 0x4321))
    0x20010 (le_bytes 8 0x8000)) 0x8008 (le_bytes 8 0x5678) in
  StepState (UState (Machine m [0; 0; 0; 0] 0) (zero_cursor 0)) (Bump 0x9000).

(** The cursor at the start of a walk is ready: every register is in the context. *)
Lemma example_ready (s : step_state bump) rp val cont v :
  let u := s.(st_u) in
  u.(cur).(uc) = example_context → u.(cur).(dwarf).(loc) = init_locs example_context →
  lga_ok u.(mach) → Forall is_u64 (init_locs example_context) →
  Forall (λ i, Forall (λ k, is_Some (mem_of s !! u64 (slot_of example_context (Z.of_nat i) + Z.of_nat k)))
    (seq 0 8)) (seq 0 17) →
  v RAX = rp → v RDX = u64 val → v RIP = u64 cont → v RSP = cfa_of s →
  Forall (λ i, word_at (mem_of s) (slot_of example_context i) (v i)) [2; 3; 4; 5; 6; 8; 9; 10; 11; 12; 13; 14; 15] →
  Forall (λ k, is_Some (mem_of s !! u64 (u64 (cfa_of s - 8) + k))) (seqZ 0 8) → u64 (cfa_of s - 8) < 0x10000 - 8 →
  ready s rp val cont (slot_of example_context RIP) v.
Proof.
  intros u Huc Hloc Hg Hlu Hm V0 V1 V16 V7 Hv Hk Hlow.
  assert (Hx : ∀ i x, 0 ≤ i < 17 → aread u.(cur).(dwarf).(loc) i = Ok x → x = slot_of example_context i).
  { intros i x Hi E. rewrite Hloc, init_locs_read in E by done. by apply Ok_inj in E. }
  split; fold u; rewrite ?Huc.
  - done.
  - apply example_context_ok.
  - intros i k Hi Hk'. rewrite <- (Z2Nat.id i), <- (Z2Nat.id k) by lia.
    rewrite Forall_forall in Hm. specialize (Hm (Z.to_nat i) ltac:(apply elem_of_seq; lia)).
    rewrite Forall_forall in Hm. apply Hm, elem_of_seq. lia.
  - by rewrite Hloc.
  - intros i x Hi E _. right. by apply Hx.
  - rewrite Hloc. split; [by apply init_locs_read|discriminate].
  - intros i x Hi E _. rewrite (Hx i x ltac:(lia) E). apply slots_apart; [apply example_context_ok|lia|unfold RIP; lia|unfold RIP; lia].
  - done.
  - intros i Hi H0 H1. left. unfold saved_value. fold u.
    rewrite (proj2 (Z.eqb_neq i RAX)), (proj2 (Z.eqb_neq i RDX)) by done. cbn [andb].
    destruct (Z.eqb_spec i RSP) as [->|H7]; [exact V7|].
    exists (slot_of example_context i). split; [rewrite Hloc; apply init_locs_read; lia|].
    apply (proj1 (Forall_forall _ _) Hv). unfold RAX, RDX, RSP in *.
    assert (Hi' : i = 2 ∨ i = 3 ∨ i = 4 ∨ i = 5 ∨ i = 6 ∨ i = 8 ∨ i = 9 ∨ i = 10 ∨ i = 11 ∨ i = 12 ∨ i = 13 ∨
      i = 14 ∨ i = 15) by lia. destruct_or! Hi'; subst i; decided.
  - split_and!; [apply u64_range| |].
    + intros k Hk'. apply (proj1 (Forall_forall _ _) Hk), elem_of_seqZ. lia.
    + intros j Hj. apply example_below; [done|apply u64_range|done].
Qed.

Definition example_values (cont rcx i : Z) : Z :=
  if i =? RAX then 0x4321 else if i =? RDX then 42 else if i =? RCX then rcx else if i =? RIP then cont
  else if i =? RBP then 0x8010 else if i =? RSP then 0x8008 else 0.

Definition example_walk_start (s : step_state bump) : step_state bump :=
  (@start_walk bump (λ _, mret 0) (zero_cursor 0) example_context s).2.

Definition example_mask_set : ustate :=
  match reg_write (example_walk_start example_jump).(st_u) RCX (jb_slot 0x20000 JB_MASK) with
  | Ok u => u
  | _ => (example_walk_start example_jump).(st_u)
  end.

Lemma example_frame_found s0 s1 saved :
  start_walk (λ _, mret 0) (zero_cursor 0) example_context example_jump = (Ok tt, s0) →
  @passes bump bump_ops example_linker example_strings 10 no_descriptors 0x20000 s0 s1 →
  frame_of 0x20000 s1 saved → s1 = example_walk_start example_jump ∧ saved = 0x8000.
Proof.
  intros E0 Hp Hf.
  assert (Hf' : frame_of 0x20000 (example_walk_start example_jump) 0x8000) by (split; vm_compute; reflexivity).
  assert (E0' : s0 = example_walk_start example_jump) by (unfold example_walk_start; by rewrite E0). subst s0.
  assert (E1 : s1 = example_walk_start example_jump)
    by (eapply passes_unique; [exact Hp|exact Hf|apply passes_none|exact Hf']).
  split; [exact E1|]. subst s1. destruct Hf as [Hs _], Hf' as [Hs' _]. rewrite Hs in Hs'. by apply Ok_inj in Hs'.
Qed.

(** A jump to the buffer continues at 0x4321 with the result 42; one that is to restore
    the mask, at 0x5678, the word on top of the stack. *)
Lemma longjmp_lands_witness :
  (let run := @_longjmp bump _ example_linker example_strings 10 no_descriptors (λ _, mret 0) 0x7000 5
     (zero_cursor 0) example_context 0x20000 42 example_jump in
   let c := Cpu (λ _, example_context) (mem_of run.2) in
   run.1 = Ok tt ∧ ∃ c1 c2, run_asm _Ux86_64_setcontext c = Ok c1 ∧ run_asm _UI_longjmp_cont c1 = Ok c2 ∧
     c2.(regs) RIP = 0x4321 ∧ c2.(regs) RAX = 42 ∧ c2.(regs) RSP = 0x8008 ∧ c2.(regs) RBP = 0x8010) ∧
  (let run := @siglongjmp bump _ example_linker example_strings 10 no_descriptors (λ _, mret 0) 0x7000 0x7100 5
     (zero_cursor 0) example_context 0x20000 42 example_jump in
   let c := Cpu (λ _, example_context) (mem_of run.2) in
   run.1 = Ok tt ∧ ∃ c1 c2, run_asm _Ux86_64_setcontext c = Ok c1 ∧ run_asm _UI_siglongjmp_cont c1 = Ok c2 ∧
     c1.(regs) RCX = 0x20048 ∧ c2.(regs) RIP = 0x5678).
Proof.
  pose proof (λ s', longjmp_lands bump bump_ops example_linker example_strings 10 no_descriptors (λ _, mret 0)
    0x7000 0x7100 5 (zero_cursor 0) example_context 0x20000 42 example_jump s') as Hthm.
  pose proof example_frame_found as Hu.
  split.
  - intros run c. assert (E : run.1 = Ok tt) by (vm_compute; reflexivity). split; [exact E|].
    apply run_split in E. destruct (proj1 (Hthm _) E) as (s0 & s1 & saved & E0 & Hp & Hf & rp & Hrp & Hl).
    destruct (Hu s0 s1 saved E0 Hp Hf) as [-> ->].
    assert (Erp : load 8 (mem_of (example_walk_start example_jump)) (jb_slot 0x20000 JB_RP) = Ok 0x4321)
      by (vm_compute; reflexivity). rewrite Erp in Hrp. apply Ok_inj in Hrp as <-.
    destruct (Hl (slot_of example_context RIP) (example_values 0x7000 0) c) as (c1 & c2 & R1 & _ & R2 & P1 & P2 & P3 & P4).
    + apply example_ready; first [reflexivity|decided|vm_compute; reflexivity].
    + split; [vm_compute; reflexivity|reflexivity].
    + exists c1, c2. split; [exact R1|]. split; [exact R2|]. split; [exact P1|]. split; [exact P2|].
      split; [rewrite P3; reflexivity|]. rewrite (P4 RBP ltac:(decided)). reflexivity.
  - intros run c. assert (E : run.1 = Ok tt) by (vm_compute; reflexivity). split; [exact E|].
    apply run_split in E. destruct (proj1 (proj2 (Hthm _)) E) as (s0 & s1 & saved & mask & E0 & Hp & Hf & Hmask & Hl).
    destruct (Hu s0 s1 saved E0 Hp Hf) as [-> ->].
    assert (Em : load 8 (mem_of (example_walk_start example_jump)) (jb_slot 0x20000 JB_MASK_SAVED) = Ok 0x4321)
      by (vm_compute; reflexivity). rewrite Em in Hmask. apply Ok_inj in Hmask as <-.
    change (0x4321 =? 0) with false in Hl. cbv beta iota in Hl. destruct Hl as (u & rp & Hw & Hrp & Hl).
    assert (Ew : u = example_mask_set) by (unfold example_mask_set; by rewrite Hw). subst u.
    assert (Erp : load 8 example_mask_set.(mach).(mem) (jb_slot 0x20000 JB_RP) = Ok 0x4321)
      by (vm_compute; reflexivity). rewrite Erp in Hrp. apply Ok_inj in Hrp as <-.
    destruct (Hl (slot_of example_context RIP) (example_values 0x7100 0x20048) c 0x5678)
      as (c1 & c2 & R1 & _ & _ & _ & P2 & R2 & P1 & _).
    + apply example_ready; first [reflexivity|decided|vm_compute; reflexivity].
    + replace (cfa_of (example_walk_start example_jump)) with 0x8008 by (vm_compute; reflexivity).
      split; [split; [discriminate|reflexivity]|]. intros j Hj. apply example_below; [reflexivity|split; [discriminate|reflexivity]|exact Hj].
    + replace (cfa_of (example_walk_start example_jump)) with 0x8008 by (vm_compute; reflexivity).
      apply example_below; [reflexivity|split; [discriminate|reflexivity]|]. split; [discriminate|reflexivity].
    + vm_compute. reflexivity.
    + split; [vm_compute; reflexivity|reflexivity].
    + exists c1, c2. split; [exact R1|]. split; [exact R2|]. split; [exact P2|exact P1].
Defined.

(** A stack whose frames are aligned; the buffer is filled in for the caller, whose
    stack pointer is 0x8040. *)
Definition example_aligned : ustate :=
  let m := put_bytes (put_bytes example_module_mem 0x8008 ([0x8010; 0x8050; 0; 0; 0; 0; 0; 0; 0; 0; 0; 0] ≫= le_bytes 8))
             0x20000 (replicate 24 0) in
  on_dwarf (λ d, set_ip 0x1130 (set_cfa 0x8000 (set_loc (<[6%nat := 0x8008]> all_unsaved) d)))
    (UState (Machine m [0; 0; 0; 0] 0) (zero_cursor 0)).

Definition example_filled : ustate := (setjmp (u64 (0x8040 - 16)) 0x4321 0x20000 example_aligned).2.

Lemma example_aligned_walk : ∃ s',
  @stack_walk bump _ example_linker example_strings 10 no_descriptors (StepState example_filled (Bump 0x9000))
    [(0, 0x8040); (0, 0xfffffffffffffff0)] s'.
Proof.
  set (step := @unw_step bump _ example_linker example_strings 10 no_descriptors).
  set (s := StepState example_filled _).
  assert (H : let s1 := (step s).2 in let s2 := (step s1).2 in
    ((step s).1, (dwarf_of s1).(ip), (dwarf_of s1).(cfa),
     (step s1).1, (dwarf_of s2).(ip), (dwarf_of s2).(cfa), (try step s2).1)
    = (Ok 1, 0, 0x8040, Ok 1, 0, 0xfffffffffffffff0, Ok (inl 0))) by (vm_compute; reflexivity).
  cbv zeta in H.
  destruct (step s) as [r1 s1] eqn:E1. cbn [fst snd] in H.
  destruct (step s1) as [r2 s2] eqn:E2. cbn [fst snd] in H.
  destruct (try step s2) as [r3 s3] eqn:E3. cbn [fst] in H. exists s3.
  injection H as -> Hi1 Hc1 -> Hi2 Hc2 ->.
  replace [(0, 0x8040); (0, 0xfffffffffffffff0)] with
    [((dwarf_of s1).(ip), (dwarf_of s1).(cfa)); ((dwarf_of s2).(ip), (dwarf_of s2).(cfa))]
    by (by rewrite Hi1, Hc1, Hi2, Hc2).
  eapply walk_frame; [exact E1|reflexivity|].
  eapply walk_frame; [exact E2|reflexivity|].
  eapply walk_end; [exact E3|]. apply Z.le_refl.
Qed.

Lemma longjmp_misses_setjmp_witness : ∃ s',
  setjmp (u64 (0x8040 - 16)) 0x4321 0x20000 example_aligned = (Ok 0, example_filled) ∧
  @walk_to bump _ example_linker example_strings 10 no_descriptors 3 0x20000 (mret tt)
    (StepState example_filled (Bump 0x9000)) = (Stop Panic, s').
Proof.
  destruct example_aligned_walk as [s' Hw]. exists s'.
  assert (E : setjmp (u64 (0x8040 - 16)) 0x4321 0x20000 example_aligned = (Ok 0, example_filled))
    by (apply run_split; vm_compute; reflexivity).
  split; [exact E|].
  apply (longjmp_misses_setjmp bump bump_ops example_linker example_strings 10 no_descriptors 0x20000 0x8040
    0x4321 example_aligned example_filled _ s' [(0, 0x8040); (0, 0xfffffffffffffff0)] 3 (mret tt)); try exact E; try exact Hw; try reflexivity.
  - split; [discriminate|reflexivity].
  - simpl. lia.
  - repeat constructor.
Defined.
